(* ===== verification/_CoqProject ===== *)
-Q . S2P
Prelude.v
Float.v
Net.v
Kernel.v
Base64.v
Range.v
Grant.v
Sql.v
EventStore.v
EventLog.v
EventReplay.v
Worker.v
WorkerApi.v
Closing.v
EventWorker.v
Pipeline.v
Coordinator.v
Canvas.v
CanvasHistory.v
CatalogKernel.v
Catalog.v
CatalogSpec.v
CatalogRefine.v
CatalogOpen.v
CatalogWorker.v
StoreCalls.v
Http.v
HttpRequest.v
Lifecycle.v
DeliveryConfig.v
Delivery.v
Config.v
Dependencies.v
Listener.v
Client.v
AssetListener.v
AssetStore.v
AssetSafety.v
AssetRecovery.v
AssetWorker.v
Serving.v
Ports.v
LocalAssets.v
Bootstrap.v
Main.v
BootstrapDemo.v
EndToEnd.v
Wire.v
Restart.v
Durability.v
TestKit.v
EventStoreTests.v
AssetStoreTests.v
CatalogTests.v
ServerTests.v
CanvasTests.v
BootstrapTests.v
