(* ===== verification/Prelude.v ===== *)
(** * OrbitRelay Server: verification library

    ** The program

    OrbitRelay Server is a Rust workspace of four crates under
    [src/crates/]:

    - [orbitrelay-storage-sqlite]: a durable EventStore.  Clients send commands
      over a bounded channel to one worker thread that owns the SQLite
      connection; the store appends events idempotently, answers bounded pages
      with opaque cursors and checkpoints, and refuses to open a database that
      is not intact.
    - [orbitrelay-asset-local-store]: a durable store of immutable Assets.
      Bytes are staged, hashed, renamed into place and only then published in
      a SQLite table; opening repairs what an interrupted ingest has left.
    - [orbitrelay-catalog-sqlite]: Documents, pages, Canvases and bootstrap
      bindings in SQLite, published atomically and immutable, behind a worker
      thread of the same kind.
    - [orbitrelay-server]: the process.  It loads its configuration from the
      environment, composes the stores with the adapters that the kernel calls
      (event pipeline, Canvas catalog and state reader, execution coordinator,
      Canvas history Query), accepts WebSocket connections, delivers Assets over
      HTTP under short-lived Grants, and runs the lifecycle.

    Everything else the program is made of (the [orbitrelay-core], [-protocol],
    [-storage], [-asset], [-canvas], [-document], [-query] crates, SQLite,
    Tokio, SHA-256) is outside the repository and is a parameter here.

    ** Files, and the code they model

    Shared:
    - [Prelude.v] (this file): [Result] and its monad, machine integers, string
      operations of [core::str], list and counting lemmas, tactics.  The hint
      databases are next to the lemmas they hold ([kernel] in [Kernel.v],
      [steady] and [consumes] in [Sql.v], [keeps] in [AssetSafety.v], [limits] in [AssetListener.v]).
    - [Float.v], [Net.v]: what the repository uses of [f64] and [std::net].
    - [Kernel.v], [CatalogKernel.v]: the kernel crates as classes ([Kernel],
      [AssetKernel], [DocumentKernel], [CatalogKernel]), their laws, and the
      concrete instances of the modules [Demo] and [CatalogDemo], which satisfy
      the laws and on which every witness is evaluated.
    - [Sql.v]: what the stores use of [rusqlite]: a connection with a committed
      and a working copy, transactions that roll back, a plan of faults; and
      the weakest-precondition lemmas that the proofs about the stores use.
    - [Worker.v]: [WorkerHandle], [dispatch*], [close*], [run_worker] of the
      stores as a state machine over interleavings; [EventWorker.v],
      [AssetWorker.v] and [CatalogWorker.v] instantiate it with the commands of
      the three stores.  [Closing.v]: any number of tasks in [close], with the
      join of the thread and the drop of the handle.  [WorkerApi.v]: typed calls
      over the queue, as the interface [StoreApi] with its laws.

    The stores:
    - [EventStore.v]: [orbitrelay-storage-sqlite/src/lib.rs], the functions the
      worker runs and the opening sequence; [EventLog.v]: the contract
      ([spec_append], [spec_get], [spec_query] on a list of events) and the
      refinement lemmas; [EventReplay.v]: the interface [EventStorePort] with
      its laws, discharged by the SQLite store, and paging along cursors.
    - [AssetStore.v]: [orbitrelay-asset-local-store/src/lib.rs];
      [AssetSafety.v]: its invariant and the safety of ingest;
      [AssetRecovery.v]: reading and recovery.
    - [Catalog.v]: [orbitrelay-catalog-sqlite/src/lib.rs], the tables with their
      keys, the commands and the opening sequence; [CatalogSpec.v]: the contract
      ([Catalog], a list of Documents, Canvases and bindings), its rows and the
      reads; [CatalogRefine.v]: the publications; [CatalogOpen.v]: opening.
    - [StoreCalls.v]: the public methods of the EventStore and the Catalog as
      instances of [StoreApi]; [Durability.v]: the same stores over the end of
      a process and the opening by the next.

    The server ([orbitrelay-server/src/]):
    - [Config.v]: [config.rs].  [DeliveryConfig.v]: [asset_delivery/config.rs].
    - [Base64.v], [Grant.v]: [asset_delivery/grant.rs].  [Range.v]: [range.rs].
      [Http.v] and [AssetListener.v]: [http.rs], one connection and the
      listener; [HttpRequest.v]: requests as a client writes them, against
      [read_request].  [Delivery.v]: [access.rs] and [mod.rs].  [Serving.v]: the Asset
      store behind the HTTP stream.
    - [Pipeline.v]: [pipeline.rs].  [Coordinator.v] and [Canvas.v]: [canvas.rs].
      [CanvasHistory.v]: [canvas_history.rs].  These use the EventStore through
      [EventStorePort] only.  [Restart.v]: the history Query over a restart.
      [Wire.v]: the JSON shapes that the derivations of [canvas_history.rs] and
      [access.rs] give their messages, and a client that reads a history through
      them.
    - [Lifecycle.v]: [lifecycle.rs], [health.rs], [error.rs], [context.rs],
      [application.rs].
    - [Dependencies.v]: [dependencies.rs], [development.rs], [adapters.rs].
      [Listener.v]: [listener.rs].
    - [Ports.v]: the stores as the bootstrap sees them, as the classes
      [CatalogStore], [AssetPort] and [AssetOpening] with their laws, discharged
      there by the SQLite Catalog and in [LocalAssets.v] by the Asset store.
      [Bootstrap.v]: [bootstrap.rs], proved against these interfaces.
      [Main.v]: [main.rs].  [BootstrapDemo.v]: a concrete composition of the
      modelled stores, started, restarted and run to its end.  [EndToEnd.v]:
      from the bootstrap over the access Query to the bytes of a download.
    - [Client.v]: [examples/ws_client.rs], the command line client.

    The unit tests of the sources, statement by statement, as computations over
    the model that are evaluated to a pass ([TestKit.v] has the assertions and the
    calls over a worker):
    - [EventStoreTests.v], [AssetStoreTests.v], [CatalogTests.v]: the tests of the
      three stores.
    - [ServerTests.v]: ranges, Grants, access descriptors, configurations,
      lifecycle, errors and pipeline.  [CanvasTests.v]: the coordinator, the state
      reader and the history Query.  [BootstrapTests.v]: the bootstrap.

    A struct is a [Record], an enum an [Inductive], a [HashMap] a [gmap]; an
    integer is a [Z] with the checked, saturating or wrapping operation that
    the source uses.  A method that changes state returns the new state also on
    its error paths.

    ** What the theorems show

    - EventStore (C1, C2, C9, C11, C14): every command follows the contract of
      an append-only log or reports an error and changes nothing, for every plan
      of failing SQLite calls; opening succeeds exactly on an intact database
      when none of its calls fails;
      what [append] has returned is what every later [get] reads, in this
      process and, after a stop at any point, in the next.
    - Catalog (C3, C12, C13, C15, C32, C33): publications follow their contract,
      are permanent under concurrency, visible to every later call and survive
      the process; opening is an
      integrity gate after which every read answers, and it reopens what the adapter has written exactly when
      the bindings are coherent.
    - Asset store (C6, C19, C25): a sound store stays sound when any call fails
      or the process stops at any point, also before it can answer; recovery keeps
      the published Assets, and the new one with all of its bytes or not at all;
      what was ingested is served exactly.
    - Concurrency (C10, C20, C21, C31): commands run in the order in which they
      were accepted and every client gets the answer of its own command; the
      [close] that shuts a store down returns, and only after the drain; the
      coordinator gives mutual exclusion per scope.
    - Adapters (C4, C5, C18, C29, C30, C36): paging through Canvas history with the
      whole handler, also over JSON messages, and rebuilding a Stroke, while other
      tasks append, terminates and sees exactly the right events, unless a page
      does not fit the message limit; after a restart it sees what could be read
      before and what was appended since; messages are read back as they were
      written, and requests are accepted only in their declared shape; a batch is
      published in order, and only when it is stored.
    - Asset delivery (C7, C8, C23, C24, C35, C38, C39): nothing is
      disclosed without a live Grant for that very Asset, the answers to other
      requests do not depend on the Assets at all; tokens are accepted
      exactly when they were issued and have not expired; resolved access can be
      downloaded until its expiry whatever is served in between, for every Document of a composed server and however the
      network splits the request; connections and downloads stay within their
      limits.
    - Configuration (C26, C40): what [load] answers is determined variable by
      variable, is typed and valid.
    - Process (C16, C17, C27, C28, C34, C37): the bootstrap is all or nothing,
      composes only over complete stores and keeps the development Canvas over
      restarts; a composed server starts, unless a call fails or a limit is too
      large for a semaphore; the WebSocket
      listener keeps the configured limit; [main] succeeds only after a complete shutdown.
    - Client (C22): a run of the example client succeeds exactly on a complete
      exchange with the server.

    More theorems of the same components are proved next to these: reopening
    and foreign cursors of the EventStore, the log and the published rows under
    concurrency, the codec of the tokens, the authorizers inside and outside the
    development mode, typed calls, reads and hidden Assets, ranges and streams, the
    bounds of the Grant registry, header injection, well-formed locators, the
    drains of the queue and of the listeners, startup and graceful shutdown,
    unknown variables, subscriptions, the options of the client and its
    acceptance by the development server.

    Some theorems record behaviour that differs from what the code means to do:
    [Lifecycle.restart_advertises_stopped_node], [Delivery.ipv6_loopback_locator],
    [CatalogOpen.stored_binding_locks_database],
    [Listener.rejected_handshake_length], [Listener.large_limit_panics] and
    [Closing.later_closes_return_early]; and
    [Main.exit_excuse] names the exits without a shutdown.
    [DeliveryConfig.validate_delivery] also shows that the CORS origins are not
    validated, although the comment on the source function says that they are.

    ** Fuel and bounds

    Recursion is structural except where the source loops.  [stream_loop] has
    the number of bytes left as fuel, and each round sends at least one;
    [split_str], [split_whitespace] and [trim] have the length of the string,
    and each round consumes a byte; [emit_sextets] has the number of buffered
    bits.  [load_stroke] and the history [replay] and [wire_replay] are given any fuel above the
    length of the log at the last query: C29, C4 and C5 prove that they then return,
    because every page moves the cursor.  The loops of the client recurse on the
    arguments and on the arrivals that are left.  The eight attempts at a quarantine
    name are the eight of the source.  The accept loops and drains are step
    relations; [Listener.drain_terminates] and
    [AssetListener.asset_shutdown_terminates] bound the runs of the drains, and
    C21 the steps of a [close].

    ** Assumptions

    The classes [KernelLaws], [AssetKernelLaws], [CatalogKernelLaws],
    [ConfigKernelLaws], [WireKernelLaws], [NodeRegistryLaws], [EventBusLaws] and the laws of the
    ports state what the code relies on: identifiers and JSON texts round trip,
    validating constructors answer what they were given, cursors and checkpoints
    carry the position they were made from, and the like.  The PDF inspector and
    the Document read service only read the stores.  SQLite is assumed to be
    atomic per transaction and to enforce the declared keys, and a rename to be
    atomic; a stop of the process loses the open transaction and keeps every
    file as the last completed call left it (the stores run SQLite with WAL and
    [synchronous = NORMAL], which does not promise this for a power failure).
    The clock, the random source, the operating system
    and scheduling are inputs, over which theorems quantify.

    ** Not modelled

    [lib.rs] only re-exports.  A WebSocket session runs in the external
    transport crate; its end is an input of [Listener.run_connection], and the
    JSON of its messages a parameter of [Client.v].  Panics of a worker, log
    output, and the accessors that only return a field are left out; the node
    registry is seen from the local node, whose identity, metadata and
    capabilities do not change.  The effects of a session on the stores (an
    accepted action through the Runtime, the pipeline and the subscriptions) are
    those of the Runtime crate, which is not part of the repository.  Of the unit
    tests, the largest page and the protocol fixtures of [canvas_history.rs] are
    about JSON texts of the transport crate; the integration tests start
    processes. *)

From Stdlib Require Export Ascii.
From stdpp Require Export prelude gmap strings list sorting.

#[global] Open Scope Z_scope.

(** ** Fallible computations: Rust's [Result]

    [result E A] is [Result<A, E>].  The [?] operator is the monadic bind, so
    a Rust body [let x = f()?; k] reads [x ← f; k]. *)

Inductive result (E A : Type) : Type :=
| Ok (a : A)
| Err (e : E).
Arguments Ok {E A} a.
Arguments Err {E A} e.

#[global] Instance result_mret {E} : MRet (result E) := λ A a, Ok a.
#[global] Instance result_mbind {E} : MBind (result E) :=
  λ A B k c, match c with Ok a => k a | Err e => Err e end.
#[global] Instance result_fmap {E} : FMap (result E) :=
  λ A B f c, match c with Ok a => Ok (f a) | Err e => Err e end.

#[global] Instance result_eq_dec {E A} `{EqDecision E, EqDecision A} :
  EqDecision (result E A).
Proof. solve_decision. Defined.

(** [Result::map_err] *)
Definition map_err {E F A} (f : E → F) (c : result E A) : result F A :=
  match c with Ok a => Ok a | Err e => Err (f e) end.

(** [Option::ok_or] *)
Definition ok_or {E A} (e : E) (o : option A) : result E A :=
  match o with Some a => Ok a | None => Err e end.

(** [Result::is_ok] *)
Definition is_ok {E A} (c : result E A) : bool :=
  match c with Ok _ => true | Err _ => false end.

(** An early return: [if b { return Err(e) }]. *)
Definition reject_if {E} (b : bool) (e : E) : result E () :=
  if b then Err e else Ok ().

(** When an early return is not taken, and a sequence succeeds. *)
Lemma guard_Ok {E A} (b : bool) (e : E) (k : result E A) a :
  (if b then Err e else k) = Ok a ↔ b = false ∧ k = Ok a.
Proof. destruct b; split; try done; by intros []. Qed.
Lemma seq_Ok {E A} (c : result E ()) (k : result E A) a :
  (c ≫= λ _, k) = Ok a ↔ c = Ok () ∧ k = Ok a.
Proof. destruct c as [[]|]; cbn; split; try done; by intros []. Qed.

Lemma bind_Ok_inv {E A B} (c : result E A) (k : A → result E B) b :
  (c ≫= k) = Ok b → ∃ a, c = Ok a ∧ k a = Ok b.
Proof. destruct c as [a|e]; [exists a; split; done | discriminate]. Qed.

Lemma bind_Err_inv {E A B} (c : result E A) (k : A → result E B) e :
  (c ≫= k) = Err e → c = Err e ∨ ∃ a, c = Ok a ∧ k a = Err e.
Proof. destruct c as [a|e']; [right; exists a; split; done | intros [= ->]; by left]. Qed.

Lemma ok_or_Ok_inv {E A} (e : E) (o : option A) a : ok_or e o = Ok a → o = Some a.
Proof. by destruct o; intros [= ->]. Qed.

Lemma ok_or_Err_inv {E A} (e e' : E) (o : option A) :
  ok_or e o = Err e' → o = None ∧ e' = e.
Proof. by destruct o; intros [= ->]. Qed.

Lemma map_err_Ok_inv {E F A} (f : E → F) (c : result E A) a :
  map_err f c = Ok a → c = Ok a.
Proof. by destruct c; intros [= ->]. Qed.

Lemma map_err_Err_inv {E F A} (f : E → F) (c : result E A) e :
  map_err f c = Err e → ∃ e', c = Err e' ∧ e = f e'.
Proof. by destruct c as [|e']; intros [= <-]; exists e'. Qed.

Lemma reject_if_Ok_inv {E} b (e : E) u : reject_if b e = Ok u → b = false.
Proof. by destruct b. Qed.

Lemma reject_if_Err_inv {E} b (e e' : E) : reject_if b e = Err e' → b = true ∧ e' = e.
Proof. by destruct b; intros [= ->]. Qed.

(** Takes a hypothesis [c1; c2; ... = Ok r] (or [= Err e]) apart. *)
Ltac inv_result :=
  repeat match goal with
  | H : (_ ≫= _) = Ok _ |- _ =>
      let a := fresh "a" in let E := fresh "E" in
      apply bind_Ok_inv in H as (a & E & H)
  | H : ok_or _ _ = Ok _ |- _ => apply ok_or_Ok_inv in H
  | H : ok_or _ _ = Err _ |- _ => apply ok_or_Err_inv in H as [H ->]
  | H : map_err _ _ = Ok _ |- _ => apply map_err_Ok_inv in H
  | H : reject_if _ _ = Ok _ |- _ => apply reject_if_Ok_inv in H
  | H : Ok _ = Ok _ |- _ => injection H as H; try subst
  | H : Err _ = Err _ |- _ => injection H as H; try subst
  | H : Ok _ = Err _ |- _ => discriminate H
  | H : Err _ = Ok _ |- _ => discriminate H
  | H : (_, _) = (_, _) |- _ => injection H as H; try subst
  end.

(** Case analysis on the scrutinee of some [match] or [if] of a hypothesis. *)
Ltac case_in H :=
  match type of H with
  | context [match ?x with _ => _ end] =>
      lazymatch x with
      | context [match _ with _ => _ end] => fail
      | _ => destruct x eqn:?
      end
  end.

(** ** Machine integers

    A Rust integer is a [Z] kept within its width: the operations that can
    leave the width are the checked, saturating or wrapping ones below.
    [usize] is the 64-bit one of the supported targets. *)

Definition u8_max : Z := 2 ^ 8 - 1.
Definition u32_max : Z := 2 ^ 32 - 1.
Definition u64_max : Z := 2 ^ 64 - 1.
Definition usize_max : Z := u64_max.
Definition i64_max : Z := 2 ^ 63 - 1.
Definition i64_min : Z := - 2 ^ 63.

Definition is_u64 (z : Z) : Prop := 0 ≤ z ≤ u64_max.
Definition is_i64 (z : Z) : Prop := i64_min ≤ z ≤ i64_max.

#[global] Instance is_u64_dec z : Decision (is_u64 z).
Proof. unfold is_u64; apply _. Defined.
#[global] Instance is_i64_dec z : Decision (is_i64 z).
Proof. unfold is_i64; apply _. Defined.

(** [u64::checked_add] *)
Definition u64_checked_add (a b : Z) : option Z :=
  if a + b <=? u64_max then Some (a + b) else None.
(** [i64::checked_add] *)
Definition i64_checked_add (a b : Z) : option Z :=
  if (i64_min <=? a + b) && (a + b <=? i64_max) then Some (a + b) else None.
(** [u64::saturating_sub] *)
Definition u64_saturating_sub (a b : Z) : Z := Z.max 0 (a - b).
(** [i64::saturating_add] *)
Definition i64_saturating_add (a b : Z) : Z := Z.max i64_min (Z.min i64_max (a + b)).
(** [u64::try_from] of an [i64], and [i64::try_from] of a [u64] *)
Definition u64_of_i64 (z : Z) : option Z := if z <? 0 then None else Some z.
Definition i64_of_u64 (z : Z) : option Z := if i64_max <? z then None else Some z.

Lemma u64_checked_add_Some a b c :
  u64_checked_add a b = Some c → c = a + b ∧ a + b ≤ u64_max.
Proof. unfold u64_checked_add. case (Z.leb_spec (a + b) u64_max); naive_solver. Qed.

Lemma u64_checked_add_small a b : a + b ≤ u64_max → u64_checked_add a b = Some (a + b).
Proof. intros. unfold u64_checked_add. by rewrite (proj2 (Z.leb_le _ _)). Qed.

Lemma i64_of_u64_Some a c : i64_of_u64 a = Some c → c = a ∧ a ≤ i64_max.
Proof. unfold i64_of_u64. case (Z.ltb_spec i64_max a); naive_solver. Qed.

Lemma i64_of_u64_small a : a ≤ i64_max → i64_of_u64 a = Some a.
Proof. intros. unfold i64_of_u64. by rewrite (proj2 (Z.ltb_ge _ _)). Qed.

Lemma u64_of_i64_nonneg a : 0 ≤ a → u64_of_i64 a = Some a.
Proof. intros. unfold u64_of_i64. by rewrite (proj2 (Z.ltb_ge _ _)). Qed.

Lemma u64_of_i64_Some a c : u64_of_i64 a = Some c → c = a ∧ 0 ≤ a.
Proof. unfold u64_of_i64. case (Z.ltb_spec a 0); naive_solver. Qed.

(** ** Strings

    A Rust [str] is the [string] of its UTF-8 bytes, so [String.length] is
    [str::len].  Searching for an ASCII character byte by byte agrees with
    searching the [char]s, because no byte of a multi-byte encoding is ASCII. *)

Abbreviation str_len := String.length.

(** The [char] classes the source tests, on one byte. *)
Definition byte_of (c : ascii) : Z := Z.of_N (N_of_ascii c).
Definition in_byte_range (lo hi : Z) (c : ascii) : bool :=
  (lo <=? byte_of c) && (byte_of c <=? hi).
Definition char_eqb (a b : ascii) : bool := bool_decide (a = b).

Lemma char_eqb_refl a : char_eqb a a = true.
Proof. by apply bool_decide_eq_true_2. Qed.
Lemma char_eqb_true a b : char_eqb a b = true → a = b.
Proof. by intros ?%bool_decide_eq_true. Qed.
Lemma char_eqb_false a b : char_eqb a b = false → a ≠ b.
Proof. by intros ?%bool_decide_eq_false. Qed.

(** [str::strip_prefix] with a string pattern *)
Fixpoint strip_prefix (p s : string) : option string :=
  match p, s with
  | EmptyString, _ => Some s
  | String a p', String b s' => if char_eqb a b then strip_prefix p' s' else None
  | String _ _, EmptyString => None
  end.

(** [str::starts_with] *)
Definition starts_with (p s : string) : bool := bool_decide (is_Some (strip_prefix p s)).

(** [str::contains] with an ASCII [char] *)
Fixpoint str_contains (c : ascii) (s : string) : bool :=
  match s with
  | EmptyString => false
  | String a s' => char_eqb c a || str_contains c s'
  end.

Fixpoint str_forall (f : ascii → bool) (s : string) : bool :=
  match s with EmptyString => true | String a s' => f a && str_forall f s' end.

(** [str::split_once] with an ASCII [char]: splits at its first occurrence. *)
Fixpoint split_once (c : ascii) (s : string) : option (string * string) :=
  match s with
  | EmptyString => None
  | String a s' =>
      if char_eqb c a then Some (EmptyString, s')
      else '(l, r) ← split_once c s'; Some (String a l, r)
  end.

(** [str::split] with an ASCII [char]: always at least one piece. *)
Fixpoint str_split (c : ascii) (s : string) : list string :=
  match s with
  | EmptyString => [EmptyString]
  | String a s' =>
      if char_eqb c a then EmptyString :: str_split c s'
      else match str_split c s' with
           | p :: ps => String a p :: ps
           | [] => [String a EmptyString]
           end
  end.

(** [char::is_whitespace] at the head of a string: the byte length of the
    UTF-8 encoding of a White_Space character, or [None].  These are U+0009 to
    U+000D, U+0020, U+0085, U+00A0, U+1680, U+2000 to U+200A, U+2028, U+2029,
    U+202F, U+205F and U+3000. *)
Definition ws_head (s : string) : option nat :=
  match s with
  | EmptyString => None
  | String a s1 =>
      let x := byte_of a in
      if ((9 <=? x) && (x <=? 13)) || (x =? 32) then Some 1%nat
      else match s1 with
      | EmptyString => None
      | String b s2 =>
          let y := byte_of b in
          if (x =? 0xC2) && ((y =? 0x85) || (y =? 0xA0)) then Some 2%nat
          else match s2 with
          | EmptyString => None
          | String c _ =>
              let z := byte_of c in
              if ((x =? 0xE1) && (y =? 0x9A) && (z =? 0x80))
                 || ((x =? 0xE2) && (y =? 0x80) &&
                     (((0x80 <=? z) && (z <=? 0x8A)) || (z =? 0xA8) || (z =? 0xA9) || (z =? 0xAF)))
                 || ((x =? 0xE2) && (y =? 0x81) && (z =? 0x9F))
                 || ((x =? 0xE3) && (y =? 0x80) && (z =? 0x80))
              then Some 3%nat else None
          end
      end
  end.

(** [s.contains(char::is_whitespace)] and [s.chars().any(char::is_whitespace)] *)
Fixpoint has_whitespace (s : string) : bool :=
  match s with
  | EmptyString => false
  | String _ s' => bool_decide (is_Some (ws_head s)) || has_whitespace s'
  end.

Fixpoint str_drop (n : nat) (s : string) : string :=
  match n, s with
  | O, _ => s
  | S n', String _ s' => str_drop n' s'
  | S _, EmptyString => EmptyString
  end.

Fixpoint str_take (n : nat) (s : string) : string :=
  match n, s with
  | S n', String a s' => String a (str_take n' s')
  | _, _ => EmptyString
  end.

(** [str::trim_start]: [fuel] is the byte length, each round removes a byte. *)
Fixpoint trim_start_fuel (fuel : nat) (s : string) : string :=
  match fuel with
  | O => s
  | S f => match ws_head s with Some n => trim_start_fuel f (str_drop n s) | None => s end
  end.
Definition trim_start (s : string) : string := trim_start_fuel (str_len s) s.

(** [str::trim_end]: keeps everything up to the last byte that starts a
    suffix which is not all whitespace. *)
Fixpoint trim_end (s : string) : string :=
  match s with
  | EmptyString => EmptyString
  | String a s' =>
      match trim_start s with
      | EmptyString => EmptyString
      | String _ _ => String a (trim_end s')
      end
  end.
Definition trim (s : string) : string := trim_end (trim_start s).

(** [u8::to_ascii_lowercase] and [str::to_ascii_lowercase] *)
Definition ascii_lower (c : ascii) : ascii :=
  if in_byte_range 65 90 c then ascii_of_N (N_of_ascii c + 32) else c.
Fixpoint to_ascii_lowercase (s : string) : string :=
  match s with
  | EmptyString => EmptyString
  | String a s' => String (ascii_lower a) (to_ascii_lowercase s')
  end.

(** *** Decimal numbers *)

Definition digit_value (c : ascii) : option Z :=
  if in_byte_range 48 57 c then Some (byte_of c - 48) else None.
Definition digit_char (d : Z) : ascii := ascii_of_N (Z.to_N (d + 48)).

(** The digit loop of [FromStr for uN]: fails on a non-digit and on overflow. *)
Fixpoint parse_digits (acc max : Z) (s : string) : option Z :=
  match s with
  | EmptyString => Some acc
  | String c s' =>
      d ← digit_value c;
      let v := acc * 10 + d in
      if v <=? max then parse_digits v max s' else None
  end.

(** [s.parse::<uN>()]: a non-empty digit sequence with an optional [+]. *)
Definition parse_unsigned (max : Z) (s : string) : option Z :=
  match s with
  | EmptyString => None
  | String c s' =>
      if char_eqb c "+" then
        match s' with EmptyString => None | _ => parse_digits 0 max s' end
      else parse_digits 0 max s
  end.
Definition parse_u64 : string → option Z := parse_unsigned u64_max.
Definition parse_u16 : string → option Z := parse_unsigned (2 ^ 16 - 1).

(** [s.parse::<i64>()]: an optional sign and a non-empty digit sequence. *)
Definition parse_i64 (s : string) : option Z :=
  match s with
  | EmptyString => None
  | String c s' =>
      if char_eqb c "-" then
        match s' with EmptyString => None | _ => Z.opp <$> parse_digits 0 (- i64_min) s' end
      else parse_unsigned i64_max s
  end.

(** [n.to_string()] of an unsigned integer; twenty digits hold every [u64]. *)
Fixpoint show_digits (fuel : nat) (n : Z) (acc : string) : string :=
  match fuel with
  | O => acc
  | S f =>
      let acc' := String (digit_char (n mod 10)) acc in
      if n <? 10 then acc' else show_digits f (n / 10) acc'
  end.
Definition show_u64 (n : Z) : string := show_digits 20 n EmptyString.

Definition is_digit (c : ascii) : bool := in_byte_range 48 57 c.

Lemma digit_value_char d : 0 ≤ d < 10 → digit_value (digit_char d) = Some d.
Proof.
  intros Hd. assert (d = 0 ∨ d = 1 ∨ d = 2 ∨ d = 3 ∨ d = 4 ∨ d = 5 ∨ d = 6 ∨ d = 7 ∨ d = 8 ∨ d = 9)
    as Hc by lia.
  repeat (destruct Hc as [->|Hc]; [done|]). by subst.
Qed.

Lemma is_digit_char d : 0 ≤ d < 10 → is_digit (digit_char d) = true.
Proof.
  intros Hd%digit_value_char. unfold digit_value in Hd. unfold is_digit. by case_match.
Qed.

Lemma parse_show_digits fuel max : ∀ n acc,
  0 ≤ n < 10 ^ Z.of_nat fuel → n ≤ max → (0 < fuel)%nat →
  parse_digits 0 max (show_digits fuel n acc) = parse_digits n max acc.
Proof.
  induction fuel as [|f IH]; intros n acc Hn Hmax Hf; [lia|].
  cbn [show_digits]. pose proof (Z.mod_pos_bound n 10 ltac:(lia)) as Hmod.
  destruct (Z.ltb_spec n 10) as [Hlt|Hge].
  - cbn [parse_digits]. rewrite digit_value_char by lia. cbn [mbind option_bind].
    rewrite Z.mod_small by lia. replace (0 * 10 + n) with n by lia.
    by rewrite (proj2 (Z.leb_le n max)).
  - rewrite Nat2Z.inj_succ, Z.pow_succ_r in Hn by lia.
    assert (0 ≤ n / 10 < 10 ^ Z.of_nat f) as Hq
      by (split; [apply Z.div_pos | apply Z.div_lt_upper_bound]; lia).
    destruct f as [|f]; [cbn in Hq; lia|].
    rewrite IH by (try apply Z.div_le_upper_bound; lia).
    cbn [parse_digits]. rewrite digit_value_char by lia. cbn [mbind option_bind].
    pose proof (Z.div_mod n 10 ltac:(lia)) as Hdm.
    replace (n / 10 * 10 + n mod 10) with n by lia.
    by rewrite (proj2 (Z.leb_le n max)).
Qed.

Lemma show_digits_all fuel : ∀ n acc,
  0 ≤ n → str_forall is_digit (show_digits fuel n acc) = str_forall is_digit acc.
Proof.
  induction fuel as [|f IH]; intros n acc Hn; [done|].
  cbn [show_digits]. pose proof (Z.mod_pos_bound n 10 ltac:(lia)).
  destruct (Z.ltb_spec n 10); [|rewrite IH by (apply Z.div_pos; lia)];
    cbn [str_forall]; by rewrite is_digit_char by lia.
Qed.

Lemma show_digits_cons fuel n acc :
  (0 < fuel)%nat → ∃ c s, show_digits fuel n acc = String c s.
Proof.
  revert n acc. induction fuel as [|f IH]; intros n acc Hf; [lia|]. cbn [show_digits].
  destruct (n <? 10); [eauto|]. destruct f; [cbn; eauto|]. apply IH; lia.
Qed.

Lemma show_u64_digits n : 0 ≤ n → str_forall is_digit (show_u64 n) = true.
Proof. intros. unfold show_u64. by rewrite show_digits_all. Qed.

Lemma str_forall_contains f c s :
  str_forall f s = true → f c = false → str_contains c s = false.
Proof.
  intros Hs Hc. induction s as [|a s IH]; [done|]. cbn [str_forall str_contains] in *.
  apply andb_prop in Hs as [Ha Hs]. rewrite (IH Hs), orb_false_r.
  apply bool_decide_eq_false. congruence.
Qed.

(** Printing an unsigned integer and parsing it back is the identity. *)
Lemma parse_show_unsigned max n :
  0 ≤ n ≤ max → n ≤ u64_max → parse_unsigned max (show_u64 n) = Some n.
Proof.
  intros Hn Hu. unfold parse_unsigned.
  destruct (show_digits_cons 20 n EmptyString ltac:(lia)) as (c & s & Hs).
  pose proof (show_u64_digits n ltac:(lia)) as Hd.
  change (show_digits 20 n EmptyString) with (show_u64 n) in Hs.
  rewrite Hs in *. cbn in Hd. apply andb_prop in Hd as [Hc _].
  assert (char_eqb c "+" = false) as -> by (apply bool_decide_eq_false; intros ->; discriminate).
  rewrite <- Hs. unfold show_u64. rewrite parse_show_digits; [done | | lia | lia].
  unfold u64_max in Hu. change (10 ^ Z.of_nat 20) with 100000000000000000000. lia.
Qed.

Lemma parse_show_u64 n : is_u64 n → parse_u64 (show_u64 n) = Some n.
Proof. unfold is_u64. intros. apply parse_show_unsigned; lia. Qed.

Lemma parse_digits_bounds acc max s v :
  0 ≤ acc ≤ max → parse_digits acc max s = Some v → 0 ≤ v ≤ max.
Proof.
  revert acc. induction s as [|c s IH]; intros acc Hacc; cbn [parse_digits].
  - by intros [= ->].
  - unfold digit_value, in_byte_range. case_match eqn:Hd; [|done]. cbn [mbind option_bind].
    apply andb_prop in Hd as [Hlo Hhi]. apply Z.leb_le in Hlo, Hhi.
    case_match eqn:Hle; [|done]. apply Z.leb_le in Hle. apply IH. lia.
Qed.

Lemma parse_u64_bounds s v : parse_u64 s = Some v → is_u64 v.
Proof.
  unfold parse_u64, parse_unsigned, is_u64. pose proof (eq_refl : (0 <=? u64_max) = true) as Hm.
  apply Z.leb_le in Hm.
  destruct s as [|c s]; [done|]. case_match.
  - destruct s; [done|]. apply parse_digits_bounds; lia.
  - apply parse_digits_bounds; lia.
Qed.

Lemma parse_i64_bounds s v : parse_i64 s = Some v → is_i64 v.
Proof.
  unfold parse_i64, is_i64. intros Hp. destruct s as [|c s]; [done|]. destruct (char_eqb c "-").
  - destruct s as [|d s]; [done|]. apply fmap_Some in Hp as (n & Hn & ->).
    apply parse_digits_bounds in Hn; unfold i64_min, i64_max in *; lia.
  - unfold parse_unsigned in Hp. unfold i64_min. destruct (char_eqb c "+"); [destruct s; [done|]|];
      apply parse_digits_bounds in Hp; unfold i64_max in *; lia.
Qed.

(** *** Splitting an appended string *)

Lemma append_cons a s t : String a s +:+ t = String a (s +:+ t).
Proof. done. Qed.
Lemma append_nil t : EmptyString +:+ t = t.
Proof. done. Qed.

Lemma strip_prefix_app p s : strip_prefix p (p +:+ s) = Some s.
Proof.
  induction p as [|a p IH]; [done|]. rewrite append_cons. cbn [strip_prefix].
  by rewrite char_eqb_refl.
Qed.

Lemma strip_prefix_Some p s r : strip_prefix p s = Some r → s = p +:+ r.
Proof.
  revert s. induction p as [|a p IH]; intros s; cbn [strip_prefix]; [by intros [= ->]|].
  destruct s as [|b s]; [done|]. destruct (char_eqb a b) eqn:Hab; [|done].
  apply char_eqb_true in Hab as ->. by intros ->%IH.
Qed.

Lemma str_contains_app c s t :
  str_contains c (s +:+ t) = str_contains c s || str_contains c t.
Proof.
  induction s as [|a s IH]; [done|]. rewrite append_cons. cbn [str_contains].
  by rewrite IH, orb_assoc.
Qed.

Lemma split_once_app c s t :
  str_contains c s = false → split_once c (s +:+ String c t) = Some (s, t).
Proof.
  induction s as [|a s IH]; rewrite ?append_cons; cbn [str_contains].
  - rewrite append_nil. cbn [split_once]. by rewrite char_eqb_refl.
  - intros [Ha Hs]%orb_false_elim. cbn [split_once]. by rewrite Ha, (IH Hs).
Qed.

Lemma split_once_Some c s l r :
  split_once c s = Some (l, r) → s = l +:+ String c r ∧ str_contains c l = false.
Proof.
  revert l. induction s as [|a s IH]; intros l; cbn [split_once]; [done|].
  destruct (char_eqb c a) eqn:Hca.
  - apply char_eqb_true in Hca as ->. by intros [= <- <-].
  - destruct (split_once c s) as [[l' r']|]; [|done]. intros [= <- <-].
    destruct (IH l' eq_refl) as [-> Hl]. cbn [str_contains]. by rewrite Hca.
Qed.

Lemma str_app_nil_r s : s +:+ EmptyString = s.
Proof. induction s as [|a s IH]; [done|]. by rewrite append_cons, IH. Qed.

(** [str::is_empty] *)
Definition str_is_empty (s : string) : bool :=
  match s with EmptyString => true | String _ _ => false end.

(** ** Lists *)

(** The elements of a list with their positions. *)
Definition indexed {A} (l : list A) : list (Z * A) := imap (λ i x, (Z.of_nat i, x)) l.

Lemma indexed_snoc {A} (l : list A) x :
  indexed (l ++ [x]) = indexed l ++ [(Z.of_nat (length l), x)].
Proof. unfold indexed. rewrite imap_app. cbn. by rewrite Nat.add_0_r. Qed.

Lemma length_indexed {A} (l : list A) : length (indexed l) = length l.
Proof. apply length_imap. Qed.

Lemma lookup_indexed {A} (l : list A) i p :
  indexed l !! i = Some p → ∃ x, l !! i = Some x ∧ p = (Z.of_nat i, x).
Proof.
  unfold indexed. rewrite list_lookup_imap. destruct (l !! i) as [x|]; [|done].
  intros [= <-]. by exists x.
Qed.

Lemma elem_of_indexed {A} (l : list A) i x :
  (i, x) ∈ indexed l ↔ 0 ≤ i ∧ l !! Z.to_nat i = Some x.
Proof.
  rewrite list_elem_of_lookup. split.
  - intros (k & (y & Hy & [= -> ->])%lookup_indexed). rewrite Nat2Z.id. split; [lia|done].
  - intros [Hi Hx]. exists (Z.to_nat i). unfold indexed. rewrite list_lookup_imap, Hx. cbn.
    by rewrite Z2Nat.id by lia.
Qed.

Lemma indexed_values {A} (l : list A) : (indexed l).*2 = l.
Proof. induction l as [|x l IH] using rev_ind; [done|]. by rewrite indexed_snoc, fmap_app, IH. Qed.

Lemma StronglySorted_lookup {A} (R : relation A) l :
  (∀ i j x y, (i < j)%nat → l !! i = Some x → l !! j = Some y → R x y) → StronglySorted R l.
Proof.
  induction l as [|x l IH]; intros Hl; constructor.
  - apply IH. intros i j y z Hij Hi Hj. apply (Hl (S i) (S j)); [lia|done..].
  - apply Forall_lookup. intros j y Hj. apply (Hl 0%nat (S j)); [lia|done..].
Qed.

Lemma StronglySorted_filter {A} (R : relation A) f l :
  StronglySorted R l → StronglySorted R (List.filter f l).
Proof.
  induction 1 as [|x l Hl IH Hx]; cbn; [constructor|]. case_match; [|done].
  constructor; [done|]. apply List.Forall_forall. intros y [Hy _]%filter_In.
  by apply (proj1 (List.Forall_forall _ _) Hx).
Qed.

Section Forall2_filter.
Context {A B : Type} (R : A → B → Prop) (f : A → bool) (g : B → bool).
Hypothesis Hfg : ∀ x y, R x y → f x = g y.

Lemma Forall2_find l k :
  Forall2 R l k → option_Forall2 R (List.find f l) (List.find g k).
Proof.
  induction 1 as [|x y l k Hxy Hlk IH]; cbn; [constructor|].
  rewrite (Hfg _ _ Hxy). case_match; [by constructor|done].
Qed.

Lemma Forall2_List_filter l k :
  Forall2 R l k → Forall2 R (List.filter f l) (List.filter g k).
Proof.
  induction 1 as [|x y l k Hxy Hlk IH]; cbn; [constructor|].
  rewrite (Hfg _ _ Hxy). case_match; [by constructor|done].
Qed.
End Forall2_filter.

Lemma List_filter_filter {A} (f g : A → bool) l :
  List.filter f (List.filter g l) = List.filter (λ x, g x && f x) l.
Proof.
  induction l as [|x l IH]; [done|]. cbn. destruct (g x); cbn; [|done].
  destruct (f x); by rewrite IH.
Qed.

Lemma List_filter_ext {A} (f g : A → bool) l :
  (∀ x, x ∈ l → f x = g x) → List.filter f l = List.filter g l.
Proof.
  intros Hfg. apply filter_ext_in. intros x Hx. by apply Hfg, list_elem_of_In.
Qed.

(** ** Counting *)

(** The number of elements that satisfy [f]. *)
Definition count_if {A} (f : A → bool) (l : list A) : nat := length (List.filter f l).

Section count_if.
Context {A : Type} (f : A → bool).
Abbreviation one x := (if f x then 1 else 0)%nat.

Lemma count_if_app l k : count_if f (l ++ k) = (count_if f l + count_if f k)%nat.
Proof. unfold count_if. by rewrite List.filter_app, length_app. Qed.
Lemma count_if_cons x l : count_if f (x :: l) = (one x + count_if f l)%nat.
Proof. unfold count_if. cbn. by destruct (f x). Qed.
Lemma count_if_le l : (count_if f l ≤ length l)%nat.
Proof. apply List.filter_length_le. Qed.
Lemma count_if_insert l i x y :
  l !! i = Some x → (count_if f (<[i := y]> l) + one x = count_if f l + one y)%nat.
Proof.
  intros Hi. rewrite (insert_take_drop _ _ _ (lookup_lt_Some _ _ _ Hi)).
  rewrite <- (take_drop_middle _ _ _ Hi) at 3. rewrite !count_if_app, !count_if_cons. lia.
Qed.
Lemma count_if_delete l i x :
  l !! i = Some x → (count_if f (delete i l) + one x = count_if f l)%nat.
Proof.
  intros Hi. rewrite delete_take_drop. rewrite <- (take_drop_middle _ _ _ Hi) at 3.
  rewrite !count_if_app, count_if_cons. lia.
Qed.
End count_if.
