(* ===== verification/Float.v ===== *)
(** * The [f64] of the standard library

    A double is a [spec_float] of the Standard Library with 53 bits of
    precision and exponents up to 1024: the IEEE 754 values with one NaN.  The
    file models the operations of [f64] that the repository uses: comparison,
    [is_finite], the cell of a [REAL] column of SQLite, and [FromStr]. *)

From Stdlib Require Import SpecFloat.
From S2P Require Import Prelude.

Abbreviation F64 := spec_float.

#[global] Instance spec_float_eq_dec : EqDecision spec_float.
Proof. solve_decision. Defined.

Definition f64_zero : F64 := S754_zero false.
(** An integer as a double. *)
Definition f64_of_Z (z : Z) : F64 := binary_normalize 53 1024 z 0 false.

(** [PartialEq] and [PartialOrd] *)
Definition f64_eqb (x y : F64) : bool := SFeqb x y.
Definition f64_leb (x y : F64) : bool := SFleb x y.
(** [f64::is_finite] *)
Definition is_finite (x : F64) : bool :=
  match x with S754_zero _ | S754_finite _ _ _ => true | _ => false end.

(** A finite number above zero. *)
Definition positive_f64 (x : F64) : bool := is_finite x && negb (f64_leb x f64_zero).

(** What a [REAL NOT NULL] column holds after a double is bound to it: NaN is
    stored as [NULL], and a negative zero as zero. *)
Definition real_cell (x : F64) : option F64 :=
  match x with
  | S754_nan => None
  | S754_zero _ => Some f64_zero
  | _ => Some x
  end.

Lemma positive_f64_inv x : positive_f64 x = true → ∃ m e, x = S754_finite false m e.
Proof. destruct x as [[]|[]| |[] m e]; try done. by exists m, e. Qed.

Lemma real_cell_positive x : positive_f64 x = true → real_cell x = Some x.
Proof. by intros (m & e & ->)%positive_f64_inv. Qed.

Lemma f64_eqb_positive x y : positive_f64 x = true → f64_eqb x y = true → x = y.
Proof.
  intros (m & e & ->)%positive_f64_inv. unfold f64_eqb, SFeqb.
  destruct y as [[]|[]| |[] m' e']; try done. cbn.
  change (IntDef.Z.compare e e') with (Z.compare e e').
  destruct (Z.compare_spec e e') as [->| |]; try done.
  change (PosDef.Pos.compare_cont Eq m m') with (Pos.compare m m').
  by destruct (Pos.compare_spec m m') as [->| |].
Qed.

Lemma f64_eqb_refl x : positive_f64 x = true → f64_eqb x x = true.
Proof.
  intros (m & e & ->)%positive_f64_inv. unfold f64_eqb, SFeqb. cbn.
  change (IntDef.Z.compare e e) with (Z.compare e e). rewrite Z.compare_refl.
  change (PosDef.Pos.compare_cont Eq m m) with (Pos.compare m m). by rewrite Pos.compare_refl.
Qed.

(** ** [f64::from_str] *)

(** A run of digits: the number they continue, how many there are, the rest. *)
Fixpoint scan_digits (acc : Z) (n : Z) (s : string) : Z * Z * string :=
  match s with
  | EmptyString => (acc, n, s)
  | String c s' =>
      match digit_value c with
      | Some d => scan_digits (acc * 10 + d) (n + 1) s'
      | None => (acc, n, s)
      end
  end.

(** The digits of an exponent, which stop counting above [0x10000]. *)
Fixpoint scan_exponent (acc : Z) (s : string) : Z * string :=
  match s with
  | EmptyString => (acc, s)
  | String c s' =>
      match digit_value c with
      | Some d => scan_exponent (if acc <? 0x10000 then acc * 10 + d else acc) s'
      | None => (acc, s)
      end
  end.

Definition split_sign (s : string) : bool * string :=
  match s with
  | String c s' => if char_eqb c "-" then (true, s') else
                   if char_eqb c "+" then (false, s') else (false, s)
  | EmptyString => (false, s)
  end.

Definition starts_with_digit (s : string) : bool :=
  match s with String c _ => bool_decide (is_Some (digit_value c)) | EmptyString => false end.

(** The optional exponent at the end of a number; [None] is an error. *)
Definition parse_scientific (s : string) : option Z :=
  match s with
  | EmptyString => Some 0
  | String c s' =>
      if char_eqb (ascii_lower c) "e" then
        let '(negative, s1) := split_sign s' in
        if negb (starts_with_digit s1) then None else
        let '(exponent, rest) := scan_exponent 0 s1 in
        if str_is_empty rest then Some (if negative : bool then - exponent else exponent) else None
      else None
  end.

(** The double nearest to [m * 10 ^ e], ties to even. *)
Definition round_decimal (negative : bool) (m e : Z) : F64 :=
  match m with
  | Zpos p =>
      if 0 <=? e then
        match m * 10 ^ e with Zpos q => binary_round 53 1024 negative q 0 | _ => S754_zero negative end
      else
        match 10 ^ (- e) with
        | Zpos q => SFdiv 53 1024 (S754_finite negative p 0) (S754_finite false q 0)
        | _ => S754_nan
        end
  | _ => S754_zero negative
  end.

(** A decimal number: digits with an optional point, at least one of them. *)
Definition parse_decimal (negative : bool) (s : string) : option F64 :=
  let '(m1, n1, s1) := scan_digits 0 0 s in
  let '(m, n2, s2) := match s1 with
                      | String c s' => if char_eqb c "." then scan_digits m1 0 s' else (m1, 0, s1)
                      | EmptyString => (m1, 0, s1)
                      end in
  if n1 + n2 =? 0 then None else
  exponent ← parse_scientific s2;
  Some (round_decimal negative m (exponent - n2)).

(** [s.parse::<f64>()] *)
Definition parse_f64 (s : string) : option F64 :=
  let '(negative, body) := split_sign s in
  if str_is_empty body then None else
  match parse_decimal negative body with
  | Some x => Some x
  | None =>
      let word := to_ascii_lowercase body in
      if bool_decide (word = "nan") then Some S754_nan else
      if bool_decide (word = "inf") || bool_decide (word = "infinity")
      then Some (S754_infinity negative) else None
  end.

Example parse_f64_integer : parse_f64 "1920" = Some (f64_of_Z 1920).
Proof. reflexivity. Qed.
Example parse_f64_fraction : parse_f64 "+1080.50e1" = Some (f64_of_Z 10805).
Proof. reflexivity. Qed.
Example parse_f64_rounded : parse_f64 ".1" = Some (S754_finite false 7205759403792794 (-56)).
Proof. reflexivity. Qed.
Example parse_f64_tie : parse_f64 "9007199254740993" = Some (f64_of_Z 9007199254740992).
Proof. reflexivity. Qed.
Example parse_f64_words :
  (parse_f64 "-Infinity", parse_f64 "NaN", parse_f64 "1e999", parse_f64 "-1e-999") =
  (Some (S754_infinity true), Some S754_nan, Some (S754_infinity false), Some (S754_zero true)).
Proof. reflexivity. Qed.
Example parse_f64_rejects :
  (parse_f64 "", parse_f64 "+", parse_f64 ".", parse_f64 "1e", parse_f64 " 1", parse_f64 "1_0") =
  (None, None, None, None, None, None).
Proof. reflexivity. Qed.
