(* ===== verification/Net.v ===== *)
(** * The addresses of the standard library

    Models [IpAddr] and [SocketAddr] of [std::net] with their parsers, which the
    configuration uses, and proves that a parsed address has the number of parts
    and the ranges of its type. *)

From S2P Require Import Prelude.

(** ** [std::net::IpAddr] *)

Inductive IpAddr := V4 (octets : list Z) | V6 (segments : list Z).

(** [is_unspecified], [is_loopback] *)
Definition is_unspecified (ip : IpAddr) : bool :=
  match ip with V4 l | V6 l => forallb (Z.eqb 0) l end.
Definition is_loopback (ip : IpAddr) : bool :=
  match ip with
  | V4 (a :: _) => a =? 127
  | V4 [] => false
  | V6 l => bool_decide (l = [0; 0; 0; 0; 0; 0; 0; 1])
  end.

(** [char::to_digit] with a radix up to 16 *)
Definition to_digit (radix : Z) (c : ascii) : option Z :=
  let d := if in_byte_range 48 57 c then Some (byte_of c - 48)
           else if in_byte_range 97 102 c then Some (byte_of c - 87)
           else if in_byte_range 65 70 c then Some (byte_of c - 55)
           else None in
  v ← d; if v <? radix then Some v else None.

(** The digits at the start of a text: their value, their number, the rest. *)
Fixpoint read_digits (radix acc : Z) (count : nat) (s : string) : Z * nat * string :=
  match s with
  | String c s' =>
      match to_digit radix c with
      | Some d => read_digits radix (acc * radix + d) (S count) s'
      | None => (acc, count, s)
      end
  | EmptyString => (acc, count, s)
  end.
(** [Parser::read_number], for a type with the maximum [max]. *)
Definition read_number (radix : Z) (max_digits : nat) (allow_zero_prefix : bool) (max : Z) (s : string)
    : option (Z * string) :=
  let '(value, count, rest) := read_digits radix 0 0 s in
  if (max_digits <? count)%nat || (count =? 0)%nat
     || (negb allow_zero_prefix && starts_with "0" s && (1 <? count)%nat) || (max <? value)
  then None else Some (value, rest).
(** [Parser::read_separator]: the separator, except before the first part. *)
Definition read_separator (sep : string) (first : bool) (s : string) : option string :=
  if first then Some s else strip_prefix sep s.

Fixpoint read_octets (left : nat) (first : bool) (s : string) : option (list Z * string) :=
  match left with
  | O => Some ([], s)
  | S left' =>
      s1 ← read_separator "." first s;
      '(octet, s2) ← read_number 10 3 false 255 s1;
      '(octets, s3) ← read_octets left' false s2;
      Some (octet :: octets, s3)
  end.
(** [Parser::read_ipv4_addr] *)
Definition read_ipv4_addr (s : string) : option (list Z * string) := read_octets 4 true s.

(** [read_groups] of [Parser::read_ipv6_addr], for [left] groups. *)
Fixpoint read_groups (left : nat) (first : bool) (s : string) : list Z * bool * string :=
  match left with
  | O => ([], false, s)
  | S left' =>
      match (if (left' =? 0)%nat then None else s1 ← read_separator ":" first s; read_ipv4_addr s1) with
      | Some ([a; b; c; d], rest) => ([a * 256 + b; c * 256 + d], true, rest)
      | _ =>
          match (s1 ← read_separator ":" first s; read_number 16 4 true 65535 s1) with
          | Some (group, rest) =>
              let '(groups, ipv4, rest') := read_groups left' false rest in
              (group :: groups, ipv4, rest')
          | None => ([], false, s)
          end
      end
  end.
(** [Parser::read_ipv6_addr] *)
Definition read_ipv6_addr (s : string) : option (list Z * string) :=
  let '(head, head_ipv4, rest) := read_groups 8 true s in
  if (length head =? 8)%nat then Some (head, rest) else
  if head_ipv4 then None else
  rest1 ← strip_prefix "::" rest;
  let '(tail, _, rest2) := read_groups (8 - (length head + 1)) true rest1 in
  Some (head ++ replicate (8 - length head - length tail) 0 ++ tail, rest2).
(** [str::parse::<IpAddr>] *)
Definition parse_ip_addr (s : string) : option IpAddr :=
  let all {A} (f : A → IpAddr) (r : A * string) : option IpAddr :=
    if str_is_empty r.2 then Some (f r.1) else None in
  match read_ipv4_addr s with
  | Some r => all V4 r
  | None => r ← read_ipv6_addr s; all V6 r
  end.

(** [SocketAddr]: the flow information of a version 6 address is zero in every
    address that the program makes, and the scope of a version 4 address is
    zero. *)
Record SocketAddr := mkSocketAddr { ip : IpAddr; port : Z; scope_id : Z }.

(** [Parser::read_number] without a limit on the digits *)
Definition read_any_number (max : Z) (s : string) : option (Z * string) :=
  read_number 10 (str_len s) true max s.
(** [Parser::read_port] *)
Definition read_port (s : string) : option (Z * string) :=
  s1 ← strip_prefix ":" s; read_any_number 65535 s1.
(** [Parser::read_scope_id] *)
Definition read_scope_id (s : string) : option (Z * string) :=
  s1 ← strip_prefix "%" s; read_any_number u32_max s1.
(** [Parser::read_socket_addr_v4] and [read_socket_addr_v6] *)
Definition read_socket_addr_v4 (s : string) : option (SocketAddr * string) :=
  '(octets, s1) ← read_ipv4_addr s;
  '(port, s2) ← read_port s1;
  Some (mkSocketAddr (V4 octets) port 0, s2).
Definition read_socket_addr_v6 (s : string) : option (SocketAddr * string) :=
  s1 ← strip_prefix "[" s;
  '(segments, s2) ← read_ipv6_addr s1;
  let '(scope, s3) := default (0, s2) (read_scope_id s2) in
  s4 ← strip_prefix "]" s3;
  '(port, s5) ← read_port s4;
  Some (mkSocketAddr (V6 segments) port scope, s5).
(** [str::parse::<SocketAddr>] *)
Definition parse_socket_addr (s : string) : option SocketAddr :=
  '(addr, rest) ← match read_socket_addr_v4 s with
                  | Some r => Some r
                  | None => read_socket_addr_v6 s
                  end;
  if str_is_empty rest then Some addr else None.

(** ** The types of parsed addresses *)

Definition in_width (max z : Z) : Prop := 0 ≤ z ≤ max.
Definition ip_typed (ip : IpAddr) : Prop :=
  match ip with
  | V4 octets => length octets = 4%nat ∧ Forall (in_width 255) octets
  | V6 segments => length segments = 8%nat ∧ Forall (in_width 65535) segments
  end.
Definition addr_typed (a : SocketAddr) : Prop :=
  ip_typed (ip a) ∧ in_width 65535 (port a) ∧ in_width u32_max (scope_id a).

Lemma to_digit_nonneg radix c d : to_digit radix c = Some d → 0 ≤ d.
Proof.
  unfold to_digit, in_byte_range. intros Hd.
  apply bind_Some in Hd as (v & Hv & Hd). destruct (v <? radix); [|done]. injection Hd as <-.
  repeat match type of Hv with context [if ?b then _ else _] => destruct b eqn:? end;
    try done; injection Hv as <-; lia.
Qed.

Lemma read_digits_nonneg radix s : ∀ acc count v n rest,
  0 ≤ radix → 0 ≤ acc → read_digits radix acc count s = (v, n, rest) → 0 ≤ v.
Proof.
  induction s as [|c s IH]; intros acc count v n rest Hr Ha; cbn [read_digits].
  - by intros [= <- _ _].
  - destruct (to_digit radix c) as [d|] eqn:Hd; [|by intros [= <- _ _]].
    apply to_digit_nonneg in Hd. apply IH; [done|nia].
Qed.

Lemma read_number_width radix digits zero max s v rest :
  0 ≤ radix → read_number radix digits zero max s = Some (v, rest) → in_width max v.
Proof.
  unfold read_number. intros Hr. destruct (read_digits radix 0 0 s) as [[value count] rest'] eqn:Hd.
  apply read_digits_nonneg in Hd; [|lia..].
  destruct (_ || _ || _) eqn:Hb; [done|]. intros [= -> ->].
  apply orb_false_elim in Hb as [_ Hb%Z.ltb_ge]. by split.
Qed.

Lemma read_octets_typed left : ∀ first s octets rest,
  read_octets left first s = Some (octets, rest) →
  length octets = left ∧ Forall (in_width 255) octets.
Proof.
  induction left as [|left IH]; intros first s octets rest; cbn [read_octets].
  - by intros [= <- _].
  - intros Hs. apply bind_Some in Hs as (s1 & _ & Hs).
    apply bind_Some in Hs as ([octet s2] & Hn & Hs). apply bind_Some in Hs as ([octets' s3] & Ho & Hs).
    injection Hs as <- <-. apply IH in Ho as [<- Ho]. split; [done|].
    constructor; [|done]. eapply read_number_width; [|exact Hn]. lia.
Qed.

Lemma read_groups_typed left : ∀ first s groups ipv4 rest,
  read_groups left first s = (groups, ipv4, rest) →
  (length groups ≤ left)%nat ∧ Forall (in_width 65535) groups.
Proof.
  induction left as [|left IH]; intros first s groups ipv4 rest; cbn [read_groups].
  - by intros [= <- _ _].
  - destruct (if (left =? 0)%nat then None else _) as [[octets r]|] eqn:Hv4;
      [destruct octets as [|a [|b [|c [|d [|]]]]] eqn:Ho|].
    5: { destruct (Nat.eqb_spec left 0) as [|Hl]; [done|]. intros [= <- _ _].
         apply bind_Some in Hv4 as (s1 & _ & Hv4). apply read_octets_typed in Hv4 as [_ Hv4].
         rewrite !Forall_cons in Hv4. destruct Hv4 as (Ha & Hb & Hc & Hd & _).
         unfold in_width in *. split; [cbn; lia|]. repeat constructor; lia. }
    all: destruct (s1 ← _; read_number 16 4 true 65535 s1) as [[group rest1]|] eqn:Hg;
      [|intros [= <- _ _]; split; [cbn; lia|constructor]].
    all: apply bind_Some in Hg as (s1 & _ & Hg); apply read_number_width in Hg; [|lia].
    all: destruct (read_groups left false rest1) as [[groups' v4] rest'] eqn:Hr.
    all: apply IH in Hr as [Hlen Hall]; intros [= <- _ _]; split; [cbn; lia|by constructor].
Qed.

Lemma read_ipv6_addr_typed s segments rest :
  read_ipv6_addr s = Some (segments, rest) →
  length segments = 8%nat ∧ Forall (in_width 65535) segments.
Proof.
  unfold read_ipv6_addr. destruct (read_groups 8 true s) as [[head v4] r] eqn:Hh.
  apply read_groups_typed in Hh as [Hlen Hall].
  destruct (Nat.eqb_spec (length head) 8) as [Heq|Hne]; [by intros [= <- _]|].
  destruct v4; [done|]. intros Hs. apply bind_Some in Hs as (rest1 & _ & Hs).
  destruct (read_groups _ true rest1) as [[tail v4'] rest2] eqn:Ht.
  apply read_groups_typed in Ht as [Htl Hta]. injection Hs as <- _. split.
  - rewrite !length_app, length_replicate. lia.
  - rewrite !Forall_app. split_and!; [done| |done]. apply Forall_replicate. unfold in_width. lia.
Qed.

Lemma read_port_width s p rest : read_port s = Some (p, rest) → in_width 65535 p.
Proof. intros Hs. apply bind_Some in Hs as (s1 & _ & Hs). eapply read_number_width; [|exact Hs]. lia. Qed.

Lemma read_scope_id_width s : in_width u32_max (default (0, s) (read_scope_id s)).1.
Proof.
  destruct (read_scope_id s) as [[scope rest]|] eqn:Hs; cbn; [|unfold in_width, u32_max; lia].
  apply bind_Some in Hs as (s1 & _ & Hs). eapply read_number_width; [|exact Hs]. lia.
Qed.

Lemma parse_socket_addr_typed s a : parse_socket_addr s = Some a → addr_typed a.
Proof.
  unfold parse_socket_addr. intros Hs. apply bind_Some in Hs as ([addr rest] & Hs & Hr).
  destruct (str_is_empty rest); [|done]. injection Hr as ->.
  destruct (read_socket_addr_v4 s) as [r|] eqn:Hv4.
  - injection Hs as ->. unfold read_socket_addr_v4 in Hv4.
    apply bind_Some in Hv4 as ([octets s1] & Ho & Hv4). apply bind_Some in Hv4 as ([p s2] & Hp & Hv4).
    injection Hv4 as <- _. apply read_octets_typed in Ho. apply read_port_width in Hp.
    split_and!; try done.
  - clear Hv4. unfold read_socket_addr_v6 in Hs.
    apply bind_Some in Hs as (s1 & _ & Hs). apply bind_Some in Hs as ([segments s2] & Hv & Hs).
    pose proof (read_scope_id_width s2) as Hw.
    destruct (default (0, s2) (read_scope_id s2)) as [scope s3].
    apply bind_Some in Hs as (s4 & _ & Hs). apply bind_Some in Hs as ([p s5] & Hp & Hs).
    injection Hs as <- _. apply read_ipv6_addr_typed in Hv. by apply read_port_width in Hp.
Qed.

Example parse_socket_addr_v4 :
  parse_socket_addr "127.0.0.1:08080" = Some (mkSocketAddr (V4 [127; 0; 0; 1]) 8080 0).
Proof. reflexivity. Qed.
Example parse_socket_addr_v6 :
  parse_socket_addr "[fe80::1%7]:443" = Some (mkSocketAddr (V6 [0xfe80; 0; 0; 0; 0; 0; 0; 1]) 443 7).
Proof. reflexivity. Qed.
Example parse_socket_addr_rejects :
  (parse_socket_addr "127.0.0.1", parse_socket_addr "127.0.0.1:65536", parse_socket_addr "::1:80",
   parse_socket_addr "localhost:80", parse_socket_addr "01.2.3.4:80", parse_socket_addr "1.2.3.4:80 ") =
  (None, None, None, None, None, None).
Proof. reflexivity. Qed.
