(* ===== verification/Kernel.v ===== *)
(** * The OrbitRelay kernel as seen by this repository

    The server depends on released kernel crates ([orbitrelay-core],
    [-protocol], [-storage], [-asset], ...) whose code is not part of the
    repository.  Their types and the functions this repository calls are the
    fields of the class [Kernel]; what the repository relies on is stated by
    the class [KernelLaws].  Every component takes both as section parameters,
    and [demo_kernel] at the end is a concrete instance that satisfies the
    laws, used to evaluate the models on concrete inputs. *)

From S2P Require Import Prelude.

(** A typed identifier: [Display] and [FromStr] of the UUID new types. *)
Class Identifier (T : Type) := {
  identifier_eq_dec :: EqDecision T;
  to_text : T → string;
  of_text : string → option T
}.
Class IdentifierLaws (T : Type) `{Identifier T} : Prop :=
  of_to_text : ∀ x : T, of_text (to_text x) = Some x.

(** A [serde] type stored as JSON text: [serde_json::to_string] and
    [serde_json::from_str]. *)
Class JsonText (T : Type) := {
  to_json : T → option string;
  of_json : string → option T
}.
Class JsonTextLaws (T : Type) `{JsonText T} : Prop :=
  of_to_json : ∀ (x : T) s, to_json x = Some s → of_json s = Some x.

(** [StorageError] of [orbitrelay-storage], with the variants the repository
    constructs or matches.  The enum is non-exhaustive: [StorageOther] stands
    for a variant that the repository cannot name. *)
Inductive StorageError (EventId : Type) :=
| InvalidQuery (reason : string)
| InvalidCursor (reason : string)
| InvalidCheckpoint (reason : string)
| EventConflict (event_id : EventId)
| BackendUnavailable (message : string)
| BackendFailure (message : string)
| StorageOther.
Arguments InvalidQuery {EventId} reason.
Arguments InvalidCursor {EventId} reason.
Arguments InvalidCheckpoint {EventId} reason.
Arguments EventConflict {EventId} event_id.
Arguments BackendUnavailable {EventId} message.
Arguments BackendFailure {EventId} message.
Arguments StorageOther {EventId}.

Class Kernel := {
  (** [orbitrelay-core] *)
  EntityId : Type;
  EntityId_id :: Identifier EntityId;
  Timestamp : Type;
  Timestamp_json :: JsonText Timestamp;
  unix_timestamp : Timestamp → Z;
  from_unix_timestamp : Z → option Timestamp;
  Metadata : Type;
  Metadata_json :: JsonText Metadata;
  (** [orbitrelay-protocol] *)
  EventId : Type;
  EventId_id :: Identifier EventId;
  SessionId : Type;
  SessionId_id :: Identifier SessionId;
  ActorId : Type;
  ActorId_id :: Identifier ActorId;
  ActionId : Type;
  ActionId_id :: Identifier ActionId;
  EventType : Type;
  EventType_new : string → EventType;
  EventType_as_str : EventType → string;
  Payload : Type;
  Payload_json :: JsonText Payload;
  Event : Type;
  Event_eq_dec :: EqDecision Event;
  Event_new : EventId → SessionId → ActorId → ActionId → EventType → Timestamp →
              Payload → Metadata → Event;
  event_id : Event → EventId;
  event_session_id : Event → SessionId;
  event_actor_id : Event → ActorId;
  event_action_id : Event → ActionId;
  event_type : Event → EventType;
  event_occurred_at : Event → Timestamp;
  event_payload : Event → Payload;
  event_metadata : Event → Metadata;
  (** [orbitrelay-storage] *)
  EventCursor : Type;
  EventCursor_for_storage : EntityId → EntityId → Z → EventCursor;
  cursor_storage_position : EventCursor → EntityId → EntityId → option Z;
  EventStoreCheckpoint : Type;
  EventStoreCheckpoint_for_storage : EntityId → EntityId → Z → EventStoreCheckpoint;
  checkpoint_storage_position : EventStoreCheckpoint → EntityId → EntityId → option Z;
  StoredEvent : Type;
  StoredEvent_new : EventCursor → Event → StoredEvent;
  stored_cursor : StoredEvent → EventCursor;
  stored_event_of : StoredEvent → Event;
  EventPage : Type;
  EventPage_new : list StoredEvent → option EventCursor → EventPage;
  page_events : EventPage → list StoredEvent;
  page_next_cursor : EventPage → option EventCursor;
  EventQuery : Type;
  query_validate : EventQuery → result (StorageError EventId) ();
  query_matches : EventQuery → Event → bool;
  query_session_id : EventQuery → option SessionId;
  query_actor_id : EventQuery → option ActorId;
  query_event_types : EventQuery → list EventType;
  query_upper_bound : EventQuery → option EventStoreCheckpoint;
  query_after_cursor : EventQuery → option EventCursor;
  query_limit : EventQuery → Z;
  query_for_session : SessionId → EventQuery;
  query_with_event_type : EventType → EventQuery → EventQuery;
  query_before : EventStoreCheckpoint → EventQuery → EventQuery;
  query_after : EventCursor → EventQuery → EventQuery;
  query_with_limit : Z → EventQuery → EventQuery;
  (** [orbitrelay-asset], [orbitrelay-document], [orbitrelay-canvas] *)
  AssetId : Type;
  AssetId_id :: Identifier AssetId;
  DocumentId : Type;
  DocumentId_id :: Identifier DocumentId;
  CanvasId : Type;
  CanvasId_id :: Identifier CanvasId;
}.

(** The parts of a query, as its accessors return them. *)
Record QueryFields `{Kernel} := mkQueryFields {
  f_session_id : option SessionId;
  f_actor_id : option ActorId;
  f_event_types : list EventType;
  f_upper_bound : option EventStoreCheckpoint;
  f_after_cursor : option EventCursor;
  f_limit : Z
}.
Definition query_fields `{Kernel} (q : EventQuery) : QueryFields :=
  mkQueryFields _ (query_session_id q) (query_actor_id q) (query_event_types q)
    (query_upper_bound q) (query_after_cursor q) (query_limit q).

(** What the repository relies on: identifiers and JSON columns survive a
    round trip, containers return what they were built from, an opaque storage
    position is only readable by the store and epoch that issued it, each
    builder of a query sets one field, and a valid query has a positive limit. *)
Class KernelLaws `{Kernel} : Prop := {
  EntityId_laws :: IdentifierLaws EntityId;
  EventId_laws :: IdentifierLaws EventId;
  SessionId_laws :: IdentifierLaws SessionId;
  ActorId_laws :: IdentifierLaws ActorId;
  ActionId_laws :: IdentifierLaws ActionId;
  AssetId_laws :: IdentifierLaws AssetId;
  DocumentId_laws :: IdentifierLaws DocumentId;
  CanvasId_laws :: IdentifierLaws CanvasId;
  Timestamp_laws :: JsonTextLaws Timestamp;
  Metadata_laws :: JsonTextLaws Metadata;
  Payload_laws :: JsonTextLaws Payload;
  EventType_new_as_str : ∀ t, EventType_new (EventType_as_str t) = t;
  Event_new_id : ∀ a b c d e f g h, event_id (Event_new a b c d e f g h) = a;
  Event_eta : ∀ e, Event_new (event_id e) (event_session_id e) (event_actor_id e)
                (event_action_id e) (event_type e) (event_occurred_at e)
                (event_payload e) (event_metadata e) = e;
  cursor_position : ∀ s e p s' e',
    cursor_storage_position (EventCursor_for_storage s e p) s' e' =
    if decide (s = s' ∧ e = e') then Some p else None;
  checkpoint_position : ∀ s e p s' e',
    checkpoint_storage_position (EventStoreCheckpoint_for_storage s e p) s' e' =
    if decide (s = s' ∧ e = e') then Some p else None;
  query_limit_usize : ∀ q, 0 ≤ query_limit q;
  query_validate_limit : ∀ q, query_validate q = Ok () → 0 < query_limit q;
  fields_for_session : ∀ s, query_fields (query_for_session s) =
    mkQueryFields _ (Some s) None [] None None (query_limit (query_for_session s));
  fields_with_event_type : ∀ t q, query_fields (query_with_event_type t q) =
    mkQueryFields _ (query_session_id q) (query_actor_id q) (query_event_types q ++ [t])
      (query_upper_bound q) (query_after_cursor q) (query_limit q);
  fields_before : ∀ c q, query_fields (query_before c q) =
    mkQueryFields _ (query_session_id q) (query_actor_id q) (query_event_types q)
      (Some c) (query_after_cursor q) (query_limit q);
  fields_after : ∀ c q, query_fields (query_after c q) =
    mkQueryFields _ (query_session_id q) (query_actor_id q) (query_event_types q)
      (query_upper_bound q) (Some c) (query_limit q);
  fields_with_limit : ∀ n q, 0 ≤ n → query_fields (query_with_limit n q) =
    mkQueryFields _ (query_session_id q) (query_actor_id q) (query_event_types q)
      (query_upper_bound q) (query_after_cursor q) n;
  matches_after : ∀ c q e, query_matches (query_after c q) e = query_matches q e;
  matches_before : ∀ c q e, query_matches (query_before c q) e = query_matches q e;
  matches_with_limit : ∀ n q e, query_matches (query_with_limit n q) e = query_matches q e;
  validate_after : ∀ c q, query_validate (query_after c q) = query_validate q;
  stored_cursor_new : ∀ c e, stored_cursor (StoredEvent_new c e) = c;
  stored_event_of_new : ∀ c e, stored_event_of (StoredEvent_new c e) = e;
  page_events_new : ∀ l c, page_events (EventPage_new l c) = l;
  page_next_cursor_new : ∀ l c, page_next_cursor (EventPage_new l c) = c;
}.

Create Rewrite HintDb kernel.
#[export] Hint Rewrite @Event_new_id @stored_cursor_new @stored_event_of_new
  @page_events_new @page_next_cursor_new using (typeclasses eauto) : kernel.

Lemma to_text_inj `{Identifier T, !IdentifierLaws T} (x y : T) :
  to_text x = to_text y → x = y.
Proof. intros Heq%(f_equal of_text). rewrite !of_to_text in Heq. congruence. Qed.

(** [orbitrelay-asset] and [orbitrelay-asset-runtime]: descriptors of immutable
    Assets, byte ranges and byte chunks.  Bytes are numbers below 256. *)
Class AssetKernel `{Kernel} := {
  ContentHash : Type;
  ContentHash_id :: Identifier ContentHash;
  ContentHash_from_bytes : list Z → ContentHash;
  sha256 : list Z → list Z;
  SourceAssetDescriptor : Type;
  SourceAssetDescriptor_eq_dec :: EqDecision SourceAssetDescriptor;
  SourceAssetDescriptor_new : AssetId → string → Z → ContentHash → option string →
                              option SourceAssetDescriptor;
  asset_asset_id : SourceAssetDescriptor → AssetId;
  media_type : SourceAssetDescriptor → string;
  byte_length : SourceAssetDescriptor → Z;
  content_hash : SourceAssetDescriptor → ContentHash;
  original_filename : SourceAssetDescriptor → option string;
  AssetByteRange : Type;
  AssetByteRange_new : Z → Z → option AssetByteRange;
  byte_range_offset : AssetByteRange → Z;
  byte_range_end_offset : AssetByteRange → option Z;
  AssetByteChunk : Type;
  AssetByteChunk_new : Z → list Z → Z → option AssetByteChunk;
  chunk_offset : AssetByteChunk → Z;
  chunk_bytes : AssetByteChunk → list Z
}.

(** A descriptor is rebuilt from its parts, lengths are [u64], a non-empty
    range that does not overflow is valid, and a chunk inside the Asset is
    valid and returns what it was built from. *)
Class AssetKernelLaws `{AssetKernel} : Prop := {
  ContentHash_laws :: IdentifierLaws ContentHash;
  descriptor_eta : ∀ d, SourceAssetDescriptor_new (asset_asset_id d) (media_type d) (byte_length d)
                          (content_hash d) (original_filename d) = Some d;
  descriptor_new_id : ∀ a m b h o d, SourceAssetDescriptor_new a m b h o = Some d →
    asset_asset_id d = a;
  byte_length_u64 : ∀ d, is_u64 (byte_length d);
  byte_range_new : ∀ o l, 0 ≤ o → 0 < l → o + l ≤ u64_max → is_Some (AssetByteRange_new o l);
  byte_range_fields : ∀ o l r, AssetByteRange_new o l = Some r →
    byte_range_offset r = o ∧ byte_range_end_offset r = Some (o + l);
  chunk_new : ∀ o b t, 0 ≤ o → o + Z.of_nat (length b) ≤ t → is_Some (AssetByteChunk_new o b t);
  chunk_fields : ∀ o b t c, AssetByteChunk_new o b t = Some c →
    chunk_offset c = o ∧ chunk_bytes c = b
}.

(** [orbitrelay-document]: the parts of a Document that Asset access needs. *)
Class DocumentKernel `{Kernel} := {
  DocumentDescriptor : Type;
  document_document_id : DocumentDescriptor → DocumentId;
  document_session_id : DocumentDescriptor → SessionId;
  source_asset_id : DocumentDescriptor → AssetId
}.

(** ** A concrete kernel

    Identifiers, event types and JSON columns are their own text; events,
    cursors, pages and queries are tuples and records. *)

Module Demo.

#[local] Instance text_identifier : Identifier string :=
  { to_text := id; of_text := Some }.
#[local] Instance text_json : JsonText string := { to_json := Some; of_json := Some }.
(** A timestamp is a JSON string or number, but not [null]. *)
Definition time_text (s : string) : option string := if decide (s = "null"%string) then None else Some s.
Definition time_json : JsonText string := {| to_json := time_text; of_json := time_text |}.

Record event := mkEvent {
  ev_id : string; ev_session : string; ev_actor : string; ev_action : string;
  ev_type : string; ev_time : string; ev_payload : string; ev_metadata : string
}.
#[local] Instance event_eq_dec : EqDecision event.
Proof. solve_decision. Defined.

(** A storage position with the store and epoch it belongs to. *)
Definition position : Type := string * string * Z.
Definition position_of (p : position) (s e : string) : option Z :=
  let '(s', e', z) := p in if decide (s' = s ∧ e' = e) then Some z else None.

Record query := mkQuery {
  q_session : option string; q_actor : option string; q_types : list string;
  q_upper : option position; q_after : option position; q_limit : N; q_between : option (Z * Z)
}.
Definition query_ok (q : query) : result (StorageError string) () :=
  if (q_limit q =? 0)%N then Err (InvalidQuery "limit must be greater than zero") else Ok ().
Definition matches (q : query) (e : event) : bool :=
  match q_session q with Some s => bool_decide (ev_session e = s) | None => true end &&
  match q_actor q with Some a => bool_decide (ev_actor e = a) | None => true end &&
  match q_types q with [] => true | ts => bool_decide (ev_type e ∈ ts) end &&
  match q_between q with
  | Some (low, high) => let t := default 0 (parse_u64 (ev_time e)) in (low <=? t) && (t <? high)
  | None => true
  end.
(** [EventQuery::all] and [with_time_range] *)
Definition query_all : query := mkQuery None None [] None None 100%N None.
Definition with_time_range (low high : Z) (q : query) : query :=
  mkQuery (q_session q) (q_actor q) (q_types q) (q_upper q) (q_after q) (q_limit q) (Some (low, high)).

#[export] Instance demo_kernel : Kernel := {|
  EntityId := string;
  Timestamp := string; Timestamp_json := time_json;
  unix_timestamp := λ s, default 0 (parse_u64 s);
  from_unix_timestamp := λ z, if (0 <=? z) && (z <=? i64_max) then Some (show_u64 z) else None;
  Metadata := string;
  EventId := string; SessionId := string; ActorId := string; ActionId := string;
  EventType := string; EventType_new := id; EventType_as_str := id;
  Payload := string;
  Event := event; Event_new := mkEvent; event_id := ev_id; event_session_id := ev_session;
  event_actor_id := ev_actor; event_action_id := ev_action; event_type := ev_type;
  event_occurred_at := ev_time; event_payload := ev_payload; event_metadata := ev_metadata;
  EventCursor := position;
  EventCursor_for_storage := λ s e z, (s, e, z); cursor_storage_position := position_of;
  EventStoreCheckpoint := position;
  EventStoreCheckpoint_for_storage := λ s e z, (s, e, z);
  checkpoint_storage_position := position_of;
  StoredEvent := position * event; StoredEvent_new := pair; stored_cursor := fst;
  stored_event_of := snd;
  EventPage := list (position * event) * option position; EventPage_new := pair;
  page_events := fst; page_next_cursor := snd;
  EventQuery := query; query_validate := query_ok; query_matches := matches;
  query_session_id := q_session; query_actor_id := q_actor; query_event_types := q_types;
  query_upper_bound := q_upper; query_after_cursor := q_after; query_limit := λ q, Z.of_N (q_limit q);
  query_for_session := λ s, mkQuery (Some s) None [] None None 100%N None;
  query_with_event_type := λ t q,
    mkQuery (q_session q) (q_actor q) (q_types q ++ [t]) (q_upper q) (q_after q) (q_limit q) (q_between q);
  query_before := λ c q,
    mkQuery (q_session q) (q_actor q) (q_types q) (Some c) (q_after q) (q_limit q) (q_between q);
  query_after := λ c q,
    mkQuery (q_session q) (q_actor q) (q_types q) (q_upper q) (Some c) (q_limit q) (q_between q);
  query_with_limit := λ n q,
    mkQuery (q_session q) (q_actor q) (q_types q) (q_upper q) (q_after q) (Z.to_N n) (q_between q);
  AssetId := string; DocumentId := string; CanvasId := string;
|}.

#[export] Instance demo_laws : KernelLaws.
Proof.
  split; try done; try (intros ? ?; congruence || by intros [= ->]); try by intros [].
  - intros x s. cbn. unfold time_text. case_decide; [done|]. intros [= <-]. by rewrite decide_False.
  - intros q. apply N2Z.is_nonneg.
  - intros q. cbn. unfold query_ok. destruct (N.eqb_spec (q_limit q) 0); [done|]. lia.
Qed.

(** A Document is its identity, its Session and its source Asset. *)
#[export] Instance demo_documents : DocumentKernel := {|
  DocumentDescriptor := string * string * string;
  document_document_id := λ d, d.1.1; document_session_id := λ d, d.1.2; source_asset_id := snd
|}.

(** Assets: a hash is its own text, and the digest of some bytes is the bytes
    with their length in front. *)
Record u64 := mkU64 { u64_val : Z; u64_ok : Is_true ((0 <=? u64_val) && (u64_val <=? u64_max)) }.
Lemma u64_eq (a b : u64) : u64_val a = u64_val b → a = b.
Proof. destruct a as [v Hv], b as [w Hw]. cbn. intros ->. f_equal. apply proof_irrel. Qed.
#[local] Instance u64_eq_dec : EqDecision u64.
Proof.
  intros a b. destruct (decide (u64_val a = u64_val b)) as [Heq|Hne].
  - left. by apply u64_eq.
  - right. by intros ->.
Defined.
Definition u64_new (z : Z) : option u64 :=
  match decide (Is_true ((0 <=? z) && (z <=? u64_max))) with
  | left Hz => Some (mkU64 z Hz)
  | right _ => None
  end.
Lemma u64_new_val (n : u64) : u64_new (u64_val n) = Some n.
Proof.
  destruct n as [v Hv]. unfold u64_new. cbn [u64_val]. case_decide as Hd; [|done].
  f_equal. by apply u64_eq.
Qed.

Record asset := mkAsset {
  as_id : string; as_media : string; as_length : u64; as_hash : string; as_name : option string
}.
#[local] Instance asset_eq_dec : EqDecision asset.
Proof. solve_decision. Defined.

Definition hash_text (bytes : list Z) : string :=
  fold_right (λ b s, String (ascii_of_N (Z.to_N b)) s) EmptyString bytes.

#[export] Instance demo_assets : AssetKernel := {|
  ContentHash := string; ContentHash_from_bytes := hash_text;
  sha256 := λ bytes, Z.of_nat (length bytes) :: bytes;
  SourceAssetDescriptor := asset;
  SourceAssetDescriptor_new := λ a m b h o,
    n ← u64_new b; Some (mkAsset a m n h o);
  asset_asset_id := as_id; media_type := as_media; byte_length := λ d, u64_val (as_length d);
  content_hash := as_hash; original_filename := as_name;
  AssetByteRange := Z * Z;
  AssetByteRange_new := λ o l,
    if (0 <=? o) && (0 <? l) && (o + l <=? u64_max) then Some (o, l) else None;
  byte_range_offset := fst; byte_range_end_offset := λ r, Some (r.1 + r.2);
  AssetByteChunk := Z * list Z;
  AssetByteChunk_new := λ o b t,
    if (0 <=? o) && (o + Z.of_nat (length b) <=? t) then Some (o, b) else None;
  chunk_offset := fst; chunk_bytes := snd
|}.

#[export] Instance demo_asset_laws : AssetKernelLaws.
Proof.
  split.
  - done.
  - intros []. cbn. by rewrite u64_new_val.
  - intros a m b h o d. cbn. destruct (u64_new b); [|done]. by intros [= <-].
  - intros [? ? [v Hv] ? ?]. cbn. apply Is_true_true in Hv. apply andb_prop in Hv as [H1 H2].
    apply Z.leb_le in H1, H2. done.
  - intros o l Ho Hl Hu. cbn.
    rewrite (proj2 (Z.leb_le _ _)), (proj2 (Z.ltb_lt _ _)), (proj2 (Z.leb_le (o + l) _)) by lia. done.
  - intros o l r. cbn. case_match; [|done]. by intros [= <-].
  - intros o b t Ho Hb. cbn. rewrite (proj2 (Z.leb_le _ _)), (proj2 (Z.leb_le (o + _) _)) by lia. done.
  - intros o b t c. cbn. case_match; [|done]. by intros [= <-].
Qed.

End Demo.
