(* ===== verification/Base64.v ===== *)
(** * The bearer-token codec

    Models [base64url] and [decode_base64url] of
    [crates/orbitrelay-server/src/asset_delivery/grant.rs].  The encoder and
    the decoder both shift digits through a [u32] buffer whose high bits are
    dropped by the wrapping shift; the correctness argument follows the
    integer that the digits denote, so it also shows that the dropped bits
    never matter.  A byte is a [Z] in [0, 256) and a [u8] array a list. *)

From S2P Require Import Prelude.

(** [buffer << n] on [u32] *)
Definition u32_shl (buffer n : Z) : Z := Z.land (Z.shiftl buffer n) u32_max.

(** The [TABLE] constant of the encoder. *)
Definition TABLE : list ascii :=
  String.list_ascii_of_string
    "ABCDEFGHIJKLMNOPQRSTUVWXYZabcdefghijklmnopqrstuvwxyz0123456789-_".
Definition table_at (i : Z) : ascii := nth (Z.to_nat i) TABLE "A"%char.

(** The inner [while bits >= 6] loop.  Every round removes six bits, so
    [bits] rounds of fuel are enough ([emit_sextets_spec]). *)
Fixpoint emit_sextets (fuel : nat) (buffer bits : Z) (output : list ascii) : Z * list ascii :=
  match fuel with
  | O => (bits, output)
  | S f =>
      if 6 <=? bits then
        let bits := bits - 6 in
        emit_sextets f buffer bits (output ++ [table_at (Z.land (Z.shiftr buffer bits) 0x3f)])
      else (bits, output)
  end.

(** One round of the encoder's [for byte in bytes] loop on
    [(buffer, bits, output)]. *)
Definition encode_byte (st : Z * Z * list ascii) (byte : Z) : Z * Z * list ascii :=
  let '(buffer, bits, output) := st in
  let buffer := Z.lor (u32_shl buffer 8) byte in
  let bits := bits + 8 in
  let '(bits, output) := emit_sextets (Z.to_nat bits) buffer bits output in
  (buffer, bits, output).

Definition base64url (bytes : list Z) : string :=
  let '(buffer, bits, output) := fold_left encode_byte bytes (0, 0, []) in
  String.string_of_list_ascii
    (if 0 <? bits then output ++ [table_at (Z.land (u32_shl buffer (6 - bits)) 0x3f)] else output).

(** The [match byte] of the decoder. *)
Definition sextet_value (c : ascii) : option Z :=
  if in_byte_range 65 90 c then Some (byte_of c - 65)
  else if in_byte_range 97 122 c then Some (byte_of c - 97 + 26)
  else if in_byte_range 48 57 c then Some (byte_of c - 48 + 52)
  else if char_eqb c "-" then Some 62
  else if char_eqb c "_" then Some 63
  else None.

Definition decode_char (st : Z * Z * list Z) (c : ascii) : option (Z * Z * list Z) :=
  let '(buffer, bits, output) := st in
  value ← sextet_value c;
  let buffer := Z.lor (u32_shl buffer 6) value in
  let bits := bits + 6 in
  Some (if 8 <=? bits then
          let bits := bits - 8 in
          (buffer, bits, output ++ [Z.land (Z.shiftr buffer bits) 0xff])
        else (buffer, bits, output)).

Fixpoint decode_chars (st : Z * Z * list Z) (cs : list ascii) : option (Z * Z * list Z) :=
  match cs with
  | [] => Some st
  | c :: cs' => st' ← decode_char st c; decode_chars st' cs'
  end.

Definition decode_base64url (value : string) : option (list Z) :=
  if str_is_empty value || str_contains "="%char value then None else
  '(_, _, output) ← decode_chars (0, 0, []) (String.list_ascii_of_string value);
  Some output.

(** ** Digits and the number they denote *)

Definition is_digit_of (w d : Z) : Prop := 0 ≤ d < 2 ^ w.

(** The number written by the digits [l] in base [2^w]. *)
Fixpoint digits_value (w : Z) (l : list Z) (acc : Z) : Z :=
  match l with [] => acc | d :: l' => digits_value w l' (acc * 2 ^ w + d) end.

Lemma digits_value_snoc w l d acc :
  digits_value w (l ++ [d]) acc = digits_value w l acc * 2 ^ w + d.
Proof. revert acc. induction l as [|x l IH]; intros acc; cbn; [done|]. apply IH. Qed.

Lemma digits_value_bound w l :
  0 ≤ w → Forall (is_digit_of w) l →
  0 ≤ digits_value w l 0 < 2 ^ (w * Z.of_nat (length l)).
Proof.
  intros Hw. induction l as [|d l IH] using rev_ind; intros Hl.
  - cbn. rewrite Z.mul_0_r. cbn. lia.
  - apply Forall_app in Hl as [Hl [Hd _]%Forall_cons]. specialize (IH Hl).
    rewrite digits_value_snoc, length_app, Nat2Z.inj_add, Z.mul_add_distr_l, Z.pow_add_r by lia.
    cbn. rewrite Z.mul_1_r. destruct Hd. nia.
Qed.

Lemma digits_value_inj w l1 l2 :
  0 ≤ w → Forall (is_digit_of w) l1 → Forall (is_digit_of w) l2 →
  length l1 = length l2 → digits_value w l1 0 = digits_value w l2 0 → l1 = l2.
Proof.
  intros Hw. revert l2. induction l1 as [|d1 l1 IH] using rev_ind; intros l2 H1 H2 Hlen Hv.
  - destruct l2; [done|discriminate].
  - destruct l2 as [|d2 l2 _] using rev_ind; [rewrite length_app in Hlen; cbn in *; lia|].
    rewrite !length_app in Hlen. cbn in Hlen. rewrite !digits_value_snoc in Hv.
    apply Forall_app in H1 as [H1 [[??] _]%Forall_cons], H2 as [H2 [[??] _]%Forall_cons].
    assert (digits_value w l1 0 = digits_value w l2 0 ∧ d1 = d2) as [Hq ->]
      by (apply (Z.div_mod_unique (2 ^ w)); lia).
    rewrite (IH l2); [done..|lia|done].
Qed.

(** ** One shift of a digit into the buffer *)

Lemma u32_shl_mod buffer k : 0 ≤ k → u32_shl buffer k = (buffer * 2 ^ k) mod 2 ^ 32.
Proof.
  intros. unfold u32_shl, u32_max. rewrite Z.shiftl_mul_pow2 by lia.
  replace (2 ^ 32 - 1) with (Z.ones 32) by done. by rewrite Z.land_ones by lia.
Qed.

Lemma lor_low_digit a k v : 0 ≤ k → 0 ≤ v < 2 ^ k → Z.lor (a * 2 ^ k) v = a * 2 ^ k + v.
Proof.
  intros Hk Hv. destruct (decide (v = 0)) as [->|]; [by rewrite Z.lor_0_r, Z.add_0_r|].
  symmetry. apply Z.add_nocarry_lor.
  rewrite <- Z.shiftl_mul_pow2 by lia. apply Z.bits_inj'. intros i Hi.
  rewrite Z.land_spec, Z.bits_0. destruct (Z.lt_ge_cases i k).
  - by rewrite Z.shiftl_spec_low.
  - rewrite (Z.bits_above_log2 v), andb_false_r; [done|lia|].
    apply Z.log2_lt_pow2; [lia|]. pose proof (Z.pow_le_mono_r 2 k i). lia.
Qed.

Lemma shift_in buffer bits k v :
  0 ≤ buffer → 0 ≤ bits → 0 ≤ k → bits + k ≤ 32 → is_digit_of k v →
  0 ≤ Z.lor (u32_shl buffer k) v ∧
  Z.lor (u32_shl buffer k) v mod 2 ^ (bits + k) = buffer mod 2 ^ bits * 2 ^ k + v.
Proof.
  intros Hb Hbits Hk Hle [Hv0 Hv1]. rewrite u32_shl_mod by lia.
  replace (2 ^ 32) with (2 ^ (32 - k) * 2 ^ k) by (rewrite <- Z.pow_add_r by lia; f_equal; lia).
  rewrite Zmult_mod_distr_r, lor_low_digit by lia.
  pose proof (Z.pow_pos_nonneg 2 (32 - k)). pose proof (Z.pow_pos_nonneg 2 k).
  pose proof (Z.mod_pos_bound buffer (2 ^ (32 - k)) ltac:(lia)). split; [nia|].
  rewrite Z.pow_add_r, Z.add_mul_mod_distr_r by (try apply Z.pow_pos_nonneg; lia).
  f_equal. f_equal.
  replace (32 - k) with (bits + (32 - k - bits)) by lia.
  rewrite Z.pow_add_r, Z.rem_mul_r by (try apply Z.pow_pos_nonneg; try apply Z.pow_nonzero; lia).
  rewrite Z.mul_comm, Z_mod_plus_full. by rewrite Z.mod_mod by (apply Z.pow_nonzero; lia).
Qed.

(** The top [k]-bit digit of the low [bits + k] bits of the buffer. *)
Lemma shift_out buffer bits k :
  0 ≤ bits → 0 ≤ k →
  is_digit_of k (Z.land (Z.shiftr buffer bits) (Z.ones k)) ∧
  buffer mod 2 ^ (bits + k) =
    Z.land (Z.shiftr buffer bits) (Z.ones k) * 2 ^ bits + buffer mod 2 ^ bits.
Proof.
  intros Hbits Hk. rewrite Z.land_ones, Z.shiftr_div_pow2 by lia. split.
  - apply Z.mod_pos_bound, Z.pow_pos_nonneg; lia.
  - rewrite Z.pow_add_r, Z.rem_mul_r by (try apply Z.pow_nonzero; try apply Z.pow_pos_nonneg; lia).
    lia.
Qed.

(** ** The encoder *)

(** [sx] are the sextets of the output, [W] the number they denote together
    with the [bits] low bits still in the buffer. *)
Definition pending (w : Z) (sx : list Z) (buffer bits W n : Z) : Prop :=
  Forall (is_digit_of w) sx ∧ 0 ≤ buffer ∧ 0 ≤ bits ∧
  digits_value w sx 0 * 2 ^ bits + buffer mod 2 ^ bits = W ∧
  w * Z.of_nat (length sx) + bits = n.

(** Moving the top digit of the pending bits to the output. *)
Lemma pending_emit w sx buffer bits W n :
  0 ≤ w → w ≤ bits → pending w sx buffer bits W n →
  pending w (sx ++ [Z.land (Z.shiftr buffer (bits - w)) (Z.ones w)]) buffer (bits - w) W n.
Proof.
  intros Hw Hle (Hsx & Hb & Hbits & Hv & Hn).
  destruct (shift_out buffer (bits - w) w) as [Hd Hm]; [lia..|].
  replace (bits - w + w) with bits in Hm by lia.
  split; [by apply Forall_app; split; [|constructor]|]. split; [done|]. split; [lia|].
  rewrite digits_value_snoc, length_app. cbn [length]. split; [|lia].
  rewrite Z.mul_add_distr_r, <- Z.mul_assoc, <- Z.pow_add_r by lia.
  replace (w + (bits - w)) with bits by lia. lia.
Qed.

(** Shifting a [k]-bit digit into the buffer. *)
Lemma pending_shift w k sx buffer bits W n v :
  0 ≤ k → bits + k ≤ 32 → is_digit_of k v → pending w sx buffer bits W n →
  pending w sx (Z.lor (u32_shl buffer k) v) (bits + k) (W * 2 ^ k + v) (n + k).
Proof.
  intros Hk Hle Hv (Hsx & Hb & Hbits & HW & Hn).
  destruct (shift_in buffer bits k v) as [Hpos Hm]; [lia || done..|].
  repeat split; [done..|lia| |lia]. rewrite Hm, Z.pow_add_r by lia. nia.
Qed.

Lemma emit_sextets_spec fuel : ∀ sx buffer bits W n,
  bits ≤ Z.of_nat fuel → pending 6 sx buffer bits W n →
  ∃ sx' bits', emit_sextets fuel buffer bits (map table_at sx) = (bits', map table_at sx') ∧
               bits' < 6 ∧ pending 6 sx' buffer bits' W n.
Proof.
  induction fuel as [|f IH]; intros sx buffer bits W n Hf Hp; cbn [emit_sextets].
  - exists sx, bits. split; [done|]. split; [lia|done].
  - destruct (Z.leb_spec 6 bits) as [Hle|Hlt]; [|by exists sx, bits].
    change 0x3f with (Z.ones 6).
    change ([table_at ?d]) with (map table_at [d]). rewrite <- map_app.
    apply (IH _ _ _ W n); [lia|]. by apply pending_emit.
Qed.

Definition encoder_inv (bytes : list Z) (st : Z * Z * list ascii) : Prop :=
  let '(buffer, bits, output) := st in
  ∃ sx, output = map table_at sx ∧ bits < 6 ∧
        pending 6 sx buffer bits (digits_value 8 bytes 0) (8 * Z.of_nat (length bytes)).

Lemma encode_byte_inv bytes st b :
  is_digit_of 8 b → encoder_inv bytes st → encoder_inv (bytes ++ [b]) (encode_byte st b).
Proof.
  destruct st as [[buffer bits] output]. intros Hb (sx & -> & Hlt & Hp). unfold encode_byte.
  apply (pending_shift _ 8 _ _ _ _ _ b) in Hp; [|lia|lia|done].
  destruct (emit_sextets_spec (Z.to_nat (bits + 8)) _ _ (bits + 8) _ _ ltac:(lia) Hp)
    as (sx' & bits' & -> & Hlt' & Hp').
  exists sx'. split; [done|]. split; [done|].
  rewrite digits_value_snoc, length_app. cbn [length].
  by replace (8 * Z.of_nat (length bytes + 1)) with (8 * Z.of_nat (length bytes) + 8) by lia.
Qed.

Lemma encode_bytes_inv bytes : ∀ done_ st,
  Forall (is_digit_of 8) bytes → encoder_inv done_ st →
  encoder_inv (done_ ++ bytes) (fold_left encode_byte bytes st).
Proof.
  induction bytes as [|b bytes IH]; intros done_ st Hb Hst; cbn [fold_left].
  - by rewrite app_nil_r.
  - apply Forall_cons in Hb as [Hb Hbs].
    rewrite cons_middle, app_assoc. apply IH; [done|]. by apply encode_byte_inv.
Qed.

(** What the encoder writes: sextets that denote the bytes' number, followed
    by fewer than six zero bits of padding. *)
Lemma base64url_sextets bytes :
  Forall (is_digit_of 8) bytes →
  ∃ sx pad, base64url bytes = String.string_of_list_ascii (map table_at sx) ∧
    Forall (is_digit_of 6) sx ∧ 0 ≤ pad < 6 ∧
    6 * Z.of_nat (length sx) = 8 * Z.of_nat (length bytes) + pad ∧
    digits_value 6 sx 0 = digits_value 8 bytes 0 * 2 ^ pad.
Proof.
  intros Hb. unfold base64url.
  assert (encoder_inv [] (0, 0, [])) as H0.
  { exists []. split; [done|]. split; [lia|]. repeat split; (constructor || cbn; lia). }
  pose proof (encode_bytes_inv bytes [] _ Hb H0) as Hinv. cbn [app] in Hinv.
  destruct (fold_left encode_byte bytes (0, 0, [])) as [[buffer bits] output].
  destruct Hinv as (sx & -> & Hlt & Hsx & Hbuf & Hbits & Hv & Hn).
  destruct (Z.ltb_spec 0 bits) as [Hpos|Hz].
  - set (d := Z.land (u32_shl buffer (6 - bits)) 0x3f).
    assert (d = buffer mod 2 ^ bits * 2 ^ (6 - bits)) as Hd.
    { unfold d. change 0x3f with (Z.ones 6). rewrite Z.land_ones, u32_shl_mod by lia.
      replace (2 ^ 32) with (2 ^ 6 * 2 ^ 26) by done.
      rewrite Z.rem_mul_r, Z.mul_comm, Z.add_mod, (Z.mul_comm (2 ^ 6)), Z.mod_mul, Z.add_0_r,
        !Z.mod_mod by (cbn; lia).
      replace (2 ^ 6) with (2 ^ (6 - bits) * 2 ^ bits)
        by (rewrite <- Z.pow_add_r by lia; f_equal; lia).
      by rewrite Zmult_mod_distr_l, Z.mul_comm. }
    pose proof (Z.mod_pos_bound buffer (2 ^ bits) ltac:(apply Z.pow_pos_nonneg; lia)) as Hm.
    assert (2 ^ 6 = 2 ^ bits * 2 ^ (6 - bits)) as H64
      by (rewrite <- Z.pow_add_r by lia; f_equal; lia).
    pose proof (Z.pow_pos_nonneg 2 (6 - bits) ltac:(lia) ltac:(lia)).
    exists (sx ++ [d]), (6 - bits). rewrite map_app, length_app, digits_value_snoc. cbn [length].
    split; [done|]. split; [apply Forall_app; split; [done|constructor; [split; nia|constructor]]|].
    split; [lia|]. split; [lia|]. rewrite <- Hv, Hd, H64. ring.
  - assert (bits = 0) as -> by lia. exists sx, 0.
    rewrite Z.pow_0_r, Z.mod_1_r, Z.mul_1_r, Z.add_0_r in Hv.
    repeat split; [done|lia|lia|lia].
Qed.

(** ** The decoder *)

Lemma sextet_value_table d : is_digit_of 6 d → sextet_value (table_at d) = Some d.
Proof.
  intros [H0 H1]. change (2 ^ 6) with 64 in H1.
  assert (forallb (λ n, bool_decide (sextet_value (table_at (Z.of_nat n)) = Some (Z.of_nat n)))
            (seq 0 64) = true) as Hall by (vm_compute; reflexivity).
  rewrite forallb_forall in Hall. specialize (Hall (Z.to_nat d)).
  rewrite bool_decide_eq_true, Z2Nat.id in Hall by lia.
  apply Hall, in_seq. lia.
Qed.

Lemma decode_chars_spec sx : ∀ done_ out buffer bits,
  Forall (is_digit_of 6) sx → bits < 8 →
  pending 8 out buffer bits (digits_value 6 done_ 0) (6 * Z.of_nat (length done_)) →
  ∃ out' buffer' bits',
    decode_chars (buffer, bits, out) (map table_at sx) = Some (buffer', bits', out') ∧
    bits' < 8 ∧
    pending 8 out' buffer' bits' (digits_value 6 (done_ ++ sx) 0)
      (6 * Z.of_nat (length (done_ ++ sx))).
Proof.
  induction sx as [|d sx IH]; intros done_ out buffer bits Hsx Hlt Hp.
  - rewrite app_nil_r. by exists out, buffer, bits.
  - apply Forall_cons in Hsx as [Hd Hsx]. cbn [map decode_chars]. unfold decode_char.
    rewrite sextet_value_table by done. cbn [mbind option_bind].
    apply (pending_shift _ 6 _ _ _ _ _ d) in Hp; [|lia|lia|done].
    replace (done_ ++ d :: sx) with ((done_ ++ [d]) ++ sx) by (by rewrite <- app_assoc).
    replace (6 * Z.of_nat (length done_) + 6) with (6 * Z.of_nat (length (done_ ++ [d]))) in Hp
      by (rewrite length_app; cbn; lia).
    rewrite <- digits_value_snoc in Hp.
    destruct (Z.leb_spec 8 (bits + 6)).
    + apply IH; [done|lia|]. change 0xff with (Z.ones 8). apply pending_emit; [lia..|done].
    + by apply IH; [|lia|].
Qed.

Lemma string_of_list_ascii_nonempty l :
  l ≠ [] → str_is_empty (String.string_of_list_ascii l) = false.
Proof. by destruct l. Qed.

Lemma table_no_equals sx :
  Forall (is_digit_of 6) sx →
  str_contains "=" (String.string_of_list_ascii (map table_at sx)) = false.
Proof.
  induction 1 as [|d sx Hd Hsx IH]; [done|].
  cbn [map String.string_of_list_ascii str_contains]. rewrite IH, orb_false_r.
  apply bool_decide_eq_false. intros Heq. apply sextet_value_table in Hd.
  rewrite <- Heq in Hd. discriminate.
Qed.

Lemma length_string_of_list_ascii l : str_len (String.string_of_list_ascii l) = length l.
Proof. induction l as [|a l IH]; [done|]. cbn. by rewrite IH. Qed.

(** The decoder only produces bytes. *)
Lemma decode_chars_bytes cs : ∀ buffer bits out st,
  Forall (is_digit_of 8) out → decode_chars (buffer, bits, out) cs = Some st →
  Forall (is_digit_of 8) st.2.
Proof.
  induction cs as [|c cs IH]; intros buffer bits out st Hout; cbn [decode_chars];
    [by intros [= <-]|].
  unfold decode_char. destruct (sextet_value c) as [v|]; [|done]. cbn [mbind option_bind].
  case_match; apply IH; [|done]. apply Forall_app. split; [done|]. constructor; [|constructor].
  change 0xff with (Z.ones 8). rewrite Z.land_ones by lia. apply Z.mod_pos_bound. lia.
Qed.

Lemma decode_base64url_bytes value out :
  decode_base64url value = Some out → Forall (is_digit_of 8) out.
Proof.
  unfold decode_base64url. case_match; [done|].
  destruct (decode_chars _ _) as [[[buffer bits] out']|] eqn:Hd; [|done].
  intros [= <-]. apply (decode_chars_bytes _ _ _ _ _ (List.Forall_nil _) Hd).
Qed.

(** Decoding inverts encoding. *)
Lemma decode_base64url_encode bytes :
  Forall (is_digit_of 8) bytes → bytes ≠ [] → decode_base64url (base64url bytes) = Some bytes.
Proof.
  intros Hbytes Hne.
  destruct (base64url_sextets bytes Hbytes) as (sx & pad & -> & Hsx & Hpad & Hlen & Hv).
  assert (sx ≠ []) as Hsxne by (destruct bytes, sx; cbn in *; [done..|lia|done]).
  unfold decode_base64url. rewrite table_no_equals by done.
  rewrite string_of_list_ascii_nonempty by (by destruct sx). cbn [orb].
  rewrite String.list_ascii_of_string_of_list_ascii.
  destruct (decode_chars_spec sx [] [] 0 0) as (out & buffer & bits & -> & Hlt & Hp);
    [done|lia|repeat split; [constructor|cbn; lia..]|].
  cbn [mbind option_bind app] in *. f_equal. destruct Hp as (Hout & Hb & Hbits & HW & Hn).
  assert (bits = pad ∧ length out = length bytes) as [-> Hl] by lia.
  apply (digits_value_inj 8); [lia|done..|].
  pose proof (Z.mod_pos_bound buffer (2 ^ pad) ltac:(apply Z.pow_pos_nonneg; lia)) as Hm.
  apply (Z.div_mod_unique (2 ^ pad) _ _ (buffer mod 2 ^ pad) 0); lia.
Qed.

(** ** Properties *)

(** Round trip of the token codec: decoding the encoding of any non-empty
    byte string gives the bytes back, and an encoded 32-byte secret has
    exactly 43 characters. *)
Theorem base64url_roundtrip (bytes : list Z)
    (Hbytes : Forall (is_digit_of 8) bytes) (Hne : bytes ≠ []) :
  decode_base64url (base64url bytes) = Some bytes ∧
  (length bytes = 32%nat → str_len (base64url bytes) = 43%nat).
Proof.
  split; [by apply decode_base64url_encode|]. intros H32.
  destruct (base64url_sextets bytes Hbytes) as (sx & pad & -> & Hsx & Hpad & Hlen & Hv).
  rewrite length_string_of_list_ascii, length_map. lia.
Qed.

(** An instance: the 32-byte secret 0, 1, ..., 31. *)
Lemma base64url_roundtrip_witness :
  decode_base64url "AAECAwQFBgcICQoLDA0ODxAREhMUFRYXGBkaGxwdHh8" = Some (Z.of_nat <$> seq 0 32).
Proof.
  change "AAECAwQFBgcICQoLDA0ODxAREhMUFRYXGBkaGxwdHh8" with (base64url (Z.of_nat <$> seq 0 32)).
  apply base64url_roundtrip; [|discriminate].
  apply (bool_decide_unpack _). vm_compute. exact I.
Defined.
