(* ===== verification/Range.v ===== *)
(** * Single-byte-range parsing for HTTP Asset delivery

    Models [crates/orbitrelay-server/src/asset_delivery/range.rs]: the
    [Range] request header is parsed against the immutable byte length of an
    Asset.  [AssetByteRange] belongs to the kernel's Asset runtime, so its
    constructor is a parameter of [asset_range]. *)

From S2P Require Import Prelude.

(** A resolved inclusive HTTP range. *)
Record ResolvedRange := mkResolvedRange { range_start : Z; range_end : Z }.

Inductive RangeParseError := Malformed | Unsatisfiable | Multiple.

#[global] Instance ResolvedRange_eq_dec : EqDecision ResolvedRange.
Proof. solve_decision. Defined.
#[global] Instance RangeParseError_eq_dec : EqDecision RangeParseError.
Proof. solve_decision. Defined.

(** [ResolvedRange::new]: validates inclusive bounds. *)
Definition ResolvedRange_new (start end_ : Z) : result RangeParseError ResolvedRange :=
  if end_ <? start then Err Unsatisfiable else Ok (mkResolvedRange start end_).

(** [ResolvedRange::length]: the number of bytes, [end - start + 1] on [u64]. *)
Definition range_length (r : ResolvedRange) : Z := range_end r - range_start r + 1.

(** [ResolvedRange::asset_range]: the kernel's half-open range. *)
Definition asset_range {AssetByteRange} (AssetByteRange_new : Z → Z → option AssetByteRange)
    (r : ResolvedRange) : result RangeParseError AssetByteRange :=
  ok_or Unsatisfiable (AssetByteRange_new (range_start r) (range_length r)).

(** [parse_range]: one [Range] header against an immutable Asset length. *)
Definition parse_range (value : string) (total : Z)
    : result RangeParseError (option ResolvedRange) :=
  spec ← ok_or Malformed (strip_prefix "bytes=" value);
  if str_contains ","%char spec then Err Multiple else
  '(first, second) ← ok_or Malformed (split_once "-"%char spec);
  if str_is_empty first then
    suffix ← ok_or Malformed (parse_u64 second);
    if (suffix =? 0) || (total =? 0) then Err Unsatisfiable else
    Some <$> ResolvedRange_new (u64_saturating_sub total suffix) (total - 1)
  else
    start ← ok_or Malformed (parse_u64 first);
    if (total =? 0) || (total <=? start) then Err Unsatisfiable else
    if str_is_empty second then Some <$> ResolvedRange_new start (total - 1) else
    end_ ← ok_or Malformed (parse_u64 second);
    Some <$> ResolvedRange_new start (Z.min end_ (total - 1)).

(** ** Lemmas *)

Lemma ResolvedRange_new_Ok s e r :
  ResolvedRange_new s e = Ok r → r = mkResolvedRange s e ∧ s ≤ e.
Proof. unfold ResolvedRange_new. case (Z.ltb_spec e s); [done|]. by intros ? [= <-]. Qed.

Lemma fmap_Some_ResolvedRange_new s e o :
  Some <$> ResolvedRange_new s e = Ok o → o = Some (mkResolvedRange s e) ∧ s ≤ e.
Proof.
  destruct (ResolvedRange_new s e) as [r|] eqn:H; [|done].
  apply ResolvedRange_new_Ok in H as [-> ?]. by intros [= <-].
Qed.

(** The three header forms a client can send, printed. *)
Definition header_closed (s e : Z) : string := "bytes=" +:+ show_u64 s +:+ String "-" (show_u64 e).
Definition header_open (s : Z) : string := "bytes=" +:+ show_u64 s +:+ String "-" EmptyString.
Definition header_suffix (n : Z) : string := "bytes=" +:+ String "-" (show_u64 n).

Lemma show_u64_no_char c n : 0 ≤ n → is_digit c = false → str_contains c (show_u64 n) = false.
Proof. intros Hn Hc. exact (str_forall_contains is_digit c _ (show_u64_digits n Hn) Hc). Qed.

Lemma show_u64_nonempty n : str_is_empty (show_u64 n) = false.
Proof. by destruct (show_digits_cons 20 n EmptyString ltac:(lia)) as (c & s & Hs); unfold show_u64; rewrite Hs. Qed.

(** The specification: what a header asks for, as a half-open slice of an
    Asset of [total] bytes. *)
Definition closed_spec (s e total : Z) : result RangeParseError (option ResolvedRange) :=
  if decide (s < total ∧ s ≤ e) then Ok (Some (mkResolvedRange s (Z.min e (total - 1))))
  else Err Unsatisfiable.
Definition suffix_spec (n total : Z) : result RangeParseError (option ResolvedRange) :=
  if decide (0 < n ∧ 0 < total) then Ok (Some (mkResolvedRange (Z.max 0 (total - n)) (total - 1)))
  else Err Unsatisfiable.

Lemma parse_range_two f g total :
  str_contains "," f = false → str_contains "," g = false → str_contains "-" f = false →
  str_is_empty f = false →
  parse_range ("bytes=" +:+ f +:+ String "-" g) total =
    (start ← ok_or Malformed (parse_u64 f);
     if (total =? 0) || (total <=? start) then Err Unsatisfiable else
     if str_is_empty g then Some <$> ResolvedRange_new start (total - 1) else
     end_ ← ok_or Malformed (parse_u64 g);
     Some <$> ResolvedRange_new start (Z.min end_ (total - 1))).
Proof.
  intros Hf Hg Hd He. unfold parse_range. rewrite strip_prefix_app. cbn [ok_or mbind result_mbind].
  rewrite str_contains_app, Hf. cbn [str_contains]. rewrite Hg.
  rewrite split_once_app by done. cbn [ok_or mbind result_mbind]. by rewrite He.
Qed.

(** What an accepted range is. *)
Lemma parse_range_bounds (value : string) (total : Z) (o : option ResolvedRange)
    (Htotal : is_u64 total) (Hok : parse_range value total = Ok o) :
  ∃ r, o = Some r ∧ 0 ≤ range_start r ≤ range_end r ∧ range_end r < total ∧
       1 ≤ range_length r ≤ total ∧ is_u64 (range_length r).
Proof.
  unfold parse_range in Hok. destruct Htotal as [Ht0 Ht1].
  apply bind_Ok_inv in Hok as (spec & _ & Hok). case_match; [done|].
  apply bind_Ok_inv in Hok as ([first second] & _ & Hok). case_match.
  - apply bind_Ok_inv in Hok as (suffix & Hs & Hok). inv_result.
    apply parse_u64_bounds in Hs as [??].
    case_match eqn:Hz; [done|]. apply orb_false_elim in Hz as [Hz1 Hz2].
    apply fmap_Some_ResolvedRange_new in Hok as [-> Hle].
    apply Z.eqb_neq in Hz1, Hz2. eexists; split; [done|].
    unfold range_length, u64_saturating_sub, is_u64 in *. cbn in *. lia.
  - apply bind_Ok_inv in Hok as (start & Hs & Hok). inv_result.
    apply parse_u64_bounds in Hs as [??].
    case_match eqn:Hz; [done|]. apply orb_false_elim in Hz as [Hz1 Hz2].
    apply Z.eqb_neq in Hz1. apply Z.leb_gt in Hz2.
    assert (∃ e, o = Some (mkResolvedRange start e) ∧ start ≤ e < total) as (e & -> & He).
    { case_match.
      - apply fmap_Some_ResolvedRange_new in Hok as [-> ?]. eexists; split; [done|lia].
      - apply bind_Ok_inv in Hok as (e & _ & Hok).
        apply fmap_Some_ResolvedRange_new in Hok as [-> ?]. eexists; split; [done|lia]. }
    eexists; split; [done|]. unfold range_length, is_u64 in *. cbn. lia.
Qed.

(** ** Properties *)

(** Every range that [parse_range] accepts lies inside the Asset:
    [start <= end < total], its length is the exact number of bytes between
    the two ends, is positive and fits in [u64], and [Ok(None)] is never
    returned. *)
Theorem parse_range_in_bounds (value : string) (total : Z) (o : option ResolvedRange)
    (Htotal : is_u64 total) (Hok : parse_range value total = Ok o) :
  ∃ r, o = Some r ∧ 0 ≤ range_start r ≤ range_end r ∧ range_end r < total ∧
       1 ≤ range_length r ≤ total ∧ is_u64 (range_length r).
Proof. exact (parse_range_bounds value total o Htotal Hok). Qed.

(** Round trip of the three header forms: for all [u64] numbers the
    header that a client prints resolves to exactly the slice it names,
    clamped to the Asset, and an out-of-range one is unsatisfiable. *)
Theorem parse_range_headers (s e n total : Z)
    (Hs : is_u64 s) (He : is_u64 e) (Hn : is_u64 n) (Ht : is_u64 total) :
  parse_range (header_closed s e) total = closed_spec s e total ∧
  parse_range (header_open s) total = closed_spec s u64_max total ∧
  parse_range (header_suffix n) total = suffix_spec n total.
Proof.
  pose proof Hs as [Hs0 Hs1]; pose proof He as [He0 He1]; pose proof Hn as [Hn0 Hn1];
    pose proof Ht as [Ht0 Ht1].
  assert (∀ a b, Some <$> ResolvedRange_new a b =
            if decide (a ≤ b) then Ok (Some (mkResolvedRange a b)) else Err Unsatisfiable) as Hnew.
  { intros a b. unfold ResolvedRange_new. case (Z.ltb_spec b a); case_decide; done || lia. }
  repeat split.
  - unfold header_closed. rewrite parse_range_two by
      (done || (apply show_u64_no_char; done) || apply show_u64_nonempty).
    rewrite !parse_show_u64 by done. cbn [ok_or mbind result_mbind].
    rewrite show_u64_nonempty, Hnew. unfold closed_spec.
    destruct (Z.eqb_spec total 0), (Z.leb_spec total s); cbn [orb]; repeat case_decide; done || lia.
  - unfold header_open. rewrite parse_range_two by
      (done || (apply show_u64_no_char; done) || apply show_u64_nonempty).
    rewrite !parse_show_u64 by done. cbn [ok_or mbind result_mbind str_is_empty].
    rewrite Hnew. unfold closed_spec. rewrite (Z.min_r u64_max) by lia.
    destruct (Z.eqb_spec total 0), (Z.leb_spec total s); cbn [orb]; repeat case_decide; done || lia.
  - unfold header_suffix, parse_range. rewrite strip_prefix_app. cbn [ok_or mbind result_mbind].
    cbn [str_contains]. rewrite show_u64_no_char by done.
    change (char_eqb "," "-") with false. cbn [orb split_once].
    rewrite char_eqb_refl. cbn [ok_or mbind result_mbind str_is_empty].
    rewrite parse_show_u64 by done. cbn [ok_or mbind result_mbind].
    rewrite Hnew. unfold suffix_spec, u64_saturating_sub.
    destruct (Z.eqb_spec n 0), (Z.eqb_spec total 0); cbn [orb]; repeat case_decide; done || lia.
Qed.

(** An instance: the header [bytes=4-] on a ten-byte Asset. *)
Lemma parse_range_in_bounds_witness :
  parse_range "bytes=4-" 10 = Ok (Some (mkResolvedRange 4 9)) ∧
  ∃ r, Some (mkResolvedRange 4 9) = Some r ∧ 0 ≤ range_start r ≤ range_end r ∧ range_end r < 10 ∧
       1 ≤ range_length r ≤ 10 ∧ is_u64 (range_length r).
Proof.
  split; [reflexivity|].
  apply (parse_range_in_bounds "bytes=4-" 10); [vm_compute; split; discriminate | reflexivity].
Defined.

(** An instance: closed, open and suffix headers on a ten-byte Asset. *)
Lemma parse_range_headers_witness :
  parse_range (header_closed 0 99) 10 = Ok (Some (mkResolvedRange 0 9)) ∧
  parse_range (header_open 0) 10 = Ok (Some (mkResolvedRange 0 9)) ∧
  parse_range (header_suffix 4) 10 = Ok (Some (mkResolvedRange 6 9)).
Proof.
  apply (parse_range_headers 0 99 4 10); vm_compute; split; discriminate.
Defined.
