(* ===== verification/Grant.v ===== *)
(** * Short-lived Asset access Grants

    Models [AssetAccessGrantIssuer] of
    [crates/orbitrelay-server/src/asset_delivery/grant.rs]: a bounded registry
    from the SHA-256 digest of a random 32-byte secret to an immutable Grant.
    The clock reading and the bytes of the random source are inputs of each
    operation; [sha256] is the digest function of the [sha2] crate.  Every
    operation returns the registry it leaves behind also when it fails,
    because expired entries are dropped before the capacity check. *)

From S2P Require Import Prelude Kernel Base64.

Section grant.
Context `{Kernel} (sha256 : list Z → list Z).

Record AssetAccessGrant := mkGrant {
  grant_asset_id : AssetId;
  grant_actor_id : ActorId;
  grant_session_id : SessionId;
  grant_document_id : DocumentId;
  grant_expires_at : Timestamp
}.

Inductive GrantError := GrantUnavailable | GrantRandomness | GrantUnauthorized.

Record AssetAccessGrantIssuer := mkIssuer {
  entries : gmap (list Z) AssetAccessGrant;
  ttl_seconds : Z;
  max_grants : Z
}.

Definition set_entries (st : AssetAccessGrantIssuer) (m : gmap (list Z) AssetAccessGrant)
    : AssetAccessGrantIssuer := mkIssuer m (ttl_seconds st) (max_grants st).

(** [AssetAccessGrantIssuer::new] *)
Definition issuer_new (ttl max : Z) : AssetAccessGrantIssuer := mkIssuer ∅ ttl max.

(** [digest]: the index key of a secret. *)
Definition digest (raw : list Z) : list Z := sha256 raw.

(** [entries.retain(|_, grant| grant.expires_at > now)] *)
Definition live (now : Timestamp) (kv : list Z * AssetAccessGrant) : Prop :=
  unix_timestamp now < unix_timestamp (grant_expires_at kv.2).
#[global] Instance live_dec now kv : Decision (live now kv).
Proof. unfold live; apply _. Defined.
Definition retain_live (now : Timestamp) (m : gmap (list Z) AssetAccessGrant)
    : gmap (list Z) AssetAccessGrant := filter (live now) m.

(** [AssetAccessGrantIssuer::issue]; [rand] is the outcome of [getrandom]. *)
Definition issue (st : AssetAccessGrantIssuer) (now : Timestamp) (rand : option (list Z))
    (asset : AssetId) (actor : ActorId) (session : SessionId) (document : DocumentId)
    : result GrantError (string * AssetAccessGrant) * AssetAccessGrantIssuer :=
  match from_unix_timestamp (i64_saturating_add (unix_timestamp now) (ttl_seconds st)) with
  | None => (Err GrantUnavailable, st)
  | Some expires_at =>
      let m := retain_live now (entries st) in
      if max_grants st <=? Z.of_nat (size m) then (Err GrantUnavailable, set_entries st m) else
      match rand with
      | None => (Err GrantRandomness, set_entries st m)
      | Some raw =>
          let token := base64url raw in
          let grant := mkGrant asset actor session document expires_at in
          (Ok (token, grant), set_entries st (<[digest raw := grant]> m))
      end
  end.

(** [AssetAccessGrantIssuer::validate] *)
Definition validate (st : AssetAccessGrantIssuer) (now : Timestamp) (token : string)
    (asset : AssetId) : result GrantError AssetAccessGrant * AssetAccessGrantIssuer :=
  if negb (str_len token =? 43)%nat then (Err GrantUnauthorized, st) else
  match decode_base64url token with
  | None => (Err GrantUnauthorized, st)
  | Some raw =>
      if negb (length raw =? 32)%nat then (Err GrantUnauthorized, st) else
      if negb (bool_decide (base64url raw = token)) then (Err GrantUnauthorized, st) else
      let key := digest raw in
      match entries st !! key with
      | None => (Err GrantUnauthorized, st)
      | Some grant =>
          if unix_timestamp (grant_expires_at grant) <=? unix_timestamp now then
            (Err GrantUnauthorized, set_entries st (delete key (entries st)))
          else if negb (bool_decide (grant_asset_id grant = asset)) then
            (Err GrantUnauthorized, st)
          else (Ok grant, st)
      end
  end.

(** [AssetAccessGrantIssuer::len] *)
Definition issuer_len (st : AssetAccessGrantIssuer) : Z := Z.of_nat (size (entries st)).

(** ** Runs: the calls a registry receives, in the order of its mutex *)

Inductive grant_op :=
| OpIssue (now : Timestamp) (rand : option (list Z)) (asset : AssetId) (actor : ActorId)
    (session : SessionId) (document : DocumentId)
| OpValidate (now : Timestamp) (token : string) (asset : AssetId).

Definition run_op (st : AssetAccessGrantIssuer) (op : grant_op) : AssetAccessGrantIssuer :=
  match op with
  | OpIssue now rand a b c d => (issue st now rand a b c d).2
  | OpValidate now token a => (validate st now token a).2
  end.
Definition run_ops (st : AssetAccessGrantIssuer) (ops : list grant_op)
    : AssetAccessGrantIssuer := fold_left run_op ops st.

(** A secret as [getrandom] fills it: 32 bytes. *)
Definition is_secret (raw : list Z) : Prop := length raw = 32%nat ∧ Forall (is_digit_of 8) raw.

(** ** Lemmas *)

Lemma is_secret_token raw :
  is_secret raw →
  str_len (base64url raw) = 43%nat ∧ decode_base64url (base64url raw) = Some raw.
Proof.
  intros [Hlen Hb]. destruct (base64url_sextets raw Hb) as (sx & pad & Heq & Hsx & Hpad & Hl & Hv).
  assert (raw ≠ []) as Hne by (by intros ->).
  rewrite Heq, length_string_of_list_ascii, length_map, <- Heq. split; [lia|].
  by apply decode_base64url_encode.
Qed.

(** [validate] on the token of a secret, after the format checks. *)
Lemma validate_token st now raw asset :
  is_secret raw →
  validate st now (base64url raw) asset =
  match entries st !! digest raw with
  | None => (Err GrantUnauthorized, st)
  | Some grant =>
      if unix_timestamp (grant_expires_at grant) <=? unix_timestamp now then
        (Err GrantUnauthorized, set_entries st (delete (digest raw) (entries st)))
      else if negb (bool_decide (grant_asset_id grant = asset)) then (Err GrantUnauthorized, st)
      else (Ok grant, st)
  end.
Proof.
  intros Hs. destruct (is_secret_token raw Hs) as [Hl Hd]. destruct Hs as [H32 _].
  unfold validate. rewrite Hl, Hd, H32. cbn [Nat.eqb negb]. by rewrite bool_decide_eq_true_2.
Qed.

Lemma lookup_retain_live now m k g :
  retain_live now m !! k = Some g ↔ m !! k = Some g ∧ live now (k, g).
Proof. unfold retain_live. by rewrite map_lookup_filter_Some. Qed.

Lemma size_retain_live now m : (size (retain_live now m) ≤ size m)%nat.
Proof. unfold retain_live. apply map_subseteq_size, map_filter_subseteq. Qed.

(** How one call changes the entry of a key. *)
Lemma run_op_lookup st op k g :
  entries (run_op st op) !! k = Some g →
  entries st !! k = Some g ∨
  ∃ now raw a b c d, op = OpIssue now (Some raw) a b c d ∧ k = digest raw ∧ grant_asset_id g = a.
Proof.
  destruct op as [now rand a b c d|now token a]; cbn [run_op]; unfold issue, validate.
  - case_match eqn:Hexp; [|by left]. case_match; cbn; [by rewrite lookup_retain_live; left; tauto|].
    destruct rand as [raw|]; cbn; [|by rewrite lookup_retain_live; left; tauto].
    rewrite lookup_insert. case_decide as Hk.
    + intros [= <-]. right. by exists now, raw, a, b, c, d.
    + rewrite lookup_retain_live. tauto.
  - repeat case_match; cbn; try by left.
    intros [_ Hk]%lookup_delete_Some. by left.
Qed.

Lemma run_op_config st op :
  ttl_seconds (run_op st op) = ttl_seconds st ∧ max_grants (run_op st op) = max_grants st.
Proof. destruct op; cbn; unfold issue, validate; repeat case_match; done. Qed.

(** A call that cannot disturb the entry [key] before the time [exp]: its
    clock reading is earlier and it does not draw a colliding secret. *)
Definition undisturbing (exp : Z) (key : list Z) (op : grant_op) : Prop :=
  match op with
  | OpIssue now rand _ _ _ _ =>
      unix_timestamp now < exp ∧ match rand with Some raw => digest raw ≠ key | None => True end
  | OpValidate now _ _ => unix_timestamp now < exp
  end.

Lemma run_op_keeps st op key g :
  entries st !! key = Some g → undisturbing (unix_timestamp (grant_expires_at g)) key op →
  entries (run_op st op) !! key = Some g.
Proof.
  intros Hk Hop. destruct op as [now rand a b c d|now token a];
    cbn [run_op undisturbing] in *; unfold issue, validate.
  - destruct Hop as [Hnow Hrand].
    assert (retain_live now (entries st) !! key = Some g) as Hr by (by rewrite lookup_retain_live).
    repeat case_match; cbn; try done. by rewrite lookup_insert_ne.
  - repeat case_match; cbn; try done. simplify_eq.
    rewrite lookup_delete_ne; [done|]. intros <-. simplify_eq.
    match goal with He : (_ <=? _) = true |- _ => apply Z.leb_le in He end. lia.
Qed.

Lemma run_op_bounded st op :
  issuer_len st ≤ max_grants st → issuer_len (run_op st op) ≤ max_grants st.
Proof.
  unfold issuer_len. intros Hle. destruct op as [now rand a b c d|now token a]; cbn [run_op].
  - unfold issue. pose proof (size_retain_live now (entries st)).
    repeat case_match; cbn; try lia.
    match goal with He : (_ <=? _) = false |- _ => apply Z.leb_gt in He end.
    rewrite map_size_insert. case_match; cbn; lia.
  - unfold validate. repeat case_match; cbn; try lia.
    rewrite map_size_delete. case_match; cbn; lia.
Qed.

Lemma issue_Ok st now rand a b c d token g st' :
  issue st now rand a b c d = (Ok (token, g), st') →
  ∃ raw, rand = Some raw ∧ token = base64url raw ∧ entries st' !! digest raw = Some g ∧
         grant_asset_id g = a ∧ grant_document_id g = d.
Proof.
  unfold issue. repeat case_match; intros [= <- <- <-]. subst.
  eexists. repeat split; [done..|]. cbn. apply lookup_insert_eq.
Qed.

Lemma run_ops_lookup st ops k g :
  entries (run_ops st ops) !! k = Some g →
  entries st !! k = Some g ∨
  ∃ now raw b c d, OpIssue now (Some raw) (grant_asset_id g) b c d ∈ ops ∧ k = digest raw.
Proof.
  unfold run_ops. induction ops as [|op ops IH] using rev_ind; [by left|].
  rewrite fold_left_app. cbn [fold_left]. intros Hk.
  apply run_op_lookup in Hk as [[?|(now & raw & b & c & d & Hin & ->)]%IH|Hnew]; [by left| |];
    right.
  - exists now, raw, b, c, d. split; [|done]. apply elem_of_app. by left.
  - destruct Hnew as (now & raw & a & b & c & d & -> & -> & <-).
    exists now, raw, b, c, d. split; [|done]. apply elem_of_app. right. by left.
Qed.

(** What an accepted token is, the forward half of the characterization. *)
Lemma validate_Ok st now token asset g st' :
  validate st now token asset = (Ok g, st') →
  st' = st ∧ ∃ raw, is_secret raw ∧ token = base64url raw ∧ entries st !! digest raw = Some g ∧
    grant_asset_id g = asset ∧ unix_timestamp now < unix_timestamp (grant_expires_at g).
Proof.
  unfold validate. repeat case_match; intros [= <- <-]. split; [done|].
  repeat match goal with
  | Hb : negb _ = false |- _ => apply negb_false_iff in Hb
  | Hb : bool_decide _ = true |- _ => apply bool_decide_eq_true in Hb
  | Hb : (_ =? _)%nat = true |- _ => apply Nat.eqb_eq in Hb
  | Hb : (_ <=? _) = false |- _ => apply Z.leb_gt in Hb
  end. subst.
  eexists. repeat split; [done|by eapply decode_base64url_bytes|done..].
Qed.

(** ** Properties *)

(** C39. A token is accepted exactly when it is the canonical encoding of a
    32-byte secret whose digest is registered with a Grant for the requested
    Asset that expires strictly after the current time; an accepted token
    leaves the registry unchanged. *)
Theorem validate_accepts_iff st now token asset g st' :
  validate st now token asset = (Ok g, st') ↔
  st' = st ∧ ∃ raw, is_secret raw ∧ token = base64url raw ∧ entries st !! digest raw = Some g ∧
    grant_asset_id g = asset ∧ unix_timestamp now < unix_timestamp (grant_expires_at g).
Proof.
  split; [apply validate_Ok|]. intros [-> (raw & Hs & -> & Hk & Ha & Hnow)].
  rewrite validate_token, Hk by done.
  rewrite (proj2 (Z.leb_gt _ _)) by done. by rewrite bool_decide_eq_true_2.
Qed.

(** Lifetime of a token: after a successful [issue], whatever calls
    follow at times before the expiry (none of which draws a secret with the
    same digest), the token still opens its Asset, with the issued Grant. *)
Theorem issued_token_stays_valid st now raw a b c d token g st1 ops now'
    (Hsecret : is_secret raw)
    (Hissue : issue st now (Some raw) a b c d = (Ok (token, g), st1))
    (Hops : Forall (undisturbing (unix_timestamp (grant_expires_at g)) (digest raw)) ops)
    (Hnow : unix_timestamp now' < unix_timestamp (grant_expires_at g)) :
  validate (run_ops st1 ops) now' token a = (Ok g, run_ops st1 ops).
Proof.
  apply issue_Ok in Hissue as (raw' & [= <-] & -> & Hk & Ha & _).
  assert (entries (run_ops st1 ops) !! digest raw = Some g) as Hk'.
  { unfold run_ops. revert st1 Hk. induction Hops as [|op ops Hop _ IH]; intros st1 Hk; [done|].
    apply IH. by apply run_op_keeps. }
  rewrite validate_token, Hk' by done.
  rewrite (proj2 (Z.leb_gt _ _)) by done. by rewrite bool_decide_eq_true_2.
Qed.

(** C24. Provenance: in every run from the empty registry, an accepted token
    encodes a secret with the digest of a secret that an earlier [issue] call
    drew for the same Asset, so a token that was never issued is accepted only
    at a SHA-256 collision. *)
Theorem accepted_token_was_issued ttl max ops now token asset g st'
    (Hok : validate (run_ops (issuer_new ttl max) ops) now token asset = (Ok g, st')) :
  ∃ raw raw' now0 b c d,
    OpIssue now0 (Some raw') asset b c d ∈ ops ∧ token = base64url raw ∧ sha256 raw = sha256 raw'.
Proof.
  apply validate_Ok in Hok as (_ & raw & _ & -> & Hk & <- & _).
  apply run_ops_lookup in Hk as [Hk|(now0 & raw' & b & c & d & Hin & Heq)];
    [cbn in Hk; by rewrite lookup_empty in Hk|]. by exists raw, raw', now0, b, c, d.
Qed.

(** The registry never holds more than [max_grants] records, in any run. *)
Theorem registry_is_bounded ttl max ops (Hmax : 0 ≤ max) :
  issuer_len (run_ops (issuer_new ttl max) ops) ≤ max.
Proof.
  cut (issuer_len (run_ops (issuer_new ttl max) ops) ≤ max_grants (run_ops (issuer_new ttl max) ops)
       ∧ max_grants (run_ops (issuer_new ttl max) ops) = max); [lia|].
  unfold run_ops. induction ops as [|op ops [IH1 IH2]] using rev_ind; [by cbn|].
  rewrite fold_left_app. cbn [fold_left].
  destruct (run_op_config (fold_left run_op ops (issuer_new ttl max)) op) as [_ ->].
  split; [by apply run_op_bounded|done].
Qed.

End grant.

(** ** Witnesses, on the concrete kernel with the identity as digest *)

Section witnesses.
#[local] Existing Instance Demo.demo_kernel.

Definition demo_secret : list Z := Z.of_nat <$> seq 0 32.
Lemma demo_secret_ok : is_secret demo_secret.
Proof. split; [done|]. apply (bool_decide_unpack _). vm_compute. exact I. Defined.

Definition demo_empty : AssetAccessGrantIssuer (H := Demo.demo_kernel) := issuer_new 600 2.
Definition demo_op : grant_op (H := Demo.demo_kernel) :=
  OpIssue (H := Demo.demo_kernel) "1000" (Some demo_secret) "asset" "actor" "session" "document".
Definition demo_grant : AssetAccessGrant (H := Demo.demo_kernel) :=
  mkGrant (H := Demo.demo_kernel) "asset" "actor" "session" "document" "1600".
Definition demo_issued : AssetAccessGrantIssuer (H := Demo.demo_kernel) :=
  run_op id demo_empty demo_op.

Lemma pair_eta {A B} (p : A * B) a : p.1 = a → p = (a, p.2).
Proof. by destruct p; intros <-. Qed.

Lemma demo_issued_lookup :
  entries (run_ops id (issuer_new (H := Demo.demo_kernel) 600 2) [demo_op])
    !! digest id demo_secret = Some demo_grant.
Proof. apply lookup_insert_eq. Qed.

Lemma issued_token_stays_valid_witness :
  validate (H := Demo.demo_kernel) id demo_issued "1599" (base64url demo_secret) "asset" =
  (Ok demo_grant, demo_issued).
Proof.
  apply (issued_token_stays_valid (H := Demo.demo_kernel) id demo_empty "1000" demo_secret
           "asset" "actor" "session" "document" _ demo_grant demo_issued [] "1599").
  - apply demo_secret_ok.
  - apply pair_eta. reflexivity.
  - constructor.
  - vm_compute. reflexivity.
Defined.

Lemma accepted_token_was_issued_witness :
  ∃ raw raw' now0 b c d,
    OpIssue (H := Demo.demo_kernel) now0 (Some raw') "asset" b c d ∈ [demo_op] ∧
    base64url demo_secret = base64url raw ∧ id raw = id raw'.
Proof.
  apply (accepted_token_was_issued (H := Demo.demo_kernel) id 600 2 [demo_op] "1599"
           (base64url demo_secret) "asset" demo_grant demo_issued).
  rewrite validate_token by apply demo_secret_ok. rewrite demo_issued_lookup.
  reflexivity.
Defined.

Lemma registry_is_bounded_witness :
  issuer_len (run_ops id demo_empty [demo_op; demo_op; demo_op]) ≤ 2.
Proof. apply (registry_is_bounded (H := Demo.demo_kernel) id 600 2). lia. Defined.

End witnesses.
