(* ===== verification/Sql.v ===== *)
(** * Connections, transactions and faults

    The three stores of the repository own one SQLite connection each.  A
    connection holds the committed tables, the working copy of an open
    transaction, and a plan of faults: every call into SQLite (or, in the
    Asset store, into the filesystem) consumes one entry of the plan and fails
    with it when it is [Some].  An empty plan is a fault-free run; theorems
    that quantify over the plan hold whatever calls fail.

    [rusqlite::Transaction] rolls back when it is dropped without a commit,
    and a statement that violates a constraint changes nothing: [transaction]
    and [sql_exec] say so. *)

From S2P Require Import Prelude.

(** The error codes the repository distinguishes. *)
Inductive ErrorCode := DatabaseBusy | DatabaseLocked | ConstraintViolation | OtherCode.
Inductive SqliteError := SqliteFailure (code : ErrorCode) | OtherSqliteError.

(** The test of [map_sqlite_error]: busy or locked. *)
Definition is_busy (e : SqliteError) : bool :=
  match e with SqliteFailure (DatabaseBusy | DatabaseLocked) => true | _ => false end.

Record conn (D F : Type) := mkConn {
  committed : D;
  working : option D;
  plan : list (option F)
}.
Arguments mkConn {D F} _ _ _.
Arguments committed {D F} _.
Arguments working {D F} _.
Arguments plan {D F} _.

Section sql.
Context {D F : Type}.

(** A computation over a connection that can fail with [E]. *)
Definition sql (E A : Type) : Type := conn D F → result E A * conn D F.

#[global] Instance sql_mret {E} : MRet (sql E) := λ A a c, (Ok a, c).
#[global] Instance sql_mbind {E} : MBind (sql E) := λ A B k m c,
  match m c with
  | (Ok a, c') => k a c'
  | (Err e, c') => (Err e, c')
  end.

(** The tables a statement sees. *)
Definition current (c : conn D F) : D := default (committed c) (working c).
Definition set_current (c : conn D F) (d : D) : conn D F :=
  match working c with
  | Some _ => mkConn (committed c) (Some d) (plan c)
  | None => mkConn d None (plan c)
  end.

(** The next entry of the fault plan. *)
Definition pop_fault (c : conn D F) : option F * conn D F :=
  match plan c with
  | [] => (None, c)
  | o :: p => (o, mkConn (committed c) (working c) p)
  end.

(** A call that can fail: [f] is what it does when no fault is planned. *)
Definition sql_call {E A} (h : F → E) (f : D → result E A * D) : sql E A := λ c,
  match pop_fault c with
  | (Some e, c') => (Err (h e), c')
  | (None, c') => let '(r, d) := f (current c') in (r, set_current c' d)
  end.

(** A read, and a statement that changes the tables or fails as a whole. *)
Definition sql_query {E A} (h : F → E) (f : D → A) : sql E A :=
  sql_call h (λ d, (Ok (f d), d)).
Definition sql_exec {E} (h : F → E) (f : D → result E D) : sql E () :=
  sql_call h (λ d, match f d with Ok d' => (Ok (), d') | Err e => (Err e, d) end).
(** A call whose only effect is that it can fail (a pragma, reading a row). *)
Definition sql_touch {E} (h : F → E) : sql E () := sql_query h (λ _, ()).

Definition sql_lift {E A} (r : result E A) : sql E A := λ c, (r, c).
Definition sql_fail {E A} (e : E) : sql E A := sql_lift (Err e).

(** [connection.transaction()], the body, and the drop of the transaction. *)
Definition sql_begin {E} (h : F → E) : sql E () := λ c,
  match pop_fault c with
  | (Some e, c') => (Err (h e), c')
  | (None, c') => (Ok (), mkConn (committed c') (Some (committed c')) (plan c'))
  end.
Definition drop_transaction (c : conn D F) : conn D F := mkConn (committed c) None (plan c).
Definition transaction {E A} (h : F → E) (body : sql E A) : sql E A := λ c,
  match sql_begin h c with
  | (Err e, c') => (Err e, c')
  | (Ok _, c') => let '(r, c'') := body c' in (r, drop_transaction c'')
  end.
(** [transaction.commit()]; [check] is the test of deferred constraints. *)
Definition sql_commit_checked {E} (h : F → E) (check : D → option E) : sql E () := λ c,
  match pop_fault c with
  | (Some e, c') => (Err (h e), c')
  | (None, c') =>
      match check (current c') with
      | Some e => (Err e, c')
      | None => (Ok (), mkConn (current c') None (plan c'))
      end
  end.
Definition sql_commit {E} (h : F → E) : sql E () := sql_commit_checked h (λ _, None).

(** ** Reasoning over every fault plan

    [sql_wp m Q c]: the outcome of [m] from [c] satisfies [Q].  One lemma per
    primitive splits off the faulty outcome, which is only possible when the
    plan holds a fault. *)

Definition faulty (p : list (option F)) : Prop := ∃ e, Some e ∈ p.

Lemma not_faulty_nil : ¬ faulty [].
Proof. intros [e He]. inversion He. Qed.
Lemma faulty_head e p : faulty (Some e :: p).
Proof. exists e. left. Qed.
Lemma faulty_tail o p : faulty p → faulty (o :: p).
Proof. intros [e He]. exists e. by right. Qed.

Definition sql_wp {E A} (m : sql E A) (Q : result E A → conn D F → Prop) (c : conn D F) : Prop :=
  Q (m c).1 (m c).2.

Lemma sql_wp_ret {E A} (a : A) (Q : result E A → conn D F → Prop) c :
  Q (Ok a) c → sql_wp (mret a) Q c.
Proof. done. Qed.

Lemma sql_wp_lift {E A} (r : result E A) (Q : result E A → conn D F → Prop) c :
  Q r c → sql_wp (sql_lift r) Q c.
Proof. done. Qed.

Lemma sql_wp_bind {E A B} (m : sql E A) (k : A → sql E B) Q c :
  sql_wp m (λ r c', match r with Ok a => sql_wp (k a) Q c' | Err e => Q (Err e) c' end) c →
  sql_wp (m ≫= k) Q c.
Proof.
  unfold sql_wp. unfold mbind at 1 2, sql_mbind. by destruct (m c) as [[a|e] c'].
Qed.

Lemma sql_wp_mono {E A} (m : sql E A) (Q Q' : result E A → conn D F → Prop) c :
  sql_wp m Q c → (∀ r c', Q r c' → Q' r c') → sql_wp m Q' c.
Proof. unfold sql_wp. auto. Qed.

(** Case analysis on the head of the plan. *)
Ltac split_plan p He Hk :=
  destruct p as [|[e|] p]; cbn;
    [ specialize (Hk [] (λ x, x))
    | apply He; apply faulty_head
    | specialize (Hk p (faulty_tail None p)) ].

Lemma sql_wp_call {E A} (h : F → E) (f : D → result E A * D) Q c w p :
  (∀ e p', faulty p → Q (Err (h e)) (mkConn c w p')) →
  (∀ p', (faulty p' → faulty p) →
         let '(r, d) := f (default c w) in Q r (set_current (mkConn c w p') d)) →
  sql_wp (sql_call h f) Q (mkConn c w p).
Proof.
  intros He Hk. unfold sql_wp, sql_call, pop_fault, current. cbn.
  split_plan p He Hk; by destruct (f _).
Qed.

Lemma sql_wp_query {E A} (h : F → E) (f : D → A) Q c w p :
  (∀ e p', faulty p → Q (Err (h e)) (mkConn c w p')) →
  (∀ p', (faulty p' → faulty p) → Q (Ok (f (default c w))) (mkConn c w p')) →
  sql_wp (sql_query h f) Q (mkConn c w p).
Proof.
  intros He Hk. apply sql_wp_call; [done|]. intros p' Hp. by destruct w; apply Hk.
Qed.

Lemma sql_wp_exec {E} (h : F → E) (f : D → result E D) Q c w p :
  (∀ e p', faulty p → Q (Err (h e)) (mkConn c w p')) →
  (∀ p', (faulty p' → faulty p) →
         match f (default c w) with
         | Ok d => Q (Ok ()) (set_current (mkConn c w p') d)
         | Err e => Q (Err e) (mkConn c w p')
         end) →
  sql_wp (sql_exec h f) Q (mkConn c w p).
Proof.
  intros He Hk. apply sql_wp_call; [done|]. intros p' Hp. specialize (Hk p' Hp).
  destruct (f _); [done|]. by destruct w.
Qed.

Lemma sql_wp_commit {E} (h : F → E) check Q c w p :
  (∀ e p', faulty p → Q (Err (h e)) (mkConn c w p')) →
  (∀ p', (faulty p' → faulty p) →
         match check (default c w) with
         | Some e => Q (Err e) (mkConn c w p')
         | None => Q (Ok ()) (mkConn (default c w) None p')
         end) →
  sql_wp (sql_commit_checked h check) Q (mkConn c w p).
Proof.
  intros He Hk. unfold sql_wp, sql_commit_checked, pop_fault, current. cbn.
  split_plan p He Hk; by destruct (check _).
Qed.

Lemma sql_wp_transaction {E A} (h : F → E) (body : sql E A) Q c p :
  (∀ e p', faulty p → Q (Err (h e)) (mkConn c None p')) →
  (∀ p', (faulty p' → faulty p) →
         sql_wp body (λ r c', Q r (drop_transaction c')) (mkConn c (Some c) p')) →
  sql_wp (transaction h body) Q (mkConn c None p).
Proof.
  intros He Hk. unfold sql_wp, transaction, sql_begin, pop_fault. cbn.
  split_plan p He Hk; unfold sql_wp in Hk; by destruct (body _).
Qed.

(** ** The fault plan is only consumed *)

Definition consumes {E A} (m : sql E A) : Prop := ∀ c, plan (m c).2 `suffix_of` plan c.

Lemma faulty_suffix p p' : p' `suffix_of` p → faulty p' → faulty p.
Proof. intros [k ->] [e He]. exists e. apply elem_of_app. by right. Qed.

Lemma pop_fault_suffix c : plan (pop_fault c).2 `suffix_of` plan c.
Proof. unfold pop_fault. destruct c as [d w [|o p]]; cbn; [done|]. by apply suffix_cons_r. Qed.

Lemma plan_set_current c d : plan (set_current c d) = plan c.
Proof. unfold set_current. by destruct (working c). Qed.

Lemma consumes_ret {E A} (a : A) : consumes (mret a : sql E A).
Proof. by intros c. Qed.
Lemma consumes_lift {E A} (r : result E A) : consumes (sql_lift r).
Proof. by intros c. Qed.
Lemma consumes_bind {E A B} (m : sql E A) (k : A → sql E B) :
  consumes m → (∀ a, consumes (k a)) → consumes (m ≫= k).
Proof.
  intros Hm Hk c. unfold mbind, sql_mbind. specialize (Hm c).
  destruct (m c) as [[a|e] c']; [|done]. etrans; [apply Hk|done].
Qed.
Lemma consumes_call {E A} (h : F → E) (f : D → result E A * D) : consumes (sql_call h f).
Proof.
  intros c. unfold sql_call. pose proof (pop_fault_suffix c) as Hs.
  destruct (pop_fault c) as [[e|] c']; [done|]. destruct (f _). cbn in *. by rewrite plan_set_current.
Qed.
Lemma consumes_commit {E} (h : F → E) check : consumes (sql_commit_checked h check).
Proof.
  intros c. unfold sql_commit_checked. pose proof (pop_fault_suffix c) as Hs.
  destruct (pop_fault c) as [[e|] c']; [done|]. by destruct (check _).
Qed.
Lemma consumes_query {E A} (h : F → E) (f : D → A) : consumes (sql_query h f).
Proof. apply consumes_call. Qed.
Lemma consumes_exec {E} (h : F → E) (f : D → result E D) : consumes (sql_exec h f).
Proof. apply consumes_call. Qed.
Lemma consumes_fail {E A} (e : E) : consumes (sql_fail e : sql E A).
Proof. apply consumes_lift. Qed.
Lemma consumes_transaction {E A} (h : F → E) (body : sql E A) :
  consumes body → consumes (transaction h body).
Proof.
  intros Hb c. unfold transaction, sql_begin. pose proof (pop_fault_suffix c) as Hs.
  destruct (pop_fault c) as [[e|] c']; [done|]. cbn in Hs.
  specialize (Hb (mkConn (committed c') (Some (committed c')) (plan c'))).
  destruct (body _) as [r c'']. cbn in *. by etrans.
Qed.

(** ** No failing call is forgiven

    A [strict] computation answers an error as soon as one of the calls it makes
    fails, and when none of them fails it does what it does on an empty plan.
    [used] is the part of the plan that it has consumed. *)

Definition strict {E A} (m : sql E A) : Prop := ∀ d w p,
  let '(r, c') := m (mkConn d w p) in
  ∃ used, p = used ++ plan c' ∧ (faulty used → is_ok r = false) ∧
    (¬ faulty used → m (mkConn d w []) = (r, mkConn (committed c') (working c') [])).

Lemma faulty_app p p' : faulty (p ++ p') ↔ faulty p ∨ faulty p'.
Proof.
  split; [intros [e [He|He]%elem_of_app]; [left|right]; by exists e|].
  intros [[e He]|[e He]]; exists e; apply elem_of_app; [by left|by right].
Qed.
Lemma not_faulty_None : ¬ faulty [None].
Proof. by intros [e [=]%list_elem_of_singleton]. Qed.

Lemma strict_lift {E A} (r : result E A) : strict (sql_lift r).
Proof. intros d w p. exists []. split_and!; [done|by intros ?%not_faulty_nil|done]. Qed.
Lemma strict_ret {E A} (a : A) : strict (mret a : sql E A).
Proof. apply (strict_lift (Ok a)). Qed.
Lemma strict_bind {E A B} (m : sql E A) (k : A → sql E B) : strict m → (∀ a, strict (k a)) → strict (m ≫= k).
Proof.
  intros Hm Hk d w p. unfold mbind, sql_mbind. specialize (Hm d w p).
  destruct (m (mkConn d w p)) as [[a|e] [d1 w1 p1]]; destruct Hm as (used & -> & Hf & Hs); cbn in *.
  - specialize (Hk a d1 w1 p1). destruct (k a (mkConn d1 w1 p1)) as [r c2].
    destruct Hk as (used2 & -> & Hf2 & Hs2). exists (used ++ used2). rewrite app_assoc, faulty_app.
    split_and!; [done|by intros [?%Hf|?]; auto|]. intros Hn. rewrite Hs by auto. apply Hs2. auto.
  - exists used. split_and!; [done|done|]. intros Hn. by rewrite Hs.
Qed.
Lemma strict_call {E A} (h : F → E) (f : D → result E A * D) : strict (sql_call h f).
Proof.
  intros d w p. unfold sql_call, pop_fault, current, set_current. cbn.
  destruct p as [|[e|] p]; cbn; [|by exists [Some e]; split_and!; [..|intros []; apply faulty_head]|];
    destruct (f _) as [r d']; [exists []|exists [None]]; destruct w; cbn;
    (split_and!; [done| |done]); first [by intros ?%not_faulty_nil|by intros ?%not_faulty_None].
Qed.
Lemma strict_query {E A} (h : F → E) (f : D → A) : strict (sql_query h f).
Proof. apply strict_call. Qed.
Lemma strict_exec {E} (h : F → E) (f : D → result E D) : strict (sql_exec h f).
Proof. apply strict_call. Qed.

(** ** Reads outside a transaction

    A [steady] computation that succeeds under some plan of faults has changed
    nothing, and succeeds with the same answer when no call fails. *)

Definition steady {E A} (m : sql E A) : Prop := ∀ d p a c',
  m (mkConn d None p) = (Ok a, c') →
  m (mkConn d None []) = (Ok a, mkConn d None []) ∧ ∃ p', c' = mkConn d None p'.

(** The answer of [m] on the tables [d] when no call fails. *)
Definition answer_on {E A} (m : sql E A) (d : D) : result E A := (m (mkConn d None [])).1.

Lemma steady_ret {E A} (a : A) : steady (mret a : sql E A).
Proof. intros d p b c' [= -> <-]. split; [done|by exists p]. Qed.
Lemma steady_lift {E A} (r : result E A) : steady (sql_lift r).
Proof. intros d p b c' [= -> <-]. split; [done|by exists p]. Qed.
Lemma steady_query {E A} (h : F → E) (f : D → A) : steady (sql_query h f).
Proof.
  intros d p b c'. unfold sql_query, sql_call, pop_fault, current, set_current. cbn.
  destruct p as [|[e|] p]; cbn; [| |]; intros [= <- <-]; (split; [done|by eexists]).
Qed.
Lemma steady_bind {E A B} (m : sql E A) (k : A → sql E B) :
  steady m → (∀ a, steady (k a)) → steady (m ≫= k).
Proof.
  intros Hm Hk d p b c'. unfold mbind, sql_mbind.
  destruct (m (mkConn d None p)) as [[a|e] c1] eqn:Hc; [|done].
  destruct (Hm _ _ _ _ Hc) as [Hm0 [p1 ->]]. intros Hk1%Hk. by rewrite Hm0.
Qed.

Lemma answer_on_steady {E A} (m : sql E A) d p a c' :
  steady m → m (mkConn d None p) = (Ok a, c') → answer_on m d = Ok a ∧ ∃ p', c' = mkConn d None p'.
Proof. intros Hm Hc%Hm. unfold answer_on. by destruct Hc as [-> ?]. Qed.

Lemma answer_on_bind {E A B} (m : sql E A) (k : A → sql E B) d :
  steady m → answer_on (m ≫= k) d = a ← answer_on m d; answer_on (k a) d.
Proof.
  intros Hm. unfold answer_on, mbind at 1, sql_mbind.
  destruct (m (mkConn d None [])) as [[a|e] c1] eqn:Hc; [|done].
  destruct (Hm _ _ _ _ Hc) as [Hm0 _]. rewrite Hm0 in Hc. by injection Hc as <-.
Qed.

Lemma answer_on_query {E A} (h : F → E) (f : D → A) d : answer_on (sql_query h f) d = Ok (f d).
Proof. done. Qed.
Lemma answer_on_touch {E} (h : F → E) d : answer_on (sql_touch h) d = Ok ().
Proof. done. Qed.
Lemma answer_on_lift {E A} (r : result E A) d : answer_on (sql_lift r) d = r.
Proof. done. Qed.
Lemma answer_on_fail {E A} (e : E) d : answer_on (sql_fail e : sql E A) d = Err e.
Proof. done. Qed.
Lemma answer_on_ret {E A} (a : A) d : answer_on (mret a : sql E A) d = Ok a.
Proof. done. Qed.

End sql.
Arguments sql D F E A : clear implicits.

Create HintDb steady.
#[export] Hint Resolve steady_ret steady_lift steady_query : steady.
#[export] Hint Extern 1 (steady (sql_touch _)) => apply steady_query : steady.
#[export] Hint Extern 1 (steady (sql_fail _)) => apply steady_lift : steady.

(** Closes [steady m] by the structure of [m]. *)
Ltac solve_steady :=
  repeat first
    [ lazymatch goal with
      | |- ∀ _, _ => intro
      | |- steady (_ ≫= _) => apply steady_bind
      | |- steady (match ?x with _ => _ end) => destruct x
      end
    | solve [auto with steady] ].

Create HintDb strict.
#[export] Hint Resolve strict_ret strict_lift strict_call strict_query strict_exec : strict.
#[export] Hint Extern 1 (strict (sql_touch _)) => apply strict_query : strict.
#[export] Hint Extern 1 (strict (sql_fail _)) => apply strict_lift : strict.

(** Closes [strict m] by the structure of [m]. *)
Ltac solve_strict :=
  repeat first
    [ lazymatch goal with
      | |- ∀ _, _ => intro
      | |- strict (_ ≫= _) => apply strict_bind
      | |- strict (match ?x with _ => _ end) => destruct x
      end
    | solve [auto with strict] ].

Create HintDb consumes.
#[export] Hint Resolve consumes_ret consumes_lift consumes_call consumes_commit consumes_query
  consumes_exec consumes_fail consumes_transaction : consumes.
#[export] Hint Extern 1 (consumes (sql_touch _)) => apply consumes_query : consumes.
#[export] Hint Extern 1 (consumes (sql_commit _)) => apply consumes_commit : consumes.

(** Closes [consumes m] by the structure of [m]. *)
Ltac solve_consumes :=
  repeat first
    [ lazymatch goal with
      | |- ∀ _, _ => intro
      | |- consumes (_ ≫= _) => apply consumes_bind
      | |- consumes (transaction _ _) => apply consumes_transaction
      | |- consumes (match ?x with _ => _ end) => destruct x
      end
    | solve [auto with consumes] ].

(** Takes a hypothesis [answer_on (m1; m2; ...) d = Ok a] apart. *)
Ltac answer_inv H :=
  repeat first
    [ rewrite answer_on_bind in H by solve_steady; cbv beta in H
    | progress rewrite ?answer_on_query, ?answer_on_touch, ?answer_on_lift, ?answer_on_fail,
        ?answer_on_ret in H
    | let a := fresh "a" in let E := fresh "E" in apply bind_Ok_inv in H as (a & E & H);
      cbv beta in H;
      try first [ apply ok_or_Ok_inv in E
                | lazymatch type of E with Ok _ = Ok _ => injection E as <- end ] ].

(** One step of a proof about [sql_wp]: the faulty outcome of a call becomes a
    goal of its own, before the regular one. *)
Ltac sql_beta := cbv beta iota.
Ltac sql_step :=
  lazymatch goal with
  | |- sql_wp (_ ≫= _) _ _ => apply sql_wp_bind
  | |- sql_wp (mret _) _ _ => apply sql_wp_ret
  | |- sql_wp (sql_lift _) _ _ => apply sql_wp_lift
  | |- sql_wp (sql_fail _) _ _ => apply sql_wp_lift
  | |- sql_wp (sql_query _ _) _ _ => apply sql_wp_query; intros
  | |- sql_wp (sql_touch _) _ _ => apply sql_wp_query; intros
  | |- sql_wp (sql_exec _ _) _ _ => apply sql_wp_exec; intros
  | |- sql_wp (sql_commit _) _ _ => apply sql_wp_commit; intros
  | |- sql_wp (sql_commit_checked _ _) _ _ => apply sql_wp_commit; intros
  | |- sql_wp (transaction _ _) _ _ => apply sql_wp_transaction; intros
  end; sql_beta.

(** ** Ordering: [ORDER BY] as an insertion sort *)

Section order_by.
Context {A : Type} (leb : A → A → bool).

Fixpoint insert_by (x : A) (l : list A) : list A :=
  match l with
  | [] => [x]
  | y :: l' => if leb x y then x :: l else y :: insert_by x l'
  end.
Fixpoint order_by (l : list A) : list A :=
  match l with [] => [] | x :: l' => insert_by x (order_by l') end.

Lemma insert_by_perm x l : insert_by x l ≡ₚ x :: l.
Proof.
  induction l as [|y l IH]; [done|]. cbn. case_match; [done|]. rewrite IH. apply Permutation_swap.
Qed.
Lemma order_by_perm l : order_by l ≡ₚ l.
Proof. induction l as [|x l IH]; [done|]. cbn. by rewrite insert_by_perm, IH. Qed.

(** A list that is already in order is returned as it is. *)
Lemma order_by_id l : StronglySorted (λ x y, leb x y = true) l → order_by l = l.
Proof.
  induction 1 as [|x l Hl IH Hx]; [done|]. cbn. rewrite IH.
  destruct Hx as [|y l' Hxy Hx]; [done|]. cbn. by rewrite Hxy.
Qed.
End order_by.
