(* ===== verification/EventStore.v ===== *)
(** * The SQLite EventStore

    Models [crates/orbitrelay-storage-sqlite/src/lib.rs]: the tables, the
    functions that the worker thread runs on its connection, and the opening
    sequence with its integrity gate.  The [events] table is the list of its
    rows; each SQL statement of the source is the definition named after it.
    The abstract contract of the store (an append-only log) and the refinement
    theorems are in [EventLog.v]; the command queue is in [Worker.v]. *)

From S2P Require Import Prelude Kernel Sql.

Definition SUPPORTED_SCHEMA_VERSION : Z := 1.

(** One row of the [events] table. *)
Record StoredRow := mkStoredRow {
  append_sequence : Z;
  row_event_id : string;
  row_session_id : string;
  row_actor_id : string;
  row_action_id : string;
  row_occurred_at_json : string;
  row_event_type : string;
  row_payload_json : string;
  row_metadata_json : string
}.

(** The two tables of the database file. *)
Record EventDb := mkEventDb {
  storage_metadata : gmap string string;
  events : list StoredRow
}.
Definition empty_db : EventDb := mkEventDb ∅ [].

(** ** The SQL statements *)

(** [SELECT value FROM storage_metadata WHERE key = ?1] *)
Definition select_metadata (key : string) (db : EventDb) : option string :=
  storage_metadata db !! key.

(** [INSERT INTO storage_metadata (key, value) VALUES (?1, ?2)] *)
Definition insert_metadata {E} (err : E) (key value : string) (db : EventDb) : result E EventDb :=
  match storage_metadata db !! key with
  | Some _ => Err err
  | None => Ok (mkEventDb (<[key := value]> (storage_metadata db)) (events db))
  end.

(** [SELECT MAX(append_sequence) FROM events] *)
Definition max_opt (a : option Z) (b : Z) : option Z :=
  match a with Some x => Some (Z.max x b) | None => Some b end.
Definition select_max_sequence (db : EventDb) : option Z :=
  fold_left max_opt (append_sequence <$> events db) None.

(** [SELECT ... FROM events WHERE event_id = ?1] *)
Definition select_by_event_id (id : string) (db : EventDb) : option StoredRow :=
  List.find (λ row, bool_decide (row_event_id row = id)) (events db).

(** [... ORDER BY append_sequence ASC] *)
Definition row_leb (a b : StoredRow) : bool := append_sequence a <=? append_sequence b.
Definition select_all (db : EventDb) : list StoredRow := order_by row_leb (events db).

(** [... WHERE append_sequence >= ? AND append_sequence < ?], with the
    optional session, actor and event type conditions. *)
Definition row_selected (start upper : Z) (session actor : option string) (types : list string)
    (row : StoredRow) : bool :=
  (start <=? append_sequence row) && (append_sequence row <? upper) &&
  match session with Some s => bool_decide (row_session_id row = s) | None => true end &&
  match actor with Some a => bool_decide (row_actor_id row = a) | None => true end &&
  match types with [] => true | _ => bool_decide (row_event_type row ∈ types) end.
Definition select_range (start upper : Z) (session actor : option string) (types : list string)
    (db : EventDb) : list StoredRow :=
  order_by row_leb (List.filter (row_selected start upper session actor types) (events db)).

(** [INSERT INTO events ...]: [append_sequence] is the primary key and
    [event_id] is unique. *)
Definition insert_event {E} (err : E) (row : StoredRow) (db : EventDb) : result E EventDb :=
  if existsb (λ r, (append_sequence r =? append_sequence row) ||
                   bool_decide (row_event_id r = row_event_id row)) (events db)
  then Err err
  else Ok (mkEventDb (storage_metadata db) (events db ++ [row])).

Section event_store.
Context `{Kernel}.

Abbreviation Error := (StorageError EventId).
Abbreviation M := (sql EventDb SqliteError Error).

(** ** Errors *)

Definition unavailable (message : string) : Error := BackendUnavailable message.
Definition failure (message : string) : Error := BackendFailure message.
Definition map_sqlite_error (message : string) (e : SqliteError) : Error :=
  if is_busy e then unavailable "SQLite EventStore is busy" else failure message.
(** [map_err(|_| failure(...))] *)
Definition any_error (message : string) (_ : SqliteError) : Error := failure message.

(** ** Rows and events *)

(** [decode_row] *)
Definition decode_row (row : StoredRow) : result Error (Z * Event) :=
  sequence ← ok_or (failure "SQLite EventStore append sequence is invalid")
               (u64_of_i64 (append_sequence row));
  eid ← ok_or (failure "SQLite EventStore EventId is invalid") (of_text (row_event_id row));
  session ← ok_or (failure "SQLite EventStore SessionId is invalid")
              (of_text (row_session_id row));
  actor ← ok_or (failure "SQLite EventStore ActorId is invalid") (of_text (row_actor_id row));
  action ← ok_or (failure "SQLite EventStore ActionId is invalid") (of_text (row_action_id row));
  occurred_at ← ok_or (failure "SQLite EventStore timestamp is invalid")
                  (of_json (row_occurred_at_json row));
  payload ← ok_or (failure "SQLite EventStore payload is invalid")
              (of_json (row_payload_json row));
  metadata ← ok_or (failure "SQLite EventStore metadata is invalid")
               (of_json (row_metadata_json row));
  Ok (sequence, Event_new eid session actor action (EventType_new (row_event_type row))
                  occurred_at payload metadata).

(** [stored_event] *)
Definition stored_event (sequence : Z) (event : Event) (store_id epoch : EntityId)
    : result Error StoredEvent :=
  position ← ok_or (failure "SQLite EventStore cursor overflow") (u64_checked_add sequence 1);
  Ok (StoredEvent_new (EventCursor_for_storage store_id epoch position) event).

(** [current_count], and [current_count_tx] on the same query. *)
Definition count_of_max (max : option Z) : result Error Z :=
  match max with
  | None => Ok 0
  | Some value =>
      if value <? 0 then Err (failure "SQLite EventStore append sequence is negative") else
      ok_or (failure "SQLite EventStore append sequence overflow")
        (v ← u64_of_i64 value; u64_checked_add v 1)
  end.
Definition current_count : M Z :=
  max ← sql_query (map_sqlite_error "SQLite EventStore sequence read failed") select_max_sequence;
  sql_lift (count_of_max max).

(** ** The commands of the worker *)

(** [capture_checkpoint] *)
Definition capture_checkpoint (store_id epoch : EntityId) : M EventStoreCheckpoint :=
  boundary ← current_count;
  mret (EventStoreCheckpoint_for_storage store_id epoch boundary).

(** [append_event] *)
Definition append_event (store_id : EntityId) (event : Event) (epoch : EntityId)
    : M StoredEvent :=
  payload_json ← sql_lift (ok_or (failure "event payload serialization failed")
                             (to_json (event_payload event)));
  metadata_json ← sql_lift (ok_or (failure "event metadata serialization failed")
                              (to_json (event_metadata event)));
  occurred_at_json ← sql_lift (ok_or (failure "event timestamp serialization failed")
                                 (to_json (event_occurred_at event)));
  transaction (map_sqlite_error "SQLite EventStore transaction could not start") (
    existing ← sql_query (map_sqlite_error "SQLite EventId lookup failed")
                 (select_by_event_id (to_text (event_id event)));
    match existing with
    | Some row =>
        '(sequence, existing_event) ← sql_lift (decode_row row);
        if decide (existing_event = event) then
          sql_commit (map_sqlite_error "SQLite EventStore transaction commit failed");;
          sql_lift (stored_event sequence existing_event store_id epoch)
        else sql_fail (EventConflict (event_id event))
    | None =>
        sequence ← current_count;
        sequence_i64 ← sql_lift (ok_or (failure "SQLite EventStore append sequence overflow")
                                   (i64_of_u64 sequence));
        sql_exec (map_sqlite_error "SQLite EventStore append failed")
          (insert_event (map_sqlite_error "SQLite EventStore append failed"
                           (SqliteFailure ConstraintViolation))
             (mkStoredRow sequence_i64 (to_text (event_id event))
                (to_text (event_session_id event)) (to_text (event_actor_id event))
                (to_text (event_action_id event)) occurred_at_json
                (EventType_as_str (event_type event)) payload_json metadata_json));;
        sql_commit (map_sqlite_error "SQLite EventStore transaction commit failed");;
        sql_lift (stored_event sequence event store_id epoch)
    end).

(** [get_event] *)
Definition get_event (store_id : EntityId) (id : EventId) (epoch : EntityId)
    : M (option StoredEvent) :=
  row ← sql_query (map_sqlite_error "SQLite EventId lookup failed")
          (select_by_event_id (to_text id));
  match row with
  | None => mret None
  | Some row =>
      '(sequence, event) ← sql_lift (decode_row row);
      stored ← sql_lift (stored_event sequence event store_id epoch);
      mret (Some stored)
  end.

(** The [for row in rows] loop of [query_events]: the collected events and
    whether one more matching row exists. *)
Fixpoint collect_rows (store_id : EntityId) (query : EventQuery) (epoch : EntityId)
    (rows : list StoredRow) (collected : list StoredEvent) : M (list StoredEvent * bool) :=
  match rows with
  | [] => mret (collected, false)
  | row :: rest =>
      sql_touch (any_error "SQLite EventStore row read failed");;
      '(sequence, event) ← sql_lift (decode_row row);
      if negb (query_matches query event) then collect_rows store_id query epoch rest collected else
      if Z.of_nat (length collected) =? query_limit query then mret (collected, true) else
      stored ← sql_lift (stored_event sequence event store_id epoch);
      collect_rows store_id query epoch rest (collected ++ [stored])
  end.

(** [query_events] *)
Definition query_events (store_id : EntityId) (query : EventQuery) (epoch : EntityId)
    : M EventPage :=
  sql_lift (query_validate query);;
  count ← current_count;
  upper_bound ← match query_upper_bound query with
                | Some checkpoint =>
                    sql_lift (ok_or
                      (InvalidCheckpoint "checkpoint does not belong to this SQLite store epoch")
                      (checkpoint_storage_position checkpoint store_id epoch))
                | None => mret count
                end;
  if count <? upper_bound then
    sql_fail (InvalidCheckpoint "checkpoint is beyond the stored event range") else
  start ← match query_after_cursor query with
          | Some cursor =>
              position ← sql_lift (ok_or
                (InvalidCursor "cursor does not belong to this SQLite store epoch")
                (cursor_storage_position cursor store_id epoch));
              if position =? 0 then
                sql_fail (InvalidCursor "cursor position must be greater than zero")
              else mret position
          | None => mret 0
          end;
  if (upper_bound <? start) || ((0 <? start) && (count <? start)) then
    sql_fail (InvalidCursor "cursor is beyond the query checkpoint") else
  start_i64 ← sql_lift (ok_or (failure "query cursor overflow") (i64_of_u64 start));
  upper_i64 ← sql_lift (ok_or (failure "query bound overflow") (i64_of_u64 upper_bound));
  sql_touch (map_sqlite_error "SQLite EventStore query preparation failed");;
  rows ← sql_query (map_sqlite_error "SQLite EventStore query failed")
           (select_range start_i64 upper_i64 (to_text <$> query_session_id query)
              (to_text <$> query_actor_id query) (EventType_as_str <$> query_event_types query));
  '(collected, has_more) ← collect_rows store_id query epoch rows [];
  let next_cursor := if has_more : bool then stored_cursor <$> last collected else None in
  mret (EventPage_new collected next_cursor).

(** ** Opening a database *)

(** [metadata_value] *)
Definition metadata_value (key : string) : M (option string) :=
  sql_query (map_sqlite_error "SQLite metadata read failed") (select_metadata key).

(** The [for row in rows] loop of [verify_all_events]. *)
Fixpoint verify_rows (expected : Z) (rows : list StoredRow) : M () :=
  match rows with
  | [] => mret ()
  | row :: rest =>
      sql_touch (any_error "SQLite EventStore row read failed");;
      if negb (append_sequence row =? expected) then
        sql_fail (failure "SQLite EventStore append sequence is not contiguous") else
      sql_lift (decode_row row);;
      expected ← sql_lift (ok_or (failure "SQLite EventStore append sequence overflow")
                             (i64_checked_add expected 1));
      verify_rows expected rest
  end.

(** [verify_all_events] *)
Definition verify_all_events : M () :=
  sql_touch (map_sqlite_error "SQLite EventStore integrity query failed");;
  rows ← sql_query (map_sqlite_error "SQLite EventStore integrity query failed") select_all;
  verify_rows 0 rows.

(** The schema-version check of [initialize_connection]. *)
Definition check_schema_version : M () :=
  schema_version ← metadata_value "schema_version";
  match schema_version with
  | None =>
      sql_exec (map_sqlite_error "SQLite schema metadata creation failed")
        (insert_metadata (failure "SQLite schema metadata creation failed") "schema_version"
           (show_u64 SUPPORTED_SCHEMA_VERSION))
  | Some value =>
      parsed ← sql_lift (ok_or (failure "SQLite schema version is malformed") (parse_i64 value));
      if negb (parsed =? SUPPORTED_SCHEMA_VERSION) then
        sql_fail (failure (if SUPPORTED_SCHEMA_VERSION <? parsed
                           then "SQLite schema version is newer than this adapter"
                           else "SQLite schema migration is required"))
      else mret ()
  end.

(** The physical identity of [initialize_connection]; [fresh] is the value of
    [EntityId::new()]. *)
Definition load_physical_store_id (fresh : EntityId) : M EntityId :=
  value ← metadata_value "physical_store_id";
  match value with
  | Some value => sql_lift (ok_or (failure "SQLite physical store identity is malformed")
                              (of_text value))
  | None =>
      sql_exec (map_sqlite_error "SQLite physical store identity creation failed")
        (insert_metadata (failure "SQLite physical store identity creation failed")
           "physical_store_id" (to_text fresh));;
      mret fresh
  end.

(** [initialize_connection] on the database [path]: [has_parent] tells whether
    the path has a parent directory, [quick_check] is what SQLite's integrity
    pragma answers. *)
Definition initialize_connection (has_parent : bool) (quick_check : string) (fresh : EntityId)
    : M EntityId :=
  (if has_parent then
     sql_touch (any_error "SQLite database directory could not be created") else mret ());;
  sql_touch (map_sqlite_error "SQLite database open failed");;
  sql_touch (map_sqlite_error "SQLite foreign key configuration failed");;
  sql_touch (map_sqlite_error "SQLite WAL configuration failed");;
  sql_touch (map_sqlite_error "SQLite synchronous configuration failed");;
  sql_touch (map_sqlite_error "SQLite busy timeout configuration failed");;
  sql_touch (map_sqlite_error "SQLite schema creation failed");;
  check_schema_version;;
  physical_store_id ← load_physical_store_id fresh;
  sql_touch (any_error "SQLite physical integrity check failed");;
  (if negb (bool_decide (quick_check = "ok")) then
     sql_fail (failure "SQLite physical integrity check failed") else mret ());;
  verify_all_events;;
  mret physical_store_id.

End event_store.
