(* ===== verification/EventLog.v ===== *)
(** * The EventStore contract and its SQLite refinement

    The contract of an EventStore is an append-only log: [spec_append],
    [spec_get] and [spec_query] say what each operation answers as a function
    of the list of events stored so far.  [represents] relates that list to the
    rows of the SQLite tables, and the refinement lemmas show that every
    command of [EventStore.v] either follows the contract or reports a backend
    error and changes nothing, whatever calls into SQLite fail.  The class
    [EventStorePort] is the interface that the server's adapters are verified
    against. *)

From S2P Require Import Prelude Kernel Sql EventStore.

Section event_log.
Context `{Kernel, !KernelLaws}.

Abbreviation Error := (StorageError EventId).

(** ** The contract *)

(** The log entry with a given identity, with its position. *)
Definition log_find (id : EventId) (log : list Event) : option (Z * Event) :=
  List.find (λ ie, bool_decide (event_id ie.2 = id)) (indexed log).

(** The [StoredEvent] of the entry at position [i]. *)
Definition stored_at (store_id epoch : EntityId) (ie : Z * Event) : StoredEvent :=
  StoredEvent_new (EventCursor_for_storage store_id epoch (ie.1 + 1)) ie.2.

(** Appending is idempotent on the event identity. *)
Definition spec_append (store_id epoch : EntityId) (e : Event) (log : list Event)
    : result Error StoredEvent * list Event :=
  match log_find (event_id e) log with
  | Some (i, e') =>
      if decide (e' = e) then (Ok (stored_at store_id epoch (i, e')), log)
      else (Err (EventConflict (event_id e)), log)
  | None => (Ok (stored_at store_id epoch (Z.of_nat (length log), e)), log ++ [e])
  end.

Definition spec_get (store_id epoch : EntityId) (id : EventId) (log : list Event)
    : option StoredEvent := stored_at store_id epoch <$> log_find id log.

(** The filters of a query. *)
Definition wanted (q : EventQuery) (e : Event) : bool :=
  match query_session_id q with Some s => bool_decide (event_session_id e = s) | None => true end &&
  match query_actor_id q with Some a => bool_decide (event_actor_id e = a) | None => true end &&
  match query_event_types q with
  | [] => true
  | ts => bool_decide (EventType_as_str (event_type e) ∈ EventType_as_str <$> ts)
  end &&
  query_matches q e.

(** The entries of positions [start <= i < upper] that a query asks for. *)
Definition selected (q : EventQuery) (start upper : Z) (log : list Event) : list (Z * Event) :=
  List.filter (λ ie, (start <=? ie.1) && (ie.1 <? upper) && wanted q ie.2) (indexed log).

(** The first page of a selection: at most [query_limit] entries, and a cursor
    after the last of them when entries are left. *)
Definition page_of (store_id epoch : EntityId) (limit : Z) (sel : list (Z * Event)) : EventPage :=
  let taken := stored_at store_id epoch <$> take (Z.to_nat limit) sel in
  EventPage_new taken
    (if limit <? Z.of_nat (length sel) then stored_cursor <$> last taken else None).

Definition spec_upper (store_id epoch : EntityId) (q : EventQuery) (count : Z) : result Error Z :=
  match query_upper_bound q with
  | Some cp => ok_or (InvalidCheckpoint "checkpoint does not belong to this SQLite store epoch")
                 (checkpoint_storage_position cp store_id epoch)
  | None => Ok count
  end.

Definition spec_start (store_id epoch : EntityId) (q : EventQuery) : result Error Z :=
  match query_after_cursor q with
  | Some cursor =>
      position ← ok_or (InvalidCursor "cursor does not belong to this SQLite store epoch")
                   (cursor_storage_position cursor store_id epoch);
      if position =? 0 then Err (InvalidCursor "cursor position must be greater than zero")
      else Ok position
  | None => Ok 0
  end.

Definition spec_query (store_id epoch : EntityId) (q : EventQuery) (log : list Event)
    : result Error EventPage :=
  query_validate q;;
  let count := Z.of_nat (length log) in
  upper ← spec_upper store_id epoch q count;
  if count <? upper then Err (InvalidCheckpoint "checkpoint is beyond the stored event range") else
  start ← spec_start store_id epoch q;
  if upper <? start then Err (InvalidCursor "cursor is beyond the query checkpoint") else
  Ok (page_of store_id epoch (query_limit q) (selected q start upper log)).

(** An infrastructure failure, as opposed to an answer of the contract. *)
Definition backend_error {A} (r : result Error A) : Prop :=
  ∃ message, r = Err (BackendUnavailable message) ∨ r = Err (BackendFailure message).

(** ** The representation of a log *)

Definition encode_row (i : Z) (e : Event) : option StoredRow :=
  payload_json ← to_json (event_payload e);
  metadata_json ← to_json (event_metadata e);
  occurred_at_json ← to_json (event_occurred_at e);
  Some (mkStoredRow i (to_text (event_id e)) (to_text (event_session_id e))
          (to_text (event_actor_id e)) (to_text (event_action_id e)) occurred_at_json
          (EventType_as_str (event_type e)) payload_json metadata_json).

Definition row_of (row : StoredRow) (ie : Z * Event) : Prop := encode_row ie.1 ie.2 = Some row.

Record represents (db : EventDb) (log : list Event) : Prop := {
  rep_rows : Forall2 row_of (events db) (indexed log);
  rep_nodup : NoDup (event_id <$> log);
  rep_length : Z.of_nat (length log) ≤ i64_max + 1
}.

Lemma row_of_inv row i e :
  row_of row (i, e) →
  append_sequence row = i ∧ row_event_id row = to_text (event_id e) ∧
  row_session_id row = to_text (event_session_id e) ∧
  row_actor_id row = to_text (event_actor_id e) ∧
  row_event_type row = EventType_as_str (event_type e).
Proof. unfold row_of, encode_row. cbn. intros. by simplify_option_eq. Qed.

Lemma decode_row_of row i e : 0 ≤ i → row_of row (i, e) → decode_row row = Ok (i, e).
Proof.
  intros Hi Hrow. unfold row_of, encode_row in Hrow. cbn in Hrow. simplify_option_eq.
  unfold decode_row. cbn. rewrite u64_of_i64_nonneg by done. cbn.
  rewrite !of_to_text. cbn.
  repeat match goal with Hj : to_json _ = Some _ |- _ => rewrite (of_to_json _ _ Hj); clear Hj end.
  cbn. by rewrite EventType_new_as_str, Event_eta.
Qed.

(** Every position of the log fits the [i64] column and, one further, [u64]. *)
Lemma indexed_bounds db log i e :
  represents db log → (i, e) ∈ indexed log → 0 ≤ i ≤ i64_max.
Proof.
  intros Hrep [Hi Hx%lookup_lt_Some]%elem_of_indexed. pose proof (rep_length _ _ Hrep). lia.
Qed.

Lemma stored_event_at store_id epoch i e :
  0 ≤ i ≤ i64_max → stored_event i e store_id epoch = Ok (stored_at store_id epoch (i, e)).
Proof.
  intros Hi. unfold stored_event. rewrite u64_checked_add_small; [done|].
  unfold i64_max, u64_max in *. lia.
Qed.

Lemma rep_sequences db log :
  represents db log → append_sequence <$> events db = Z.of_nat <$> seq 0 (length log).
Proof.
  intros [Hrows _ _]. apply list_eq. intros k. rewrite !list_lookup_fmap.
  pose proof (Forall2_length _ _ _ Hrows) as Hlen. rewrite length_indexed in Hlen.
  destruct (events db !! k) as [row|] eqn:Hk; cbn.
  - destruct (Forall2_lookup_l _ _ _ _ _ Hrows Hk) as (p & Hp & Hr).
    apply lookup_indexed in Hp as (e & He & ->). apply row_of_inv in Hr as [-> _].
    rewrite (lookup_seq_lt 0 (length log) k) by (by apply lookup_lt_Some in He). done.
  - apply lookup_ge_None in Hk. rewrite (lookup_seq_ge 0) by lia. done.
Qed.

Lemma fold_max_seq n acc :
  fold_left max_opt (Z.of_nat <$> seq 0 n) acc =
  match n with O => acc | S m => max_opt acc (Z.of_nat m) end.
Proof.
  induction n as [|n IH]; [done|]. rewrite seq_S, fmap_app, fold_left_app, IH. cbn.
  destruct n as [|m]; [done|]. destruct acc; cbn; f_equal; lia.
Qed.

Lemma count_rep db log :
  represents db log → count_of_max (select_max_sequence db) = Ok (Z.of_nat (length log)).
Proof.
  intros Hrep. unfold select_max_sequence. rewrite (rep_sequences _ _ Hrep), fold_max_seq.
  pose proof (rep_length _ _ Hrep) as Hlen.
  destruct (length log) as [|n]; [done|]. cbn [max_opt count_of_max].
  rewrite (proj2 (Z.ltb_ge _ _)) by lia. rewrite u64_of_i64_nonneg by lia. cbn [mbind option_bind].
  rewrite u64_checked_add_small by (unfold i64_max, u64_max in *; lia). cbn [ok_or]. f_equal. lia.
Qed.

Lemma find_rep db log id :
  represents db log →
  option_Forall2 row_of (select_by_event_id (to_text id) db) (log_find id log).
Proof.
  intros Hrep. apply Forall2_find with (R := row_of); [|apply rep_rows, Hrep].
  intros row [i e] (_ & -> & _)%row_of_inv. cbn. apply bool_decide_ext.
  split; [apply to_text_inj|congruence].
Qed.

Lemma log_find_Some id log i e :
  log_find id log = Some (i, e) → (i, e) ∈ indexed log ∧ event_id e = id.
Proof.
  intros [Hin Hid]%find_some. cbn in Hid. apply bool_decide_eq_true in Hid.
  by rewrite list_elem_of_In.
Qed.

Lemma log_find_None id log : log_find id log = None ↔ id ∉ event_id <$> log.
Proof.
  split.
  - intros Hf (e & -> & (k & Hk)%list_elem_of_lookup)%list_elem_of_fmap.
    assert (In (Z.of_nat k, e) (indexed log)) as Hin.
    { apply list_elem_of_In, elem_of_indexed. rewrite Nat2Z.id. split; [lia|done]. }
    apply (find_none _ _ Hf) in Hin. by apply bool_decide_eq_false in Hin.
  - intros Hid. destruct (log_find id log) as [[i e]|] eqn:Hf; [|done].
    apply log_find_Some in Hf as [[_ Hin%list_elem_of_lookup_2]%elem_of_indexed <-].
    destruct Hid. by apply list_elem_of_fmap_2.
Qed.

Lemma spec_append_prefix store_id epoch e log :
  log `prefix_of` (spec_append store_id epoch e log).2.
Proof.
  unfold spec_append. destruct (log_find _ _) as [[i e']|]; [by case_decide|]. by eexists.
Qed.

Lemma empty_represents md : represents (mkEventDb md []) [].
Proof. split; [constructor|constructor|]. cbn. unfold i64_max. lia. Qed.

(** Inserting the encoding of a new event keeps the representation. *)
Lemma insert_rep {E} (err : E) db log e row :
  represents db log → log_find (event_id e) log = None → Z.of_nat (length log) ≤ i64_max →
  encode_row (Z.of_nat (length log)) e = Some row →
  ∃ db', insert_event err row db = Ok db' ∧ represents db' (log ++ [e]) ∧
         storage_metadata db' = storage_metadata db.
Proof.
  intros Hrep Hnone Hlen Hrow. unfold insert_event.
  assert (row_of row (Z.of_nat (length log), e)) as Hr by done.
  apply row_of_inv in Hr as (Hseq & Hid & _). rewrite Hseq, Hid.
  match goal with |- context [existsb ?f ?l] => destruct (existsb f l) eqn:Hex end.
  - exfalso. apply existsb_exists in Hex as (r & Hin%list_elem_of_In & Hor).
    apply list_elem_of_lookup in Hin as (k & Hk).
    destruct (Forall2_lookup_l _ _ _ _ _ (rep_rows _ _ Hrep) Hk) as (p & Hp & Hrel).
    apply lookup_indexed in Hp as (e' & He' & ->).
    apply row_of_inv in Hrel as (Hs & Hi & _).
    apply orb_prop in Hor as [Hor%Z.eqb_eq|Hor%bool_decide_eq_true].
    + apply lookup_lt_Some in He'. lia.
    + rewrite Hi in Hor. apply to_text_inj in Hor. apply log_find_None in Hnone.
      apply Hnone. rewrite <- Hor. by apply list_elem_of_fmap_2, list_elem_of_lookup_2 with k.
  - eexists. split; [done|]. split; [|done]. destruct Hrep as [Hrows Hnd Hl]. split; cbn.
    + rewrite indexed_snoc. apply Forall2_app; [done|]. constructor; [done|constructor].
    + rewrite fmap_app, NoDup_app. cbn. split; [done|]. apply log_find_None in Hnone.
      split; [|apply NoDup_singleton]. intros x Hx ->%list_elem_of_singleton. done.
    + rewrite length_app. cbn. lia.
Qed.

(** ** Refinement of the commands *)

Abbreviation C := (conn EventDb SqliteError).

(** The outcome of a command on a store that holds [log]: an answer of the
    contract with the log it leads to, or a backend error that changes
    nothing, for which there is a [reason]. *)
Definition follows {A} (db : EventDb)
    (spec : result Error A * list Event) (reason : Prop) (r : result Error A) (c : C) : Prop :=
  working c = None ∧
  ((backend_error r ∧ committed c = db ∧ reason) ∨
   (r = spec.1 ∧ represents (committed c) spec.2 ∧
    storage_metadata (committed c) = storage_metadata db)).

Lemma backend_failure {A} m : backend_error (Err (failure m) : result Error A).
Proof. exists m. by right. Qed.
Lemma backend_sqlite {A} m e : backend_error (Err (map_sqlite_error m e) : result Error A).
Proof.
  unfold map_sqlite_error. destruct (is_busy e); [|apply backend_failure].
  exists "SQLite EventStore is busy". by left.
Qed.

Lemma follows_fault {A} db spec reason (r : result Error A) p :
  backend_error r → reason → follows db spec reason r (mkConn db None p).
Proof. intros. split; [done|]. by left. Qed.

Lemma follows_answer {A} db (spec : result Error A * list Event) reason r db' p :
  r = spec.1 → represents db' spec.2 → storage_metadata db' = storage_metadata db →
  follows db spec reason r (mkConn db' None p).
Proof. intros. split; [done|]. by right. Qed.

Lemma current_count_wp db log w p (Q : result Error Z → C → Prop) :
  represents (default db w) log →
  (∀ m e p', faulty p → Q (Err (map_sqlite_error m e)) (mkConn db w p')) →
  (∀ p', (faulty p' → faulty p) → Q (Ok (Z.of_nat (length log))) (mkConn db w p')) →
  sql_wp current_count Q (mkConn db w p).
Proof.
  intros Hrep He Hk. unfold current_count. sql_step. sql_step; [by apply He|].
  sql_step. rewrite (count_rep _ _ Hrep). by apply Hk.
Qed.

(** The part of [append_event] after the lookup has found nothing. *)
Lemma append_new_wp store_id epoch e db log p payload metadata time reason :
  represents db log → log_find (event_id e) log = None →
  to_json (event_payload e) = Some payload → to_json (event_metadata e) = Some metadata →
  to_json (event_occurred_at e) = Some time → (faulty p → reason) →
  (i64_max < Z.of_nat (length log) → reason) →
  sql_wp (sequence ← current_count;
          sequence_i64 ← sql_lift (ok_or (failure "SQLite EventStore append sequence overflow")
                                     (i64_of_u64 sequence));
          sql_exec (map_sqlite_error "SQLite EventStore append failed")
            (insert_event (map_sqlite_error "SQLite EventStore append failed"
                             (SqliteFailure ConstraintViolation))
               (mkStoredRow sequence_i64 (to_text (event_id e))
                  (to_text (event_session_id e)) (to_text (event_actor_id e))
                  (to_text (event_action_id e)) time
                  (EventType_as_str (event_type e)) payload metadata));;
          sql_commit (map_sqlite_error "SQLite EventStore transaction commit failed");;
          sql_lift (stored_event sequence e store_id epoch))
    (λ r c, follows db (spec_append store_id epoch e log) reason r (drop_transaction c))
    (mkConn db (Some db) p).
Proof.
  intros Hrep Hnone Hp Hm Ht Hfault Hfull. unfold spec_append. rewrite Hnone.
  sql_step. apply (current_count_wp _ log); [done| |]; intros.
  { apply follows_fault; [apply backend_sqlite|auto]. }
  sql_step. sql_step. unfold i64_of_u64. case (Z.ltb_spec i64_max (Z.of_nat (length log))) as [|Hle].
  { apply follows_fault; [apply backend_failure|auto]. }
  cbn [ok_or]. sql_step. sql_step; [apply follows_fault; [apply backend_sqlite|auto]|].
  cbn [from_option Datatypes.id].
  match goal with
  | |- context [insert_event ?err ?row db] =>
      destruct (insert_rep err db log e row) as (db' & -> & Hrep' & Hmd);
        [exact Hrep|exact Hnone|exact Hle|unfold encode_row; by rewrite Hp, Hm, Ht|]
  end.
  sql_step. sql_step; [apply follows_fault; [apply backend_sqlite|auto]|].
  sql_step. rewrite stored_event_at by lia. by apply follows_answer.
Qed.

(** [append_event] follows [spec_append] or fails without a trace; it only
    fails when a call into SQLite fails, when a part of the event has no JSON
    form, or when all [2^63] positions are taken. *)
Lemma append_event_wp store_id epoch e db log p :
  represents db log →
  sql_wp (append_event store_id e epoch)
    (follows db (spec_append store_id epoch e log)
       (faulty p ∨ encode_row 0 e = None ∨ i64_max < Z.of_nat (length log)))
    (mkConn db None p).
Proof.
  intros Hrep. unfold append_event, encode_row.
  destruct (to_json (event_payload e)) as [payload|] eqn:Hp;
    [|by sql_step; apply follows_fault; [apply backend_failure|auto]].
  sql_step; sql_step; cbn [ok_or].
  destruct (to_json (event_metadata e)) as [metadata|] eqn:Hm;
    [|by sql_step; apply follows_fault; [apply backend_failure|auto]].
  sql_step; sql_step; cbn [ok_or].
  destruct (to_json (event_occurred_at e)) as [time|] eqn:Ht;
    [|by sql_step; apply follows_fault; [apply backend_failure|auto]].
  sql_step; sql_step; cbn [ok_or].
  sql_step; [apply follows_fault; [apply backend_sqlite|auto]|].
  sql_step; sql_step; [apply follows_fault; [apply backend_sqlite|auto]|].
  cbn [from_option Datatypes.id]. pose proof (find_rep _ _ (event_id e) Hrep) as Hfind.
  destruct (select_by_event_id _ db) as [row|], (log_find _ log) as [[i e']|] eqn:Hlog;
    inversion Hfind as [? ? Hrow|]; subst; [|by apply append_new_wp; auto].
  unfold spec_append. rewrite Hlog. apply log_find_Some in Hlog as [Hin _].
  pose proof (indexed_bounds _ _ _ _ Hrep Hin) as Hi.
  sql_step; sql_step. rewrite (decode_row_of _ _ _ (proj1 Hi) Hrow).
  destruct (decide (e' = e)) as [->|Hne]; [|by sql_step; apply follows_answer].
  sql_step; sql_step; [apply follows_fault; [apply backend_sqlite|auto]|].
  sql_step. rewrite stored_event_at by done. by apply follows_answer.
Qed.

Lemma capture_checkpoint_wp store_id epoch db log p :
  represents db log →
  sql_wp (capture_checkpoint store_id epoch)
    (follows db
       (Ok (EventStoreCheckpoint_for_storage store_id epoch (Z.of_nat (length log))), log)
       (faulty p))
    (mkConn db None p).
Proof.
  intros Hrep. unfold capture_checkpoint. sql_step. apply (current_count_wp _ log); [done| |]; intros.
  - apply follows_fault; [apply backend_sqlite|done].
  - sql_step. by apply follows_answer.
Qed.

Lemma get_event_wp store_id epoch id db log p :
  represents db log →
  sql_wp (get_event store_id id epoch)
    (follows db (Ok (spec_get store_id epoch id log), log) (faulty p)) (mkConn db None p).
Proof.
  intros Hrep. unfold get_event, spec_get.
  sql_step; sql_step; [apply follows_fault; [apply backend_sqlite|done]|]. cbn [from_option Datatypes.id].
  pose proof (find_rep _ _ id Hrep) as Hfind.
  destruct (select_by_event_id _ db) as [row|], (log_find _ log) as [[i e]|] eqn:Hlog;
    inversion Hfind as [? ? Hrow|]; subst; [|by sql_step; apply follows_answer].
  apply log_find_Some in Hlog as [Hin _]. pose proof (indexed_bounds _ _ _ _ Hrep Hin) as Hi.
  sql_step; sql_step. rewrite (decode_row_of _ _ _ (proj1 Hi) Hrow).
  sql_step; sql_step. rewrite stored_event_at by done. sql_step. by apply follows_answer.
Qed.

(** ** Queries *)

(** The row loop collects the first matching entries, and reports whether one
    more was seen. *)
Lemma collect_rows_wp store_id epoch q db (p : list (option SqliteError))
    (Q : result Error (list StoredEvent * bool) → C → Prop) :
  (∀ e p', faulty p → Q (Err (any_error "SQLite EventStore row read failed" e)) (mkConn db None p')) →
  ∀ rows sel, Forall2 row_of rows sel → Forall (λ ie, 0 ≤ ie.1 ≤ i64_max) sel →
  ∀ collected p0, (faulty p0 → faulty p) → Z.of_nat (length collected) ≤ query_limit q →
  (let matching := List.filter (λ ie, query_matches q ie.2) sel in
   let room := Z.to_nat (query_limit q - Z.of_nat (length collected)) in
   ∀ p', Q (Ok (collected ++ (stored_at store_id epoch <$> take room matching),
                bool_decide (room < length matching)%nat)) (mkConn db None p')) →
  sql_wp (collect_rows store_id q epoch rows collected) Q (mkConn db None p0).
Proof.
  intros He rows sel Hrows. induction Hrows as [|row [i e] rows sel Hrow Hrows IH];
    intros Hsel collected p0 Hp Hlen Hk; cbn [collect_rows].
  { sql_step. specialize (Hk p0). cbn in Hk. by rewrite take_nil, app_nil_r in Hk. }
  apply Forall_cons in Hsel as [Hi Hsel]. cbn in Hi, Hk.
  sql_step; sql_step; [by apply He, Hp|].
  sql_step; sql_step. rewrite (decode_row_of _ _ _ (proj1 Hi) Hrow). cbn in Hk |- *.
  destruct (query_matches q e); cbn [negb]; [|by apply IH; auto].
  destruct (Z.eqb_spec (Z.of_nat (length collected)) (query_limit q)) as [Heq|Hne].
  - sql_step. specialize (Hk p'). rewrite Heq, Z.sub_diag in Hk. cbn in Hk.
    by rewrite app_nil_r in Hk.
  - sql_step; sql_step. rewrite stored_event_at by done.
    apply IH; [done|auto|rewrite length_app; cbn; lia|]. cbv zeta. intros p''.
    specialize (Hk p''). rewrite length_app. cbn [length].
    set (room := Z.to_nat (query_limit q - _)).
    replace (Z.to_nat (query_limit q - Z.of_nat (length collected))) with (S room) in Hk by lia.
    cbn in Hk. rewrite <- app_assoc. cbn.
    rewrite (bool_decide_ext _ (room < length (List.filter (λ ie, query_matches q ie.2) sel))%nat)
      in Hk by lia.
    done.
Qed.

Lemma rep_sorted db log :
  represents db log → StronglySorted (λ a b, row_leb a b = true) (events db).
Proof.
  intros [Hrows _ _]. apply StronglySorted_lookup. intros i j x y Hij Hi Hj.
  destruct (Forall2_lookup_l _ _ _ _ _ Hrows Hi) as (? & (? & _ & ->)%lookup_indexed & [Hx _]%row_of_inv).
  destruct (Forall2_lookup_l _ _ _ _ _ Hrows Hj) as (? & (? & _ & ->)%lookup_indexed & [Hy _]%row_of_inv).
  unfold row_leb. rewrite Hx, Hy. apply Z.leb_le. lia.
Qed.

(** The entries that the SQL conditions of a query select. *)
Definition sql_selected (q : EventQuery) (start upper : Z) (ie : Z * Event) : bool :=
  (start <=? ie.1) && (ie.1 <? upper) &&
  match query_session_id q with Some s => bool_decide (event_session_id ie.2 = s) | None => true end &&
  match query_actor_id q with Some a => bool_decide (event_actor_id ie.2 = a) | None => true end &&
  match query_event_types q with
  | [] => true
  | ts => bool_decide (EventType_as_str (event_type ie.2) ∈ EventType_as_str <$> ts)
  end.

Lemma row_selected_rep q start upper row ie :
  row_of row ie →
  row_selected start upper (to_text <$> query_session_id q) (to_text <$> query_actor_id q)
    (EventType_as_str <$> query_event_types q) row = sql_selected q start upper ie.
Proof.
  destruct ie as [i e]. intros (Hi & _ & Hs & Ha & Ht)%row_of_inv.
  unfold row_selected, sql_selected. cbn. rewrite Hi, Hs, Ha, Ht. f_equal; [f_equal; [f_equal|]|].
  - destruct (query_session_id q); cbn; [|done]. apply bool_decide_ext.
    split; [apply to_text_inj|congruence].
  - destruct (query_actor_id q); cbn; [|done]. apply bool_decide_ext.
    split; [apply to_text_inj|congruence].
  - by destruct (query_event_types q).
Qed.

Lemma select_range_rep db log q start upper :
  represents db log →
  Forall2 row_of
    (select_range start upper (to_text <$> query_session_id q) (to_text <$> query_actor_id q)
       (EventType_as_str <$> query_event_types q) db)
    (List.filter (sql_selected q start upper) (indexed log)).
Proof.
  intros Hrep. unfold select_range.
  rewrite order_by_id by apply StronglySorted_filter, (rep_sorted _ _ Hrep).
  apply Forall2_List_filter; [|apply Hrep]. intros row ie. apply row_selected_rep.
Qed.

Lemma selected_matching q start upper log :
  List.filter (λ ie, query_matches q ie.2) (List.filter (sql_selected q start upper) (indexed log))
  = selected q start upper log.
Proof.
  rewrite List_filter_filter. unfold selected. apply List_filter_ext. intros ie _.
  unfold sql_selected, wanted. by rewrite !andb_assoc.
Qed.

Lemma page_of_collected store_id epoch limit sel :
  0 ≤ limit →
  let collected := stored_at store_id epoch <$> take (Z.to_nat limit) sel in
  EventPage_new collected
    (if bool_decide (Z.to_nat limit < length sel)%nat then stored_cursor <$> last collected else None)
  = page_of store_id epoch limit sel.
Proof.
  intros Hl. cbn. unfold page_of. f_equal.
  destruct (Z.ltb_spec limit (Z.of_nat (length sel)));
    [rewrite bool_decide_eq_true_2 by lia|rewrite bool_decide_eq_false_2 by lia]; done.
Qed.

(** The bounds of a query are those of the contract. *)
Lemma query_upper_eq store_id epoch q count :
  match query_upper_bound q with
  | Some checkpoint =>
      sql_lift (ok_or (InvalidCheckpoint "checkpoint does not belong to this SQLite store epoch")
                  (checkpoint_storage_position checkpoint store_id epoch))
  | None => mret count
  end = (sql_lift (spec_upper store_id epoch q count) : sql EventDb SqliteError Error Z).
Proof. unfold spec_upper. by destruct (query_upper_bound q). Qed.

Lemma query_start_eq store_id epoch q :
  match query_after_cursor q with
  | Some cursor =>
      position ← sql_lift (ok_or (InvalidCursor "cursor does not belong to this SQLite store epoch")
                             (cursor_storage_position cursor store_id epoch));
      if position =? 0 then sql_fail (InvalidCursor "cursor position must be greater than zero")
      else mret position
  | None => mret 0
  end = (sql_lift (spec_start store_id epoch q) : sql EventDb SqliteError Error Z).
Proof.
  unfold spec_start. destruct (query_after_cursor q) as [cursor|]; [|done].
  destruct (cursor_storage_position _ _ _) as [z|]; [|done].
  unfold mbind, sql_mbind, result_mbind, sql_lift. cbn. by destruct (z =? 0).
Qed.

(** [query_events] answers the page of the contract; it fails only when a call
    into SQLite fails or the log has reached [2^63] entries. *)
Lemma query_events_wp store_id epoch q db log p :
  represents db log →
  sql_wp (query_events store_id q epoch)
    (follows db (spec_query store_id epoch q log, log)
       (faulty p ∨ i64_max < Z.of_nat (length log)))
    (mkConn db None p).
Proof.
  intros Hrep. unfold query_events, spec_query. sql_step; sql_step.
  destruct (query_validate q) as [[]|e]; cbn [mbind result_mbind]; [|by apply follows_answer].
  sql_step. apply (current_count_wp _ log); [done| |]; intros;
    [apply follows_fault; [apply backend_sqlite|auto]|].
  sql_step. rewrite query_upper_eq. sql_step.
  destruct (spec_upper _ _ _ _) as [upper|e]; cbn [mbind result_mbind]; [|by apply follows_answer].
  destruct (Z.ltb_spec (Z.of_nat (length log)) upper) as [|Hupper];
    [by sql_step; apply follows_answer|].
  sql_step. rewrite query_start_eq. sql_step.
  destruct (spec_start _ _ _) as [start|e]; cbn [mbind result_mbind]; [|by apply follows_answer].
  destruct (Z.ltb_spec upper start) as [|Hstart]; cbn [orb]; [by sql_step; apply follows_answer|].
  rewrite (proj2 (Z.ltb_ge (Z.of_nat _) start)), andb_false_r by lia.
  unfold i64_of_u64. sql_step; sql_step. destruct (Z.ltb_spec i64_max start);
    [apply follows_fault; [apply backend_failure|right; lia]|].
  cbn [ok_or]. sql_step; sql_step. destruct (Z.ltb_spec i64_max upper);
    [apply follows_fault; [apply backend_failure|right; lia]|].
  cbn [ok_or]. sql_step; sql_step; [apply follows_fault; [apply backend_sqlite|auto]|].
  sql_step; sql_step; [apply follows_fault; [apply backend_sqlite|auto]|]. cbn [from_option Datatypes.id].
  sql_step. eapply (collect_rows_wp _ _ _ _ p'1); [| by apply select_range_rep | | | |].
  - intros. apply follows_fault; [apply backend_failure|auto].
  - apply List.Forall_forall. intros [i e] [Hin%list_elem_of_In _]%filter_In.
    exact (indexed_bounds _ _ _ _ Hrep Hin).
  - auto.
  - apply query_limit_usize.
  - cbv zeta. intros p''. rewrite selected_matching, Z.sub_0_r, app_nil_l. sql_step.
    apply follows_answer; [|done|done]. cbn [fst]. f_equal. by apply page_of_collected, query_limit_usize.
Qed.

(** ** Opening a database *)

(** The rows are numbered from [n] without a gap, and every row decodes. *)
Definition intact_from (n : Z) (rows : list StoredRow) : Prop :=
  ∀ k row, rows !! k = Some row →
    append_sequence row = n + Z.of_nat k ∧ is_ok (decode_row row) = true ∧
    n + Z.of_nat k < i64_max.
Definition intact (db : EventDb) : Prop := intact_from 0 (select_all db).

(** The metadata carries the supported version and the identity [id]. *)
Definition identity_stored (id : EntityId) (db : EventDb) : Prop :=
  (∃ v, storage_metadata db !! "schema_version" = Some v ∧
        parse_i64 v = Some SUPPORTED_SCHEMA_VERSION) ∧
  (∃ t, storage_metadata db !! "physical_store_id" = Some t ∧ of_text t = Some id).

(** The metadata of a new or supported database. *)
Definition metadata_usable (db : EventDb) : Prop :=
  (∀ v, storage_metadata db !! "schema_version" = Some v →
        parse_i64 v = Some SUPPORTED_SCHEMA_VERSION) ∧
  (∀ t, storage_metadata db !! "physical_store_id" = Some t →
        is_Some (of_text t : option EntityId)).

(** What an attempt to open leaves behind: the events as they were, metadata
    that only grew, and an identity exactly when nothing speaks against it. *)
Definition opened (db : EventDb) (quick_check : string) (fault : Prop)
    (r : result Error EntityId) (c : C) : Prop :=
  working c = None ∧ events (committed c) = events db ∧
  storage_metadata db ⊆ storage_metadata (committed c) ∧
  match r with
  | Ok id => identity_stored id (committed c) ∧ quick_check = "ok" ∧ intact db ∧ metadata_usable db
  | Err _ => fault ∨ quick_check ≠ "ok" ∨ ¬ metadata_usable db ∨ ¬ intact db
  end.

Lemma intact_from_cons n row rows :
  intact_from n (row :: rows) ↔
  append_sequence row = n ∧ is_ok (decode_row row) = true ∧ n < i64_max ∧ intact_from (n + 1) rows.
Proof.
  split.
  - intros Hall. destruct (Hall 0%nat row eq_refl) as (? & ? & ?). split_and!; [lia|done|lia|].
    intros k r Hk. destruct (Hall (S k) r Hk) as (? & ? & ?). split_and!; [lia|done|lia].
  - intros (<- & ? & ? & Hrest) [|k] r Hk.
    + injection Hk as <-. split_and!; [lia|done|lia].
    + destruct (Hrest k r Hk) as (? & ? & ?). split_and!; [lia|done|lia].
Qed.

Lemma i64_checked_add_one a :
  0 ≤ a → i64_checked_add a 1 = if a <? i64_max then Some (a + 1) else None.
Proof.
  intros Ha. unfold i64_checked_add. rewrite (proj2 (Z.leb_le i64_min (a + 1))) by (unfold i64_min; lia).
  cbn [andb]. destruct (Z.ltb_spec a i64_max); [by rewrite (proj2 (Z.leb_le _ _)) by lia|].
  by rewrite (proj2 (Z.leb_gt _ _)) by lia.
Qed.

Lemma verify_rows_wp db (p : list (option SqliteError)) (Q : result Error () → C → Prop) : ∀ rows n p0,
  0 ≤ n → (faulty p0 → faulty p) →
  (∀ e p', faulty p ∨ ¬ intact_from n rows → Q (Err e) (mkConn db None p')) →
  (∀ p', (faulty p' → faulty p) → intact_from n rows → Q (Ok ()) (mkConn db None p')) →
  sql_wp (verify_rows n rows) Q (mkConn db None p0).
Proof.
  induction rows as [|row rows IH]; intros n p0 Hn0 Hp He Hk; cbn [verify_rows].
  { sql_step. apply Hk; [done|]. intros k r. by rewrite lookup_nil. }
  sql_step; sql_step; [apply He; auto|].
  destruct (Z.eqb_spec (append_sequence row) n) as [Hn|Hn]; cbn [negb].
  2: { sql_step. apply He. rewrite intact_from_cons. tauto. }
  sql_step; sql_step. destruct (decode_row row) as [ie|e] eqn:Hd.
  2: { apply He. rewrite intact_from_cons, Hd. right. by intros (_ & ? & _). }
  sql_step; sql_step. rewrite i64_checked_add_one by done.
  destruct (Z.ltb_spec n i64_max) as [Hlt|Hge]; cbn [ok_or].
  2: { apply He. rewrite intact_from_cons. right. intros (_ & _ & ? & _). lia. }
  apply IH; [lia|auto|..].
  - intros e p'' [|Hbad]; apply He; [by left|right; rewrite intact_from_cons; tauto].
  - intros p'' Hp'' Hok. apply Hk; [auto|]. rewrite intact_from_cons, Hd. done.
Qed.

Lemma insert_metadata_fresh {E} (err : E) key value db :
  storage_metadata db !! key = None →
  insert_metadata err key value db
  = Ok (mkEventDb (<[key := value]> (storage_metadata db)) (events db)).
Proof. intros Hk. unfold insert_metadata. by rewrite Hk. Qed.

Lemma check_schema_version_wp db p (Q : result Error () → C → Prop) :
  (∀ e p', faulty p ∨ ¬ metadata_usable db → Q (Err e) (mkConn db None p')) →
  (∀ db' p', (faulty p' → faulty p) → events db' = events db →
     storage_metadata db ⊆ storage_metadata db' →
     (∃ v, storage_metadata db' !! "schema_version" = Some v ∧
           parse_i64 v = Some SUPPORTED_SCHEMA_VERSION) →
     storage_metadata db' !! "physical_store_id" = storage_metadata db !! "physical_store_id" →
     (∀ v, storage_metadata db !! "schema_version" = Some v →
           parse_i64 v = Some SUPPORTED_SCHEMA_VERSION) →
     Q (Ok ()) (mkConn db' None p')) →
  sql_wp check_schema_version Q (mkConn db None p).
Proof.
  intros He Hk. unfold check_schema_version, metadata_value.
  sql_step; sql_step; [apply He; auto|]. cbn [from_option Datatypes.id]. unfold select_metadata.
  destruct (storage_metadata db !! "schema_version") as [v|] eqn:Hv.
  - assert (∀ x, x ≠ Some SUPPORTED_SCHEMA_VERSION → parse_i64 v = x → ¬ metadata_usable db) as Hbad
      by (intros x Hx Hpx [Hu _]; apply Hx; rewrite <- Hpx; by apply Hu).
    sql_step; sql_step. destruct (parse_i64 v) as [z|] eqn:Hz; cbn [ok_or];
      [|apply He; right; by apply (Hbad None)].
    destruct (Z.eqb_spec z SUPPORTED_SCHEMA_VERSION) as [->|Hne]; cbn [negb]; sql_step;
      [|apply He; right; apply (Hbad (Some z)); congruence].
    apply Hk; [auto|done|done|by exists v|done|congruence].
  - sql_step; [apply He; auto|]. cbn [from_option Datatypes.id].
    rewrite insert_metadata_fresh by done. cbn.
    apply Hk; cbn; [auto|done|by apply insert_subseteq| |by rewrite lookup_insert_ne|congruence].
    eexists. by rewrite lookup_insert_eq.
Qed.

Lemma load_physical_store_id_wp fresh db p (Q : result Error EntityId → C → Prop) :
  (∀ e p', faulty p ∨ (∃ t, storage_metadata db !! "physical_store_id" = Some t ∧
                            (of_text t : option EntityId) = None) → Q (Err e) (mkConn db None p')) →
  (∀ id db' p', (faulty p' → faulty p) → events db' = events db →
     storage_metadata db ⊆ storage_metadata db' →
     (∃ t, storage_metadata db' !! "physical_store_id" = Some t ∧ of_text t = Some id) →
     Q (Ok id) (mkConn db' None p')) →
  sql_wp (load_physical_store_id fresh) Q (mkConn db None p).
Proof.
  intros He Hk. unfold load_physical_store_id, metadata_value.
  sql_step; sql_step; [apply He; auto|]. cbn [from_option Datatypes.id]. unfold select_metadata.
  destruct (storage_metadata db !! "physical_store_id") as [t|] eqn:Ht.
  - sql_step. destruct (of_text t) as [id|] eqn:Hid; cbn [ok_or]; [apply Hk; eauto|].
    apply He. right. by exists t.
  - sql_step; sql_step; [apply He; auto|]. cbn [from_option Datatypes.id].
    rewrite insert_metadata_fresh by done. cbn. sql_step.
    apply Hk; cbn; [auto|done|by apply insert_subseteq|].
    exists (to_text fresh). split; [by rewrite lookup_insert_eq|apply of_to_text].
Qed.

Lemma opened_Err db quick_check fault e db' p :
  events db' = events db → storage_metadata db ⊆ storage_metadata db' →
  fault ∨ quick_check ≠ "ok" ∨ ¬ metadata_usable db ∨ ¬ intact db →
  opened db quick_check fault (Err e) (mkConn db' None p).
Proof. by intros. Qed.

(** Opening keeps the events, and succeeds exactly on an intact database. *)
Lemma initialize_connection_wp has_parent quick_check fresh db p :
  sql_wp (initialize_connection has_parent quick_check fresh)
    (opened db quick_check (faulty p)) (mkConn db None p).
Proof.
  unfold initialize_connection. sql_step.
  assert (∀ m Q p0, m = mret () ∨ (∃ h, m = sql_touch h) → (faulty p0 → faulty p) →
            (∀ e p', faulty p → Q (Err e) (mkConn db None p')) →
            (∀ p', (faulty p' → faulty p) → Q (Ok ()) (mkConn db None p')) →
            sql_wp (m : sql EventDb SqliteError Error ()) Q (mkConn db None p0)) as Htouch.
  { intros m Q p0 [->|[h ->]] Hp He Hk; sql_step; auto. }
  apply Htouch; [destruct has_parent; eauto|done|intros; apply opened_Err; auto|].
  do 6 (intros ? ?; sql_step; apply Htouch; [eauto|done|intros; apply opened_Err; auto|]).
  clear Htouch. intros p1 Hp1. sql_step. apply check_schema_version_wp.
  { intros e ? Hor. apply opened_Err; [done|done|tauto]. }
  intros db1 p2 Hp2 Hev1 Hmd1 Hversion Hphys Husable.
  sql_step. apply load_physical_store_id_wp.
  { intros e ? Hor. apply opened_Err; [done|done|]. destruct Hor as [|(t & Ht & Hnone)]; [tauto|].
    right; right; left. intros [_ Hall]. rewrite Hphys in Ht. destruct (Hall t Ht). congruence. }
  intros id db2 p3 Hp3 Hev2 Hmd2 Hid. 
  assert (events db2 = events db) as Hev by congruence.
  assert (storage_metadata db ⊆ storage_metadata db2) as Hmd by (by etrans).
  sql_step; sql_step; [apply opened_Err; [done|done|tauto]|].
  sql_step. destruct (bool_decide_reflect (quick_check = "ok")) as [->|Hqc]; cbn [negb]; sql_step;
    [|apply opened_Err; [done|done|tauto]].
  unfold verify_all_events.
  sql_step; sql_step; sql_step; [apply opened_Err; [done|done|tauto]|].
  sql_step; sql_step; [apply opened_Err; [done|done|tauto]|]. cbn [from_option Datatypes.id].
  assert (select_all db2 = select_all db) as -> by (unfold select_all; by rewrite Hev).
  eapply verify_rows_wp; [done|done| |].
  { intros e ? Hor. apply opened_Err; [done|done|]. destruct Hor; [left; tauto|tauto]. }
  intros p4 Hp4 Hok. sql_step. do 3 (split; [done|]). split; [|split; [done|split; [done|]]].
  - split; [|done]. destruct Hversion as (v & Hv & Hpv). exists v. split; [|done].
    by eapply lookup_weaken.
  - split; [done|]. intros t Ht. destruct Hid as (t' & Ht' & Hof).
    rewrite <- Hphys in Ht. apply (lookup_weaken _ _ _ _ Ht) in Hmd2.
    rewrite Ht' in Hmd2. injection Hmd2 as <-. by exists id.
Qed.

(** No failing call is forgiven on the way. *)
Lemma verify_rows_strict rows : ∀ n, strict (verify_rows n rows).
Proof. induction rows as [|row rows IH]; intros n; cbn [verify_rows]; solve_strict. Qed.
#[local] Hint Resolve verify_rows_strict : strict.
Lemma initialize_connection_strict has_parent quick_check fresh :
  strict (initialize_connection has_parent quick_check fresh).
Proof.
  unfold initialize_connection, check_schema_version, load_physical_store_id, verify_all_events, metadata_value.
  solve_strict.
Qed.

End event_log.
