(* ===== verification/EventReplay.v ===== *)
(** * Replaying an EventStore through its port

    [EventStorePort] is the [EventStore] trait as the server sees it: four
    operations over a store state.  [EventStorePortLaws] is the contract of
    [EventLog.v]; the SQLite store satisfies it under every fault plan
    ([sqlite_port_laws]).  The rest of the file is what clients of the port
    build on: the pages of a query, concatenated along their cursors, are the
    whole selection, and a checkpoint keeps them stable while the log grows. *)

From S2P Require Import Prelude Kernel Sql EventStore EventLog.

(** ** Lists cut at a key *)

Section cut.
Context {A : Type} (key : A → Z).

(** In a list with increasing keys, the entries after the last of the first
    [n] are the rest of the list. *)
Lemma filter_after_last l n x :
  StronglySorted (λ a b, key a < key b) l → last (take n l) = Some x →
  List.filter (λ a, key x + 1 <=? key a) l = drop n l.
Proof.
  intros Hsort Hlast. apply last_Some in Hlast as [front Hfront].
  rewrite <- (take_drop n l) in Hsort |- * at 1. rewrite Hfront in *.
  rewrite List.filter_app, List.filter_app. cbn.
  apply StronglySorted_app in Hsort as (Hlt & Hf & _).
  apply StronglySorted_app in Hf as (Hfx & _ & _).
  rewrite (proj2 (Z.leb_gt (key x + 1) (key x))) by lia. rewrite app_nil_r.
  rewrite (List_filter_ext _ (λ _, false) front), (List_filter_ext _ (λ _, true) (drop n l)).
  - assert (∀ k : list A, List.filter (λ _, false) k = []) as -> by (by induction k).
    assert (∀ k : list A, List.filter (λ _, true) k = k) as -> by (induction k; cbn; congruence).
    done.
  - intros y Hy. apply Z.leb_le. specialize (Hlt x y ltac:(set_solver) Hy). lia.
  - intros y Hy. apply Z.leb_gt. specialize (Hfx y x Hy ltac:(set_solver)). lia.
Qed.

(** A range of keys splits at any point of it. *)
Lemma filter_range_split (f : A → bool) l a b c :
  StronglySorted (λ x y, key x < key y) l → a ≤ b ≤ c →
  List.filter (λ x, (a <=? key x) && (key x <? c) && f x) l =
  List.filter (λ x, (a <=? key x) && (key x <? b) && f x) l ++
  List.filter (λ x, (b <=? key x) && (key x <? c) && f x) l.
Proof.
  intros Hsort Habc. induction Hsort as [|x l Hl IH Hx]; [done|]. cbn. rewrite IH.
  destruct (Z.ltb_spec (key x) b) as [Hlt|Hge].
  - rewrite (proj2 (Z.leb_gt b (key x))), (proj2 (Z.ltb_lt (key x) c)) by lia. cbn.
    by destruct ((a <=? key x) && true && f x).
  - rewrite andb_false_r, (proj2 (Z.leb_le a (key x))), (proj2 (Z.leb_le b (key x))) by lia. cbn.
    rewrite (List_filter_ext _ (λ _, false)).
    + assert (∀ k : list A, List.filter (λ _, false) k = []) as -> by (by induction k). cbn.
      by destruct ((key x <? c) && f x).
    + intros y Hy. rewrite Forall_forall in Hx. specialize (Hx y Hy).
      rewrite (proj2 (Z.ltb_ge (key y) b)) by lia. by rewrite andb_false_r.
Qed.
End cut.

Section replay.
Context `{Kernel, !KernelLaws}.

Abbreviation Error := (StorageError EventId).

Lemma indexed_sorted {A} (l : list A) : StronglySorted (λ a b, a.1 < b.1) (indexed l).
Proof.
  apply StronglySorted_lookup. intros i j x y Hij (? & _ & ->)%lookup_indexed (? & _ & ->)%lookup_indexed.
  cbn. lia.
Qed.

Lemma selected_sorted q start upper log :
  StronglySorted (λ a b, a.1 < b.1) (selected q start upper log).
Proof. apply StronglySorted_filter, indexed_sorted. Qed.

Lemma elem_of_selected q start upper log i e :
  (i, e) ∈ selected q start upper log ↔
  start ≤ i < upper ∧ 0 ≤ i ∧ log !! Z.to_nat i = Some e ∧ wanted q e = true.
Proof.
  unfold selected. rewrite list_elem_of_In, filter_In, <- list_elem_of_In, elem_of_indexed. cbn.
  rewrite !andb_true_iff, Z.leb_le, Z.ltb_lt. tauto.
Qed.

(** A later start selects the later part. *)
Lemma selected_later q start start' upper log :
  start ≤ start' →
  selected q start' upper log =
  List.filter (λ ie, start' <=? ie.1) (selected q start upper log).
Proof.
  intros Hs. unfold selected. rewrite List_filter_filter. apply List_filter_ext. intros [i e] _. cbn.
  destruct (Z.leb_spec start' i), (Z.leb_spec start i); try lia; cbn; rewrite ?andb_true_r, ?andb_false_r; done.
Qed.

Lemma selected_split q a b c log :
  a ≤ b ≤ c → selected q a c log = selected q a b log ++ selected q b c log.
Proof.
  intros Habc. apply (filter_range_split fst (λ ie, wanted q ie.2)); [apply indexed_sorted|done].
Qed.

(** Entries appended after the upper bound do not change a selection. *)
Lemma selected_stable q start upper log more :
  upper ≤ Z.of_nat (length log) →
  selected q start upper (log ++ more) = selected q start upper log.
Proof.
  intros Hu. induction more as [|e more IH] using rev_ind; [by rewrite app_nil_r|].
  rewrite app_assoc. unfold selected in *. rewrite indexed_snoc, List.filter_app, IH. cbn.
  rewrite length_app, (proj2 (Z.ltb_ge _ upper)) by lia. by rewrite andb_false_r, app_nil_r.
Qed.

(** The page after a cut continues where the cut was made. *)
Lemma selected_next q start upper log n i e :
  last (take n (selected q start upper log)) = Some (i, e) →
  start < i + 1 ≤ upper ∧ 0 < i + 1 ∧
  selected q (i + 1) upper log = drop n (selected q start upper log).
Proof.
  intros Hlast.
  assert ((i, e) ∈ selected q start upper log) as Hin.
  { apply last_Some_elem_of in Hlast. by apply elem_of_take in Hlast as (k & Hk%list_elem_of_lookup_2 & _). }
  apply elem_of_selected in Hin as (Hb & Hi & _). split; [lia|]. split; [lia|].
  rewrite (selected_later q start (i + 1)) by lia.
  exact (filter_after_last fst _ _ (i, e) (selected_sorted _ _ _ _) Hlast).
Qed.

(** ** The port *)

(** [orbitrelay_storage::EventStore]: the operations of the trait over the
    state [St] of an implementation. *)
Class EventStorePort (St : Type) := {
  port_append : Event → St → result Error StoredEvent * St;
  port_get : EventId → St → result Error (option StoredEvent) * St;
  port_query : EventQuery → St → result Error EventPage * St;
  port_capture_checkpoint : St → result Error EventStoreCheckpoint * St
}.

Section contract.
Context {St : Type} (holds : St → list Event → Prop) (calm : St → Prop).

(** An operation on a store that holds [log] answers with the contract, or
    reports a backend error and keeps the log.  A store that is [calm] (no
    backend call is going to fail) stays so, and needs an [excuse] to fail. *)
Definition port_outcome {A} (st : St) (log : list Event) (spec : result Error A * list Event)
    (excuse : Prop) (o : result Error A * St) : Prop :=
  (calm st → calm o.2) ∧
  ((backend_error o.1 ∧ holds o.2 log ∧ (calm st → excuse)) ∨
   (o.1 = spec.1 ∧ holds o.2 spec.2)).
End contract.

(** All [2^63] positions of the log are taken. *)
Definition log_full (log : list Event) : Prop := i64_max < Z.of_nat (length log).

Class EventStorePortLaws (St : Type) `{EventStorePort St} (store_id epoch : EntityId)
    (holds : St → list Event → Prop) (calm : St → Prop) : Prop := {
  law_append : ∀ st log e, holds st log →
    port_outcome holds calm st log (spec_append store_id epoch e log)
      (encode_row 0 e = None ∨ log_full log) (port_append e st);
  law_get : ∀ st log id, holds st log →
    port_outcome holds calm st log (Ok (spec_get store_id epoch id log), log)
      False (port_get id st);
  law_query : ∀ st log q, holds st log →
    port_outcome holds calm st log (spec_query store_id epoch q log, log)
      (log_full log) (port_query q st);
  law_capture_checkpoint : ∀ st log, holds st log →
    port_outcome holds calm st log
      (Ok (EventStoreCheckpoint_for_storage store_id epoch (Z.of_nat (length log))), log)
      False (port_capture_checkpoint st)
}.

(** ** The SQLite store behind the port *)

Definition sqlite_port (store_id epoch : EntityId)
    : EventStorePort (conn EventDb SqliteError) := {|
  port_append e := append_event store_id e epoch;
  port_get id := get_event store_id id epoch;
  port_query q := query_events store_id q epoch;
  port_capture_checkpoint := capture_checkpoint store_id epoch
|}.

Definition sqlite_holds (c : conn EventDb SqliteError) (log : list Event) : Prop :=
  working c = None ∧ represents (committed c) log.
Definition sqlite_calm (c : conn EventDb SqliteError) : Prop := ¬ faulty (plan c).

Lemma append_event_consumes store_id e epoch : consumes (append_event store_id e epoch).
Proof. unfold append_event, current_count. solve_consumes. Qed.
Lemma get_event_consumes store_id id epoch : consumes (get_event store_id id epoch).
Proof. unfold get_event. solve_consumes. Qed.
Lemma capture_checkpoint_consumes store_id epoch : consumes (capture_checkpoint store_id epoch).
Proof. unfold capture_checkpoint, current_count. solve_consumes. Qed.
Lemma collect_rows_consumes store_id q epoch rows collected :
  consumes (collect_rows store_id q epoch rows collected).
Proof.
  revert collected. induction rows as [|row rows IH]; intros collected; cbn [collect_rows];
    solve_consumes; apply IH.
Qed.
#[local] Hint Resolve collect_rows_consumes : consumes.
Lemma query_events_consumes store_id q epoch : consumes (query_events store_id q epoch).
Proof. unfold query_events, current_count. solve_consumes. Qed.

(** From the refinement of a command to the law of the port. *)
Lemma sqlite_outcome {A} (m : sql EventDb SqliteError Error A) c log spec excuse reason :
  consumes m → working c = None →
  sql_wp m (follows (committed c) spec reason) c →
  (reason → faulty (plan c) ∨ excuse) → represents (committed c) log →
  port_outcome sqlite_holds sqlite_calm c log spec excuse (m c).
Proof.
  intros Hm Hw (Hw' & Hout) Hreason Hrep. split.
  - intros Hcalm Hf. apply Hcalm. exact (faulty_suffix _ _ (Hm c) Hf).
  - destruct Hout as [(Hb & Hc & Hr)|(Hr & Hrep' & _)]; [left|right; done].
    split; [done|]. split.
    + split; [done|]. by rewrite Hc.
    + intros Hcalm. by destruct (Hreason Hr).
Qed.

Lemma sqlite_port_laws store_id epoch :
  EventStorePortLaws _ (H1 := sqlite_port store_id epoch) store_id epoch sqlite_holds sqlite_calm.
Proof.
  split; intros [db w p] log; intros; cbn in *;
    match goal with Hh : sqlite_holds _ _ |- _ => destruct Hh as [Hw Hrep]; cbn in Hw, Hrep; subst w end.
  - eapply sqlite_outcome; [apply append_event_consumes|done|by apply append_event_wp|done|done].
  - eapply sqlite_outcome; [apply get_event_consumes|done|by apply get_event_wp|by left|done].
  - eapply sqlite_outcome; [apply query_events_consumes|done|by apply query_events_wp|done|done].
  - eapply sqlite_outcome; [apply capture_checkpoint_consumes|done|by apply capture_checkpoint_wp|by left|done].
Qed.

(** ** Pages *)

Lemma wanted_after c q e : wanted (query_after c q) e = wanted q e.
Proof.
  pose proof (fields_after c q) as Hf. unfold query_fields in Hf. injection Hf as Hs Ha Ht _ _ _.
  unfold wanted. by rewrite Hs, Ha, Ht, matches_after.
Qed.

Lemma selected_after c q start upper log :
  selected (query_after c q) start upper log = selected q start upper log.
Proof. unfold selected. apply List_filter_ext. intros [i e] _. by rewrite wanted_after. Qed.

(** The query for the page that follows position [k]. *)
Lemma spec_query_after store_id epoch q log upper k :
  query_validate q = Ok () → spec_upper store_id epoch q (Z.of_nat (length log)) = Ok upper →
  upper ≤ Z.of_nat (length log) → 0 < k ≤ upper →
  spec_query store_id epoch (query_after (EventCursor_for_storage store_id epoch k) q) log =
  Ok (page_of store_id epoch (query_limit q) (selected q k upper log)).
Proof.
  intros Hv Hu Hlen Hk. set (c := EventCursor_for_storage store_id epoch k).
  pose proof (fields_after c q) as Hf. unfold query_fields in Hf. injection Hf as _ _ _ Hfu Hfa Hfl.
  unfold spec_query, spec_start. rewrite validate_after, Hv. cbn [mbind result_mbind].
  unfold spec_upper in *. rewrite Hfu, Hu. cbn [mbind result_mbind].
  rewrite (proj2 (Z.ltb_ge _ upper)) by lia.
  rewrite Hfa. unfold c in *. rewrite cursor_position, decide_True by done. cbn [ok_or mbind result_mbind].
  rewrite (proj2 (Z.eqb_neq k 0)) by lia. cbn [mbind result_mbind].
  rewrite (proj2 (Z.ltb_ge upper k)) by lia. by rewrite Hfl, selected_after.
Qed.

(** The query for the first page. *)
Lemma spec_query_first store_id epoch q log upper :
  query_validate q = Ok () → spec_upper store_id epoch q (Z.of_nat (length log)) = Ok upper →
  0 ≤ upper ≤ Z.of_nat (length log) → query_after_cursor q = None →
  spec_query store_id epoch q log =
  Ok (page_of store_id epoch (query_limit q) (selected q 0 upper log)).
Proof.
  intros Hv Hu Hlen Ha. unfold spec_query, spec_start. rewrite Hv, Hu, Ha. cbn [mbind result_mbind].
  rewrite (proj2 (Z.ltb_ge _ upper)) by lia. cbn [mbind result_mbind].
  by rewrite (proj2 (Z.ltb_ge upper 0)) by lia.
Qed.

(** A page is everything that is selected, or a non-empty part of it with a
    cursor from which the rest is selected. *)
Lemma page_of_split store_id epoch limit q start upper log :
  0 < limit →
  let page := page_of store_id epoch limit (selected q start upper log) in
  let all := stored_at store_id epoch <$> selected q start upper log in
  (page_next_cursor page = None ∧ page_events page = all) ∨
  (∃ k, page_next_cursor page = Some (EventCursor_for_storage store_id epoch k) ∧
        start < k ≤ upper ∧ 0 < k ∧
        all = page_events page ++ (stored_at store_id epoch <$> selected q k upper log) ∧
        (length (selected q k upper log) < length all)%nat).
Proof.
  intros Hl. cbv zeta. unfold page_of. rewrite page_next_cursor_new, page_events_new.
  set (sel := selected q start upper log).
  destruct (Z.ltb_spec limit (Z.of_nat (length sel))) as [Hmore|Hdone].
  - right. destruct (last (take (Z.to_nat limit) sel)) as [[i e]|] eqn:Hlast.
    2: { apply last_None in Hlast. apply (f_equal length) in Hlast.
         rewrite length_take in Hlast. cbn in Hlast. lia. }
    exists (i + 1). destruct (selected_next _ _ _ _ _ _ _ Hlast) as (Hb & Hpos & Hrest).
    rewrite fmap_last, Hlast. cbn. unfold stored_at at 1. rewrite stored_cursor_new. cbn.
    split; [done|]. split; [done|]. split; [done|]. rewrite Hrest. fold sel.
    rewrite <- fmap_app, take_drop. split; [done|].
    rewrite length_drop, length_fmap. lia.
  - left. split; [done|]. by rewrite take_ge by lia.
Qed.

(** ** The properties of the SQLite store *)

Lemma not_follows_backend {A} db spec (reason : Prop) (r : result Error A) c :
  follows db spec reason r c → ¬ reason →
  r = spec.1 ∧ represents (committed c) spec.2 ∧ working c = None.
Proof. intros (Hw & [(_ & _ & Hr)|(? & ? & _)]) Hn; [by destruct Hn|done]. Qed.

Lemma log_find_snoc e log :
  log_find (event_id e) log = None →
  log_find (event_id e) (log ++ [e]) = Some (Z.of_nat (length log), e).
Proof.
  unfold log_find. rewrite indexed_snoc. generalize (indexed log). intros l.
  induction l as [|[i x] l IH]; cbn; [by rewrite bool_decide_eq_true_2|].
  case_match; [done|apply IH].
Qed.

(** C1. An append on the SQLite store is atomic and follows the contract of
    an append-only log, whatever calls into SQLite fail: either the answer and
    the new tables are those of [spec_append] (a new entry at the end, the
    existing entry for an event stored before, a conflict for another event
    with its identity), or the answer is a backend error, the tables are
    unchanged, and a call failed, the event has no JSON form or all positions
    are taken.  No transaction stays open. *)
Theorem append_refines_log store_id epoch e db log p :
  represents db log →
  let '(r, c) := append_event store_id e epoch (mkConn db None p) in
  working c = None ∧
  ((backend_error r ∧ committed c = db ∧
    (faulty p ∨ encode_row 0 e = None ∨ log_full log)) ∨
   (r = (spec_append store_id epoch e log).1 ∧
    represents (committed c) (spec_append store_id epoch e log).2)).
Proof.
  intros Hrep. rewrite (surjective_pairing (append_event _ _ _ _)).
  destruct (append_event_wp store_id epoch e db log p Hrep) as [Hw [Ho|(Hr & Ho & _)]]; auto.
Qed.

(** What was appended is read back: on a store without faults and with
    room, appending a new event succeeds, a lookup of its identity returns the
    very record the append returned, and appending it again returns the same
    record and adds nothing. *)
Theorem append_then_get_and_retry store_id epoch e db log p :
  represents db log → log_find (event_id e) log = None → encode_row 0 e ≠ None →
  Z.of_nat (length log) < i64_max → ¬ faulty p →
  let '(r, c) := append_event store_id e epoch (mkConn db None p) in
  let stored := stored_at store_id epoch (Z.of_nat (length log), e) in
  r = Ok stored ∧
  (get_event store_id (event_id e) epoch c).1 = Ok (Some stored) ∧
  (append_event store_id e epoch c).1 = Ok stored ∧
  represents (committed (append_event store_id e epoch c).2) (log ++ [e]).
Proof.
  intros Hrep Hnone Henc Hroom Hp.
  pose proof (append_event_wp store_id epoch e db log p Hrep) as Ha.
  pose proof (append_event_consumes store_id e epoch (mkConn db None p)) as Hs.
  unfold sql_wp in Ha. destruct (append_event _ _ _ _) as [r [db1 w1 p1]]. cbn [fst snd plan] in Ha, Hs.
  assert (¬ faulty p1) as Hp1 by (intros Hf; apply Hp; exact (faulty_suffix _ _ Hs Hf)).
  unfold log_full in *. apply not_follows_backend in Ha as (-> & Hrep1 & Hw1); [|intuition lia].
  cbn in Hrep1, Hw1. subst w1. unfold spec_append in Hrep1 |- *. rewrite Hnone in *. cbn [fst snd] in *.
  assert (Z.of_nat (length (log ++ [e])) ≤ i64_max) as Hl by (rewrite length_app; cbn; lia).
  destruct (not_follows_backend _ _ _ _ _
              (get_event_wp store_id epoch (event_id e) db1 _ p1 Hrep1)) as (Hg & _); [done|].
  destruct (not_follows_backend _ _ _ _ _
              (append_event_wp store_id epoch e db1 _ p1 Hrep1)) as (Hr & Hrep2 & _);
    [intuition lia|].
  unfold spec_get, spec_append in *. rewrite (log_find_snoc _ _ Hnone) in *. cbn [fmap option_fmap option_map] in *.
  rewrite decide_True in * by done. auto.
Qed.

(** C2. A query on the SQLite store answers the page of the contract: the
    first [limit] matching entries between the cursor and the checkpoint in
    append order, a continuation cursor exactly when entries are left, and the
    error of the contract for an invalid query, checkpoint or cursor.  The
    tables are never changed, and any other answer is a backend error that a
    failed call explains. *)
Theorem query_refines_log store_id epoch q db log p :
  represents db log →
  let '(r, c) := query_events store_id q epoch (mkConn db None p) in
  represents (committed c) log ∧ working c = None ∧
  (r = spec_query store_id epoch q log ∨
   (backend_error r ∧ (faulty p ∨ log_full log))).
Proof.
  intros Hrep. rewrite (surjective_pairing (query_events _ _ _ _)).
  destruct (query_events_wp store_id epoch q db log p Hrep) as [Hw [(Hb & -> & Hr)|(Hr & Ho & _)]]; auto.
Qed.

(** A cursor of another store or of another epoch is never followed: the
    query fails, whatever the log holds. *)
Theorem foreign_cursor_rejected store_id epoch s' e' k q db log p :
  represents db log → (s', e') ≠ (store_id, epoch) →
  query_after_cursor q = Some (EventCursor_for_storage s' e' k) →
  is_ok (query_events store_id q epoch (mkConn db None p)).1 = false.
Proof.
  intros Hrep Hne Hq. pose proof (query_events_wp store_id epoch q db log p Hrep) as [_ Hout].
  destruct Hout as [([m [Hb|Hb]] & _)|(Hr & _)]; [by rewrite Hb..|]. rewrite Hr. cbn [fst].
  unfold spec_query, spec_start. rewrite Hq, cursor_position, decide_False by (intros [-> ->]; done).
  destruct (query_validate q); [|done]. cbn. destruct (spec_upper _ _ _ _); [|done]. cbn.
  by case_match.
Qed.

(** C9. Opening a database file succeeds exactly when none of the calls that it
    makes fails ([used] is the part of the plan of faults that it consumes),
    SQLite reports the file healthy, the metadata is absent or supported, and
    the stored rows are numbered [0, 1, 2, ...] without a gap and all decode.
    Opening never changes an event, never removes metadata, and a success
    leaves the identity it returns in the metadata. *)
Theorem open_iff_intact has_parent quick_check fresh db p :
  let '(r, c) := initialize_connection has_parent quick_check fresh (mkConn db None p) in
  events (committed c) = events db ∧
  storage_metadata db ⊆ storage_metadata (committed c) ∧
  (∀ id, r = Ok id → identity_stored id (committed c)) ∧
  ∃ used, p = used ++ plan c ∧
    (is_ok r = true ↔ ¬ faulty used ∧ quick_check = "ok" ∧ metadata_usable db ∧ intact db).
Proof.
  pose proof (initialize_connection_wp has_parent quick_check fresh db p) as Hw.
  pose proof (initialize_connection_wp has_parent quick_check fresh db []) as Hw0.
  pose proof (initialize_connection_strict has_parent quick_check fresh db None p) as Hs.
  unfold sql_wp in Hw. destruct (initialize_connection _ _ _ (mkConn db None p)) as [r c].
  destruct Hs as (used & Hp & Hf & Hs). destruct Hw as (_ & Hev & Hmd & Hr).
  split_and!; [done|done|by intros id ->; apply Hr|]. exists used. split; [done|]. split.
  - intros Hok. destruct r as [id|]; [|done]. destruct Hr as (_ & Hq & Hi & Hm).
    split_and!; [|done..]. intros Hfault%Hf. done.
  - intros (Hn & Hq & Hm & Hi). unfold sql_wp in Hw0. rewrite Hs in Hw0 by done. destruct Hw0 as (_ & _ & _ & Hr0).
    destruct r as [id|e]; [done|]. cbn in Hr0. destruct Hr0 as [?%not_faulty_nil|[?|[?|?]]]; done.
Qed.

Lemma represents_intact db log :
  represents db log → Z.of_nat (length log) ≤ i64_max → intact db.
Proof.
  intros Hrep Hlen k row Hk. unfold select_all in Hk.
  rewrite order_by_id in Hk by exact (rep_sorted _ _ Hrep).
  destruct (Forall2_lookup_l _ _ _ _ _ (rep_rows _ _ Hrep) Hk) as (ie & (e & He & ->)%lookup_indexed & Hrow).
  rewrite (decode_row_of _ _ _ (Zle_0_nat k) Hrow). apply row_of_inv in Hrow as [-> _].
  apply lookup_lt_Some in He. split; [done|]. split; [done|]. lia.
Qed.

Lemma identity_unique id id' db :
  identity_stored id db → identity_stored id' db → id = id'.
Proof. intros [_ (t & Ht & Hid)] [_ (t' & Ht' & Hid')]. congruence. Qed.

(** A store survives a restart: opening a database that holds [log] and
    the identity [id], without faults, returns [id] and leaves the log as it
    was, so positions issued for [id] and its log keep their meaning. *)
Theorem reopen_keeps_store has_parent fresh db log id p :
  represents db log → Z.of_nat (length log) ≤ i64_max → identity_stored id db → ¬ faulty p →
  let '(r, c) := initialize_connection has_parent "ok" fresh (mkConn db None p) in
  r = Ok id ∧ represents (committed c) log.
Proof.
  intros Hrep Hlen Hid Hp. rewrite (surjective_pairing (initialize_connection _ _ _ _)).
  destruct (initialize_connection_wp has_parent "ok" fresh db p) as (_ & Hev & Hmd & Hr).
  destruct Hid as [(v & Hv & Hpv) (t & Ht & Hof)].
  destruct (initialize_connection has_parent "ok" fresh _) as [[id'|e] c]; cbn in *.
  - destruct Hr as [Hr _]. split.
    + f_equal. apply (identity_unique id' id (committed c)); [done|].
      split; [exists v|exists t]; (split; [by eapply lookup_weaken|done]).
    + destruct Hrep as [Hrows Hnd Hl]. split; [|done|done]. by rewrite Hev.
  - exfalso. destruct Hr as [?|[?|[Hu|Hi]]]; [done|done| |].
    + apply Hu. split; intros ? ?; simplify_map_eq; eauto.
    + by apply Hi, (represents_intact _ log).
Qed.

End replay.

(** ** Concrete runs *)

Section demo.
#[local] Existing Instances Demo.demo_kernel Demo.demo_laws.

Definition demo_event (id payload : string) : Demo.event :=
  Demo.mkEvent id "session" "actor" "action" "note" "0" payload "{}".
Definition demo_row (i : Z) (id payload : string) : StoredRow :=
  mkStoredRow i id "session" "actor" "action" "0" "note" payload "{}".
Definition demo_metadata : gmap string string :=
  {[ "schema_version" := "1"; "physical_store_id" := "store" ]}.
Definition demo_db : EventDb := mkEventDb demo_metadata [demo_row 0 "e0" "a"].
Definition demo_log : list Demo.event := [demo_event "e0" "a"].
Definition demo_query (cursor : option Demo.position) : Demo.query :=
  Demo.mkQuery (Some "session") None [] None cursor 10%N None.

Lemma demo_represents : represents (H := Demo.demo_kernel) demo_db demo_log.
Proof.
  split.
  - constructor; [reflexivity|constructor].
  - apply NoDup_singleton.
  - unfold i64_max. cbn. lia.
Qed.

Lemma demo_identity : identity_stored (H := Demo.demo_kernel) "store" demo_db.
Proof.
  split.
  - exists "1". split; [done|reflexivity].
  - exists "store". split; [done|reflexivity].
Qed.

(** Witness of C1: the commit fails with a busy database. *)
Lemma append_refines_log_witness :
  let '(r, c) := append_event (H := Demo.demo_kernel) "store" (demo_event "e1" "b") "epoch"
                   (mkConn demo_db None [None; None; None; None; Some (SqliteFailure DatabaseBusy)]) in
  working c = None ∧
  ((backend_error (H := Demo.demo_kernel) r ∧ committed c = demo_db ∧
    (faulty [None; None; None; None; Some (SqliteFailure DatabaseBusy)] ∨
     encode_row (H := Demo.demo_kernel) 0 (demo_event "e1" "b") = None ∨
     log_full (H := Demo.demo_kernel) demo_log)) ∨
   (r = (spec_append (H := Demo.demo_kernel) "store" "epoch" (demo_event "e1" "b") demo_log).1 ∧
    represents (H := Demo.demo_kernel) (committed c)
      (spec_append (H := Demo.demo_kernel) "store" "epoch" (demo_event "e1" "b") demo_log).2)).
Proof. apply (append_refines_log (H := Demo.demo_kernel)). exact demo_represents. Defined.

(** An instance. *)
Lemma append_then_get_and_retry_witness :
  let '(r, c) := append_event (H := Demo.demo_kernel) "store" (demo_event "e1" "b") "epoch"
                   (mkConn demo_db None []) in
  let stored := stored_at (H := Demo.demo_kernel) "store" "epoch" (1, demo_event "e1" "b") in
  r = Ok stored ∧
  (get_event (H := Demo.demo_kernel) "store" "e1" "epoch" c).1 = Ok (Some stored) ∧
  (append_event (H := Demo.demo_kernel) "store" (demo_event "e1" "b") "epoch" c).1 = Ok stored ∧
  represents (H := Demo.demo_kernel)
    (committed (append_event (H := Demo.demo_kernel) "store" (demo_event "e1" "b") "epoch" c).2)
    (demo_log ++ [demo_event "e1" "b"]).
Proof.
  apply (append_then_get_and_retry (H := Demo.demo_kernel) "store" "epoch" (demo_event "e1" "b")
           demo_db demo_log []);
    [exact demo_represents|reflexivity|discriminate|reflexivity|apply not_faulty_nil].
Defined.

(** Witness of C2. *)
Lemma query_refines_log_witness :
  let '(r, c) := query_events (H := Demo.demo_kernel) "store" (demo_query None) "epoch"
                   (mkConn demo_db None []) in
  represents (H := Demo.demo_kernel) (committed c) demo_log ∧ working c = None ∧
  (r = spec_query (H := Demo.demo_kernel) "store" "epoch" (demo_query None) demo_log ∨
   (backend_error (H := Demo.demo_kernel) r ∧
    (faulty ([] : list (option SqliteError)) ∨ log_full (H := Demo.demo_kernel) demo_log))).
Proof. apply (query_refines_log (H := Demo.demo_kernel)). exact demo_represents. Defined.

(** An instance. *)
Lemma foreign_cursor_rejected_witness :
  is_ok (query_events (H := Demo.demo_kernel) "store" (demo_query (Some ("store", "old epoch", 1)))
           "epoch" (mkConn demo_db None [])).1 = false.
Proof.
  apply (foreign_cursor_rejected (H := Demo.demo_kernel) "store" "epoch" "store" "old epoch" 1
           (demo_query (Some ("store", "old epoch", 1))) demo_db demo_log []);
    [exact demo_represents|discriminate|reflexivity].
Defined.

(** An instance. *)
Lemma reopen_keeps_store_witness :
  let '(r, c) := initialize_connection (H := Demo.demo_kernel) true "ok" "other"
                   (mkConn demo_db None []) in
  r = Ok "store" ∧ represents (H := Demo.demo_kernel) (committed c) demo_log.
Proof.
  apply (reopen_keeps_store (H := Demo.demo_kernel));
    [exact demo_represents|unfold i64_max; cbn; lia|exact demo_identity|apply not_faulty_nil].
Defined.

(** Witness of C9: the demonstration store opens, since nothing speaks against it. *)
Lemma open_iff_intact_witness :
  let '(r, c) := initialize_connection (H := Demo.demo_kernel) true "ok" "fresh" (mkConn demo_db None []) in
  is_ok r = true ∧ events (committed c) = events demo_db ∧
  ∀ id, r = Ok id → identity_stored id (committed c).
Proof.
  pose proof (open_iff_intact (H := Demo.demo_kernel) true "ok" "fresh"%string demo_db []) as Ho.
  destruct (initialize_connection _ _ _ _) as [r c]. destruct Ho as (He & _ & Hid & used & Hu & Hiff).
  split; [|by split]. apply Hiff. symmetry in Hu. apply app_nil in Hu as [-> _].
  split; [apply not_faulty_nil|]. split; [done|]. split.
  - destruct demo_identity as [(v & Hv & Hpv) (t & Ht & Hof)].
    split; intros ? Hl; [rewrite Hv in Hl|rewrite Ht in Hl]; injection Hl as <-; [done|by eexists].
  - apply (represents_intact (H := Demo.demo_kernel) demo_db demo_log demo_represents). unfold i64_max. cbn. lia.
Defined.
End demo.
