(* ===== verification/Worker.v ===== *)
(** * The command queue of the stores

    Each store owns one worker thread: clients clone a channel sender out of
    the [WorkerHandle], [try_send] a command with a one-shot reply, and the
    thread runs the commands in order ([run_worker]).  The three stores share
    this structure ([WorkerHandle], [dispatch*], [close*], [run_worker] of
    [storage-sqlite], [catalog-sqlite] and [asset-local-store]), so it is
    modelled once, over the commands [Cmd] and their effect [exec].

    A state is the handle, the channel, the thread, and the position of every
    client; [wstep] is one atomic action of one party, so that every
    interleaving of clients, closer and worker is a sequence of labels. *)

From S2P Require Import Prelude.

Section worker.
Context {Cmd R S : Type} (exec : Cmd → S → R * S) (capacity : nat).

(** What a dispatch returns: the worker's answer, one of the two answers of
    [WorkerHandle::sender], one of the two of [map_send_error], or the error
    for a dropped one-shot sender. *)
Inductive reply :=
| Answer (r : R)
| StoreClosed
| NoSender
| QueueFull
| QueueClosed
| ResponseLost.

(** The position of a client in [dispatch]: past the [closed] check, holding a
    sender clone, waiting for its reply, done, or dropped on the way. *)
Inductive client := CChecked | CSender | CWaiting | CDone (r : reply) | CGone.

(** The position of the task that runs [close]. *)
Inductive closer := NotClosing | Swapped | HoldsSender | AwaitsShutdown | CloseDone.

Inductive item := Run (t : nat) (c : Cmd) | Shutdown.

Record worker := mkWorker {
  closed : bool;
  has_sender : bool;
  queue : list item;
  running : bool;
  store : S;
  clients : gmap nat client;
  closing : closer;
  (* history *)
  accepted : list (nat * Cmd);
  executed : list (nat * Cmd)
}.

Definition start (s : S) : worker := mkWorker false true [] true s ∅ NotClosing [] [].

Definition set_client (t : nat) (x : client) (w : worker) : worker :=
  mkWorker (closed w) (has_sender w) (queue w) (running w) (store w) (<[t := x]> (clients w))
    (closing w) (accepted w) (executed w).

(** [mpsc::Sender::try_send]: full, closed, or queued. *)
Definition try_send (i : item) (w : worker) : reply + list item :=
  if negb (running w) then inl QueueClosed
  else if (capacity <=? length (queue w))%nat then inl QueueFull
  else inr (queue w ++ [i]).

(** The one-shot senders of dropped commands are dropped with them. *)
Definition lose (clients : gmap nat client) (i : item) : gmap nat client :=
  match i with
  | Run t _ => match clients !! t with
               | Some CWaiting => <[t := CDone ResponseLost]> clients
               | _ => clients
               end
  | Shutdown => clients
  end.

(** [reply.send(result)], ignored when the client has gone. *)
Definition answer (t : nat) (r : R) (clients : gmap nat client) : gmap nat client :=
  match clients !! t with
  | Some CWaiting => <[t := CDone (Answer r)]> clients
  | _ => clients
  end.

Definition is_sender (x : client) : bool := match x with CSender => true | _ => false end.

(** Whether some party still owns a sender of the channel. *)
Definition senders_left (w : worker) : bool :=
  has_sender w || existsb (λ p, is_sender p.2) (map_to_list (clients w)) ||
  match closing w with HoldsSender => true | _ => false end.

(** One iteration of [run_worker]; [None] when [blocking_recv] has to wait. *)
Definition worker_step (w : worker) : option worker :=
  if negb (running w) then None else
  match queue w with
  | Run t c :: q =>
      let '(r, s) := exec c (store w) in
      Some (mkWorker (closed w) (has_sender w) q true s (answer t r (clients w)) (closing w)
              (accepted w) (executed w ++ [(t, c)]))
  | Shutdown :: q =>
      Some (mkWorker (closed w) (has_sender w) [] false (store w) (fold_left lose q (clients w))
              CloseDone (accepted w) (executed w))
  | [] =>
      if senders_left w then None
      else Some (mkWorker (closed w) (has_sender w) [] false (store w) (clients w) (closing w)
                   (accepted w) (executed w))
  end.

Inductive label :=
| CheckClosed (t : nat)   (* [closed.load] of [WorkerHandle::sender] *)
| CloneSender (t : nat)   (* the locked [Option] of [WorkerHandle::sender] *)
| TrySend (t : nat) (c : Cmd)
| Cancel (t : nat)        (* the client's future is dropped *)
| SwapClosed              (* [closed.swap(true)] of [close] *)
| TakeSender              (* [sender.take()] of [close] *)
| SendShutdown            (* [send(Shutdown)], which waits for room *)
| CancelClose             (* the future of [close] is dropped *)
| DropHandle              (* [Drop for WorkerHandle] *)
| Worker.

(** No task is inside a dispatch or a close: what dropping the handle needs. *)
Definition idle (w : worker) : bool :=
  forallb (λ p, match p.2 with CDone _ | CGone => true | _ => false end) (map_to_list (clients w)) &&
  match closing w with NotClosing | CloseDone => true | _ => false end.

Definition wstep (l : label) (w : worker) : option worker :=
  match l with
  | CheckClosed t =>
      match clients w !! t with
      | Some _ => None
      | None => Some (set_client t (if closed w then CDone StoreClosed else CChecked) w)
      end
  | CloneSender t =>
      match clients w !! t with
      | Some CChecked => Some (set_client t (if has_sender w then CSender else CDone NoSender) w)
      | _ => None
      end
  | TrySend t c =>
      match clients w !! t with
      | Some CSender =>
          match try_send (Run t c) w with
          | inl e => Some (set_client t (CDone e) w)
          | inr q => Some (mkWorker (closed w) (has_sender w) q (running w) (store w)
                             (<[t := CWaiting]> (clients w)) (closing w)
                             (accepted w ++ [(t, c)]) (executed w))
          end
      | _ => None
      end
  | Cancel t =>
      match clients w !! t with
      | Some (CDone _) | Some CGone | None => None
      | Some _ => Some (set_client t CGone w)
      end
  | SwapClosed =>
      if closed w then Some w
      else Some (mkWorker true (has_sender w) (queue w) (running w) (store w) (clients w) Swapped
                   (accepted w) (executed w))
  | TakeSender =>
      match closing w with
      | Swapped => Some (mkWorker (closed w) false (queue w) (running w) (store w) (clients w)
                           (if has_sender w then HoldsSender else CloseDone)
                           (accepted w) (executed w))
      | _ => None
      end
  | SendShutdown =>
      match closing w with
      | HoldsSender =>
          match try_send Shutdown w with
          | inr q => Some (mkWorker (closed w) (has_sender w) q (running w) (store w) (clients w)
                             AwaitsShutdown (accepted w) (executed w))
          | inl QueueFull => None
          | inl _ => Some (mkWorker (closed w) (has_sender w) (queue w) (running w) (store w)
                             (clients w) CloseDone (accepted w) (executed w))
          end
      | _ => None
      end
  | CancelClose =>
      match closing w with
      | NotClosing | CloseDone => None
      | _ => Some (mkWorker (closed w) (has_sender w) (queue w) (running w) (store w) (clients w)
                     CloseDone (accepted w) (executed w))
      end
  | DropHandle =>
      if idle w
      then Some (mkWorker true false (queue w) (running w) (store w) (clients w) (closing w)
                   (accepted w) (executed w))
      else None
  | Worker => worker_step w
  end.

(** A run is a sequence of actions that were all possible. *)
Fixpoint wsteps (ls : list label) (w : worker) : option worker :=
  match ls with
  | [] => Some w
  | l :: ls' => wstep l w ≫= wsteps ls'
  end.

(** ** The sequential reference: commands one after the other *)

Fixpoint run_all (cs : list (nat * Cmd)) (s : S) : S :=
  match cs with
  | [] => s
  | (_, c) :: cs' => run_all cs' (exec c s).2
  end.

Definition queued (q : list item) : list (nat * Cmd) :=
  omap (λ i, match i with Run t c => Some (t, c) | Shutdown => None end) q.

(** The commands that are queued ahead of a shutdown. *)
Fixpoint ahead (q : list item) : list (nat * Cmd) :=
  match q with
  | Run t c :: q' => (t, c) :: ahead q'
  | _ => []
  end.
#[local] Arguments queued : simpl never.

Lemma queued_cons t c q : queued (Run t c :: q) = (t, c) :: queued q.
Proof. done. Qed.
Lemma queued_app q q' : queued (q ++ q') = queued q ++ queued q'.
Proof. apply omap_app. Qed.

(** ** The invariant *)

Record winv (s0 : S) (w : worker) : Prop := {
  inv_store : store w = run_all (executed w) s0;
  inv_capacity : (length (queue w) ≤ capacity)%nat;
  inv_fifo : running w = true → accepted w = executed w ++ queued (queue w);
  inv_stopped : running w = false → queue w = [] ∧ (executed w) `prefix_of` (accepted w);
  inv_nodup : NoDup (accepted w).*1;
  inv_known : ∀ t, t ∈ (accepted w).*1 →
    clients w !! t = Some CWaiting ∨ clients w !! t = Some CGone ∨
    ∃ r, clients w !! t = Some (CDone r);
  inv_waiting : ∀ t, clients w !! t = Some CWaiting →
    running w = true ∧ t ∈ (queued (queue w)).*1;
  inv_answers : ∀ t r, clients w !! t = Some (CDone (Answer r)) →
    ∃ pre c post, executed w = pre ++ (t, c) :: post ∧ r = (exec c (run_all pre s0)).1;
  inv_open : closed w = false → has_sender w = true ∧ running w = true ∧
    (Shutdown ∉ queue w) ∧ closing w = NotClosing;
  inv_shutdown : closing w = AwaitsShutdown → running w = true → Shutdown ∈ queue w
}.

Lemma winv_start s0 : winv s0 (start s0).
Proof.
  split; cbn; try done; try (intros; by simplify_map_eq); try lia.
  - constructor.
  - intros t Ht. by apply elem_of_nil in Ht.
  - intros _. split_and!; [done|done|apply not_elem_of_nil|done].
Qed.

(** Changing the entry of a client that has sent nothing. *)
Lemma winv_set_client s0 w t x :
  winv s0 w → t ∉ (accepted w).*1 →
  (∀ r, x ≠ CDone (Answer r)) → x ≠ CWaiting → winv s0 (set_client t x w).
Proof.
  intros Hw Ht Hx Hx'. destruct Hw as [H1 H2 H3 H4 H5 H6 H7 H8 H9 H10].
  split; cbn; try done.
  - intros t' Ht'. rewrite lookup_insert_ne by congruence. by apply H6.
  - intros t' Hl. apply lookup_insert_Some in Hl as [[_ ?]|[_ Hl]]; [done|]. by apply H7.
  - intros t' r Hl. apply lookup_insert_Some in Hl as [[_ ?]|[_ Hl]]; [by destruct (Hx r)|]. by apply H8.
Qed.

(** A dropped client. *)
Lemma winv_gone s0 w t : winv s0 w → winv s0 (set_client t CGone w).
Proof.
  intros Hw. destruct Hw as [H1 H2 H3 H4 H5 H6 H7 H8 H9 H10].
  split; cbn; try done.
  - intros t' Ht'. destruct (decide (t = t')) as [->|Hne];
      [rewrite lookup_insert_eq; auto|rewrite lookup_insert_ne by done; auto].
  - intros t' Hl. apply lookup_insert_Some in Hl as [[_ ?]|[_ Hl]]; [done|]. by apply H7.
  - intros t' r Hl. apply lookup_insert_Some in Hl as [[_ ?]|[_ Hl]]; [done|]. by apply H8.
Qed.

(** Closing the handle. *)
Lemma winv_close s0 w hs x :
  winv s0 w → x ≠ AwaitsShutdown →
  winv s0 (mkWorker true hs (queue w) (running w) (store w) (clients w) x (accepted w) (executed w)).
Proof. intros [H1 H2 H3 H4 H5 H6 H7 H8 H9 H10] Hx. split; cbn; done. Qed.

(** A command enters the queue. *)
Lemma winv_enqueue s0 w t c :
  winv s0 w → clients w !! t = Some CSender → running w = true →
  (length (queue w) < capacity)%nat →
  winv s0 (mkWorker (closed w) (has_sender w) (queue w ++ [Run t c]) (running w) (store w)
             (<[t := CWaiting]> (clients w)) (closing w) (accepted w ++ [(t, c)]) (executed w)).
Proof.
  intros [H1 H2 H3 H4 H5 H6 H7 H8 H9 H10] Ht Hrun Hlen.
  assert (t ∉ (accepted w).*1) as Hfresh by (intros [?|[?|[? ?]]]%H6; congruence).
  split; cbn; try done.
  - rewrite length_app. cbn. lia.
  - intros _. by rewrite queued_app, app_assoc, <- H3.
  - intros. congruence.
  - rewrite fmap_app. apply NoDup_app. split; [done|]. split; [|apply NoDup_singleton].
    by intros x Hx ->%list_elem_of_singleton.
  - intros t' Ht'. destruct (decide (t = t')) as [->|Hne];
      [rewrite lookup_insert_eq; auto|rewrite lookup_insert_ne by done]. apply H6.
    rewrite fmap_app, elem_of_app in Ht'. destruct Ht' as [|Ht'%list_elem_of_singleton]; [done|].
    by destruct Hne.
  - intros t' Hl. split; [done|]. rewrite queued_app, fmap_app, elem_of_app.
    apply lookup_insert_Some in Hl as [[-> _]|[_ Hl]]; [right; by left|left; by apply H7].
  - intros t' r Hl. apply lookup_insert_Some in Hl as [[_ ?]|[_ Hl]]; [done|]. by apply H8.
  - intros Hc. destruct (H9 Hc) as (? & ? & Hs & ?). split_and!; [done|done| |done].
    by intros [?|?%list_elem_of_singleton]%elem_of_app.
  - intros Ha _. rewrite elem_of_app. left. by apply H10.
Qed.

(** The shutdown command enters the queue. *)
Lemma winv_shutdown s0 w :
  winv s0 w → closing w = HoldsSender → (length (queue w) < capacity)%nat → running w = true →
  winv s0 (mkWorker (closed w) (has_sender w) (queue w ++ [Shutdown]) (running w) (store w)
             (clients w) AwaitsShutdown (accepted w) (executed w)).
Proof.
  intros [H1 H2 H3 H4 H5 H6 H7 H8 H9 H10] Hc Hlen Hrun. 
  assert (queued (queue w ++ [Shutdown]) = queued (queue w)) as Hq
    by (rewrite queued_app; apply app_nil_r).
  split; cbn; rewrite ?Hq; try done.
  - rewrite length_app. cbn. lia.
  - intros. congruence.
  - intros Hopen. destruct (H9 Hopen) as (_ & _ & _ & ?). congruence.
  - intros _ _. rewrite elem_of_app. right. by left.
Qed.

Lemma run_all_app cs cs' s : run_all (cs ++ cs') s = run_all cs' (run_all cs s).
Proof. revert s. induction cs as [|[t c] cs IH]; intros s; [done|]. apply IH. Qed.

(** The worker runs the command at the head of the queue. *)
Lemma winv_run s0 w t c q :
  winv s0 w → running w = true → queue w = Run t c :: q →
  winv s0 (mkWorker (closed w) (has_sender w) q true (exec c (store w)).2
             (answer t (exec c (store w)).1 (clients w)) (closing w) (accepted w)
             (executed w ++ [(t, c)])).
Proof.
  intros [H1 H2 H3 H4 H5 H6 H7 H8 H9 H10] Hrun Hq. rewrite Hq, ?queued_cons in *. cbn in *.
  specialize (H3 Hrun).
  assert (∀ t' x, answer t (exec c (store w)).1 (clients w) !! t' = Some x →
            (t' = t ∧ x = CDone (Answer (exec c (store w)).1)) ∨
            (clients w !! t' = Some x ∧ (x = CWaiting → t' ≠ t))) as Hans.
  { intros t' x. unfold answer. destruct (clients w !! t) as [[]|] eqn:Ht; rewrite ?lookup_insert_Some;
      intros Hl; try (destruct Hl as [[<- <-]|[? Hl]]); auto; right; split; try done; congruence. }
  assert (NoDup (t :: (queued q).*1)) as Hnd.
  { rewrite H3, fmap_app in H5. apply NoDup_app in H5 as (_ & _ & H5). exact H5. }
  split; cbn; try done.
  - by rewrite run_all_app, <- H1.
  - lia.
  - intros _. rewrite <- app_assoc. exact H3.
  - intros t' Ht'. unfold answer. destruct (clients w !! t) as [[]|] eqn:Ht; auto.
    destruct (decide (t = t')) as [->|Hne]; [rewrite lookup_insert_eq; eauto|].
    rewrite lookup_insert_ne by done. auto.
  - intros t' [[_ ?]|[Hl Hne]]%Hans; [done|]. split; [done|]. destruct (H7 t' Hl) as [_ Hin].
    apply elem_of_cons in Hin as [->|Hin]; [by destruct (Hne eq_refl)|done].
  - intros t' r [[-> Hr]|[Hl _]]%Hans.
    + injection Hr as ->. exists (executed w), c, []. by rewrite <- H1.
    + destruct (H8 t' r Hl) as (pre & c' & post & -> & ->). exists pre, c', (post ++ [(t, c)]).
      by rewrite <- app_assoc.
  - intros Hc. destruct (H9 Hc) as (? & ? & Hs & ?). split_and!; [done|done| |done].
    intros Hin. apply Hs. by right.
  - intros Hc _. specialize (H10 Hc Hrun). by apply elem_of_cons in H10 as [|].
Qed.

(** Dropping queued commands loses exactly the replies of their clients. *)
Lemma lookup_lose q : ∀ m t,
  fold_left lose q m !! t =
  match m !! t with
  | Some CWaiting => Some (if decide (t ∈ (queued q).*1) then CDone ResponseLost else CWaiting)
  | x => x
  end.
Proof.
  induction q as [|[t' c|] q IH]; intros m t; cbn [fold_left].
  - unfold queued. cbn. rewrite decide_False by apply not_elem_of_nil. by destruct (m !! t) as [[]|].
  - rewrite IH, queued_cons. cbn [lose fmap list_fmap fst].
    destruct (decide (t' = t)) as [->|Hne].
    + destruct (m !! t) as [[]|] eqn:Hm; rewrite ?Hm, ?lookup_insert_eq; try done.
      by rewrite decide_True by left.
    + replace (match m !! t' with Some CWaiting => <[t':=CDone ResponseLost]> m | _ => m end !! t)
        with (m !! t) by (destruct (m !! t') as [[]|]; rewrite ?lookup_insert_ne by done; done).
      destruct (m !! t) as [[]|]; try done. do 2 f_equal. apply decide_ext.
      rewrite elem_of_cons. split; [by right|by intros [->|]].
  - apply IH.
Qed.

Lemma winv_stop s0 w q :
  winv s0 w → running w = true → queue w = Shutdown :: q →
  winv s0 (mkWorker (closed w) (has_sender w) [] false (store w) (fold_left lose q (clients w))
             CloseDone (accepted w) (executed w)).
Proof.
  intros [H1 H2 H3 H4 H5 H6 H7 H8 H9 H10] Hrun Hq. split; cbn; try done.
  - lia.
  - intros _. split; [done|]. rewrite H3 by done. by eexists.
  - intros t Ht. rewrite lookup_lose. destruct (H6 t Ht) as [->|[->|[r ->]]]; eauto.
    case_decide; eauto.
  - intros t. rewrite lookup_lose. destruct (clients w !! t) as [[]|] eqn:Ht; try done.
    destruct (H7 t Ht) as [_ Hin]. rewrite Hq in Hin. by rewrite decide_True.
  - intros t r. rewrite lookup_lose. destruct (clients w !! t) as [[]|] eqn:Ht; try done;
      [by case_decide|]. intros [= ->]. by apply H8.
  - intros Hc. destruct (H9 Hc) as (_ & _ & Hs & _). rewrite Hq in Hs. by destruct Hs; left.
Qed.

Lemma winv_eof s0 w :
  winv s0 w → running w = true → queue w = [] → senders_left w = false →
  winv s0 (mkWorker (closed w) (has_sender w) [] false (store w) (clients w) (closing w)
             (accepted w) (executed w)).
Proof.
  intros [H1 H2 H3 H4 H5 H6 H7 H8 H9 H10] Hrun Hq Hs. rewrite Hq in *. split; cbn; try done.
  - intros _. split; [done|]. rewrite H3 by done. by eexists.
  - intros t Ht. destruct (H7 t Ht) as [_ Hin]. by apply elem_of_nil in Hin.
  - intros Hc. destruct (H9 Hc) as (Hhs & _). unfold senders_left in Hs. by rewrite Hhs in Hs.
Qed.

Lemma winv_fresh s0 w t :
  winv s0 w → (clients w !! t = None ∨ clients w !! t = Some CChecked ∨ clients w !! t = Some CSender) →
  t ∉ (accepted w).*1.
Proof. intros Hw Ht [?|[?|[? ?]]]%(inv_known _ _ Hw); destruct Ht as [|[|]]; congruence. Qed.

Lemma winv_worker_step s0 w w' : winv s0 w → worker_step w = Some w' → winv s0 w'.
Proof.
  intros Hw. unfold worker_step. destruct (running w) eqn:Hrun; [|done]. cbn [negb].
  destruct (queue w) as [|[t c|] q] eqn:Hq.
  - destruct (senders_left w) eqn:Hs; [done|]. intros [= <-]. by apply winv_eof.
  - destruct (exec c (store w)) as [r s] eqn:He. intros [= <-].
    pose proof (winv_run s0 w t c q Hw Hrun Hq) as Hinv. by rewrite He in Hinv.
  - intros [= <-]. by apply winv_stop.
Qed.

Lemma try_send_inr i w q :
  try_send i w = inr q → running w = true ∧ (length (queue w) < capacity)%nat ∧ q = queue w ++ [i].
Proof.
  unfold try_send. destruct (running w); [|done]. cbn.
  destruct (Nat.leb_spec capacity (length (queue w))); [done|]. by intros [= <-].
Qed.
Lemma try_send_inl i w e : try_send i w = inl e → e = QueueClosed ∨ e = QueueFull.
Proof.
  unfold try_send. destruct (negb _); [intros [= <-]; auto|]. case_match; [intros [= <-]; auto|done].
Qed.

(** Every action keeps the invariant. *)
Lemma winv_step s0 l w w' : winv s0 w → wstep l w = Some w' → winv s0 w'.
Proof.
  intros Hw. destruct l as [t|t|t c|t| | | | | |]; cbn [wstep].
  - destruct (clients w !! t) eqn:Ht; [done|]. intros [= <-].
    apply winv_set_client; [done|by eapply winv_fresh; eauto|..]; by destruct (closed w).
  - destruct (clients w !! t) as [[]|] eqn:Ht; try done. intros [= <-].
    apply winv_set_client; [done|by eapply winv_fresh; eauto|..]; by destruct (has_sender w).
  - destruct (clients w !! t) as [[]|] eqn:Ht; try done.
    destruct (try_send (Run t c) w) as [e|q] eqn:Hs; intros [= <-].
    + apply try_send_inl in Hs. apply winv_set_client; [done|by eapply winv_fresh; eauto|..];
        by destruct Hs as [->| ->].
    + apply try_send_inr in Hs as (? & ? & ->). by apply winv_enqueue.
  - destruct (clients w !! t) as [[]|] eqn:Ht; try done; intros [= <-]; by apply winv_gone.
  - destruct (closed w) eqn:Hc; intros [= <-]; [done|by apply winv_close].
  - destruct (closing w) eqn:Hc; try done. intros [= <-].
    assert (closed w = true) as ->.
    { destruct (closed w) eqn:Hcl; [done|]. destruct (inv_open _ _ Hw Hcl) as (_ & _ & _ & ?). congruence. }
    apply winv_close; [done|]. by destruct (has_sender w).
  - destruct (closing w) eqn:Hc; try done.
    assert (closed w = true) as Hcl.
    { destruct (closed w) eqn:Hcl; [done|]. destruct (inv_open _ _ Hw Hcl) as (_ & _ & _ & ?). congruence. }
    destruct (try_send Shutdown w) as [e|q] eqn:Hs.
    + destruct e; try done; intros [= <-]; rewrite Hcl; by apply winv_close.
    + apply try_send_inr in Hs as (? & ? & ->). intros [= <-]. by apply winv_shutdown.
  - destruct (closing w) eqn:Hc; try done; intros [= <-];
      (destruct (closed w) eqn:Hcl; [by apply winv_close|]);
      destruct (inv_open _ _ Hw Hcl) as (_ & _ & _ & ?); congruence.
  - destruct (idle w) eqn:Hi; [|done]. intros [= <-]. apply winv_close; [done|].
    unfold idle in Hi. apply andb_prop in Hi as [_ Hi]. by destruct (closing w).
  - by apply winv_worker_step.
Qed.

Lemma winv_steps s0 ls w w' : winv s0 w → wsteps ls w = Some w' → winv s0 w'.
Proof.
  revert w. induction ls as [|l ls IH]; intros w Hw; cbn; [by intros [= <-]|].
  destruct (wstep l w) as [w1|] eqn:Hl; cbn; [|done]. apply IH. by eapply winv_step.
Qed.

(** ** Draining *)

Lemma answer_done t r m t' :
  (m !! t' = Some CWaiting ∧ t' = t) ∨ (∃ r', m !! t' = Some (CDone (Answer r'))) →
  ∃ r', answer t r m !! t' = Some (CDone (Answer r')).
Proof.
  unfold answer. intros [[Hm ->]|[r' Hm]].
  - rewrite Hm. exists r. apply lookup_insert_eq.
  - destruct (m !! t) as [[]|] eqn:Ht; eauto. exists r'.
    rewrite lookup_insert_ne; [done|congruence].
Qed.

Lemma answer_waiting t r m t' :
  m !! t' = Some CWaiting → t' ≠ t → answer t r m !! t' = Some CWaiting.
Proof.
  unfold answer. intros Hm Hne. destruct (m !! t) as [[]|]; rewrite ?lookup_insert_ne by done; done.
Qed.

(** The worker alone executes everything ahead of a shutdown, in order, and
    answers every client that waits for it. *)
Lemma drain_ahead q rest : ∀ w,
  running w = true → queue w = q ++ rest → (∀ i, i ∈ q → i ≠ Shutdown) →
  ∃ w', wsteps (replicate (length q) Worker) w = Some w' ∧ running w' = true ∧ queue w' = rest ∧
        executed w' = executed w ++ queued q ∧ closing w' = closing w ∧
        (∀ t, (∃ r, clients w !! t = Some (CDone (Answer r))) ∨
              (clients w !! t = Some CWaiting ∧ t ∈ (queued q).*1) →
              ∃ r, clients w' !! t = Some (CDone (Answer r))).
Proof.
  induction q as [|i q IH]; intros w Hrun Hq Hi; cbn [length replicate wsteps].
  - exists w. split_and!; try done; [by rewrite app_nil_r|].
    intros t [Ht|[_ Ht]]; [done|]. by apply elem_of_nil in Ht.
  - destruct i as [t c|]; [|by destruct (Hi Shutdown); [left|]].
    cbn [wstep]. unfold worker_step. rewrite Hrun, Hq. cbn [negb app].
    destruct (exec c (store w)) as [r s]. cbn [mbind option_bind].
    edestruct (IH (mkWorker (closed w) (has_sender w) (q ++ rest) true s (answer t r (clients w))
                     (closing w) (accepted w) (executed w ++ [(t, c)])))
      as (w' & Hs & Hr' & Hq' & He' & Hc' & Ha'); [done|done|intros j Hj; apply Hi; by right|].
    exists w'. cbn in *. split_and!; [done|done|done| |done|].
    + by rewrite He', <- app_assoc.
    + intros t' Ht'. apply Ha'. destruct Ht' as [Hd|[Hw Hin]]; [left; by apply answer_done; right|].
      destruct (decide (t' = t)) as [->|Hne]; [left; by apply answer_done; left|right].
      split; [by apply answer_waiting|]. rewrite queued_cons in Hin.
      by apply elem_of_cons in Hin as [|].
Qed.

Lemma split_at_shutdown q :
  Shutdown ∈ q → ∃ q1 q2, q = q1 ++ Shutdown :: q2 ∧ (∀ i, i ∈ q1 → i ≠ Shutdown) ∧ queued q1 = ahead q.
Proof.
  induction q as [|[t c|] q IH]; intros Hin.
  - by apply elem_of_nil in Hin.
  - apply elem_of_cons in Hin as [|Hin]; [done|]. destruct (IH Hin) as (q1 & q2 & -> & Hq & Ha).
    exists (Run t c :: q1), q2. rewrite queued_cons, Ha. split_and!; [done| |done].
    intros i [->|Hi]%elem_of_cons; [done|by apply Hq].
  - exists [], q. split_and!; [done| |done]. intros i Hi. by apply elem_of_nil in Hi.
Qed.

Lemma wsteps_app ls ls' w : wsteps (ls ++ ls') w = wsteps ls w ≫= wsteps ls'.
Proof.
  revert w. induction ls as [|l ls IH]; intros w; cbn; [done|].
  destruct (wstep l w); cbn; [apply IH|done].
Qed.

(** ** The properties *)

(** C10. Whatever clients, closers and the worker interleave, the store is the
    result of running the executed commands one after the other, in the order
    in which the queue accepted them; no command runs twice, and every answer
    a client has received is the one of its own command at its place in that
    order. *)
Theorem worker_linearizable s0 ls w :
  wsteps ls (start s0) = Some w →
  store w = run_all (executed w) s0 ∧
  (executed w) `prefix_of` (accepted w) ∧ NoDup (accepted w).*1 ∧
  (∀ t r, clients w !! t = Some (CDone (Answer r)) →
     ∃ pre c post, executed w = pre ++ (t, c) :: post ∧ r = (exec c (run_all pre s0)).1).
Proof.
  intros Hw%(winv_steps s0); [|apply winv_start]. destruct Hw as [H1 _ H3 H4 H5 _ _ H8 _ _].
  split_and!; try done. destruct (running w) eqn:Hr; [rewrite H3 by done; by eexists|by apply H4].
Qed.

(** The queue never holds more than [capacity] commands, a client that
    waits always has its command in the queue of a running worker (so it is
    never forgotten), and once the handle is closed no new client gets past
    the check of [WorkerHandle::sender]. *)
Theorem worker_queue_bounded s0 ls w :
  wsteps ls (start s0) = Some w →
  (length (queue w) ≤ capacity)%nat ∧
  (∀ t, clients w !! t = Some CWaiting → running w = true ∧ t ∈ (queued (queue w)).*1) ∧
  (closed w = true → ∀ t w', wstep (CheckClosed t) w = Some w' →
     clients w' !! t = Some (CDone StoreClosed) ∧ queue w' = queue w).
Proof.
  intros Hw%(winv_steps s0); [|apply winv_start]. destruct Hw as [_ H2 _ _ _ _ H7 _ _ _].
  split_and!; [done|done|]. intros Hc t w'. cbn. destruct (clients w !! t); [done|].
  intros [= <-]. rewrite Hc. cbn. split; [apply lookup_insert_eq|done].
Qed.

(** Closing drains: once the shutdown command is queued, the worker
    alone, in a bounded number of iterations, executes every command ahead of
    it, answers the clients waiting for those, stops, completes the close, and
    leaves no client waiting. *)
Theorem close_drains s0 ls w :
  wsteps ls (start s0) = Some w → closing w = AwaitsShutdown → running w = true →
  ∃ n w', (n ≤ length (queue w))%nat ∧ wsteps (replicate n Worker) w = Some w' ∧
    running w' = false ∧ closing w' = CloseDone ∧
    executed w' = executed w ++ ahead (queue w) ∧
    (∀ t, clients w !! t = Some CWaiting → t ∈ (ahead (queue w)).*1 →
       ∃ r, clients w' !! t = Some (CDone (Answer r))) ∧
    (∀ t, clients w' !! t ≠ Some CWaiting).
Proof.
  intros Hw%(winv_steps s0) Hc Hrun; [|apply winv_start].
  destruct (split_at_shutdown (queue w)) as (q1 & q2 & Hq & Hq1 & Ha);
    [by apply (inv_shutdown _ _ Hw)|].
  destruct (drain_ahead q1 (Shutdown :: q2) w Hrun Hq Hq1) as (w1 & Hs & Hr1 & Hq1' & He & Hc1 & Hans).
  destruct (worker_step w1) as [w2|] eqn:Hstep;
    [|unfold worker_step in Hstep; by rewrite Hr1, Hq1' in Hstep].
  assert (wsteps (replicate (length q1 + 1) Worker) w = Some w2) as Hall
    by (rewrite replicate_add, wsteps_app, Hs; cbn; by rewrite Hstep).
  pose proof (winv_steps _ _ _ _ Hw Hall) as Hw2.
  exists (length q1 + 1)%nat, w2. split; [rewrite Hq, length_app; cbn; lia|]. split; [done|].
  unfold worker_step in Hstep. rewrite Hr1, Hq1' in Hstep. cbn in Hstep. injection Hstep as <-. cbn in *.
  split_and!; [done|done|by rewrite He, Ha| |].
  - intros t Ht Hin. rewrite Ha in Hans. destruct (Hans t) as [r Hr]; [by right|].
    exists r. by rewrite lookup_lose, Hr.
  - intros t Ht. by destruct (inv_waiting _ _ Hw2 t Ht).
Qed.

End worker.

(** ** A concrete run

    Two clients of a store that collects numbers: the first is answered, the
    second sends after the shutdown has been queued. *)

Definition demo_exec (c : Z) (s : list Z) : Z * list Z := (Z.of_nat (length s), s ++ [c]).
Definition demo_labels : list (label (Cmd := Z)) :=
  [CheckClosed 0; CloneSender 0; TrySend 0 7; CheckClosed 1; CloneSender 1;
   SwapClosed; TakeSender; SendShutdown; TrySend 1 8].
Definition demo_worker : worker (Cmd := Z) :=
  default (start []) (wsteps demo_exec 3 demo_labels (start [])).

Lemma demo_worker_reached : wsteps demo_exec 3 demo_labels (start []) = Some demo_worker.
Proof. vm_compute. reflexivity. Qed.

(** Witness of C10. *)
Lemma worker_linearizable_witness :
  store demo_worker = run_all demo_exec (executed demo_worker) [] ∧
  (executed demo_worker) `prefix_of` (accepted demo_worker) ∧ NoDup (accepted demo_worker).*1 ∧
  (∀ t r, clients demo_worker !! t = Some (CDone (Answer r)) →
     ∃ pre c post, executed demo_worker = pre ++ (t, c) :: post ∧
                   r = (demo_exec c (run_all demo_exec pre [])).1).
Proof. apply (worker_linearizable demo_exec 3 [] demo_labels). exact demo_worker_reached. Defined.

(** An instance. *)
Lemma worker_queue_bounded_witness :
  (length (queue demo_worker) ≤ 3)%nat ∧
  (∀ t, clients demo_worker !! t = Some CWaiting →
     running demo_worker = true ∧ t ∈ (queued (queue demo_worker)).*1) ∧
  (closed demo_worker = true → ∀ t w', wstep demo_exec 3 (CheckClosed t) demo_worker = Some w' →
     clients w' !! t = Some (CDone StoreClosed) ∧ queue w' = queue demo_worker).
Proof. apply (worker_queue_bounded demo_exec 3 [] demo_labels). exact demo_worker_reached. Defined.

(** An instance. *)
Lemma close_drains_witness :
  ∃ n w', (n ≤ length (queue demo_worker))%nat ∧
    wsteps demo_exec 3 (replicate n Worker) demo_worker = Some w' ∧
    running w' = false ∧ closing w' = CloseDone ∧
    executed w' = executed demo_worker ++ ahead (queue demo_worker) ∧
    (∀ t, clients demo_worker !! t = Some CWaiting → t ∈ (ahead (queue demo_worker)).*1 →
       ∃ r, clients w' !! t = Some (CDone (Answer r))) ∧
    (∀ t, clients w' !! t ≠ Some CWaiting).
Proof.
  apply (close_drains demo_exec 3 [] demo_labels);
    [exact demo_worker_reached|vm_compute; reflexivity|vm_compute; reflexivity].
Defined.
