(* ===== verification/WorkerApi.v ===== *)
(** * Typed calls over the command queue

    A client of a store does not see commands and replies: it calls a method
    and awaits a [Result] of the type of that method, because every command
    carries a one-shot sender of its own type.  [StoreApi] states what a store
    promises about its methods; over any store that keeps it, a call is
    answered by its own operation, at one point of the order in which the
    commands ran, and calls that follow each other keep their order. *)

From S2P Require Import Prelude Worker.

(** The methods of a store: the command that a method sends, the operation that
    the worker runs for it, the reply that carries its result, and the errors
    of [dispatch] when there is no reply. *)
Class StoreApi (Cmd R S E : Type) := {
  Method : Type → Type;
  method_command {A} : Method A → Cmd;
  method_run {A} : Method A → S → result E A * S;
  method_reply {A} : Method A → result E A → R;
  method_read {A} : Method A → R → option (result E A);
  unanswered : reply (R := R) → option E
}.
Class StoreApiLaws (Cmd R S E : Type) `{StoreApi Cmd R S E} (exec : Cmd → S → R * S) : Prop := {
  method_exec : ∀ A (m : Method A) s,
    exec (method_command m) s = (method_reply m (method_run m s).1, (method_run m s).2);
  method_read_reply : ∀ A (m : Method A) r, method_read m (method_reply m r) = Some r;
  unanswered_error : ∀ r, (∃ x, r = Answer x) ∨ is_Some (unanswered r)
}.

Section api.
Context {Cmd R S E : Type} `{!StoreApi Cmd R S E} (exec : Cmd → S → R * S) `{!StoreApiLaws Cmd R S E exec}
        (capacity : nat).
Abbreviation steps := (wsteps exec capacity).

(** The value of [dispatch] when the client is done with [r] *)
Definition dispatch {A} (m : Method A) (r : reply (R := R)) : option (result E A) :=
  match r with
  | Answer x => method_read m x
  | _ => Err <$> unanswered r
  end.

(** Client [t] has called method [m]: it has sent no other command. *)
Definition called {A} (w : worker (Cmd := Cmd) (R := R) (S := S)) (t : nat) (m : Method A) : Prop :=
  ∀ c, (t, c) ∈ accepted w → c = method_command m.

(** ** The history only grows *)

Lemma wstep_history l (w w' : worker) :
  wstep exec capacity l w = Some w' → executed w `prefix_of` executed w' ∧ accepted w `prefix_of` accepted w'.
Proof.
  destruct l; cbn; unfold worker_step; intros Hs; repeat case_match; simplify_eq; cbn;
    auto using prefix_app_r.
Qed.
Lemma wsteps_history ls : ∀ (w w' : worker),
  steps ls w = Some w' → executed w `prefix_of` executed w' ∧ accepted w `prefix_of` accepted w'.
Proof.
  induction ls as [|l ls IH]; intros w w'; cbn; [by intros [= <-]|].
  destruct (wstep exec capacity l w) as [w1|] eqn:Hl; cbn; [|done].
  intros [He Ha]%IH. apply wstep_history in Hl as [He1 Ha1]. split; by etrans.
Qed.

(** A client that came after [w1] is answered after everything that had run. *)
Lemma answered_later s0 ls1 w1 ls2 w2 t r :
  steps ls1 (start s0) = Some w1 → clients w1 !! t = None → steps ls2 w1 = Some w2 →
  clients w2 !! t = Some (CDone (Answer r)) →
  ∃ pre c post, executed w2 = pre ++ (t, c) :: post ∧ executed w1 `prefix_of` pre ∧
                r = (exec c (run_all exec pre s0)).1.
Proof.
  intros Hw1%(winv_steps _ _ s0) Ht Hs Hr; [|apply winv_start].
  pose proof (winv_steps _ _ _ _ _ _ Hw1 Hs) as Hw2.
  destruct (inv_answers _ _ _ _ Hw2 t r Hr) as (pre & c & post & He & ->). exists pre, c, post.
  split_and!; [done| |done]. destruct (wsteps_history _ _ _ Hs) as [[k Hk] _].
  assert (t ∉ (executed w1).*1) as Hfresh.
  { intros Hin. apply (winv_fresh _ _ s0 w1 t Hw1); [by left|].
    assert (executed w1 `prefix_of` accepted w1) as [x ->]; [|rewrite fmap_app, elem_of_app; by left].
    destruct (running w1) eqn:Hrun; [rewrite (inv_fifo _ _ _ _ Hw1 Hrun); by eexists|by apply (inv_stopped _ _ _ _ Hw1)]. }
  rewrite He in Hk. apply app_eq_inv in Hk as [(l & -> & _)|(l & Heq & Hl)]; [by exists l|].
  destruct l as [|x l]; [rewrite Heq, app_nil_r; done|]. injection Hl as <- _.
  destruct Hfresh. rewrite Heq, fmap_app, elem_of_app. right. by left.
Qed.

Lemma called_answer {A} s0 (w : worker) t (m : Method A) pre c post :
  winv exec capacity s0 w → called w t m → executed w = pre ++ (t, c) :: post → c = method_command m.
Proof.
  intros Hw Hm He. apply Hm. assert (executed w `prefix_of` accepted w) as [x Hx].
  { destruct (running w) eqn:Hrun; [rewrite (inv_fifo _ _ _ _ Hw Hrun); by eexists|by apply (inv_stopped _ _ _ _ Hw)]. }
  rewrite Hx, He, !elem_of_app. left. right. by left.
Qed.

Lemma method_answered {A} (m : Method A) s : method_read m (exec (method_command m) s).1 = Some (method_run m s).1.
Proof. rewrite method_exec. apply method_read_reply. Qed.

Lemma dispatch_spec {A} s0 (w : worker) t (m : Method A) r :
  winv exec capacity s0 w → called w t m → clients w !! t = Some (CDone r) →
  ∃ answer, dispatch m r = Some answer ∧
    ((∃ e, unanswered r = Some e ∧ answer = Err e) ∨
     ∃ pre post, executed w = pre ++ (t, method_command m) :: post ∧
                 answer = (method_run m (run_all exec pre s0)).1).
Proof.
  intros Hw Hm Hr.
  assert (∀ x, r = Answer x → ∃ answer, dispatch m r = Some answer ∧
    ∃ pre post, executed w = pre ++ (t, method_command m) :: post ∧
                answer = (method_run m (run_all exec pre s0)).1) as Hanswer.
  { intros x ->. destruct (inv_answers _ _ _ _ Hw t x Hr) as (pre & c & post & He & ->).
    pose proof (called_answer _ _ _ _ _ _ _ Hw Hm He) as ->. cbn. rewrite method_answered.
    eexists. split; [done|]. by exists pre, post. }
  destruct (unanswered_error r) as [[x Hx]|[e He]].
  - destruct (Hanswer x Hx) as (answer & Hd & Ha). eauto.
  - destruct r as [x| | | | |]; [destruct (Hanswer x eq_refl) as (answer & Hd & Ha); by eauto|..];
      cbn [dispatch]; rewrite He; exists (Err e); eauto.
Qed.

(** The call of [m] by client [t] has returned [v]. *)
Definition returned {A} (w : worker) (t : nat) (m : Method A) (v : result E A) : Prop :=
  called w t m ∧ ∃ r, clients w !! t = Some (CDone r) ∧ dispatch m r = Some v.

Lemma dispatch_Ok {A} (m : Method A) r v : dispatch m r = Some (Ok v) → ∃ x, r = Answer x.
Proof. destruct r; cbn; [by eexists|..]; by intros (e & _ & He)%fmap_Some. Qed.

(** A call that returned has left its effect in the store, under those of the
    commands that came after it. *)
Lemma returned_store {A} s0 ls1 w1 ls2 w2 a (m : Method A) x :
  steps ls1 (start s0) = Some w1 → returned w1 a m (Ok x) → steps ls2 w1 = Some w2 →
  ∃ pre post, (method_run m (run_all exec pre s0)).1 = Ok x ∧
              store w2 = run_all exec post (method_run m (run_all exec pre s0)).2.
Proof.
  intros Hs1 (Hm & r & Ha & Hd) Hs2. destruct (dispatch_Ok _ _ _ Hd) as [u ->].
  pose proof (winv_steps _ _ s0 _ _ _ (winv_start _ _ s0) Hs1) as Hw1.
  pose proof (winv_steps _ _ s0 _ _ _ Hw1 Hs2) as Hw2.
  destruct (inv_answers _ _ _ _ Hw1 a u Ha) as (pre & c & post & He & ->).
  pose proof (called_answer _ _ _ _ _ _ _ Hw1 Hm He) as ->. cbn in Hd. rewrite method_answered in Hd.
  destruct (wsteps_history _ _ _ Hs2) as [[k Hk] _]. exists pre, (post ++ k). split; [congruence|].
  rewrite (inv_store _ _ _ _ Hw2), Hk, He, <- app_assoc, (run_all_app _ pre). cbn. by rewrite method_exec.
Qed.

(** A call that returned before another began ran before it, and the other saw
    the store that it left, changed only by the commands in between. *)
Lemma returned_in_order {A B} s0 ls1 w1 ls2 w2 a (m : Method A) x b (n : Method B) y :
  steps ls1 (start s0) = Some w1 → returned w1 a m (Ok x) → clients w1 !! b = None →
  steps ls2 w1 = Some w2 → returned w2 b n (Ok y) →
  ∃ pre mid, (method_run m (run_all exec pre s0)).1 = Ok x ∧
             (method_run n (run_all exec mid (method_run m (run_all exec pre s0)).2)).1 = Ok y.
Proof.
  intros Hs1 (Hm & ra & Ha & Hda) Hb Hs2 (Hn & rb & Hrb & Hdb).
  destruct (dispatch_Ok _ _ _ Hda) as [ua ->], (dispatch_Ok _ _ _ Hdb) as [ub ->].
  pose proof (winv_steps _ _ s0 _ _ _ (winv_start _ _ s0) Hs1) as Hw1.
  pose proof (winv_steps _ _ s0 _ _ _ Hw1 Hs2) as Hw2.
  destruct (inv_answers _ _ _ _ Hw1 a ua Ha) as (pre & c & post & He & ->).
  pose proof (called_answer _ _ _ _ _ _ _ Hw1 Hm He) as ->. cbn in Hda. rewrite method_answered in Hda.
  destruct (answered_later _ _ _ _ _ _ _ Hs1 Hb Hs2 Hrb) as (pre2 & c2 & post2 & He2 & [k ->] & ->).
  pose proof (called_answer _ _ _ _ _ _ _ Hw2 Hn He2) as ->. cbn in Hdb. rewrite method_answered in Hdb.
  exists pre, (post ++ k). split; [congruence|].
  assert (run_all exec (post ++ k) (method_run m (run_all exec pre s0)).2 = run_all exec (executed w1 ++ k) s0) as ->.
  { rewrite He, <- app_assoc, (run_all_app _ pre). cbn. by rewrite method_exec. }
  congruence.
Qed.

(** Calls are typed and atomic: whatever clients, closers and the worker
    interleave, a finished call of a method has a result of the type of that
    method, and it is either an error of the queue or the result of the
    method's own operation, run once, on the store that the commands before it
    have left. *)
Theorem calls_are_atomic {A} s0 ls (w : worker) t (m : Method A) r :
  steps ls (start s0) = Some w → called w t m → clients w !! t = Some (CDone r) →
  ∃ answer, dispatch m r = Some answer ∧
    ((∃ e, unanswered r = Some e ∧ answer = Err e) ∨
     ∃ pre post, executed w = pre ++ (t, method_command m) :: post ∧
                 answer = (method_run m (run_all exec pre s0)).1).
Proof. intros Hw. apply dispatch_spec. by eapply winv_steps; [apply winv_start|]. Qed.
End api.
