(* ===== verification/Closing.v ===== *)
(** * Closing a store

    [close] of the three stores, run by any number of tasks at once over the
    worker of [Worker.v]: the [closed] flag decides who sends [Shutdown], the
    join handle goes to the first who asks for it, and the others have nothing
    to wait for.  [SQLiteEventStore::close_worker] returns at once when the
    flag was set; the Catalog and the Asset store go on to the join handle. *)

From S2P Require Import Prelude Worker.

(** What differs between the stores: whether a [close] that finds the flag set
    still looks for the join handle, and the two errors on the way. *)
Record CloseStyle := mkCloseStyle {
  rejoins : bool;
  text_stopped : string;
  text_lost : string
}.
(** [SQLiteEventStore::close_worker] *)
Definition event_close : CloseStyle :=
  mkCloseStyle false "SQLite worker stopped before shutdown" "SQLite worker shutdown response was lost".
(** [SQLiteCatalogStore::close] *)
Definition catalog_close : CloseStyle :=
  mkCloseStyle true "catalog worker stopped" "catalog shutdown response was lost".
(** [LocalAssetStore::close] *)
Definition asset_close : CloseStyle :=
  mkCloseStyle true "local Asset metadata worker stopped" "local Asset metadata shutdown response was lost".

(** The position of a task in [close]: past the swap, holding the sender,
    waiting for the reply, before the join handle, waiting for the thread, or
    done; or its future was dropped. *)
Inductive task := TTake | TSend | TAwait | TJoin | TJoining | TDone (r : result string ()) | TGone.

Section closing.
Context {Cmd R S : Type} (exec : Cmd → S → R * S) (capacity : nat) (style : CloseStyle).
Abbreviation worker := (worker (Cmd := Cmd) (R := R) (S := S)).
Abbreviation step := (wstep exec capacity).

(** The worker, the [join] of the handle and the tasks; [first] and [owed] are
    history: the task that set the flag, and the commands that the queue had
    accepted when [Shutdown] entered it. *)
Record shared := mkShared {
  base : worker;
  join : bool;
  tasks : gmap nat task;
  first : option nat;
  owed : option (list (nat * Cmd))
}.
Definition opened (s : S) : shared := mkShared (start s) true ∅ None None.

Definition set_task (k : nat) (t : task) (x : shared) : shared :=
  mkShared (base x) (join x) (<[k := t]> (tasks x)) (first x) (owed x).
Definition set_base (b : worker) (x : shared) : shared :=
  mkShared b (join x) (tasks x) (first x) (owed x).

(** The next action of task [k]; [None] while it has to wait. *)
Definition close_step (k : nat) (x : shared) : option shared :=
  match tasks x !! k with
  | None =>
      if closed (base x) then Some (set_task k (if rejoins style then TJoin else TDone (Ok ())) x)
      else b ← step SwapClosed (base x);
           Some (mkShared b (join x) (<[k := TTake]> (tasks x)) (Some k) (owed x))
  | Some TTake =>
      b ← step TakeSender (base x);
      Some (set_task k (if has_sender (base x) then TSend else TJoin) (set_base b x))
  | Some TSend =>
      b ← step SendShutdown (base x);
      if running (base x)
      then Some (mkShared b (join x) (<[k := TAwait]> (tasks x)) (first x) (Some (accepted (base x))))
      else Some (set_task k (TDone (Err (text_stopped style))) (set_base b x))
  | Some TAwait =>
      match closing (base x) with
      | CloseDone => Some (set_task k TJoin x)
      | _ => if running (base x) then None else Some (set_task k (TDone (Err (text_lost style))) x)
      end
  | Some TJoin =>
      if join x then Some (mkShared (base x) false (<[k := TJoining]> (tasks x)) (first x) (owed x))
      else Some (set_task k (TDone (Ok ())) x)
  | Some TJoining => if running (base x) then None else Some (set_task k (TDone (Ok ())) x)
  | Some (TDone _) | Some TGone => None
  end.

(** A future of [close] can be dropped where it awaits. *)
Definition cancel_step (k : nat) (x : shared) : option shared :=
  match tasks x !! k with
  | Some TSend | Some TAwait => b ← step CancelClose (base x); Some (set_task k TGone (set_base b x))
  | Some TJoining => Some (set_task k TGone x)
  | _ => None
  end.

(** [Drop for WorkerHandle]: nobody is inside a call; the join handle goes to a
    detached thread. *)
Definition drop_step (x : shared) : option shared :=
  if forallb (λ p, match p.2 with TDone _ | TGone => true | _ => false end) (map_to_list (tasks x))
  then b ← step DropHandle (base x); Some (mkShared b false (tasks x) (first x) (owed x))
  else None.

Inductive action :=
| AClose (k : nat)
| ACancel (k : nat)
| ADrop
| ACheck (t : nat) | AClone (t : nat) | ASend (t : nat) (c : Cmd) | ALeave (t : nat)  (* clients *)
| AWork.

Definition act (a : action) (x : shared) : option shared :=
  match a with
  | AClose k => close_step k x
  | ACancel k => cancel_step k x
  | ADrop => drop_step x
  | ACheck t => b ← step (CheckClosed t) (base x); Some (set_base b x)
  | AClone t => b ← step (CloneSender t) (base x); Some (set_base b x)
  | ASend t c => b ← step (TrySend t c) (base x); Some (set_base b x)
  | ALeave t => b ← step (Cancel t) (base x); Some (set_base b x)
  | AWork => b ← step Worker.Worker (base x); Some (set_base b x)
  end.
Fixpoint acts (l : list action) (x : shared) : option shared :=
  match l with
  | [] => Some x
  | a :: l' => act a x ≫= acts l'
  end.

(** ** The invariant *)

Variable s0 : S.

(** What the queue still owes to the commands that were ahead of [Shutdown]. *)
Definition promised (b : worker) (owed : option (list (nat * Cmd))) : Prop :=
  match owed with
  | None => Shutdown ∉ queue b
  | Some l =>
      if running b
      then ∃ q1 q2, queue b = q1 ++ Shutdown :: q2 ∧ (Shutdown ∉ q1) ∧ executed b ++ queued q1 = l
      else executed b = l
  end.

(** Where the task that set the flag is, and where the worker is then. *)
Definition placed (b : worker) (o : option (list (nat * Cmd))) (t : task) : Prop :=
  match t with
  | TTake => closing b = Swapped
  | TSend => closing b = HoldsSender
  | TAwait => is_Some o ∧ ((closing b = AwaitsShutdown ∧ running b = true) ∨ (closing b = CloseDone ∧ running b = false))
  | TJoin | TJoining | TDone _ => running b = false ∧ is_Some o
  | TGone => True
  end.
Definition sends (t : task) : bool := match t with TTake | TSend | TAwait => true | _ => false end.

Record linv (x : shared) : Prop := {
  l_base : winv exec capacity s0 (base x);
  l_open : closed (base x) = false → tasks x = ∅ ∧ owed x = None;
  l_known : ∀ k, first x = Some k → is_Some (tasks x !! k);
  l_sends : ∀ k t, tasks x !! k = Some t → sends t = true → first x = Some k;
  l_placed : ∀ k t, tasks x !! k = Some t → first x = Some k → placed (base x) (owed x) t;
  l_swapped : closing (base x) = Swapped → has_sender (base x) = true;
  l_live : closing (base x) = Swapped ∨ closing (base x) = HoldsSender → running (base x) = true ∧ owed x = None;
  l_owed : promised (base x) (owed x);
  l_done : ∀ k r, tasks x !! k = Some (TDone r) → r = Ok ()
}.

Lemma linv_opened : linv (opened s0).
Proof.
  split; cbn; try done; [apply winv_start|apply not_elem_of_nil].
Qed.

(** A step of a client changes neither the handle nor the thread, and queues at
    most one command. *)
Record by_client (b b' : worker) : Prop := {
  bc_closed : closed b' = closed b;
  bc_sender : has_sender b' = has_sender b;
  bc_running : running b' = running b;
  bc_closing : closing b' = closing b;
  bc_executed : executed b' = executed b;
  bc_queue : queue b' = queue b ∨ ∃ t c, queue b' = queue b ++ [Run t c] ∧ running b = true
}.
Lemma client_steps l b b' :
  match l with CheckClosed _ | CloneSender _ | TrySend _ _ | Cancel _ => True | _ => False end →
  step l b = Some b' → by_client b b'.
Proof.
  destruct l as [t|t|t c|t| | | | | |]; try done; intros _ Hs; cbn in Hs.
  all: unfold try_send in Hs; repeat case_match; simplify_eq; split; cbn; eauto.
  all: right; eexists _, _; split; [done|]; by destruct (running b).
Qed.

Lemma promised_client b b' o : by_client b b' → promised b o → promised b' o.
Proof.
  intros [_ _ Hr _ He Hq]. unfold promised. rewrite Hr, He. destruct o as [l|].
  - destruct (running b) eqn:Hrun; [|done]. intros (q1 & q2 & Hb & Hn & Hl).
    destruct Hq as [->|(t & c & -> & _)]; [by exists q1, q2|].
    exists q1, (q2 ++ [Run t c]). by rewrite Hb, <- app_assoc.
  - destruct Hq as [->|(t & c & -> & _)]; [done|].
    by intros Hn [?|?%list_elem_of_singleton]%elem_of_app.
Qed.

Lemma promised_placed b b' o t : by_client b b' → placed b o t → placed b' o t.
Proof. intros [_ _ Hr Hc _ _]. destruct t; cbn; by rewrite ?Hr, ?Hc. Qed.

Lemma linv_client l x b' :
  match l with CheckClosed _ | CloneSender _ | TrySend _ _ | Cancel _ => True | _ => False end →
  linv x → step l (base x) = Some b' → linv (set_base b' x).
Proof.
  intros Hl [H1 H2 Hkn H3 H4 H5 H6 H7 H8] Hs. pose proof (client_steps _ _ _ Hl Hs) as Hc.
  split; cbn; try done.
  - by eapply winv_step.
  - by rewrite (bc_closed _ _ Hc).
  - intros k t Ht Hf. eapply promised_placed; eauto.
  - by rewrite (bc_closing _ _ Hc), (bc_sender _ _ Hc).
  - by rewrite (bc_closing _ _ Hc), (bc_running _ _ Hc).
  - by eapply promised_client.
Qed.

(** An iteration of the worker: a command, the shutdown, or the end of the
    channel, which nobody holds open. *)
Lemma work_cases b b' :
  worker_step exec b = Some b' →
  closed b' = closed b ∧ has_sender b' = has_sender b ∧ running b = true ∧
  ((∃ t c, queue b = Run t c :: queue b' ∧ running b' = true ∧ closing b' = closing b ∧ executed b' = executed b ++ [(t, c)]) ∨
   (∃ q, queue b = Shutdown :: q ∧ queue b' = [] ∧ running b' = false ∧ closing b' = CloseDone ∧ executed b' = executed b) ∨
   (queue b = [] ∧ queue b' = [] ∧ running b' = false ∧ closing b' = closing b ∧ executed b' = executed b ∧
    has_sender b = false ∧ closing b ≠ HoldsSender)).
Proof.
  unfold worker_step. destruct (running b) eqn:Hr; [|done]. cbn [negb].
  destruct (queue b) as [|[t c|] q] eqn:Hq.
  - destruct (senders_left b) eqn:Hs; [done|]. intros [= <-]. cbn. split_and!; try done. right. right.
    unfold senders_left in Hs. apply orb_false_elim in Hs as [[Hs _]%orb_false_elim Hc]. split_and!; try done.
    intros E. by rewrite E in Hc.
  - destruct (exec c (store b)) as [r s]. intros [= <-]. cbn. split_and!; try done. left. by exists t, c.
  - intros [= <-]. cbn. split_and!; try done. right. left. by exists q.
Qed.

Lemma promised_work b b' o : worker_step exec b = Some b' → promised b o → promised b' o.
Proof.
  intros (_ & _ & Hr & Hw)%work_cases. unfold promised. rewrite Hr.
  destruct Hw as [(t & c & Hq & -> & _ & He)|[(q & Hq & Hq' & -> & _ & He)|(Hq & Hq' & -> & _ & He & _)]]; destruct o as [l|].
  - rewrite Hq. intros ([|i q1] & q2 & Hb & Hn & Hl); [discriminate Hb|]. injection Hb as <- Hb.
    exists q1, q2. rewrite He, <- app_assoc. split_and!; [done| |done]. intros Hin. apply Hn. by right.
  - rewrite Hq. intros Hn Hin. apply Hn. by right.
  - rewrite Hq, He. intros ([|i q1] & q2 & Hb & Hn & Hl); [by rewrite app_nil_r in Hl|].
    injection Hb as <- _. destruct Hn. by left.
  - rewrite Hq. intros Hn. destruct Hn. by left.
  - rewrite Hq. intros ([|i q1] & q2 & Hb & _); discriminate Hb.
  - rewrite Hq'. intros _. apply not_elem_of_nil.
Qed.

Lemma placed_work b b' o t :
  worker_step exec b = Some b' → promised b o → (closing b = Swapped → has_sender b = true) →
  (closing b = Swapped ∨ closing b = HoldsSender → o = None) → placed b o t → placed b' o t.
Proof.
  intros (_ & _ & Hr & Hw)%work_cases Ho Hsw Hl Ht.
  destruct t; cbn in Ht |- *; try done; try (by rewrite Hr in Ht; destruct Ht).
  - rewrite (Hl (or_introl Ht)) in Ho. destruct Hw as [(? & ? & _ & _ & -> & _)|[(q & Hq & _)|(_ & _ & _ & _ & _ & Hns & _)]];
      [done| |apply Hsw in Ht; congruence]. cbn in Ho. rewrite Hq in Ho. destruct Ho. by left.
  - rewrite (Hl (or_intror Ht)) in Ho. destruct Hw as [(? & ? & _ & _ & -> & _)|[(q & Hq & _)|(_ & _ & _ & _ & _ & _ & Hnh)]];
      [done| |done]. cbn in Ho. rewrite Hq in Ho. destruct Ho. by left.
  - destruct Ht as [[l ->] [[Hc _]|[_ ?]]]; [|congruence]. split; [by eexists|].
    destruct Hw as [(? & ? & _ & -> & -> & _)|[(q & _ & _ & -> & -> & _)|(Hq & _)]]; [by left|by right|].
    cbn in Ho. rewrite Hr, Hq in Ho. destruct Ho as ([|i q1] & q2 & Hb & _); discriminate Hb.
Qed.

Lemma linv_work x b' : linv x → step Worker.Worker (base x) = Some b' → linv (set_base b' x).
Proof.
  intros [H1 H2 Hkn H3 H4 H5 H6 H7 H8] Hs. pose proof (work_cases _ _ Hs) as (Hcl & Hse & Hr & Hw).
  split; cbn; try done.
  - by eapply winv_step.
  - by rewrite Hcl.
  - intros k t Ht Hf. eapply placed_work; eauto. intros Hc. by apply H6.
  - rewrite Hse. destruct Hw as [(? & ? & _ & _ & -> & _)|[(? & _ & _ & _ & -> & _)|(_ & _ & _ & -> & _)]]; done.
  - destruct Hw as [(? & ? & _ & -> & -> & _)|[(? & _ & _ & _ & -> & _)|(_ & _ & _ & -> & _ & Hns & Hnh)]];
      [intros Hc; by split; [|apply H6]|by intros [|]|].
    intros [Hc|Hc]; [apply H5 in Hc; congruence|done].
  - by eapply promised_work.
Qed.

(** A task goes on without touching the worker. *)
Lemma linv_task x k t j :
  linv x → (∀ r, t = TDone r → r = Ok ()) → sends t = false → closed (base x) = true →
  (first x = Some k → placed (base x) (owed x) t) →
  linv (mkShared (base x) j (<[k := t]> (tasks x)) (first x) (owed x)).
Proof.
  intros [H1 H2 Hkn H3 H4 H5 H6 H7 H8] Ht Hs Hcl Hp. split; cbn; try done.
  - congruence.
  - intros k' Hk'. apply lookup_insert_is_Some'. auto.
  - intros k' t' [[<- <-]|[_ Hk]]%lookup_insert_Some; [congruence|by apply H3].
  - intros k' t' [[<- <-]|[_ Hk]]%lookup_insert_Some; [done|by apply H4].
  - intros k' r [[<- ->]|[_ Hk]]%lookup_insert_Some; [by apply Ht|by apply (H8 k')].
Qed.

Lemma linv_closed x k : linv x → is_Some (tasks x !! k) → closed (base x) = true.
Proof.
  intros Hx [t Ht]. destruct (closed (base x)) eqn:Hc; [done|]. destruct (l_open _ Hx Hc) as [E _].
  by rewrite E in Ht.
Qed.

(** The task that set the flag moves, together with the worker's view of it. *)
Lemma linv_sender x k t t' b o :
  linv x → tasks x !! k = Some t → sends t = true → (∀ r, t' ≠ TDone r) →
  winv exec capacity s0 b → closed b = true → placed b o t' →
  (closing b = Swapped → has_sender b = true) →
  (closing b = Swapped ∨ closing b = HoldsSender → running b = true ∧ o = None) → promised b o →
  linv (mkShared b (join x) (<[k := t']> (tasks x)) (first x) o).
Proof.
  intros [H1 H2 Hkn H3 H4 H5 H6 H7 H8] Ht Hs Hd Hb Hcl Hp Hsw Hl Ho. pose proof (H3 k t Ht Hs) as Hk.
  split; cbn; try done.
  - congruence.
  - intros k' Hk'. apply lookup_insert_is_Some'. auto.
  - intros k' t2 [[<- <-]|[_ Hk']]%lookup_insert_Some; [done|by apply H3].
  - intros k' t2 [[<- <-]|[Hne Hk']]%lookup_insert_Some; [done|congruence].
  - intros k' r [[<- Hr]|[_ Hk']]%lookup_insert_Some; [by destruct (Hd r)|by apply (H8 k')].
Qed.

Lemma linv_swap x k b :
  linv x → tasks x !! k = None → closed (base x) = false → step SwapClosed (base x) = Some b →
  linv (mkShared b (join x) (<[k := TTake]> (tasks x)) (Some k) (owed x)).
Proof.
  intros Hx Hk Hc Hs. pose proof (winv_step _ _ _ _ _ _ (l_base _ Hx) Hs) as Hb.
  destruct (inv_open _ _ _ _ (l_base _ Hx) Hc) as (Hhs & Hr & Hq & Hcl). destruct (l_open _ Hx Hc) as [Ht Ho].
  cbn in Hs. rewrite Hc in Hs. injection Hs as <-. rewrite Ht, Ho. split; cbn; try done.
  - intros k' [= <-]. apply lookup_insert_is_Some'. auto.
  - by intros k' t [[<- _]|[_ ?]]%lookup_insert_Some.
  - by intros k' t [[_ <-]|[_ ?]]%lookup_insert_Some.
  - by intros k' r [[_ ?]|[_ ?]]%lookup_insert_Some.
Qed.

Lemma linv_take k x b :
  linv x → tasks x !! k = Some TTake → step TakeSender (base x) = Some b →
  linv (set_task k (if has_sender (base x) then TSend else TJoin) (set_base b x)).
Proof.
  intros Hx Hk Hs. pose proof (l_sends _ Hx _ _ Hk eq_refl) as Hf. pose proof (l_placed _ Hx _ _ Hk Hf) as Hp. cbn in Hp.
  destruct (l_live _ Hx (or_introl Hp)) as [Hr Ho]. rewrite (l_swapped _ Hx Hp).
  pose proof (winv_step _ _ _ _ _ _ (l_base _ Hx) Hs) as Hb.
  cbn in Hs. rewrite Hp, (l_swapped _ Hx Hp) in Hs. injection Hs as <-.
  eapply (linv_sender x k TTake TSend); cbn; try done; [by eapply linv_closed; eauto|apply (l_owed _ Hx)].
Qed.

Lemma linv_send k x b :
  linv x → tasks x !! k = Some TSend → step SendShutdown (base x) = Some b →
  running (base x) = true ∧
  linv (mkShared b (join x) (<[k := TAwait]> (tasks x)) (first x) (Some (accepted (base x)))).
Proof.
  intros Hx Hk Hs. pose proof (l_sends _ Hx _ _ Hk eq_refl) as Hf. pose proof (l_placed _ Hx _ _ Hk Hf) as Hp. cbn in Hp.
  destruct (l_live _ Hx (or_intror Hp)) as [Hr Ho]. pose proof (l_owed _ Hx) as Hq. rewrite Ho in Hq. cbn in Hq.
  pose proof (winv_step _ _ _ _ _ _ (l_base _ Hx) Hs) as Hb. cbn in Hs. rewrite Hp in Hs.
  unfold try_send in Hs. rewrite Hr in Hs. cbn in Hs.
  destruct (capacity <=? _)%nat; [done|]. injection Hs as <-. split; [done|].
  eapply (linv_sender x k TSend TAwait); cbn; try done; [by eapply linv_closed; eauto|by split; [eexists|left]|by intros [|]|].
  exists (queue (base x)), []. split_and!; [done|done|].
  by rewrite (inv_fifo _ _ _ _ (l_base _ Hx) Hr).
Qed.

Lemma linv_close k x x' : linv x → close_step k x = Some x' → linv x'.
Proof.
  intros Hx. unfold close_step. destruct (tasks x !! k) as [t|] eqn:Hk.
  2:{ destruct (closed (base x)) eqn:Hc.
      - intros [= <-]. apply linv_task; try done; [|by destruct (rejoins style)|].
        + intros r. destruct (rejoins style); [done|by intros [= <-]].
        + intros Hf. destruct (l_known _ Hx k Hf) as [t Ht]. congruence.
      - destruct (step SwapClosed (base x)) as [b|] eqn:Hs; cbn; [|done]. intros [= <-]. by apply linv_swap. }
  assert (closed (base x) = true) as Hcl by (by eapply linv_closed; eauto).
  destruct t; try done.
  - destruct (step TakeSender (base x)) as [b|] eqn:Hs; cbn [mbind option_bind]; [|done]. intros [= <-]. by apply linv_take.
  - destruct (step SendShutdown (base x)) as [b|] eqn:Hs; cbn [mbind option_bind]; [|done].
    destruct (linv_send k x b Hx Hk Hs) as [-> Hx']. by intros [= <-].
  - pose proof (l_sends _ Hx _ _ Hk eq_refl) as Hf.
    destruct (l_placed _ Hx _ _ Hk Hf) as [Ho [[-> ->]|[-> Hr]]]; [done|]. intros [= <-]. by apply linv_task.
  - pose proof (l_placed _ Hx _ _ Hk) as Hp. destruct (join x); intros [= <-]; apply linv_task; try done.
    by intros r [= <-].
  - destruct (running (base x)); [done|]. intros [= <-]. apply linv_task; try done; [by intros r [= <-]|].
    apply (l_placed _ Hx _ _ Hk).
Qed.

Lemma linv_cancel k x x' : linv x → cancel_step k x = Some x' → linv x'.
Proof.
  intros Hx. unfold cancel_step. destruct (tasks x !! k) as [t|] eqn:Hk; [|done].
  assert (closed (base x) = true) as Hcl by (by eapply linv_closed; eauto).
  destruct t; try done; [| |intros [= <-]; by apply linv_task];
    (destruct (step CancelClose (base x)) as [b|] eqn:Hs; cbn [mbind option_bind]; [|done]); intros [= <-];
    pose proof (winv_step _ _ _ _ _ _ (l_base _ Hx) Hs) as Hb; cbn in Hs;
    (eapply (linv_sender x k _ TGone); [done|done|done|done|done|..]);
    destruct (closing (base x)); try done; injection Hs as <-; cbn; try done; try (by intros [|]); apply (l_owed _ Hx).
Qed.

Lemma linv_drop x x' : linv x → drop_step x = Some x' → linv x'.
Proof.
  intros Hx. unfold drop_step. destruct (forallb _ _) eqn:Hf; [|done].
  destruct (step DropHandle (base x)) as [b|] eqn:Hs; cbn [mbind option_bind]; [|done]. intros [= <-].
  pose proof (winv_step _ _ _ _ _ _ (l_base _ Hx) Hs) as Hb. cbn in Hs.
  destruct (idle (base x)) eqn:Hi; [|done]. injection Hs as <-.
  unfold idle in Hi. apply andb_prop in Hi as [_ Hi].
  destruct Hx as [H1 H2 Hkn H3 H4 H5 H6 H7 H8]. split; cbn; try done.
  by intros Hc; rewrite Hc in Hi.
Qed.

Lemma linv_act a x x' : linv x → act a x = Some x' → linv x'.
Proof.
  intros Hx. destruct a; cbn [act]; [by apply linv_close|by apply linv_cancel|by apply linv_drop|..];
    match goal with |- context [step ?l (base x)] => destruct (step l (base x)) as [b|] eqn:Hs end;
    cbn [mbind option_bind]; try done; intros [= <-]; first [by apply linv_work|by eapply linv_client; [|exact Hx|exact Hs]].
Qed.
Lemma linv_acts l : ∀ x x', linv x → acts l x = Some x' → linv x'.
Proof.
  induction l as [|a l IH]; intros x x' Hx; cbn; [by intros [= <-]|].
  destruct (act a x) as [x1|] eqn:Ha; cbn; [|done]. apply IH. by eapply linv_act.
Qed.

(** ** Completion *)

(** Steps of task [k] and of the worker alone bring [k] to success. *)
Definition finishes (k : nat) (n : nat) (x : shared) : Prop :=
  ∃ l x', (length l ≤ n)%nat ∧ Forall (λ a, a = AClose k ∨ a = AWork) l ∧ acts l x = Some x' ∧
          tasks x' !! k = Some (TDone (Ok ())).

Lemma finishes_step k n x a x1 :
  a = AClose k ∨ a = AWork → act a x = Some x1 → finishes k n x1 → finishes k (Datatypes.S n) x.
Proof.
  intros Ha Hx (l & x' & Hl & Hf & Hs & Ht). exists (a :: l), x'. cbn. rewrite Hx. cbn.
  split_and!; [lia|by constructor|done|done].
Qed.
Lemma finishes_mono k n m x : finishes k n x → (n ≤ m)%nat → finishes k m x.
Proof. intros (l & x' & ? & ?) ?. exists l, x'. split; [lia|done]. Qed.

Lemma finishes_joining k x : tasks x !! k = Some TJoining → running (base x) = false → finishes k 1 x.
Proof.
  intros Hk Hr. eapply (finishes_step _ _ _ (AClose k)); [auto|cbn; unfold close_step; by rewrite Hk, Hr|].
  eexists [], _. split_and!; [done|done|done|]. apply lookup_insert_eq.
Qed.
Lemma finishes_join k x : tasks x !! k = Some TJoin → running (base x) = false → finishes k 2 x.
Proof.
  intros Hk Hr. destruct (join x) eqn:Hj.
  - eapply (finishes_step _ _ _ (AClose k)); [auto|cbn; unfold close_step; by rewrite Hk, Hj|].
    apply finishes_joining; [apply lookup_insert_eq|done].
  - eapply (finishes_step _ _ _ (AClose k)); [auto|cbn; unfold close_step; by rewrite Hk, Hj|].
    eexists [], _. split_and!; [cbn; lia|done|done|]. apply lookup_insert_eq.
Qed.

Lemma finishes_work k n m x b' :
  wsteps exec capacity (replicate n Worker.Worker) (base x) = Some b' → finishes k m (set_base b' x) → finishes k (n + m) x.
Proof.
  revert x. induction n as [|n IH]; intros x; cbn [replicate wsteps]; [intros [= <-]; by destruct x|].
  destruct (step Worker.Worker (base x)) as [b1|] eqn:Hs; cbn; [|done]. intros Hw Hf.
  eapply (finishes_step _ _ _ AWork); [auto|cbn [act]; by rewrite Hs|]. by apply IH.
Qed.

(** Once [Shutdown] is queued, the worker comes to it and stops. *)
Lemma finishes_await k x : linv x → tasks x !! k = Some TAwait → finishes k (capacity + 3) x.
Proof.
  intros Hx Hk. pose proof (l_sends _ Hx _ _ Hk eq_refl) as Hf.
  destruct (l_placed _ Hx _ _ Hk Hf) as [[l Ho] [[Hc Hr]|[Hc Hr]]].
  2:{ apply (finishes_mono _ 3); [|lia]. eapply (finishes_step _ _ _ (AClose k)); [auto|cbn; unfold close_step; by rewrite Hk, Hc|].
      apply finishes_join; [apply lookup_insert_eq|done]. }
  pose proof (l_owed _ Hx) as Hq. rewrite Ho in Hq. cbn in Hq. rewrite Hr in Hq. destruct Hq as (q1 & q2 & Hq & Hn & _).
  pose proof (inv_capacity _ _ _ _ (l_base _ Hx)) as Hlen. rewrite Hq, length_app in Hlen. cbn in Hlen.
  destruct (drain_ahead exec capacity q1 (Shutdown :: q2) (base x)) as (b1 & Hs & Hr1 & Hq1 & _);
    [done|done|by intros i Hi ->|].
  apply (finishes_mono _ (length q1 + 4)); [|lia]. eapply finishes_work; [exact Hs|].
  eapply (finishes_step _ _ _ AWork); [auto|cbn; unfold worker_step; by rewrite Hr1, Hq1|].
  eapply (finishes_step _ _ _ (AClose k)); [auto|cbn; unfold close_step; cbn; by rewrite Hk|].
  apply finishes_join; [apply lookup_insert_eq|done].
Qed.

Lemma finishes_send k x :
  (0 < capacity)%nat → linv x → tasks x !! k = Some TSend → (length (queue (base x)) < capacity)%nat →
  finishes k (capacity + 4) x.
Proof.
  intros Hcap Hx Hk Hroom. pose proof (l_sends _ Hx _ _ Hk eq_refl) as Hf. pose proof (l_placed _ Hx _ _ Hk Hf) as Hp. cbn in Hp.
  destruct (l_live _ Hx (or_intror Hp)) as [Hr _].
  destruct (step SendShutdown (base x)) as [b|] eqn:Hs.
  2:{ cbn in Hs. unfold try_send in Hs. rewrite Hp, Hr in Hs. cbn in Hs.
      destruct (Nat.leb_spec capacity (length (queue (base x)))); [lia|done]. }
  destruct (linv_send k x b Hx Hk Hs) as [_ Hx'].
  apply (finishes_mono _ (Datatypes.S (capacity + 3))); [|lia].
  eapply (finishes_step _ _ _ (AClose k)); [auto|cbn [act]; unfold close_step; rewrite Hk, Hs; cbn; by rewrite Hr|].
  apply finishes_await; [done|apply lookup_insert_eq].
Qed.

Lemma finishes_from_send k x :
  (0 < capacity)%nat → linv x → tasks x !! k = Some TSend → finishes k (capacity + 5) x.
Proof.
  intros Hcap Hx Hk. destruct (decide (length (queue (base x)) < capacity)%nat) as [Hroom|Hfull].
  { apply (finishes_mono _ (capacity + 4)); [by apply finishes_send|lia]. }
  pose proof (l_sends _ Hx _ _ Hk eq_refl) as Hf. pose proof (l_placed _ Hx _ _ Hk Hf) as Hp. cbn in Hp.
  destruct (l_live _ Hx (or_intror Hp)) as [Hr Ho]. pose proof (l_owed _ Hx) as Hq. rewrite Ho in Hq. cbn in Hq.
  pose proof (inv_capacity _ _ _ _ (l_base _ Hx)) as Hlen.
  destruct (step Worker.Worker (base x)) as [b|] eqn:Hs.
  2:{ cbn in Hs. unfold worker_step in Hs. rewrite Hr in Hs. cbn in Hs.
      destruct (queue (base x)) as [|[t c|] q]; cbn in *; [lia| |destruct Hq; by left]. by destruct (exec c _). }
  pose proof (linv_work _ _ Hx Hs) as Hx'.
  apply (finishes_mono _ (Datatypes.S (capacity + 4))); [|lia].
  eapply (finishes_step _ _ _ AWork); [auto|cbn [act]; by rewrite Hs|]. apply finishes_send; [done|done|done|]. cbn.
  apply work_cases in Hs as (_ & _ & _ & [(t & c & Hq1 & _)|[(q & Hq1 & _)|(Hq1 & _)]]); rewrite Hq1 in *; cbn in *; [lia| |lia].
  destruct Hq. by left.
Qed.

(** ** The properties *)

(** C20. A [close] that returns has succeeded, and the one that shut the store
    down has drained it: whatever tasks call [close], are dropped while they
    wait, and interleave with clients and the worker, every [close] that
    returns gives [Ok]; when it is the one that set the flag, the worker has
    stopped, has executed exactly the commands that were accepted before
    [Shutdown], in order, and no client is left waiting. *)
Theorem close_returns_drained l x k r :
  acts l (opened s0) = Some x → tasks x !! k = Some (TDone r) →
  r = Ok () ∧ closed (base x) = true ∧
  (first x = Some k →
   running (base x) = false ∧ owed x = Some (executed (base x)) ∧
   (executed (base x)) `prefix_of` (accepted (base x)) ∧ ∀ t, clients (base x) !! t ≠ Some CWaiting).
Proof.
  intros Hx%linv_acts Hk; [|apply linv_opened].
  split_and!; [by eapply l_done|by eapply linv_closed; eauto|]. intros Hf.
  destruct (l_placed _ Hx _ _ Hk Hf) as [Hr [o Ho]]. pose proof (l_owed _ Hx) as Hq. rewrite Ho in Hq. cbn in Hq.
  rewrite Hr in Hq. subst o. split_and!; [done|done|by apply (inv_stopped _ _ _ _ (l_base _ Hx))|].
  intros t Ht. destruct (inv_waiting _ _ _ _ (l_base _ Hx) t Ht). congruence.
Qed.

(** C21. Closing terminates: from every reachable state in which the task that
    set the flag is still inside [close], its own steps and those of the
    worker, at most the capacity of the queue and six more, bring it to [Ok]. *)
Theorem close_terminates l x k t :
  (0 < capacity)%nat → acts l (opened s0) = Some x → first x = Some k → tasks x !! k = Some t → t ≠ TGone →
  finishes k (capacity + 6) x.
Proof.
  intros Hcap Hx%linv_acts Hf Hk Ht; [|apply linv_opened]. pose proof (l_placed _ Hx _ _ Hk Hf) as Hp.
  destruct t as [| | | | |r|]; cbn in Hp; [| | | | | |done].
  - destruct (step TakeSender (base x)) as [b|] eqn:Hs; [|cbn in Hs; by rewrite Hp in Hs].
    pose proof (linv_take k x b Hx Hk Hs) as Hx'. rewrite (l_swapped _ Hx Hp) in Hx'.
    apply (finishes_mono _ (Datatypes.S (capacity + 5))); [|lia].
    eapply (finishes_step _ _ _ (AClose k)); [auto|cbn [act]; unfold close_step; rewrite Hk, Hs; cbn; by rewrite (l_swapped _ Hx Hp)|].
    apply finishes_from_send; [done|done|apply lookup_insert_eq].
  - apply (finishes_mono _ (capacity + 5)); [by apply finishes_from_send|lia].
  - apply (finishes_mono _ (capacity + 3)); [by apply finishes_await|lia].
  - apply (finishes_mono _ 2); [by apply finishes_join; [|apply Hp]|lia].
  - apply (finishes_mono _ 1); [by apply finishes_joining; [|apply Hp]|lia].
  - exists [], x. rewrite (l_done _ Hx _ _ Hk) in Hk. split_and!; [cbn; lia|done|done|done].
Qed.
End closing.

(** ** Concrete runs *)

Section demo.
Abbreviation play style l := (acts demo_exec 3 style l (opened [])).

(** A client queues a command and a task closes the store. *)
Definition closing_actions : list (action (Cmd := Z)) :=
  [ACheck 0; AClone 0; ASend 0 7; AClose 0; AClose 0; AClose 0].
Definition closed_actions : list (action (Cmd := Z)) :=
  closing_actions ++ [AWork; AWork; AClose 0; AClose 0; AClose 0].
Definition closing_state : shared := default (opened []) (play catalog_close closing_actions).
Definition closed_state : shared := default (opened []) (play catalog_close closed_actions).

(** Witness of C20. *)
Lemma close_returns_drained_witness :
  running (base closed_state) = false ∧ owed closed_state = Some (executed (base closed_state)).
Proof.
  destruct (close_returns_drained demo_exec 3 catalog_close [] closed_actions closed_state 0 (Ok ()))
    as (_ & _ & Hf); [vm_compute; reflexivity|vm_compute; reflexivity|].
  destruct (Hf eq_refl) as (Hr & Ho & _). exact (conj Hr Ho).
Defined.

(** Witness of C21. *)
Lemma close_terminates_witness : finishes demo_exec 3 catalog_close 0 9 closing_state.
Proof.
  apply (close_terminates demo_exec 3 catalog_close [] closing_actions closing_state 0 TAwait);
    [lia|vm_compute; reflexivity|vm_compute; reflexivity|vm_compute; reflexivity|discriminate].
Defined.

(** A [close] that finds the store closing does not drain it: while the first
    one waits and a command is still queued, the second [close] of the
    EventStore has returned [Ok], and so has the third of the Catalog, whose
    second waits for the thread. *)
Example later_closes_return_early :
  match play event_close (closing_actions ++ [AClose 1]), play catalog_close (closing_actions ++ [AClose 1; AClose 1; AClose 2; AClose 2]) with
  | Some x, Some y =>
      tasks x !! 1%nat = Some (TDone (Ok ())) ∧ running (base x) = true ∧ executed (base x) = [] ∧
      tasks y !! 1%nat = Some TJoining ∧ tasks y !! 2%nat = Some (TDone (Ok ())) ∧ running (base y) = true ∧
      executed (base y) = []
  | _, _ => False
  end.
Proof. vm_compute. by split_and!. Qed.
End demo.
