(* ===== verification/EventWorker.v ===== *)
(** * The SQLite EventStore behind its queue

    The [Command] enum of [storage-sqlite] and its dispatch in [run_worker],
    as the [exec] of the generic worker of [Worker.v], with the errors that
    [WorkerHandle::sender], [map_send_error] and a lost reply produce.  The
    log of a store only grows, whatever clients interleave and whatever calls
    into SQLite fail. *)

From S2P Require Import Prelude Kernel Sql EventStore EventLog EventReplay Worker.

Section event_worker.
Context `{Kernel, !KernelLaws}.

Abbreviation Error := (StorageError EventId).
Abbreviation C := (conn EventDb SqliteError).

(** [Command], without the reply channel and [Shutdown]. *)
Inductive EventCommand :=
| CaptureCheckpoint
| Append (event : Event)
| Get (event_id : EventId)
| Query (query : EventQuery).

Inductive EventReply :=
| CheckpointReply (r : result Error EventStoreCheckpoint)
| AppendReply (r : result Error StoredEvent)
| GetReply (r : result Error (option StoredEvent))
| QueryReply (r : result Error EventPage).

(** The arms of [run_worker]. *)
Definition exec_command (store_id epoch : EntityId) (cmd : EventCommand) (c : C)
    : EventReply * C :=
  match cmd with
  | CaptureCheckpoint =>
      let '(r, c') := capture_checkpoint store_id epoch c in (CheckpointReply r, c')
  | Append event => let '(r, c') := append_event store_id event epoch c in (AppendReply r, c')
  | Get id => let '(r, c') := get_event store_id id epoch c in (GetReply r, c')
  | Query query => let '(r, c') := query_events store_id query epoch c in (QueryReply r, c')
  end.

(** The error a caller sees when its command was not answered. *)
Definition dispatch_error (r : reply (R := EventReply)) : option Error :=
  match r with
  | Answer _ => None
  | StoreClosed => Some (unavailable "SQLite EventStore is closed")
  | NoSender => Some (unavailable "SQLite EventStore worker is unavailable")
  | QueueFull => Some (unavailable "SQLite command queue is full")
  | QueueClosed => Some (unavailable "SQLite worker is unavailable")
  | ResponseLost => Some (unavailable "SQLite worker response was lost")
  end.

(** [open_with_queue_capacity]: the checks before and after the worker has
    initialized its connection; [fresh] and [epoch] are the two values of
    [EntityId::new()]. *)
Definition open_with_queue_capacity (queue_capacity : Z) (has_parent : bool)
    (quick_check : string) (fresh epoch : EntityId) (c : C)
    : result Error (EntityId * EntityId * worker (Cmd := EventCommand)) * C :=
  if queue_capacity =? 0 then
    (Err (InvalidQuery "SQLite command queue capacity must be greater than zero"), c)
  else
    match pop_fault c with
    | (Some _, c1) => (Err (unavailable "could not start SQLite worker"), c1)
    | (None, c1) =>
        let '(r, c2) := initialize_connection has_parent quick_check fresh c1 in
        (id ← r; Ok (id, epoch, Worker.start (R := EventReply) c2), c2)
    end.

(** What one command does to the log. *)
Definition command_log (store_id epoch : EntityId) (cmd : EventCommand) (log : list Event)
    : list Event :=
  match cmd with
  | Append e => (spec_append store_id epoch e log).2
  | _ => log
  end.

Lemma exec_command_log store_id epoch cmd c log :
  sqlite_holds c log →
  sqlite_holds (exec_command store_id epoch cmd c).2 log ∨
  sqlite_holds (exec_command store_id epoch cmd c).2 (command_log store_id epoch cmd log).
Proof.
  intros Hc. pose proof (sqlite_port_laws store_id epoch) as Hlaws.
  destruct cmd as [|e|id|q]; cbn.
  - destruct (law_capture_checkpoint (EventStorePortLaws := Hlaws) c log Hc) as [_ [(_ & Hh & _)|(_ & Hh)]]; cbn in Hh;
      destruct (capture_checkpoint _ _ _); auto.
  - destruct (law_append (EventStorePortLaws := Hlaws) c log e Hc) as [_ [(_ & Hh & _)|(_ & Hh)]]; cbn in Hh;
      destruct (append_event _ _ _ _); auto.
  - destruct (law_get (EventStorePortLaws := Hlaws) c log id Hc) as [_ [(_ & Hh & _)|(_ & Hh)]]; cbn in Hh;
      destruct (get_event _ _ _ _); auto.
  - destruct (law_query (EventStorePortLaws := Hlaws) c log q Hc) as [_ [(_ & Hh & _)|(_ & Hh)]]; cbn in Hh;
      destruct (query_events _ _ _ _); auto.
Qed.

Lemma run_all_log store_id epoch cmds : ∀ c log,
  sqlite_holds c log →
  ∃ log', sqlite_holds (run_all (exec_command store_id epoch) cmds c) log' ∧ log `prefix_of` log'.
Proof.
  induction cmds as [|[t cmd] cmds IH]; intros c log Hc; cbn; [by exists log|].
  destruct (exec_command_log store_id epoch cmd c log Hc) as [Hh|Hh].
  - apply IH, Hh.
  - destruct (IH _ _ Hh) as (log' & Hh' & Hp). exists log'. split; [done|].
    etrans; [|exact Hp]. destruct cmd; try done. apply spec_append_prefix.
Qed.

(** The log is append-only under concurrency and faults: after any
    interleaving of clients, closers and the worker, from a store that holds
    [log] and with any plan of failing calls, the database holds a log that
    extends [log], and no transaction is open. *)
Theorem concurrent_log_grows store_id epoch capacity db p log ls w :
  represents db log →
  wsteps (exec_command store_id epoch) capacity ls (start (mkConn db None p)) = Some w →
  ∃ log', represents (committed (store w)) log' ∧ log `prefix_of` log' ∧ working (store w) = None.
Proof.
  intros Hrep Hw%(winv_steps _ _ (mkConn db None p)); [|apply winv_start].
  rewrite (inv_store _ _ _ _ Hw).
  destruct (run_all_log store_id epoch (executed w) (mkConn db None p) log) as (log' & [Hh Hr] & Hp);
    [by split|]. by exists log'.
Qed.

End event_worker.

Section demo.
#[local] Existing Instances Demo.demo_kernel Demo.demo_laws.

Definition event_labels : list (label (Cmd := EventCommand (H := Demo.demo_kernel))) :=
  [CheckClosed 0; CloneSender 0; TrySend 0 (Append (demo_event "e1" "b"))].

(** A client has queued an append. *)
Definition event_worker
    : worker (Cmd := EventCommand (H := Demo.demo_kernel)) (R := EventReply (H := Demo.demo_kernel))
        (S := conn EventDb SqliteError) :=
  mkWorker false true [Run 0 (Append (demo_event "e1" "b"))] true (mkConn demo_db None [])
    (<[0%nat := CWaiting]> (<[0%nat := CSender]> {[0%nat := CChecked]})) NotClosing
    [(0%nat, Append (demo_event "e1" "b"))] [].

(** An instance. *)
Lemma concurrent_log_grows_witness :
  ∃ log', represents (H := Demo.demo_kernel) (committed (store event_worker)) log' ∧
          demo_log `prefix_of` log' ∧ working (store event_worker) = None.
Proof.
  apply (concurrent_log_grows (H := Demo.demo_kernel) "store" "epoch" 3 demo_db [] demo_log
           event_labels); [exact demo_represents|reflexivity].
Defined.
End demo.
