(* ===== verification/Pipeline.v ===== *)
(** * The event pipeline

    Models [PipelineAdapter::dispatch] of [orbitrelay-server/src/pipeline.rs]:
    a batch of events is persisted through the EventStore port and then
    published on the event bus.  The bus is a parameter; the store is any
    implementation that satisfies [EventStorePortLaws]. *)

From S2P Require Import Prelude Kernel Sql EventStore EventLog EventReplay.

(** [orbitrelay_sync::EventBus]: publishing one event. *)
Class EventBus `{Kernel} (B : Type) := {
  BusError : Type;
  bus_publish : Event → B → result BusError () * B
}.

(** [PipelineError::new] *)
Record PipelineError := mkPipelineError { pipeline_detail : string }.

Section pipeline.
Context `{Kernel, !KernelLaws}.
Context {St B : Type} `{!EventStorePort St, !EventBus B}.

Definition persistence_failed (e : Event) : PipelineError :=
  mkPipelineError ("event persistence failed for `" +:+ to_text (event_id e) +:+ "`").
Definition publication_failed (e : Event) : PipelineError :=
  mkPipelineError ("event publication failed for `" +:+ to_text (event_id e) +:+ "`").

(** The two loops of [dispatch]. *)
Fixpoint persist_all (events : list Event) (st : St) : result PipelineError () * St :=
  match events with
  | [] => (Ok (), st)
  | e :: rest =>
      match port_append e st with
      | (Ok _, st') => persist_all rest st'
      | (Err _, st') => (Err (persistence_failed e), st')
      end
  end.

Fixpoint publish_all (events : list Event) (b : B) : result PipelineError () * B :=
  match events with
  | [] => (Ok (), b)
  | e :: rest =>
      match bus_publish e b with
      | (Ok _, b') => publish_all rest b'
      | (Err _, b') => (Err (publication_failed e), b')
      end
  end.

(** [PipelineAdapter::dispatch] *)
Definition dispatch (events : list Event) (st : St) (b : B)
    : result PipelineError () * (St * B) :=
  match persist_all events st with
  | (Err e, st') => (Err e, (st', b))
  | (Ok _, st') => let '(r, b') := publish_all events b in (r, (st', b'))
  end.

(** ** Properties *)

(** The event is in the log, under its identity. *)
Definition stored_in (log : list Event) (e : Event) : Prop :=
  ∃ i, log_find (event_id e) log = Some (i, e).

Lemma log_find_app id log more p :
  log_find id log = Some p → log_find id (log ++ more) = Some p.
Proof.
  intros Hf. induction more as [|e more IH] using rev_ind; [by rewrite app_nil_r|].
  unfold log_find in *. rewrite app_assoc, indexed_snoc.
  revert IH. generalize (indexed (log ++ more)). intros l.
  induction l as [|x l IHl]; [done|]. cbn. by case_match.
Qed.

Lemma stored_in_prefix log log' e : log `prefix_of` log' → stored_in log e → stored_in log' e.
Proof. intros [more ->] [i Hi]. exists i. by apply log_find_app. Qed.

Lemma spec_append_Ok store_id epoch e log s :
  (spec_append store_id epoch e log).1 = Ok s → stored_in (spec_append store_id epoch e log).2 e.
Proof.
  unfold spec_append, stored_in. destruct (log_find _ _) as [[i e']|] eqn:Hf.
  - case_decide as He; [|done]. subst. intros _. by exists i.
  - intros _. exists (Z.of_nat (length log)). by apply log_find_snoc.
Qed.

Context (store_id epoch : EntityId) (holds : St → list Event → Prop) (calm : St → Prop).
Context `{!EventStorePortLaws St store_id epoch holds calm}.

Lemma port_append_log st log e :
  holds st log →
  ∃ more, holds (port_append e st).2 (log ++ more) ∧ more ⊆ [e] ∧
          (is_ok (port_append e st).1 = true → stored_in (log ++ more) e).
Proof.
  intros Hst. destruct (law_append st log e Hst) as [_ [([m Hb] & Hh & _)|(Hr & Hh)]].
  - exists []. rewrite app_nil_r. split; [done|]. split; [set_solver|]. by destruct Hb as [->| ->].
  - rewrite Hr. assert (∃ more, (spec_append store_id epoch e log).2 = log ++ more ∧ more ⊆ [e]) as (more & Heq & Hm).
    { unfold spec_append. destruct (log_find _ _) as [[i e']|]; [|by exists [e]].
      exists []. rewrite app_nil_r. split; [by case_decide|set_solver]. }
    exists more. rewrite Heq in Hh. split; [done|]. split; [done|].
    destruct (spec_append store_id epoch e log).1 as [s|] eqn:Hs; [|done].
    intros _. rewrite <- Heq. by eapply spec_append_Ok.
Qed.

Lemma persist_all_log events : ∀ st log,
  holds st log →
  let '(r, st') := persist_all events st in
  ∃ more, holds st' (log ++ more) ∧ more ⊆ events ∧
    match r with
    | Ok _ => Forall (stored_in (log ++ more)) events
    | Err err => ∃ done e rest, events = done ++ e :: rest ∧ Forall (stored_in (log ++ more)) done ∧
                                Err err = Err (persistence_failed e) :> result PipelineError ()
    end.
Proof.
  induction events as [|e events IH]; intros st log Hst; cbn [persist_all].
  - exists []. by rewrite app_nil_r.
  - destruct (port_append_log st log e Hst) as (more1 & Hh & Hm & Hs).
    destruct (port_append e st) as [[s|err] st1]; cbn in *; cycle 1.
    { exists more1. split; [done|]. split; [intros x Hx%Hm; by apply list_elem_of_singleton in Hx as ->; left|].
      by exists [], e, events. }
    specialize (IH st1 _ Hh). destruct (persist_all events st1) as [r st2].
    destruct IH as (more2 & Hh2 & Hm2 & Hr). exists (more1 ++ more2). rewrite app_assoc.
    assert (stored_in ((log ++ more1) ++ more2) e) as He
      by (eapply stored_in_prefix; [by eexists|by apply Hs]).
    split; [done|]. split.
    { intros x [Hx%Hm|Hx%Hm2]%elem_of_app; [apply list_elem_of_singleton in Hx as ->; by left|by right]. }
    destruct r as [|err]; [by constructor|].
    destruct Hr as (done & e' & rest & -> & Hall & ?). exists (e :: done), e', rest. by split_and!; [|constructor|].
Qed.

(** The bus has accepted these events, one after the other. *)
Inductive published : list Event → B → B → Prop :=
| published_nil b : published [] b b
| published_cons e events b b1 b2 :
    bus_publish e b = (Ok (), b1) → published events b1 b2 → published (e :: events) b b2.

(** A batch was sent to the bus: all of it, or up to an event that the bus refused. *)
Inductive sent (events : list Event) (b : B) : result PipelineError () → B → Prop :=
| sent_all b' : published events b b' → sent events b (Ok ()) b'
| sent_until done e rest b1 b' err :
    events = done ++ e :: rest → published done b b1 → bus_publish e b1 = (Err err, b') →
    sent events b (Err (publication_failed e)) b'.

Lemma publish_all_sent events : ∀ b, let '(r, b') := publish_all events b in sent events b r b'.
Proof.
  induction events as [|e events IH]; intros b; cbn [publish_all]; [apply sent_all; constructor|].
  destruct (bus_publish e b) as [[[]|err] b1] eqn:He.
  - specialize (IH b1). destruct (publish_all events b1) as [r b'].
    destruct IH as [b' Hp|done e' rest b2 b' err' -> Hp Hf].
    + apply sent_all. by econstructor.
    + eapply (sent_until _ _ (e :: done)); [done|by econstructor|done].
  - by eapply (sent_until _ _ []); [|constructor|].
Qed.

(** C30. A batch is published only when all of it is stored.  After a dispatch
    the store holds an extension of its log by events of the batch, and either
    storing has failed at an event, with the events before it stored, the error
    that names it and the bus untouched; or every event of the batch is in the
    log under its identity, and the bus has accepted the batch in order, all of
    it when the dispatch succeeds, and otherwise up to the event that it refused
    and that the error names. *)
Theorem dispatch_stores_before_publishing events st b log :
  holds st log →
  let '(r, (st', b')) := dispatch events st b in
  ∃ more, holds st' (log ++ more) ∧ more ⊆ events ∧
    ((b' = b ∧ ∃ done e rest, events = done ++ e :: rest ∧ Forall (stored_in (log ++ more)) done ∧
                              r = Err (persistence_failed e)) ∨
     (Forall (stored_in (log ++ more)) events ∧ sent events b r b')).
Proof.
  intros Hst. unfold dispatch. pose proof (persist_all_log events st log Hst) as Hp.
  destruct (persist_all events st) as [[[]|err] st']; destruct Hp as (more & Hh & Hm & Hr).
  - pose proof (publish_all_sent events b) as Hb. destruct (publish_all events b) as [r b'].
    exists more. split_and!; [done|done|]. by right.
  - exists more. split_and!; [done|done|]. by left.
Qed.

End pipeline.

Section demo.
#[local] Existing Instances Demo.demo_kernel Demo.demo_laws.

(** A bus that records what is published. *)
#[local] Instance demo_bus : EventBus (H := Demo.demo_kernel) (list Demo.event) :=
  {| BusError := (); bus_publish e b := (Ok (), b ++ [e]) |}.
#[local] Instance demo_port : EventStorePort (H := Demo.demo_kernel) (conn EventDb SqliteError) :=
  sqlite_port (H := Demo.demo_kernel) "store" "epoch".

(** Witness of C30. *)
Lemma dispatch_stores_before_publishing_witness :
  let events := [demo_event "e1" "b"; demo_event "e2" "c"] in
  let '(r, (st', b')) := dispatch (H := Demo.demo_kernel) events (mkConn demo_db None []) [] in
  r = Ok () ∧ b' = events ∧
  ∃ more, sqlite_holds (H := Demo.demo_kernel) st' (demo_log ++ more) ∧ more ⊆ events ∧
    ((b' = [] ∧ ∃ done e rest, events = done ++ e :: rest ∧
                  Forall (stored_in (H := Demo.demo_kernel) (demo_log ++ more)) done ∧
                  r = Err (persistence_failed (H := Demo.demo_kernel) e)) ∨
     (Forall (stored_in (H := Demo.demo_kernel) (demo_log ++ more)) events ∧
      sent (H := Demo.demo_kernel) events [] r b')).
Proof.
  pose proof (dispatch_stores_before_publishing (H := Demo.demo_kernel) "store" "epoch"
           sqlite_holds sqlite_calm
           (EventStorePortLaws0 := sqlite_port_laws (H := Demo.demo_kernel) "store" "epoch")
           [demo_event "e1" "b"; demo_event "e2" "c"] (mkConn demo_db None []) [] demo_log
           (conj eq_refl demo_represents)) as Hd.
  split; [reflexivity|]. split; [reflexivity|]. exact Hd.
Defined.
End demo.
