(* ===== verification/Coordinator.v ===== *)
(** * Keyed execution coordination

    Models [TokioExecutionCoordinator] of [orbitrelay-server/src/canvas.rs]:
    one mutex per execution scope, created on demand, shared through weak
    references and removed when its last user is gone.  [cstep] is one atomic
    action, so that every interleaving of tasks (with the window between the
    last reference going away and [KeyedMutex::drop] taking the map's lock) is
    a sequence of labels. *)

From S2P Require Import Prelude.

Section coordinator.
Context {Scope : Type} `{Countable Scope}.

(** Where a task is: it holds the [Arc] of an entry and waits for its mutex,
    holds the guard, or has dropped the guard but not yet the [Arc]. *)
Inductive task := Waiting (o : nat) | Holding (o : nat) | Unlocked (o : nat).
Definition entry_of (x : task) : nat :=
  match x with Waiting o | Holding o | Unlocked o => o end.

(** [entries] maps a scope to the entry its weak reference points to; entries
    are never reused, as a weak reference keeps the allocation. *)
Record coordinator := mkCoordinator {
  entries : gmap Scope nat;
  scopes : gmap nat Scope;
  tasks : gmap nat task;
  next_entry : nat
}.
Definition new : coordinator := mkCoordinator ∅ ∅ ∅ 0.

(** [weak.upgrade().is_some()]: some task owns the [Arc]. *)
Definition alive (o : nat) (s : coordinator) : bool :=
  existsb (λ p, bool_decide (entry_of p.2 = o)) (map_to_list (tasks s)).
(** The mutex of the entry is locked. *)
Definition locked (o : nat) (s : coordinator) : bool :=
  existsb (λ p, match p.2 with Holding o' => bool_decide (o' = o) | _ => false end)
    (map_to_list (tasks s)).

(** [prune_stale] *)
Definition prune_stale (s : coordinator) : coordinator :=
  mkCoordinator (filter (λ p, alive p.2 s = true) (entries s)) (scopes s) (tasks s) (next_entry s).
(** [key_count] *)
Definition key_count (s : coordinator) : nat := size (entries (prune_stale s)).

(** The locked block of [acquire]: the live entry of the scope, or a new one. *)
Definition acquire_entry (t : nat) (scope : Scope) (s : coordinator) : coordinator :=
  match entries s !! scope with
  | Some o =>
      if alive o s then
        mkCoordinator (entries s) (scopes s) (<[t := Waiting o]> (tasks s)) (next_entry s)
      else
        mkCoordinator (<[scope := next_entry s]> (entries s)) (<[next_entry s := scope]> (scopes s))
          (<[t := Waiting (next_entry s)]> (tasks s)) (S (next_entry s))
  | None =>
      mkCoordinator (<[scope := next_entry s]> (entries s)) (<[next_entry s := scope]> (scopes s))
        (<[t := Waiting (next_entry s)]> (tasks s)) (S (next_entry s))
  end.

(** [Drop for KeyedMutex]: removes the entry of its scope if it is its own. *)
Definition drop_entry (o : nat) (s : coordinator) : coordinator :=
  match scopes s !! o with
  | Some scope =>
      if bool_decide (entries s !! scope = Some o)
      then mkCoordinator (delete scope (entries s)) (scopes s) (tasks s) (next_entry s)
      else s
  | None => s
  end.

Inductive label :=
| Acquire (t : nat) (scope : Scope)  (* up to the [await] of [acquire] *)
| Lock (t : nat)                     (* [lock_owned] completes *)
| Abandon (t : nat)                  (* the waiting future is dropped *)
| DropGuard (t : nat)                (* the lease drops its guard *)
| DropArc (t : nat)                  (* the lease drops its entry *)
| DropEntry (o : nat)                (* [KeyedMutex::drop] of a dead entry *)
| Prune.                             (* [key_count] *)

Definition cstep (l : label) (s : coordinator) : option coordinator :=
  match l with
  | Acquire t scope =>
      match tasks s !! t with
      | Some _ => None
      | None => Some (acquire_entry t scope (prune_stale s))
      end
  | Lock t =>
      match tasks s !! t with
      | Some (Waiting o) =>
          if locked o s then None
          else Some (mkCoordinator (entries s) (scopes s) (<[t := Holding o]> (tasks s)) (next_entry s))
      | _ => None
      end
  | Abandon t =>
      match tasks s !! t with
      | Some (Waiting o) => Some (mkCoordinator (entries s) (scopes s) (delete t (tasks s)) (next_entry s))
      | _ => None
      end
  | DropGuard t =>
      match tasks s !! t with
      | Some (Holding o) =>
          Some (mkCoordinator (entries s) (scopes s) (<[t := Unlocked o]> (tasks s)) (next_entry s))
      | _ => None
      end
  | DropArc t =>
      match tasks s !! t with
      | Some (Unlocked o) => Some (mkCoordinator (entries s) (scopes s) (delete t (tasks s)) (next_entry s))
      | _ => None
      end
  | DropEntry o => if alive o s then None else Some (drop_entry o s)
  | Prune => Some (prune_stale s)
  end.

(** A run is a sequence of actions that were all possible. *)
Fixpoint csteps (ls : list label) (s : coordinator) : option coordinator :=
  match ls with [] => Some s | l :: ls' => cstep l s ≫= csteps ls' end.

Inductive reachable : coordinator → Prop :=
| reach_new : reachable new
| reach_step l s s' : reachable s → cstep l s = Some s' → reachable s'.

Lemma csteps_reachable ls : ∀ s s', reachable s → csteps ls s = Some s' → reachable s'.
Proof.
  induction ls as [|l ls IH]; intros s s' Hs; cbn; [by intros [= <-]|].
  destruct (cstep l s) as [s1|] eqn:Hl; cbn; [|done]. apply IH. by eapply reach_step.
Qed.

(** ** The invariant: the entry that tasks use is the one in the map *)

Record cinv (s : coordinator) : Prop := {
  cinv_current : ∀ t x, tasks s !! t = Some x →
    ∃ scope, scopes s !! entry_of x = Some scope ∧ entries s !! scope = Some (entry_of x);
  cinv_scoped : ∀ scope o, entries s !! scope = Some o → scopes s !! o = Some scope;
  cinv_fresh : ∀ o, is_Some (scopes s !! o) → (o < next_entry s)%nat;
  cinv_exclusive : ∀ t t' o, tasks s !! t = Some (Holding o) → tasks s !! t' = Some (Holding o) → t = t'
}.

Lemma alive_spec o s : alive o s = true ↔ ∃ t x, tasks s !! t = Some x ∧ entry_of x = o.
Proof.
  unfold alive. rewrite existsb_exists. split.
  - intros ([t x] & Hin%list_elem_of_In%elem_of_map_to_list & Ho%bool_decide_eq_true). eauto.
  - intros (t & x & Hx & Ho). exists (t, x). split; [by apply list_elem_of_In, elem_of_map_to_list|].
    by apply bool_decide_eq_true.
Qed.

Lemma locked_spec o s : locked o s = true ↔ ∃ t, tasks s !! t = Some (Holding o).
Proof.
  unfold locked. rewrite existsb_exists. split.
  - intros ([t x] & Hin%list_elem_of_In%elem_of_map_to_list & Ho). cbn in Ho.
    destruct x; try done. apply bool_decide_eq_true in Ho as ->. eauto.
  - intros (t & Hx). exists (t, Holding o). split; [by apply list_elem_of_In, elem_of_map_to_list|].
    by apply bool_decide_eq_true.
Qed.

Lemma cinv_new : cinv new.
Proof.
  split; cbn; try (intros; by simplify_map_eq).
Qed.

Lemma cinv_prune s : cinv s → cinv (prune_stale s).
Proof.
  intros [H1 H2 H3 H4]. split; cbn; try done.
  - intros t x Hx. destruct (H1 t x Hx) as (scope & Hs & He). exists scope. split; [done|].
    apply map_lookup_filter_Some. split; [done|]. cbn. apply alive_spec. eauto.
  - intros scope o [He _]%map_lookup_filter_Some. by apply H2.
Qed.

(** A task that joins the live entry of its scope. *)
Lemma cinv_join s t scope o :
  cinv s → tasks s !! t = None → entries s !! scope = Some o →
  cinv (mkCoordinator (entries s) (scopes s) (<[t := Waiting o]> (tasks s)) (next_entry s)).
Proof.
  intros [H1 H2 H3 H4] Ht He. split; cbn; try done.
  - intros t' x [[<- <-]|[_ Hx]]%lookup_insert_Some; [|by apply H1 with t'].
    exists scope. split; [by apply H2|done].
  - intros t1 t2 o' [[_ ?]|[_ Hx]]%lookup_insert_Some [[_ ?]|[_ Hy]]%lookup_insert_Some; try done.
    by apply (H4 t1 t2 o').
Qed.

(** A task that creates an entry for a scope nobody uses. *)
Lemma cinv_create s t scope :
  cinv s → tasks s !! t = None → (∀ o, entries s !! scope = Some o → alive o s = false) →
  cinv (mkCoordinator (<[scope := next_entry s]> (entries s)) (<[next_entry s := scope]> (scopes s))
          (<[t := Waiting (next_entry s)]> (tasks s)) (S (next_entry s))).
Proof.
  intros [H1 H2 H3 H4] Ht Hdead. 
  assert (∀ o sc, scopes s !! o = Some sc → o ≠ next_entry s) as Hne
    by (intros o sc Ho ->; specialize (H3 (next_entry s) ltac:(eauto)); lia).
  split; cbn.
  - intros t' x [[<- <-]|[Hn Hx]]%lookup_insert_Some; cbn.
    { exists scope. by rewrite !lookup_insert_eq. }
    destruct (H1 t' x Hx) as (sc & Hs & He). exists sc.
    rewrite lookup_insert_ne by (symmetry; by eapply Hne). split; [done|].
    rewrite lookup_insert_ne; [done|]. intros <-. apply Hdead in He.
    assert (alive (entry_of x) s = true) by (apply alive_spec; eauto). congruence.
  - intros sc o [[<- <-]|[Hsc He]]%lookup_insert_Some; [apply lookup_insert_eq|].
    apply H2 in He. rewrite lookup_insert_ne; [done|]. symmetry. by eapply Hne.
  - intros o [sc Ho]. apply lookup_insert_Some in Ho as [[<- _]|[_ Ho]]; [lia|].
    specialize (H3 o ltac:(eauto)). lia.
  - intros t1 t2 o' [[_ ?]|[_ Hx]]%lookup_insert_Some [[_ ?]|[_ Hy]]%lookup_insert_Some; try done.
    by apply (H4 t1 t2 o').
Qed.

(** A task that keeps its entry but changes its position. *)
Lemma cinv_move s t x y :
  cinv s → tasks s !! t = Some x → entry_of y = entry_of x →
  (y = Holding (entry_of x) → locked (entry_of x) s = false) →
  cinv (mkCoordinator (entries s) (scopes s) (<[t := y]> (tasks s)) (next_entry s)).
Proof.
  intros [H1 H2 H3 H4] Ht He Hl. split; cbn; try done.
  - intros t' z [[<- <-]|[_ Hz]]%lookup_insert_Some; [|by apply H1 with t'].
    rewrite He. by apply H1 with t.
  - assert (∀ t', y = Holding (entry_of x) → tasks s !! t' = Some (Holding (entry_of x)) → False) as Hno.
    { intros t' Hy Hx. specialize (Hl Hy). assert (locked (entry_of x) s = true)
        by (apply locked_spec; eauto). congruence. }
    intros t1 t2 o [[<- Hy1]|[_ Hx]]%lookup_insert_Some [[<- Hy2]|[_ Hx']]%lookup_insert_Some; try done.
    + subst y. cbn in He. subst o. by destruct (Hno t2 eq_refl).
    + subst y. cbn in He. subst o. by destruct (Hno t1 eq_refl).
    + by apply (H4 t1 t2 o).
Qed.

Lemma cinv_leave s t :
  cinv s → cinv (mkCoordinator (entries s) (scopes s) (delete t (tasks s)) (next_entry s)).
Proof.
  intros [H1 H2 H3 H4]. split; cbn; try done.
  - intros t' x [_ Hx]%lookup_delete_Some. by apply H1 with t'.
  - intros t1 t2 o [_ Hx]%lookup_delete_Some [_ Hy]%lookup_delete_Some. by apply (H4 t1 t2 o).
Qed.

Lemma cinv_drop_entry s o : cinv s → alive o s = false → cinv (drop_entry o s).
Proof.
  intros Hs Ho. unfold drop_entry. destruct (scopes s !! o) as [scope|] eqn:Hscope; [|done].
  case_bool_decide as He; [|done]. destruct Hs as [H1 H2 H3 H4]. split; cbn; try done.
  - intros t x Hx. destruct (H1 t x Hx) as (sc & Hsc & Hen). exists sc. split; [done|].
    rewrite lookup_delete_ne; [done|]. intros <-. rewrite He in Hen. injection Hen as ->.
    assert (alive (entry_of x) s = true) by (apply alive_spec; eauto). congruence.
  - intros sc o' [_ Hen]%lookup_delete_Some. by apply H2.
Qed.

Lemma cinv_step l s s' : cinv s → cstep l s = Some s' → cinv s'.
Proof.
  intros Hs. destruct l as [t scope|t|t|t|t|o|]; cbn [cstep].
  - destruct (tasks s !! t) eqn:Ht; [done|]. intros [= <-].
    pose proof (cinv_prune s Hs) as Hp. unfold acquire_entry.
    destruct (entries (prune_stale s) !! scope) as [o|] eqn:He.
    + destruct (alive o (prune_stale s)) eqn:Ha; [by apply (cinv_join _ _ scope)|].
      apply cinv_create; [done|done|]. intros o' Ho'. congruence.
    + apply cinv_create; [done|done|]. intros o' Ho'. congruence.
  - destruct (tasks s !! t) as [[o| |]|] eqn:Ht; try done.
    destruct (locked o s) eqn:Hl; [done|]. intros [= <-]. by apply (cinv_move s t (Waiting o)).
  - destruct (tasks s !! t) as [[o| |]|] eqn:Ht; try done. intros [= <-]. by apply cinv_leave.
  - destruct (tasks s !! t) as [[|o|]|] eqn:Ht; try done. intros [= <-].
    by apply (cinv_move s t (Holding o)).
  - destruct (tasks s !! t) as [[| |o]|] eqn:Ht; try done. intros [= <-]. by apply cinv_leave.
  - destruct (alive o s) eqn:Ha; [done|]. intros [= <-]. by apply cinv_drop_entry.
  - intros [= <-]. by apply cinv_prune.
Qed.

Lemma cinv_reachable s : reachable s → cinv s.
Proof. induction 1; [apply cinv_new|by eapply cinv_step]. Qed.

(** C31. Mutual exclusion per scope: in every interleaving of acquisitions,
    cancellations, releases and entry drops, two tasks that hold leases for
    the same scope are the same task. *)
Theorem lease_exclusive s t t' o o' scope :
  reachable s → tasks s !! t = Some (Holding o) → tasks s !! t' = Some (Holding o') →
  scopes s !! o = Some scope → scopes s !! o' = Some scope → t = t'.
Proof.
  intros Hs%cinv_reachable Ht Ht' Ho Ho'.
  destruct (cinv_current s Hs _ _ Ht) as (sc & Hsc & He), (cinv_current s Hs _ _ Ht') as (sc' & Hsc' & He').
  cbn in *. assert (o = o') as <- by congruence. by apply (cinv_exclusive s Hs t t' o).
Qed.

(** No key outlives its users: after pruning, the coordinator keeps
    exactly the scopes that some task waits for, holds or is releasing, so an
    idle coordinator keeps none. *)
Theorem keys_are_in_use s scope :
  reachable s →
  is_Some (entries (prune_stale s) !! scope) ↔
  ∃ t x, tasks s !! t = Some x ∧ scopes s !! entry_of x = Some scope.
Proof.
  intros Hs%cinv_reachable. cbn. split.
  - intros [o [He Ha]%map_lookup_filter_Some]. cbn in Ha. apply alive_spec in Ha as (t & x & Hx & <-).
    exists t, x. split; [done|]. by apply (cinv_scoped s Hs).
  - intros (t & x & Hx & Hsc). destruct (cinv_current s Hs t x Hx) as (sc & Hsc' & He).
    exists (entry_of x). apply map_lookup_filter_Some. split; [congruence|]. cbn.
    apply alive_spec. eauto.
Qed.

End coordinator.

(** ** A concrete run: one task holds scope 7, another waits for it. *)

Definition demo_labels : list (label (Scope := nat)) := [Acquire 0 7%nat; Lock 0; Acquire 1 7%nat].
Definition demo_state : coordinator (Scope := nat) := default new (csteps demo_labels new).

Lemma demo_reachable : reachable demo_state.
Proof. apply (csteps_reachable demo_labels new); [constructor|vm_compute; reflexivity]. Qed.

(** Witness of C31. *)
Lemma lease_exclusive_witness :
  tasks demo_state !! 0%nat = Some (Holding 0) ∧ (0 = 0)%nat.
Proof.
  split; [vm_compute; reflexivity|].
  apply (lease_exclusive demo_state 0 0 0 0 7%nat);
    [exact demo_reachable|vm_compute; reflexivity..].
Defined.

(** An instance. *)
Lemma keys_are_in_use_witness :
  is_Some (entries (prune_stale demo_state) !! 7%nat) ↔
  ∃ t x, tasks demo_state !! t = Some x ∧ scopes demo_state !! entry_of x = Some 7%nat.
Proof. apply (keys_are_in_use demo_state 7%nat). exact demo_reachable. Defined.
