(* ===== verification/Canvas.v ===== *)
(** * The Canvas adapters

    Models the catalog and the state reader of
    [orbitrelay-server/src/canvas.rs].  The Canvas crates of the kernel are
    the class [CanvasKernel].  [load_stroke] pages through the EventStore port;
    other tasks may append between its queries, and the theorem says that the
    projection it returns is the one of the whole session log at the moment of
    its last query. *)

From S2P Require Import Prelude Float Kernel Sql EventStore EventLog EventReplay.

(** The five variants of [CanvasEventData], each with a payload that names its
    Canvas and Stroke; the enum is non-exhaustive. *)
Inductive CanvasEventData (P : Type) :=
| StrokeBegan (p : P)
| StrokePointsAppended (p : P)
| StrokeCompleted (p : P)
| StrokeCancelled (p : P)
| StrokeRemoved (p : P)
| CanvasDataOther.
Arguments StrokeBegan {P} p.
Arguments StrokePointsAppended {P} p.
Arguments StrokeCompleted {P} p.
Arguments StrokeCancelled {P} p.
Arguments StrokeRemoved {P} p.
Arguments CanvasDataOther {P}.

(** [orbitrelay-canvas] and [orbitrelay-canvas-runtime] *)
Class CanvasKernel `{Kernel} := {
  LayerId : Type;
  StrokeId : Type;
  StrokeId_eq_dec :: EqDecision StrokeId;
  CanvasId_countable :: Countable CanvasId;
  StrokePayload : Type;
  payload_canvas_id : StrokePayload → CanvasId;
  payload_stroke_id : StrokePayload → StrokeId;
  CanvasEventKind_from_event_type : EventType → bool;
  CanvasEventData_try_from : Event → option (CanvasEventData StrokePayload);
  StrokeProjection : Type;
  StrokeProjector_apply : option StrokeProjection → Event → option StrokeProjection;
  CanvasSpace : Type;
  CanvasSpace_new : F64 → F64 → option CanvasSpace;
  CanvasDescriptor : Type;
  CanvasDescriptor_new : CanvasId → SessionId → CanvasSpace → list LayerId → LayerId →
                         option CanvasDescriptor;
  canvas_canvas_id : CanvasDescriptor → CanvasId;
  canvas_session_id : CanvasDescriptor → SessionId
}.

Section canvas.
Context `{Kernel, !KernelLaws, !CanvasKernel}.

Abbreviation Error := (StorageError EventId).

(** ** [DevelopmentCanvasCatalog] *)

Abbreviation CatalogMap := (gmap CanvasId CanvasDescriptor).
Inductive CanvasCatalogError := CatalogError (detail : string).

Definition catalog_new (d : CanvasDescriptor) : CatalogMap := {[ canvas_canvas_id d := d ]}.
Definition catalog_empty : CatalogMap := ∅.

Fixpoint insert_descriptors (map : CatalogMap) (ds : list CanvasDescriptor)
    : result CanvasCatalogError CatalogMap :=
  match ds with
  | [] => Ok map
  | d :: rest =>
      match map !! canvas_canvas_id d with
      | Some _ => Err (CatalogError "duplicate Canvas identity")
      | None => insert_descriptors (<[canvas_canvas_id d := d]> map) rest
      end
  end.
(** [from_descriptors] *)
Definition from_descriptors (ds : list CanvasDescriptor) : result CanvasCatalogError CatalogMap :=
  insert_descriptors ∅ ds.
Definition catalog_len (m : CatalogMap) : nat := size m.
Definition catalog_is_empty (m : CatalogMap) : bool := bool_decide (m = ∅).
(** [get_canvas] *)
Definition get_canvas (id : CanvasId) (m : CatalogMap)
    : result CanvasCatalogError (option CanvasDescriptor) := Ok (m !! id).

Lemma insert_descriptors_spec ds : ∀ map m,
  insert_descriptors map ds = Ok m →
  NoDup (canvas_canvas_id <$> ds) ∧
  (∀ d, d ∈ ds → map !! canvas_canvas_id d = None) ∧
  (∀ id d, m !! id = Some d ↔ map !! id = Some d ∨ (d ∈ ds ∧ canvas_canvas_id d = id)).
Proof.
  induction ds as [|d ds IH]; intros map m; cbn [insert_descriptors].
  - intros [= ->]. split_and!; [constructor|by intros d Hd%elem_of_nil|].
    intros id d. split; [auto|]. by intros [?|[Hd%elem_of_nil _]].
  - destruct (map !! canvas_canvas_id d) eqn:Hd; [done|]. intros (Hnd & Hfresh & Hm)%IH.
    assert (∀ x, x ∈ ds → canvas_canvas_id d ≠ canvas_canvas_id x ∧ map !! canvas_canvas_id x = None)
      as Hother by (intros x Hx; by apply Hfresh, lookup_insert_None in Hx as [? ?]).
    split_and!.
    + rewrite fmap_cons. constructor; [|done].
      intros (x & Hx & Hin)%list_elem_of_fmap. by destruct (Hother x Hin).
    + intros x [->|Hx]%elem_of_cons; [done|by apply Hother].
    + intros id x. rewrite Hm, lookup_insert_Some, elem_of_cons. split.
      * intros [[[<- <-]|[Hne Hx]]|[Hx Hid]]; auto.
      * intros [Hx|[[->|Hx] Hid]]; [|by left; left|by right].
        left. right. split; [congruence|done].
Qed.

Lemma insert_descriptors_total ds : ∀ map,
  NoDup (canvas_canvas_id <$> ds) → (∀ d, d ∈ ds → map !! canvas_canvas_id d = None) →
  is_ok (insert_descriptors map ds) = true.
Proof.
  induction ds as [|d ds IH]; intros map Hnd Hmap; [done|]. cbn [insert_descriptors].
  rewrite (Hmap d) by left. rewrite fmap_cons, NoDup_cons in Hnd. destruct Hnd as [Hd Hnd].
  apply IH; [done|]. intros x Hx. rewrite lookup_insert_ne; [apply Hmap; by right|].
  intros Heq. apply Hd. rewrite Heq. by apply list_elem_of_fmap_2.
Qed.

(** The development catalog is built exactly from descriptor sets without
    a duplicate identity, and it then finds exactly the given descriptors,
    each under its own identity. *)
Theorem from_descriptors_finds ds :
  match from_descriptors ds with
  | Ok m => NoDup (canvas_canvas_id <$> ds) ∧
            ∀ id d, get_canvas id m = Ok (Some d) ↔ d ∈ ds ∧ canvas_canvas_id d = id
  | Err _ => ¬ NoDup (canvas_canvas_id <$> ds)
  end.
Proof.
  unfold from_descriptors, get_canvas. destruct (insert_descriptors ∅ ds) as [m|e] eqn:Hi.
  - apply insert_descriptors_spec in Hi as (Hnd & _ & Hm). split; [done|]. intros id d.
    split.
    + intros [= Hd]. apply Hm in Hd as [Hd|Hd]; [by rewrite lookup_empty in Hd|done].
    + intros Hd. f_equal. apply Hm. by right.
  - intros Hnd. apply (insert_descriptors_total ds ∅) in Hnd; [by rewrite Hi in Hnd|].
    intros d _. apply lookup_empty.
Qed.

(** [development_canvas_descriptor]: the [fresh_*] values are those of the
    [new()] functions of the identifiers. *)
Definition development_canvas_descriptor (session_id : option SessionId)
    (canvas_id : option CanvasId) (layer_id : option LayerId) (width height : F64)
    (fresh_session : SessionId) (fresh_canvas : CanvasId) (fresh_layer : LayerId)
    : option CanvasDescriptor :=
  let session := default fresh_session session_id in
  let canvas := default fresh_canvas canvas_id in
  let layer := default fresh_layer layer_id in
  space ← CanvasSpace_new width height;
  CanvasDescriptor_new canvas session space [layer] layer.

(** ** [EventStoreCanvasStateReader] *)

(** [CanvasStateReadError] *)
Inductive CanvasStateReadError := ReadUnavailable (detail : string) | ProjectionCorrupted.
(** A failed read: an error value, or the panic of an [unreachable!]. *)
Inductive read_failure := ReadError (e : CanvasStateReadError) | ReadPanic.

(** [map_storage_error] *)
Definition map_storage_error (e : Error) : CanvasStateReadError :=
  ReadUnavailable match e with
                  | BackendUnavailable message | BackendFailure message => message
                  | _ => "event store query failed"
                  end.

(** The [match &data] of [load_stroke]. *)
Definition data_target (data : CanvasEventData StrokePayload) : option (CanvasId * StrokeId) :=
  match data with
  | StrokeBegan p | StrokePointsAppended p | StrokeCompleted p | StrokeCancelled p
  | StrokeRemoved p => Some (payload_canvas_id p, payload_stroke_id p)
  | CanvasDataOther => None
  end.

(** One iteration of the [for stored in page.events()] loop. *)
Definition project_event (canvas : CanvasId) (stroke : StrokeId) (event : Event)
    (projection : option StrokeProjection) : result read_failure (option StrokeProjection) :=
  if negb (CanvasEventKind_from_event_type (event_type event)) then Ok projection else
  data ← ok_or (ReadError ProjectionCorrupted) (CanvasEventData_try_from event);
  '(event_canvas, event_stroke) ← ok_or ReadPanic (data_target data);
  if negb (bool_decide (event_canvas = canvas)) || negb (bool_decide (event_stroke = stroke))
  then Ok projection
  else p ← ok_or (ReadError ProjectionCorrupted) (StrokeProjector_apply projection event);
       Ok (Some p).

Fixpoint project_events (canvas : CanvasId) (stroke : StrokeId) (events : list StoredEvent)
    (projection : option StrokeProjection) : result read_failure (option StrokeProjection) :=
  match events with
  | [] => Ok projection
  | stored :: rest =>
      projection ← project_event canvas stroke (stored_event_of stored) projection;
      project_events canvas stroke rest projection
  end.

Lemma project_events_app canvas stroke l l' p :
  project_events canvas stroke (l ++ l') p =
  p' ← project_events canvas stroke l p; project_events canvas stroke l' p'.
Proof.
  revert p. induction l as [|e l IH]; intros p; [done|]. cbn.
  destruct (project_event _ _ _ _); [apply IH|done].
Qed.

Section load_stroke.
Context {St : Type} `{!EventStorePort St}.
(** What other tasks do to the store before the [n]-th query. *)
Context (others : nat → St → St).

(** [load_stroke]: the [loop], with fuel; [None] is a loop that has not
    ended.  [n] counts the queries. *)
Fixpoint load_stroke_loop (fuel n : nat) (session : SessionId) (canvas : CanvasId)
    (stroke : StrokeId) (cursor : option EventCursor) (projection : option StrokeProjection)
    (st : St) : option (result read_failure (option StrokeProjection)) * St :=
  match fuel with
  | O => (None, st)
  | S fuel' =>
      let query := match cursor with
                   | Some after => query_after after (query_for_session session)
                   | None => query_for_session session
                   end in
      match port_query query (others n st) with
      | (Err e, st') => (Some (Err (ReadError (map_storage_error e))), st')
      | (Ok page, st') =>
          match project_events canvas stroke (page_events page) projection with
          | Err e => (Some (Err e), st')
          | Ok projection' =>
              match page_next_cursor page with
              | None => (Some (Ok projection'), st')
              | Some cursor' =>
                  load_stroke_loop fuel' (S n) session canvas stroke (Some cursor') projection' st'
              end
          end
      end
  end.
Definition load_stroke (fuel : nat) (session : SessionId) (canvas : CanvasId) (stroke : StrokeId)
    (st : St) : option (result read_failure (option StrokeProjection)) * St :=
  load_stroke_loop fuel 0 session canvas stroke None None st.

Context (store_id epoch : EntityId) (holds : St → list Event → Prop) (calm : St → Prop).
Context `{!EventStorePortLaws St store_id epoch holds calm}.
(** Other tasks only append, up to [bound] entries, and leave the store calm. *)
Context (bound : nat).
Hypothesis others_append : ∀ n st log, holds st log → calm st → (length log ≤ bound)%nat →
  ∃ more, holds (others n st) (log ++ more) ∧ calm (others n st) ∧
          (length (log ++ more) ≤ bound)%nat.
Hypothesis bound_fits : Z.of_nat bound ≤ i64_max.
Context (session : SessionId).
Hypothesis session_valid : query_validate (query_for_session session) = Ok ().

Abbreviation q := (query_for_session session).

Lemma q_fields : query_upper_bound q = None ∧ query_after_cursor q = None.
Proof.
  pose proof (fields_for_session session) as Hf. unfold query_fields in Hf. by injection Hf.
Qed.

(** All stored events of the session, in append order. *)
Definition session_events (log : list Event) : list StoredEvent :=
  stored_at store_id epoch <$> selected q 0 (Z.of_nat (length log)) log.

(** The cursor of position [k]. *)
Definition cursor_at (k : Z) : option EventCursor :=
  if k =? 0 then None else Some (EventCursor_for_storage store_id epoch k).

Lemma query_page k log :
  0 ≤ k ≤ Z.of_nat (length log) →
  spec_query store_id epoch
    (match cursor_at k with Some after => query_after after q | None => q end) log =
  Ok (page_of store_id epoch (query_limit q) (selected q k (Z.of_nat (length log)) log)).
Proof.
  intros Hk. destruct q_fields as [Hu Ha].
  assert (spec_upper store_id epoch q (Z.of_nat (length log)) = Ok (Z.of_nat (length log))) as Hup
    by (unfold spec_upper; by rewrite Hu).
  unfold cursor_at. destruct (Z.eqb_spec k 0) as [->|Hne].
  - by apply spec_query_first; [..|lia|].
  - apply spec_query_after; [done|done|lia|lia].
Qed.

Lemma port_query_page k st log :
  holds st log → calm st → (length log ≤ bound)%nat → 0 ≤ k ≤ Z.of_nat (length log) →
  let query := match cursor_at k with Some after => query_after after q | None => q end in
  (port_query query st).1 =
    Ok (page_of store_id epoch (query_limit q) (selected q k (Z.of_nat (length log)) log)) ∧
  holds (port_query query st).2 log ∧ calm (port_query query st).2.
Proof.
  intros Hst Hcalm Hlen Hk query.
  destruct (law_query st log query Hst) as [Hc [(_ & _ & Hfull)|[Hr Hh]]].
  - specialize (Hfull Hcalm). unfold log_full in Hfull. lia.
  - rewrite Hr. cbn [fst snd] in *. unfold query. rewrite query_page by done. auto.
Qed.

Lemma cursor_at_pos k :
  0 < k → Some (EventCursor_for_storage store_id epoch k) = cursor_at k.
Proof. intros. unfold cursor_at. by rewrite (proj2 (Z.eqb_neq k 0)) by lia. Qed.

(** The loop from position [k], when everything before [k] has been folded
    into [projection]. *)
Lemma load_stroke_loop_spec canvas stroke fuel : ∀ n k projection st log,
  holds st log → calm st → (length log ≤ bound)%nat → 0 ≤ k ≤ Z.of_nat (length log) →
  (bound < fuel + Z.to_nat k)%nat →
  project_events canvas stroke (stored_at store_id epoch <$> selected q 0 k log) None = Ok projection →
  ∃ log' st', log `prefix_of` log' ∧ holds st' log' ∧
    load_stroke_loop fuel n session canvas stroke (cursor_at k) projection st =
      (Some (project_events canvas stroke (session_events log') None), st').
Proof.
  induction fuel as [|fuel IH]; intros n k projection st log Hst Hcalm Hlen Hk Hfuel Hproj; [lia|].
  destruct (others_append n st log Hst Hcalm Hlen) as (more & Hst1 & Hcalm1 & Hlen1).
  assert (k ≤ Z.of_nat (length (log ++ more))) as Hk1 by (rewrite length_app; lia).
  destruct (port_query_page k (others n st) (log ++ more) Hst1 Hcalm1 Hlen1) as (Hr & Hst2 & Hcalm2);
    [lia|].
  rewrite <- (selected_stable q 0 k log more) in Hproj by lia.
  cbn [load_stroke_loop]. set (query := match cursor_at k with Some _ => _ | None => _ end) in *.
  destruct (port_query query (others n st)) as [r st2]. cbn [fst snd] in *. subst r.
  set (log1 := log ++ more) in *. set (upper := Z.of_nat (length log1)) in *.
  assert (∀ m, 0 ≤ m ≤ upper → session_events log1 =
            (stored_at store_id epoch <$> selected q 0 m log1) ++
            (stored_at store_id epoch <$> selected q m upper log1)) as Hall
    by (intros m Hm; unfold session_events; rewrite <- fmap_app, <- selected_split by lia; done).
  destruct (page_of_split store_id epoch (query_limit q) q k upper log1) as [(Hn & He)|(k' & Hn & Hb & Hp & He & _)];
    [by apply query_validate_limit| |].
  - rewrite Hn, He. exists log1, st2. split; [by eexists|]. split; [done|].
    rewrite (Hall k), project_events_app, Hproj by lia. cbn [mbind result_mbind].
    by destruct (project_events _ _ _ projection).
  - set (page := page_of _ _ _ _) in *. rewrite Hn. rewrite (selected_split q k k' upper), fmap_app in He by lia. apply app_inv_tail in He.
    rewrite <- He.
    assert (project_events canvas stroke (stored_at store_id epoch <$> selected q 0 k' log1) None =
            project_events canvas stroke (stored_at store_id epoch <$> selected q k k' log1) projection)
      as Hnext by (rewrite (selected_split q 0 k k'), fmap_app, project_events_app, Hproj by lia; done).
    destruct (project_events _ _ _ projection) as [projection'|e] eqn:Hpr.
    + rewrite (cursor_at_pos k') by done.
      destruct (IH (S n) k' projection' st2 log1) as (log' & st' & Hpre & Hh & Heq);
        [done|done|done|lia|lia|congruence|].
      exists log', st'. split; [by etrans; [|exact Hpre]; eexists|]. by split.
    + exists log1, st2. split; [by eexists|]. split; [done|].
      rewrite (Hall k'), project_events_app, Hnext by lia. done.
Qed.

(** C29. [load_stroke] terminates and misses nothing: while other tasks append
    (up to [bound] entries in all), the loop ends within [bound + 1] queries,
    and its result is the fold of the projector over all events of the
    session, in append order, in a log that extends the log it started from.
    The page size does not matter. *)
Theorem load_stroke_projects_whole_session canvas stroke st log :
  holds st log → calm st → (length log ≤ bound)%nat →
  ∃ log' st', log `prefix_of` log' ∧ holds st' log' ∧
    load_stroke (S bound) session canvas stroke st =
      (Some (project_events canvas stroke (session_events log') None), st').
Proof.
  intros Hst Hcalm Hlen. 
  apply (load_stroke_loop_spec canvas stroke (S bound) 0 0 None st log); [done|done|done|lia|lia|].
  assert (selected q 0 0 log = []) as ->; [|done]. unfold selected.
  rewrite (List_filter_ext _ (λ _, false)); [by induction (indexed log)|].
  intros [i e] _. cbn. destruct (Z.leb_spec 0 i), (Z.ltb_spec i 0); try lia; done.
Qed.
End load_stroke.

End canvas.

(** ** A concrete Canvas kernel

    A payload text is the Canvas and the Stroke separated by a slash; a
    projection is the list of the payloads that were applied. *)

Module CanvasDemo.
#[local] Existing Instances Demo.demo_kernel Demo.demo_laws.

#[export] Instance demo_canvas : CanvasKernel (H := Demo.demo_kernel) := {|
  LayerId := string; StrokeId := string;
  CanvasId_countable := _;
  StrokePayload := string * string; payload_canvas_id := fst; payload_stroke_id := snd;
  CanvasEventKind_from_event_type t := bool_decide (t = "stroke");
  CanvasEventData_try_from e := StrokeBegan <$> split_once "/"%char (Demo.ev_payload e);
  StrokeProjection := list string;
  StrokeProjector_apply p e := Some (default [] p ++ [Demo.ev_payload e]);
  CanvasSpace := F64 * F64;
  CanvasSpace_new w h := if positive_f64 w && positive_f64 h then Some (w, h) else None;
  CanvasDescriptor := string * string * (F64 * F64);
  CanvasDescriptor_new c s sp _ _ := Some (c, s, sp);
  canvas_canvas_id d := d.1.1; canvas_session_id d := d.1.2
|}.

#[local] Instance demo_port : EventStorePort (H := Demo.demo_kernel) (conn EventDb SqliteError) :=
  sqlite_port (H := Demo.demo_kernel) "store" "epoch".

(** Witness of C29: nobody else appends. *)
Lemma load_stroke_projects_whole_session_witness :
  ∃ log' st', demo_log `prefix_of` log' ∧ sqlite_holds (H := Demo.demo_kernel) st' log' ∧
    load_stroke (H := Demo.demo_kernel) (λ _ st, st) 2 "session" "canvas" "stroke"
      (mkConn demo_db None []) =
      (Some (project_events (H := Demo.demo_kernel) "canvas" "stroke"
               (session_events (H := Demo.demo_kernel) "store" "epoch" "session" log') None), st').
Proof.
  apply (load_stroke_projects_whole_session (H := Demo.demo_kernel) (λ _ st, st) "store" "epoch"
           sqlite_holds sqlite_calm
           (EventStorePortLaws0 := sqlite_port_laws (H := Demo.demo_kernel) "store" "epoch") 1).
  - intros _ st log Hst Hc Hl. exists []. by rewrite app_nil_r.
  - unfold i64_max. lia.
  - reflexivity.
  - split; [reflexivity|exact demo_represents].
  - apply not_faulty_nil.
  - cbn. lia.
Defined.
End CanvasDemo.
