(* ===== verification/CanvasHistory.v ===== *)
(** * Canvas history pages

    Models [orbitrelay-server/src/canvas_history.rs]: the Query handler that
    resolves a Canvas, authorizes the read, captures or reuses a checkpoint,
    reads one bounded page of the EventStore, keeps the events of the Canvas
    and guards the size of the response.  The theorems cover the order of the
    checks and the replay: following the returned checkpoint and cursors
    yields exactly the Canvas events that were stored at the checkpoint. *)

From S2P Require Import Prelude Float Kernel Sql EventStore EventLog EventReplay Canvas.

(** [QueryHandlerError] of [orbitrelay-query]. *)
Inductive QueryHandlerError :=
| HandlerInvalidQuery | HandlerUnauthorized | HandlerNotFound | HandlerUnavailable | HandlerInternal.

Definition DEFAULT_HISTORY_STORE_SCAN_LIMIT : Z := 64.
Definition MAX_HISTORY_STORE_SCAN_LIMIT : Z := 256.
Definition CANVAS_HISTORY_PAGE_QUERY_TYPE : string := "canvas.history.page".

(** [CanvasHistoryReadAuthorizationError] *)
Inductive AuthorizationError := AuthUnauthorized | AuthUnavailable | AuthInternal.

(** [map_authorization_error] *)
Definition map_authorization_error (e : AuthorizationError) : QueryHandlerError :=
  match e with
  | AuthUnauthorized => HandlerUnauthorized
  | AuthUnavailable => HandlerUnavailable
  | AuthInternal => HandlerInternal
  end.

Section history.
Context `{Kernel, !KernelLaws, !CanvasKernel}.
Abbreviation Error := (StorageError EventId).

(** [orbitrelay-query] and [orbitrelay-transport]: the actor context, the
    message identity, and the encoded size of a response. *)
Context {Actor MessageId : Type}.
Context (encoded_size : MessageId → string → Payload → option Z).

(** [HistoryEventDto] *)
Record HistoryEventDto := mkHistoryEventDto {
  dto_event_id : EventId;
  dto_session_id : SessionId;
  dto_actor_id : ActorId;
  dto_action_id : ActionId;
  dto_event_type : EventType;
  dto_occurred_at : Timestamp;
  dto_payload : Payload;
  dto_metadata : Metadata
}.
(** [HistoryEventDto::from_event] *)
Definition from_event (e : Event) : HistoryEventDto :=
  mkHistoryEventDto (event_id e) (event_session_id e) (event_actor_id e) (event_action_id e)
    (event_type e) (event_occurred_at e) (event_payload e) (event_metadata e).

(** [CanvasHistoryPageDto] *)
Record CanvasHistoryPageDto := mkPageDto {
  page_canvas_id : CanvasId;
  page_checkpoint : EventStoreCheckpoint;
  page_dto_events : list HistoryEventDto;
  page_cursor : option EventCursor;
  page_complete : bool
}.

(** [CanvasHistoryRequest] *)
Inductive CanvasHistoryRequest :=
| First (canvas_id : CanvasId)
| Continue (canvas_id : CanvasId) (checkpoint : EventStoreCheckpoint) (cursor : EventCursor).

(** [serde]: reading a request and writing a page. *)
Context (decode_payload : Payload → option CanvasHistoryRequest).
Context (encode_payload : CanvasHistoryPageDto → option Payload).

(** [CanvasHistoryReadAuthorizer] and its two implementations here. *)
Abbreviation Authorizer := (Actor → SessionId → string → result AuthorizationError ()).
Definition reject_all_authorizer : Authorizer := λ _ _ _, Err AuthUnauthorized.
Definition development_authorizer (session : SessionId) : Authorizer := λ _ s _,
  if bool_decide (s = session) then Ok () else Err AuthUnauthorized.

(** [CanvasHistoryQueryHandler] *)
Record Handler := mkHandler {
  h_catalog : CanvasId → result CanvasCatalogError (option CanvasDescriptor);
  h_authorizer : Authorizer;
  h_store_scan_limit : Z;
  h_max_message_bytes : Z
}.
(** [CanvasHistoryQueryHandler::new] *)
Definition handler_new (catalog : CanvasId → result CanvasCatalogError (option CanvasDescriptor))
    (authorizer : Authorizer) (store_scan_limit max_message_bytes : Z)
    : result QueryHandlerError Handler :=
  if (store_scan_limit =? 0) || (MAX_HISTORY_STORE_SCAN_LIMIT <? store_scan_limit)
     || (max_message_bytes =? 0)
  then Err HandlerInternal
  else Ok (mkHandler catalog authorizer store_scan_limit max_message_bytes).

(** [map_capture_error] and [map_query_error] *)
Definition map_capture_error (e : Error) : QueryHandlerError :=
  match e with BackendUnavailable _ => HandlerUnavailable | _ => HandlerInternal end.
Definition map_query_error (e : Error) : QueryHandlerError :=
  match e with
  | InvalidQuery _ | InvalidCursor _ | InvalidCheckpoint _ => HandlerInvalidQuery
  | BackendUnavailable _ => HandlerUnavailable
  | _ => HandlerInternal
  end.

(** [canvas_event_query] *)
Context (STROKE_BEGAN STROKE_POINTS_APPENDED STROKE_COMPLETED STROKE_CANCELLED STROKE_REMOVED
         : string).
Definition canvas_event_query (session : SessionId) (checkpoint : EventStoreCheckpoint)
    : EventQuery :=
  query_before checkpoint
    (query_with_event_type (EventType_new STROKE_REMOVED)
    (query_with_event_type (EventType_new STROKE_CANCELLED)
    (query_with_event_type (EventType_new STROKE_COMPLETED)
    (query_with_event_type (EventType_new STROKE_POINTS_APPENDED)
    (query_with_event_type (EventType_new STROKE_BEGAN)
    (query_for_session session)))))).

(** [canvas_id_for] *)
Definition canvas_id_for (data : CanvasEventData StrokePayload) : option CanvasId :=
  match data with
  | StrokeBegan p | StrokePointsAppended p | StrokeCompleted p | StrokeCancelled p
  | StrokeRemoved p => Some (payload_canvas_id p)
  | CanvasDataOther => None
  end.

(** The [for record in page.events()] loop. *)
Fixpoint history_events (canvas : CanvasId) (records : list StoredEvent)
    : result QueryHandlerError (list HistoryEventDto) :=
  match records with
  | [] => Ok []
  | record :: rest =>
      let event := stored_event_of record in
      data ← ok_or HandlerInternal (CanvasEventData_try_from event);
      id ← ok_or HandlerInternal (canvas_id_for data);
      events ← history_events canvas rest;
      Ok (if bool_decide (id = canvas) then from_event event :: events else events)
  end.

(** [guard_response_size] *)
Definition guard_response_size (request_id : MessageId) (query_type : string) (payload : Payload)
    (max_message_bytes : Z) : result QueryHandlerError () :=
  size ← ok_or HandlerInternal (encoded_size request_id query_type payload);
  reject_if (max_message_bytes <? size) HandlerInternal.

Section handler.
Context {St : Type} `{!EventStorePort St}.

(** [execute] from the decoded request to the page: resolve, authorize,
    checkpoint, query, filter. *)
Definition history_page (h : Handler) (actor : Actor) (request : CanvasHistoryRequest) (st : St)
    : result QueryHandlerError CanvasHistoryPageDto * St :=
  let '(canvas, supplied) := match request with
                             | First c => (c, None)
                             | Continue c checkpoint cursor => (c, Some (checkpoint, cursor))
                             end in
  match h_catalog h canvas with
  | Err _ => (Err HandlerUnavailable, st)
  | Ok None => (Err HandlerNotFound, st)
  | Ok (Some descriptor) =>
      match h_authorizer h actor (canvas_session_id descriptor) CANVAS_HISTORY_PAGE_QUERY_TYPE with
      | Err e => (Err (map_authorization_error e), st)
      | Ok _ =>
          let '(bounds, st1) :=
            match supplied with
            | Some (checkpoint, cursor) => (Ok (checkpoint, Some cursor), st)
            | None => let '(r, st') := port_capture_checkpoint st in
                      (checkpoint ← map_err map_capture_error r; Ok (checkpoint, None), st')
            end in
          match bounds with
          | Err e => (Err e, st1)
          | Ok (checkpoint, cursor) =>
              let query := query_with_limit (h_store_scan_limit h)
                             (canvas_event_query (canvas_session_id descriptor) checkpoint) in
              let query := match cursor with Some c => query_after c query | None => query end in
              let '(r, st2) := port_query query st1 in
              (page ← map_err map_query_error r;
               events ← history_events canvas (page_events page);
               let next_cursor := page_next_cursor page in
               Ok (mkPageDto canvas checkpoint events next_cursor
                     (bool_decide (next_cursor = None))), st2)
          end
      end
  end.

(** [CanvasHistoryQueryHandler::execute] *)
Definition execute (h : Handler) (actor : Actor) (request_id : MessageId) (query_type : string)
    (request : Payload) (st : St) : result QueryHandlerError Payload * St :=
  match decode_payload request with
  | None => (Err HandlerInvalidQuery, st)
  | Some decoded =>
      let '(r, st') := history_page h actor decoded st in
      (response ← r;
       payload ← ok_or HandlerInternal (encode_payload response);
       guard_response_size request_id query_type payload (h_max_message_bytes h);;
       Ok payload, st')
  end.
(** ** Access control and limits *)

(** The Canvas a request names. *)
Definition request_canvas (request : CanvasHistoryRequest) : CanvasId :=
  match request with First c | Continue c _ _ => c end.

(** History is only read with authorization: unless the request decodes,
    its Canvas is in the catalog and the authorizer accepts the actor for the
    Session of that Canvas, [execute] answers with an error and the EventStore
    is not touched.  An answer that is returned fits the message limit. *)
Theorem history_read_is_authorized h actor request_id query_type request st :
  let '(r, st') := execute h actor request_id query_type request st in
  (st' = st ∧ is_ok r = false) ∨
  (∃ decoded descriptor,
     decode_payload request = Some decoded ∧
     h_catalog h (request_canvas decoded) = Ok (Some descriptor) ∧
     h_authorizer h actor (canvas_session_id descriptor) CANVAS_HISTORY_PAGE_QUERY_TYPE = Ok () ∧
     ∀ payload, r = Ok payload →
       ∃ size, encoded_size request_id query_type payload = Some size ∧
               size ≤ h_max_message_bytes h).
Proof.
  unfold execute. destruct (decode_payload request) as [decoded|] eqn:Hd; [|by left].
  destruct (history_page h actor decoded st) as [r st'] eqn:Hp.
  destruct (h_catalog h (request_canvas decoded)) as [[descriptor|]|] eqn:Hc.
  2,3: left; unfold history_page in Hp; destruct decoded; cbn in Hc; rewrite Hc in Hp;
    by injection Hp as <- <-.
  destruct (h_authorizer h actor (canvas_session_id descriptor) CANVAS_HISTORY_PAGE_QUERY_TYPE)
    as [[]|] eqn:Ha.
  2: left; unfold history_page in Hp; destruct decoded; cbn in Hc; rewrite Hc, Ha in Hp;
    by injection Hp as <- <-.
  right. exists decoded, descriptor. split_and!; [done..|]. intros payload Hr.
  unfold guard_response_size in Hr. inv_result.
  match goal with Hs : (_ <? ?size) = false |- _ => exists size; apply Z.ltb_ge in Hs end. done.
Qed.

(** ** Replay *)

Lemma history_events_app canvas l l' :
  history_events canvas (l ++ l') =
  a ← history_events canvas l; b ← history_events canvas l'; Ok (a ++ b).
Proof.
  induction l as [|r l IH]; cbn [app history_events]; [by destruct (history_events canvas l')|].
  destruct (CanvasEventData_try_from _) as [data|]; [|done]. cbn.
  destruct (canvas_id_for data) as [id|]; [|done]. cbn. rewrite IH.
  destruct (history_events canvas l); [|done]. cbn.
  destruct (history_events canvas l'); [|done]. cbn. by case_bool_decide.
Qed.

(** A client that follows a history over [execute]: it reads each response and,
    until one is complete, asks for the next page with a request that it makes
    of the response.  [others n] is what other tasks do to the store before the
    [n]-th request; [None] when the client has run out of [fuel], or cannot read
    a response or make a request of it. *)
Context (others : nat → St → St) (request_id : nat → MessageId).
Context (read_page : Payload → option CanvasHistoryPageDto) (next_request : Payload → option Payload).
Fixpoint replay (fuel n : nat) (h : Handler) (actor : Actor) (request : Payload)
    (st : St) : option (result QueryHandlerError (list HistoryEventDto)) * St :=
  match fuel with
  | O => (None, st)
  | S fuel' =>
      match execute h actor (request_id n) CANVAS_HISTORY_PAGE_QUERY_TYPE request (others n st) with
      | (Err e, st') => (Some (Err e), st')
      | (Ok response, st') =>
          match read_page response with
          | None => (None, st')
          | Some page =>
              if page_complete page then (Some (Ok (page_dto_events page)), st') else
              match next_request response with
              | None => (None, st')
              | Some next =>
                  let '(r, st'') := replay fuel' (S n) h actor next st' in
                  (r' ← r; Some (l ← r'; Ok (page_dto_events page ++ l)), st'')
              end
          end
      end
  end.

(** What the client relies on: a page is read back from its encoding, and the
    request made of a page that has a cursor is the continuation from there. *)
Hypothesis client_reads : ∀ page response, encode_payload page = Some response → read_page response = Some page.
Hypothesis client_continues : ∀ page response cursor,
  encode_payload page = Some response → page_cursor page = Some cursor →
  ∃ next, next_request response = Some next ∧
    decode_payload next = Some (Continue (page_canvas_id page) (page_checkpoint page) cursor).

Context (store_id epoch : EntityId) (holds : St → list Event → Prop) (calm : St → Prop).
Context `{!EventStorePortLaws St store_id epoch holds calm}.
(** Other tasks only append, within the positions the store has. *)
Hypothesis others_append : ∀ n st log, holds st log → calm st →
  Z.of_nat (length log) ≤ i64_max →
  ∃ more, holds (others n st) (log ++ more) ∧ calm (others n st) ∧
          Z.of_nat (length (log ++ more)) ≤ i64_max.

Context (h : Handler) (actor : Actor) (canvas : CanvasId) (descriptor : CanvasDescriptor).
Hypothesis resolved : h_catalog h canvas = Ok (Some descriptor).
Hypothesis authorized :
  h_authorizer h actor (canvas_session_id descriptor) CANVAS_HISTORY_PAGE_QUERY_TYPE = Ok ().
Hypothesis limit_usize : 0 ≤ h_store_scan_limit h.

Definition history_query (checkpoint : EventStoreCheckpoint) : EventQuery :=
  query_with_limit (h_store_scan_limit h)
    (canvas_event_query (canvas_session_id descriptor) checkpoint).
Hypothesis query_valid : ∀ checkpoint, query_validate (history_query checkpoint) = Ok ().

Lemma history_query_fields checkpoint :
  query_upper_bound (history_query checkpoint) = Some checkpoint ∧
  query_after_cursor (history_query checkpoint) = None.
Proof.
  unfold history_query, canvas_event_query.
  pose proof (fields_for_session (canvas_session_id descriptor)) as Hf. unfold query_fields in Hf.
  injection Hf as _ _ _ _ Ha.
  repeat match goal with
  | |- context [query_with_limit ?n ?q] =>
      pose proof (fields_with_limit n q limit_usize) as Hl; unfold query_fields in Hl;
      injection Hl as _ _ _ Hu1 Ha1 _; rewrite Hu1, Ha1; clear Hu1 Ha1
  | |- context [query_before ?c ?q] =>
      pose proof (fields_before c q) as Hb; unfold query_fields in Hb;
      injection Hb as _ _ _ Hu2 Ha2 _; rewrite Hu2, Ha2; clear Hu2 Ha2
  | |- context [query_after_cursor (query_with_event_type ?t ?q)] =>
      pose proof (fields_with_event_type t q) as Ht; unfold query_fields in Ht;
      injection Ht as _ _ _ _ Ha3 _; rewrite Ha3; clear Ha3
  end.
  by rewrite Ha.
Qed.

Abbreviation checkpoint_at u := (EventStoreCheckpoint_for_storage store_id epoch u).
Abbreviation cursor_of k := (EventCursor_for_storage store_id epoch k).

(** The Canvas history between two positions of a log, read up to [u]. *)
Definition history_between (u start : Z) (log : list Event)
    : result QueryHandlerError (list HistoryEventDto) :=
  history_events canvas
    (stored_at store_id epoch <$> selected (history_query (checkpoint_at u)) start u log).

(** The answer for a page of the store. *)
Definition page_answer (checkpoint : EventStoreCheckpoint) (page : EventPage)
    : result QueryHandlerError CanvasHistoryPageDto :=
  events ← history_events canvas (page_events page);
  Ok (mkPageDto canvas checkpoint events (page_next_cursor page)
        (bool_decide (page_next_cursor page = None))).
Definition store_page (u start : Z) (log : list Event) : EventPage :=
  page_of store_id epoch (query_limit (history_query (checkpoint_at u)))
    (selected (history_query (checkpoint_at u)) start u log).

Lemma history_upper u count :
  spec_upper store_id epoch (history_query (checkpoint_at u)) count = Ok u.
Proof.
  unfold spec_upper. destruct (history_query_fields (checkpoint_at u)) as [-> _].
  by rewrite checkpoint_position, decide_True.
Qed.

Lemma calm_query st log query page :
  holds st log → calm st → Z.of_nat (length log) ≤ i64_max →
  spec_query store_id epoch query log = Ok page →
  ∃ st', port_query query st = (Ok page, st') ∧ holds st' log ∧ calm st'.
Proof.
  intros Hst Hcalm Hlen Hq. destruct (law_query st log query Hst) as [Hc [(_ & _ & Hfull)|[Hr Hh]]].
  - specialize (Hfull Hcalm). unfold log_full in Hfull. lia.
  - exists (port_query query st).2. cbn in Hr, Hh. rewrite Hq in Hr.
    rewrite <- Hr. split; [by destruct (port_query query st)|]. auto.
Qed.

Lemma first_page st log :
  holds st log → calm st → Z.of_nat (length log) ≤ i64_max →
  let u := Z.of_nat (length log) in
  ∃ st', history_page h actor (First canvas) st = (page_answer (checkpoint_at u) (store_page u 0 log), st') ∧
         holds st' log ∧ calm st'.
Proof.
  intros Hst Hcalm Hlen u. unfold history_page. rewrite resolved, authorized.
  destruct (law_capture_checkpoint st log Hst) as [Hc [(_ & _ & Hno)|[Hr Hh]]]; [by destruct (Hno Hcalm)|].
  destruct (port_capture_checkpoint st) as [r st1]. cbn in Hr, Hh, Hc. subst r.
  cbn [map_err mbind result_mbind]. fold u. fold (history_query (checkpoint_at u)).
  destruct (calm_query st1 log (history_query (checkpoint_at u)) (store_page u 0 log))
    as (st2 & -> & Hh2 & Hc2); [done|auto|done| |by exists st2].
  apply spec_query_first; [apply query_valid|apply history_upper|lia|apply history_query_fields].
Qed.

Lemma next_page st log u k :
  holds st log → calm st → Z.of_nat (length log) ≤ i64_max →
  0 < k ≤ u → u ≤ Z.of_nat (length log) →
  ∃ st', history_page h actor (Continue canvas (checkpoint_at u) (cursor_of k)) st =
           (page_answer (checkpoint_at u) (store_page u k log), st') ∧
         holds st' log ∧ calm st'.
Proof.
  intros Hst Hcalm Hlen Hk Hu. unfold history_page. rewrite resolved, authorized.
  fold (history_query (checkpoint_at u)).
  destruct (calm_query st log (query_after (cursor_of k) (history_query (checkpoint_at u))) (store_page u k log))
    as (st2 & -> & Hh2 & Hc2); [done|auto|done| |by exists st2].
  apply spec_query_after; [apply query_valid|apply history_upper|lia|lia].
Qed.

(** One answer and what is left to read. *)
Lemma page_answer_split u start log :
  let page := store_page u start log in
  (page_next_cursor page = None ∧ history_events canvas (page_events page) = history_between u start log) ∨
  (∃ k, page_next_cursor page = Some (cursor_of k) ∧ start < k ≤ u ∧ 0 < k ∧
        history_between u start log =
          (a ← history_events canvas (page_events page); b ← history_between u k log; Ok (a ++ b))).
Proof.
  cbv zeta. destruct (page_of_split store_id epoch (query_limit (history_query (checkpoint_at u)))
    (history_query (checkpoint_at u)) start u log) as [(Hn & He)|(k & Hn & Hb & Hp & He & _)];
    [apply query_validate_limit, query_valid|left|right].
  - split; [done|]. unfold history_between. by rewrite <- He.
  - exists k. split; [done|]. split; [done|]. split; [done|]. unfold history_between at 1.
    rewrite He. apply history_events_app.
Qed.

(** The [n]-th page of the history starts after position [k]. *)
Inductive nth_page (u : Z) (log : list Event) : nat → Z → Prop :=
| page_first : nth_page u log 0 0
| page_next n k k' :
    nth_page u log n k → page_next_cursor (store_page u k log) = Some (cursor_of k') → nth_page u log (S n) k'.

(** The response with this page can be encoded and is within the message limit. *)
Definition response_fits (n : nat) (page : CanvasHistoryPageDto) : Prop :=
  ∃ response size, encode_payload page = Some response ∧
    encoded_size (request_id n) CANVAS_HISTORY_PAGE_QUERY_TYPE response = Some size ∧
    size ≤ h_max_message_bytes h.

(** One of the pages of the history does not fit a message. *)
Definition oversized (u : Z) (log : list Event) : Prop :=
  ∃ n k page, nth_page u log n k ∧ page_answer (checkpoint_at u) (store_page u k log) = Ok page ∧
    ¬ response_fits n page.

(** [execute] from a page to the response *)
Lemma execute_page n request decoded page st st' :
  decode_payload request = Some decoded → history_page h actor decoded st = (Ok page, st') →
  (∃ response, encode_payload page = Some response ∧
     execute h actor (request_id n) CANVAS_HISTORY_PAGE_QUERY_TYPE request st = (Ok response, st')) ∨
  (¬ response_fits n page ∧
     execute h actor (request_id n) CANVAS_HISTORY_PAGE_QUERY_TYPE request st = (Err HandlerInternal, st')).
Proof.
  intros Hd Hp. unfold execute. rewrite Hd, Hp. cbn [mbind result_mbind].
  destruct (encode_payload page) as [response|] eqn:He; cbn [ok_or mbind result_mbind].
  2: { right. split; [|done]. intros (? & ? & ? & _). congruence. }
  unfold guard_response_size, reject_if.
  destruct (encoded_size _ _ response) as [size|] eqn:Hs; cbn [ok_or mbind result_mbind].
  2: { right. split; [|done]. intros (? & ? & ? & ? & _). congruence. }
  destruct (Z.ltb_spec (h_max_message_bytes h) size); cbn [mbind result_mbind]; [right|left; by exists response].
  split; [|done]. intros (? & size' & Hr & Hs' & ?). assert (size' = size) by congruence. lia.
Qed.

(** The client from the request for the page after [k] on: the answer is the
    history from there, or a page does not fit. *)
Definition replay_from (u : Z) (log0 : list Event) (fuel n : nat) (k : Z) (request : Payload) (st : St) : Prop :=
  let r := (replay fuel n h actor request st).1 in
  r = Some (history_between u k log0) ∨ (r = Some (Err HandlerInternal) ∧ oversized u log0).

Lemma replay_step u log0 fuel n k request decoded st st1 :
  nth_page u log0 n k → decode_payload request = Some decoded →
  history_page h actor decoded (others n st) = (page_answer (checkpoint_at u) (store_page u k log0), st1) →
  (∀ k' next, nth_page u log0 (S n) k' → k < k' ≤ u → 0 < k' →
     decode_payload next = Some (Continue canvas (checkpoint_at u) (cursor_of k')) →
     replay_from u log0 fuel (S n) k' next st1) →
  replay_from u log0 (S fuel) n k request st.
Proof.
  intros Hnth Hd Hpage Hrest. unfold replay_from. cbn [replay].
  destruct (page_answer (checkpoint_at u) (store_page u k log0)) as [page|e] eqn:Ha; cycle 1.
  { left. unfold execute. rewrite Hd, Hpage. cbn. unfold page_answer in Ha.
    destruct (page_answer_split u k log0) as [(Hn & He)|(k' & Hn & Hb & Hp & He)];
      [rewrite <- He|rewrite He]; destruct (history_events canvas _); cbn in Ha |- *; congruence. }
  destruct (execute_page n request decoded page _ st1 Hd Hpage) as [(response & He & ->)|[Hfit ->]].
  2: { right. split; [done|]. by exists n, k, page. }
  rewrite (client_reads page response He). unfold page_answer in Ha.
  destruct (history_events canvas (page_events (store_page u k log0))) as [events|] eqn:Hev; [|done].
  cbn in Ha. injection Ha as <-. cbn [page_complete page_dto_events].
  destruct (page_answer_split u k log0) as [(Hn & Hh)|(k' & Hn & Hb & Hp & Hh)].
  - rewrite bool_decide_eq_true_2 by done. left. cbn in *. congruence.
  - rewrite bool_decide_eq_false_2 by (rewrite Hn; done).
    destruct (client_continues _ response (cursor_of k') He Hn) as (next & -> & Hnext).
    specialize (Hrest k' next (page_next _ _ _ _ _ Hnth Hn) Hb Hp Hnext). unfold replay_from in Hrest.
    destruct (replay fuel (S n) h actor next st1) as [r st2]. cbn in Hrest |- *.
    cbn in Hh. rewrite Hh, Hev. destruct Hrest as [->|[-> Hover]]; [left|right]; done.
Qed.

(** The pages up to [u] do not change when others append. *)
Lemma store_page_stable u k log more :
  u ≤ Z.of_nat (length log) → store_page u k (log ++ more) = store_page u k log.
Proof. intros Hu. unfold store_page. by rewrite selected_stable. Qed.

Lemma replay_continue u log0 fuel : ∀ n k request st more,
  nth_page u log0 n k →
  decode_payload request = Some (Continue canvas (checkpoint_at u) (cursor_of k)) →
  holds st (log0 ++ more) → calm st → Z.of_nat (length (log0 ++ more)) ≤ i64_max →
  0 < k ≤ u → u ≤ Z.of_nat (length log0) → (Z.to_nat u < fuel + Z.to_nat k)%nat →
  replay_from u log0 fuel n k request st.
Proof.
  induction fuel as [|fuel IH]; intros n k request st more Hnth Hd Hst Hcalm Hlen Hk Hu Hfuel; [lia|].
  destruct (others_append n st _ Hst Hcalm Hlen) as (more' & Hst1 & Hcalm1 & Hlen1).
  rewrite <- app_assoc in Hst1, Hlen1.
  destruct (next_page _ _ u k Hst1 Hcalm1 Hlen1 Hk) as (st1 & Hpage & Hst2 & Hcalm2); [rewrite length_app; lia|].
  rewrite store_page_stable in Hpage by done.
  eapply replay_step; [done|exact Hd|exact Hpage|]. intros k' next Hnth' Hk' Hk0 Hd'.
  apply (IH _ _ _ _ (more ++ more')); [done..|lia|lia|lia].
Qed.

Lemma replay_complete st log request :
  holds st log → calm st → Z.of_nat (length log) ≤ i64_max → decode_payload request = Some (First canvas) →
  ∃ more, holds (others 0 st) (log ++ more) ∧
    ∀ fuel, (length (log ++ more) < fuel)%nat →
    replay_from (Z.of_nat (length (log ++ more))) (log ++ more) fuel 0 0 request st.
Proof.
  intros Hst Hcalm Hlen Hd.
  destruct (others_append 0 st log Hst Hcalm Hlen) as (more & Hst1 & Hcalm1 & Hlen1).
  exists more. split; [done|]. intros [|fuel] Hfuel; [lia|].
  destruct (first_page _ _ Hst1 Hcalm1 Hlen1) as (st1 & Hpage & Hst2 & Hcalm2).
  eapply replay_step; [constructor|exact Hd|exact Hpage|]. intros k' next Hnth' Hk' Hk0 Hd'.
  apply (replay_continue _ _ _ _ _ _ _ []); rewrite ?app_nil_r; [done..|lia|lia|lia].
Qed.


End handler.
End history.

Section demo.
#[local] Existing Instances Demo.demo_kernel Demo.demo_laws CanvasDemo.demo_canvas.
#[local] Instance demo_port : EventStorePort (H := Demo.demo_kernel) (conn EventDb SqliteError) :=
  sqlite_port (H := Demo.demo_kernel) "store" "epoch".

(** A handler for one Canvas of the demo session, with pages of two events. *)
Definition demo_handler : Handler (H := Demo.demo_kernel) (Actor := ()) :=
  mkHandler (λ id, Ok (Some (id, "session", (f64_of_Z 1, f64_of_Z 1)))) (development_authorizer "session") 2 1000.

End demo.
