(* ===== verification/CatalogKernel.v ===== *)
(** * Documents, Pages and Canvases of the kernel

    The parts of [orbitrelay-canvas], [orbitrelay-document] and
    [orbitrelay-document-runtime] that the Catalog stores: descriptors with
    their validating constructors and accessors ([CatalogKernel]), what the
    Catalog relies on ([CatalogKernelLaws]), and a concrete instance. *)

From S2P Require Import Prelude Float Kernel Canvas.

(** [DocumentType]: the repository matches its one variant exhaustively. *)
Inductive DocumentType := Pdf.
#[global] Instance DocumentType_eq_dec : EqDecision DocumentType.
Proof. solve_decision. Defined.

Class CatalogKernel `{Kernel} {DK : DocumentKernel} {CK : CanvasKernel} := {
  (** [orbitrelay-canvas] *)
  LayerId_id :: Identifier LayerId;
  LayerId_countable :: Countable LayerId;
  space_width : CanvasSpace → F64;
  space_height : CanvasSpace → F64;
  CanvasDescriptor_eq_dec :: EqDecision CanvasDescriptor;
  canvas_space : CanvasDescriptor → CanvasSpace;
  canvas_layer_ids : CanvasDescriptor → list LayerId;
  canvas_default_layer_id : CanvasDescriptor → LayerId;
  (** [orbitrelay-document] *)
  PageId : Type;
  PageId_id :: Identifier PageId;
  PageRotation : Type;
  rotation_degrees : PageRotation → Z;
  rotation_from_degrees : Z → option PageRotation;
  PageDisplayGeometry : Type;
  PageDisplayGeometry_new : F64 → F64 → PageRotation → option PageDisplayGeometry;
  geometry_width : PageDisplayGeometry → F64;
  geometry_height : PageDisplayGeometry → F64;
  geometry_rotation : PageDisplayGeometry → PageRotation;
  DocumentPageDescriptor : Type;
  DocumentPageDescriptor_new : PageId → Z → PageDisplayGeometry → CanvasId →
                               DocumentPageDescriptor;
  page_id : DocumentPageDescriptor → PageId;
  page_index : DocumentPageDescriptor → Z;
  display_geometry : DocumentPageDescriptor → PageDisplayGeometry;
  overlay_canvas_id : DocumentPageDescriptor → CanvasId;
  DocumentDescriptor_eq_dec :: EqDecision DocumentDescriptor;
  DocumentDescriptor_new : DocumentId → SessionId → DocumentType → AssetId → string →
                           list DocumentPageDescriptor → option DocumentDescriptor;
  document_type : DocumentDescriptor → DocumentType;
  document_title : DocumentDescriptor → string;
  document_pages : DocumentDescriptor → list DocumentPageDescriptor;
  (** [orbitrelay-document-runtime]; [page_canvases] are the [canvas()] of the
      entries of [DocumentComposition::page_canvases]. *)
  DocumentSummary : Type;
  DocumentSummary_from_document : DocumentDescriptor → option DocumentSummary;
  summary_document_id : DocumentSummary → DocumentId;
  DocumentComposition : Type;
  composition_document : DocumentComposition → DocumentDescriptor;
  page_canvases : DocumentComposition → list CanvasDescriptor
}.

(** Page [p] of a Document in [session] is drawn over canvas [c]. *)
Definition overlays `{CatalogKernel} (session : SessionId) (p : DocumentPageDescriptor)
    (c : CanvasDescriptor) : Prop :=
  canvas_canvas_id c = overlay_canvas_id p ∧ canvas_session_id c = session ∧
  space_width (canvas_space c) = geometry_width (display_geometry p) ∧
  space_height (canvas_space c) = geometry_height (display_geometry p).

(** What the Catalog relies on: identifiers round trip; a descriptor is what
    its constructor builds from its parts; sizes are finite and positive; the
    Layers of a Canvas are a non-empty set that holds the default Layer; the
    Pages of a Document are not empty, in the order of their [u32] indices; and
    every Page of a composition is drawn over one of its Canvases, of the same
    Session and size.  A set in memory has at most [i64::MAX] elements. *)
Class CatalogKernelLaws `{CatalogKernel} : Prop := {
  LayerId_laws :: IdentifierLaws LayerId;
  PageId_laws :: IdentifierLaws PageId;
  space_eta : ∀ s, CanvasSpace_new (space_width s) (space_height s) = Some s;
  space_positive : ∀ s, positive_f64 (space_width s) = true ∧ positive_f64 (space_height s) = true;
  canvas_eta : ∀ d layers, (∀ l, l ∈ layers ↔ l ∈ canvas_layer_ids d) →
    CanvasDescriptor_new (canvas_canvas_id d) (canvas_session_id d) (canvas_space d) layers
      (canvas_default_layer_id d) = Some d;
  canvas_new_fields : ∀ i s sp l dl d, CanvasDescriptor_new i s sp l dl = Some d →
    canvas_canvas_id d = i ∧ canvas_session_id d = s;
  canvas_layers_nodup : ∀ d, NoDup (canvas_layer_ids d);
  canvas_default_layer_in : ∀ d, canvas_default_layer_id d ∈ canvas_layer_ids d;
  canvas_layers_bounded : ∀ d, Z.of_nat (length (canvas_layer_ids d)) ≤ i64_max;
  rotation_eta : ∀ r, rotation_from_degrees (rotation_degrees r) = Some r;
  rotation_u16 : ∀ r, 0 ≤ rotation_degrees r < 2 ^ 16;
  geometry_eta : ∀ g, PageDisplayGeometry_new (geometry_width g) (geometry_height g)
                        (geometry_rotation g) = Some g;
  geometry_positive : ∀ g, positive_f64 (geometry_width g) = true ∧
                           positive_f64 (geometry_height g) = true;
  page_eta : ∀ p, DocumentPageDescriptor_new (page_id p) (page_index p) (display_geometry p)
                    (overlay_canvas_id p) = p;
  page_index_u32 : ∀ p, 0 ≤ page_index p < 2 ^ 32;
  document_eta : ∀ d, DocumentDescriptor_new (document_document_id d) (document_session_id d)
    (document_type d) (source_asset_id d) (document_title d) (document_pages d) = Some d;
  document_new_fields : ∀ i s t a ti ps d, DocumentDescriptor_new i s t a ti ps = Some d →
    document_document_id d = i ∧ document_session_id d = s ∧ source_asset_id d = a ∧
    document_pages d = ps;
  document_pages_nonempty : ∀ d, document_pages d ≠ [];
  document_pages_sorted : ∀ d, StronglySorted (λ p q, page_index p < page_index q) (document_pages d);
  composition_coherent : ∀ c p, p ∈ document_pages (composition_document c) →
    ∃ canvas, canvas ∈ page_canvases c ∧
              overlays (document_session_id (composition_document c)) p canvas
}.

(** ** A concrete kernel of Documents and Canvases

    A validated value is a raw one that passes a boolean test; identifiers are
    texts. *)

Module CatalogDemo.
#[local] Existing Instances Demo.demo_kernel Demo.demo_laws Demo.text_identifier.

Record checked {A : Type} (f : A → bool) := mkChecked { raw : A; raw_ok : Is_true (f raw) }.
Arguments mkChecked {A f} _ _.
Arguments raw {A f} _.

Lemma checked_eq {A} {f : A → bool} (x y : checked f) : raw x = raw y → x = y.
Proof. destruct x as [x Hx], y as [y Hy]. cbn. intros ->. f_equal. apply proof_irrel. Qed.
Lemma raw_true {A} {f : A → bool} (x : checked f) : f (raw x) = true.
Proof. apply Is_true_true, raw_ok. Qed.
#[local] Instance checked_eq_dec {A} `{EqDecision A} (f : A → bool) : EqDecision (checked f).
Proof.
  intros x y. destruct (decide (raw x = raw y)) as [Heq|Hne].
  - left. by apply checked_eq.
  - right. by intros ->.
Defined.
Definition check {A} (f : A → bool) (a : A) : option (checked f) :=
  match decide (Is_true (f a)) with left Ha => Some (mkChecked a Ha) | right _ => None end.
Lemma check_Some {A} (f : A → bool) a x : check f a = Some x → raw x = a.
Proof. unfold check. case_decide; [|done]. by intros [= <-]. Qed.
Lemma check_raw {A} {f : A → bool} (x : checked f) : check f (raw x) = Some x.
Proof.
  unfold check. case_decide as Hd; [f_equal; by apply checked_eq|]. by destruct Hd; apply raw_ok.
Qed.

(** Sizes are pairs of positive numbers. *)
Definition size_ok (wh : F64 * F64) : bool := positive_f64 wh.1 && positive_f64 wh.2.

Record raw_canvas := mkRawCanvas {
  rc_id : string; rc_session : string; rc_space : checked size_ok; rc_layers : gset string;
  rc_default : string
}.
#[local] Instance raw_canvas_eq_dec : EqDecision raw_canvas.
Proof. solve_decision. Defined.
Definition canvas_ok (c : raw_canvas) : bool :=
  bool_decide (rc_default c ∈ rc_layers c) &&
  (Z.of_nat (length (elements (rc_layers c))) <=? i64_max).

#[export] Instance catalog_canvas : CanvasKernel := {|
  LayerId := string; StrokeId := string;
  CanvasId_countable := _;
  StrokePayload := string * string; payload_canvas_id := fst; payload_stroke_id := snd;
  CanvasEventKind_from_event_type t := bool_decide (t = "stroke");
  CanvasEventData_try_from e := StrokeBegan <$> split_once "/"%char (Demo.ev_payload e);
  StrokeProjection := list string;
  StrokeProjector_apply p e := Some (default [] p ++ [Demo.ev_payload e]);
  CanvasSpace := checked size_ok;
  CanvasSpace_new w h := check size_ok (w, h);
  CanvasDescriptor := checked canvas_ok;
  CanvasDescriptor_new c s sp l dl := check canvas_ok (mkRawCanvas c s sp (list_to_set l) dl);
  canvas_canvas_id d := rc_id (raw d); canvas_session_id d := rc_session (raw d)
|}.

Inductive rotation := Deg0 | Deg90 | Deg180 | Deg270.
#[local] Instance rotation_eq_dec : EqDecision rotation.
Proof. solve_decision. Defined.
Definition degrees (r : rotation) : Z :=
  match r with Deg0 => 0 | Deg90 => 90 | Deg180 => 180 | Deg270 => 270 end.
Definition from_degrees (z : Z) : option rotation :=
  if z =? 0 then Some Deg0 else if z =? 90 then Some Deg90 else
  if z =? 180 then Some Deg180 else if z =? 270 then Some Deg270 else None.

Definition u32_ok (z : Z) : bool := (0 <=? z) && (z <? 2 ^ 32).
Lemma u32_mod_ok z : Is_true (u32_ok (z mod 2 ^ 32)).
Proof.
  unfold u32_ok. pose proof (Z.mod_pos_bound z (2 ^ 32)).
  rewrite (proj2 (Z.leb_le _ _)), (proj2 (Z.ltb_lt _ _)) by lia. done.
Qed.
Record page := mkPage {
  p_id : string; p_index : checked u32_ok; p_geometry : checked size_ok * rotation; p_canvas : string
}.
#[local] Instance page_eq_dec : EqDecision page.
Proof. solve_decision. Defined.
Definition index_of (p : page) : Z := raw (p_index p).
Fixpoint sorted_above (lo : Z) (ps : list page) : bool :=
  match ps with [] => true | p :: ps' => (lo <? index_of p) && sorted_above (index_of p) ps' end.

Record raw_document := mkRawDocument {
  rd_id : string; rd_session : string; rd_type : DocumentType; rd_asset : string; rd_title : string;
  rd_pages : list page
}.
#[local] Instance raw_document_eq_dec : EqDecision raw_document.
Proof. solve_decision. Defined.
Definition document_ok (d : raw_document) : bool :=
  match rd_pages d with [] => false | ps => sorted_above (-1) ps end.

#[export] Instance catalog_documents : DocumentKernel := {|
  DocumentDescriptor := checked document_ok;
  document_document_id := λ d, rd_id (raw d); document_session_id := λ d, rd_session (raw d);
  source_asset_id := λ d, rd_asset (raw d)
|}.

(** Every Page lies over a Canvas of its Session and size. *)
Definition lies_over (session : string) (p : page) (c : checked canvas_ok) : bool :=
  bool_decide (rc_id (raw c) = p_canvas p) && bool_decide (rc_session (raw c) = session) &&
  bool_decide (raw (rc_space (raw c)) = raw (p_geometry p).1).
Definition composition_ok (x : checked document_ok * list (checked canvas_ok)) : bool :=
  forallb (λ p, existsb (lies_over (rd_session (raw x.1)) p) x.2) (rd_pages (raw x.1)).

#[export] Instance catalog_kernel : CatalogKernel := {|
  LayerId_id := Demo.text_identifier; LayerId_countable := _;
  space_width s := (raw s).1; space_height s := (raw s).2;
  CanvasDescriptor_eq_dec := _;
  canvas_space d := rc_space (raw d); canvas_layer_ids d := elements (rc_layers (raw d));
  canvas_default_layer_id d := rc_default (raw d);
  PageId := string; PageId_id := Demo.text_identifier;
  PageRotation := rotation; rotation_degrees := degrees; rotation_from_degrees := from_degrees;
  PageDisplayGeometry := checked size_ok * rotation;
  PageDisplayGeometry_new w h r := g ← check size_ok (w, h); Some (g, r);
  geometry_width g := (raw g.1).1; geometry_height g := (raw g.1).2; geometry_rotation g := g.2;
  DocumentPageDescriptor := page;
  DocumentPageDescriptor_new i n g c := mkPage i (mkChecked (n mod 2 ^ 32) (u32_mod_ok n)) g c;
  page_id := p_id; page_index := index_of; display_geometry := p_geometry;
  overlay_canvas_id := p_canvas;
  DocumentDescriptor_eq_dec := _;
  DocumentDescriptor_new i s t a ti ps := check document_ok (mkRawDocument i s t a ti ps);
  document_type d := rd_type (raw d); document_title d := rd_title (raw d);
  document_pages d := rd_pages (raw d);
  DocumentSummary := string; DocumentSummary_from_document d := Some (rd_id (raw d));
  summary_document_id := id;
  DocumentComposition := checked composition_ok;
  composition_document x := (raw x).1; page_canvases x := (raw x).2
|}.

Lemma sorted_above_spec ps : ∀ lo, sorted_above lo ps = true →
  StronglySorted (λ p q, index_of p < index_of q) ps ∧ Forall (λ p, lo < index_of p) ps.
Proof.
  induction ps as [|p ps IH]; intros lo; cbn; [intros _; split; constructor|].
  intros [Hlo%Z.ltb_lt Hs%IH]%andb_prop. destruct Hs as [Hs Hp]. split; [by constructor|].
  constructor; [done|]. eapply Forall_impl; [exact Hp|]. cbn. lia.
Qed.

Lemma size_ok_raw (s : checked size_ok) :
  positive_f64 (raw s).1 = true ∧ positive_f64 (raw s).2 = true.
Proof. apply andb_prop, (raw_true s). Qed.

#[export] Instance catalog_laws : CatalogKernelLaws.
Proof.
  split.
  - done.
  - done.
  - intros s. cbn. rewrite <- surjective_pairing. apply check_raw.
  - apply size_ok_raw.
  - intros d layers Hl. cbn. rewrite <- (check_raw d). f_equal. destruct d as [[i s sp l dl] Hd]. cbn in *.
    f_equal. apply set_eq. intros x. by rewrite elem_of_list_to_set, Hl, elem_of_elements.
  - intros i s sp l dl d Hd%check_Some. cbn in *. by rewrite Hd.
  - intros d. exact (NoDup_elements (rc_layers (raw d))).
  - intros d. apply (elem_of_elements (rc_layers (raw d))). pose proof (raw_true d) as Hd. apply andb_prop in Hd as [Hd _].
    by apply bool_decide_eq_true in Hd.
  - intros d. pose proof (raw_true d) as Hd. apply andb_prop in Hd as [_ Hd]. by apply Z.leb_le in Hd.
  - by intros [].
  - intros []; cbn; lia.
  - intros [g r]. cbn. rewrite <- surjective_pairing. by rewrite check_raw.
  - intros g. apply size_ok_raw.
  - intros [i [n Hn] g c]. cbn. f_equal. apply checked_eq. cbn. apply Z.mod_small.
    apply Is_true_true, andb_prop in Hn as [H1%Z.leb_le H2%Z.ltb_lt]. done.
  - intros p. pose proof (raw_true (p_index p)) as Hp. apply andb_prop in Hp as [H1%Z.leb_le H2%Z.ltb_lt]. done.
  - intros d. cbn. rewrite <- (check_raw d). f_equal. by destruct (raw d).
  - intros i s t a ti ps d Hd%check_Some. cbn in *. by rewrite Hd.
  - intros [[i s t a ti ps] Hd]. by destruct ps.
  - intros [[i s t a ti ps] Hd]. cbn in Hd |- *. destruct ps as [|p ps]; [done|].
    by apply Is_true_true, sorted_above_spec in Hd as [Hd _].
  - intros x p Hp. pose proof (raw_true x) as Hx. unfold composition_ok in Hx.
    rewrite forallb_forall in Hx. apply list_elem_of_In in Hp.
    apply Hx, existsb_exists in Hp as (c & Hc%list_elem_of_In & Ho). exists c. split; [done|].
    apply andb_prop in Ho as [[H1 H2]%andb_prop H3].
    apply bool_decide_eq_true in H1, H2, H3. unfold overlays. cbn. by rewrite H3.
Qed.
End CatalogDemo.
