(* ===== verification/Catalog.v ===== *)
(** * The SQLite Catalog

    Models [crates/orbitrelay-catalog-sqlite/src/lib.rs]: the five tables of
    the Document, Page, Canvas and Layer graph with their keys and foreign
    keys, the publications and reads that the worker thread runs, and the
    opening sequence with its integrity scan.  A table is the list of its rows
    in the order of insertion; each SQL statement of the source is the
    definition named after it.  The contract of the Catalog and the refinement
    theorems are in [CatalogSpec.v]; its command queue is in
    [CatalogWorker.v]. *)

From S2P Require Import Prelude Float Kernel Sql Canvas CatalogKernel.

Definition SUPPORTED_SCHEMA_VERSION : Z := 1.
Definition BOOTSTRAP_DEFAULT_CANVAS : string := "development/default_canvas".

(** [CatalogPublishOutcome] *)
Inductive CatalogPublishOutcome := Inserted | Existing | OutcomeConflict.

(** [CatalogStoreError]; the [detail] of [Backend] is the display text of the
    SQLite error that it carries here. *)
Inductive CatalogStoreError :=
| InvalidQueueCapacity
| Unavailable (detail : string)
| Backend (error : SqliteError)
| Corruption (detail : string)
| Schema (detail : string)
| Conflict
| InvalidGraph (detail : string).

(** [unavailable], [corruption], [map_sqlite] *)
Definition unavailable (detail : string) : CatalogStoreError := Unavailable detail.
Definition corruption (detail : string) : CatalogStoreError := Corruption detail.
Definition map_sqlite (error : SqliteError) : CatalogStoreError := Backend error.

(** ** The tables *)

Record DocumentRow := mkDocumentRow {
  doc_document_id : string;
  doc_session_id : string;
  doc_document_type : string;
  doc_source_asset_id : string;
  doc_title : string;
  doc_page_count : Z;
  doc_publication_sequence : Z
}.
Record CanvasRow := mkCanvasRow {
  cv_canvas_id : string;
  cv_session_id : string;
  cv_width : F64;
  cv_height : F64;
  cv_layer_count : Z;
  cv_default_layer_id : string
}.
Record LayerRow := mkLayerRow { ly_canvas_id : string; ly_layer_id : string }.
Record PageRow := mkPageRow {
  pg_page_id : string;
  pg_document_id : string;
  pg_page_index : Z;
  pg_width : F64;
  pg_height : F64;
  pg_rotation : Z;
  pg_overlay_canvas_id : string
}.
Record BindingRow := mkBindingRow {
  bd_binding_key : string;
  bd_session_id : string;
  bd_canvas_id : string
}.

Record CatalogDb := mkCatalogDb {
  storage_metadata : gmap string string;
  documents : list DocumentRow;
  canvases : list CanvasRow;
  layers : list LayerRow;
  document_pages_table : list PageRow;
  bootstrap_bindings : list BindingRow
}.
Definition empty_catalog_db : CatalogDb := mkCatalogDb ∅ [] [] [] [] [].

(** ** The SQL statements *)

(** [SELECT value FROM storage_metadata WHERE key = ?1] *)
Definition select_metadata (key : string) (db : CatalogDb) : option string :=
  storage_metadata db !! key.

(** [INSERT INTO storage_metadata], failing on a duplicate key, and
    [INSERT OR IGNORE INTO storage_metadata]. *)
Definition constraint_violation : CatalogStoreError :=
  map_sqlite (SqliteFailure ConstraintViolation).
Definition set_metadata (m : gmap string string) (db : CatalogDb) : CatalogDb :=
  mkCatalogDb m (documents db) (canvases db) (layers db) (document_pages_table db)
    (bootstrap_bindings db).
Definition insert_metadata (key value : string) (db : CatalogDb)
    : result CatalogStoreError CatalogDb :=
  match storage_metadata db !! key with
  | Some _ => Err constraint_violation
  | None => Ok (set_metadata (<[key := value]> (storage_metadata db)) db)
  end.
Definition insert_or_ignore_metadata (key value : string) (db : CatalogDb)
    : result CatalogStoreError CatalogDb :=
  match storage_metadata db !! key with
  | Some _ => Ok db
  | None => Ok (set_metadata (<[key := value]> (storage_metadata db)) db)
  end.

(** [SELECT ... FROM <table> WHERE <key> = ?1], with a unique key. *)
Definition select_document (id : string) (db : CatalogDb) : option DocumentRow :=
  List.find (λ r, bool_decide (doc_document_id r = id)) (documents db).
Definition select_canvas (id : string) (db : CatalogDb) : option CanvasRow :=
  List.find (λ r, bool_decide (cv_canvas_id r = id)) (canvases db).
Definition select_layer (id : string) (db : CatalogDb) : option LayerRow :=
  List.find (λ r, bool_decide (ly_layer_id r = id)) (layers db).
Definition select_binding (key : string) (db : CatalogDb) : option BindingRow :=
  List.find (λ r, bool_decide (bd_binding_key r = key)) (bootstrap_bindings db).

(** [... ORDER BY publication_sequence ASC], of one Session or of all. *)
Definition sequence_leb (a b : DocumentRow) : bool :=
  doc_publication_sequence a <=? doc_publication_sequence b.
Definition select_all_documents (db : CatalogDb) : list DocumentRow :=
  order_by sequence_leb (documents db).
Definition select_session_documents (session : string) (db : CatalogDb) : list DocumentRow :=
  order_by sequence_leb
    (List.filter (λ r, bool_decide (doc_session_id r = session)) (documents db)).

(** [... FROM document_pages WHERE document_id = ?1 ORDER BY page_index ASC] *)
Definition page_leb (a b : PageRow) : bool := pg_page_index a <=? pg_page_index b.
Definition select_pages (document : string) (db : CatalogDb) : list PageRow :=
  order_by page_leb
    (List.filter (λ r, bool_decide (pg_document_id r = document)) (document_pages_table db)).

(** [SELECT layer_id FROM layers WHERE canvas_id = ?1 ORDER BY layer_id ASC]:
    texts are compared byte by byte. *)
Definition layer_leb (a b : LayerRow) : bool := String.leb (ly_layer_id a) (ly_layer_id b).
Definition select_layers (canvas : string) (db : CatalogDb) : list string :=
  ly_layer_id <$>
  order_by layer_leb (List.filter (λ r, bool_decide (ly_canvas_id r = canvas)) (layers db)).

(** [SELECT canvas_id FROM canvases ORDER BY canvas_id] *)
Definition canvas_leb (a b : CanvasRow) : bool := String.leb (cv_canvas_id a) (cv_canvas_id b).
Definition select_canvas_ids (db : CatalogDb) : list string :=
  cv_canvas_id <$> order_by canvas_leb (canvases db).

(** [SELECT COALESCE(MAX(publication_sequence), -1) + 1 FROM documents]: the
    sum of two integers that leaves the [i64] range is a [REAL], which the
    column getter refuses. *)
Definition max_sequence (rows : list DocumentRow) : Z :=
  match rows with
  | [] => -1
  | r :: rest => fold_left Z.max (doc_publication_sequence <$> rest) (doc_publication_sequence r)
  end.
Definition select_next_sequence (db : CatalogDb) : option Z :=
  let next := max_sequence (documents db) + 1 in
  if next <=? i64_max then Some next else None.

(** The tests of the foreign keys. *)
Definition canvas_exists (id : string) (db : CatalogDb) : bool :=
  existsb (λ r, bool_decide (cv_canvas_id r = id)) (canvases db).
Definition document_exists (id : string) (db : CatalogDb) : bool :=
  existsb (λ r, bool_decide (doc_document_id r = id)) (documents db).
Definition layer_of_canvas_exists (canvas layer : string) (db : CatalogDb) : bool :=
  existsb (λ r, bool_decide (ly_canvas_id r = canvas) && bool_decide (ly_layer_id r = layer))
    (layers db).

(** [INSERT INTO canvases]: [canvas_id] is the primary key; the default Layer
    is a deferred foreign key. *)
Definition insert_canvas (r : CanvasRow) (db : CatalogDb) : result CatalogStoreError CatalogDb :=
  match real_cell (cv_width r), real_cell (cv_height r) with
  | Some width, Some height =>
      if canvas_exists (cv_canvas_id r) db then Err constraint_violation else
      Ok (mkCatalogDb (storage_metadata db) (documents db)
            (canvases db ++ [mkCanvasRow (cv_canvas_id r) (cv_session_id r) width height
                               (cv_layer_count r) (cv_default_layer_id r)])
            (layers db) (document_pages_table db) (bootstrap_bindings db))
  | _, _ => Err constraint_violation
  end.

(** [INSERT INTO layers]: [layer_id] is the primary key. *)
Definition insert_layer (r : LayerRow) (db : CatalogDb) : result CatalogStoreError CatalogDb :=
  if existsb (λ r', bool_decide (ly_layer_id r' = ly_layer_id r)) (layers db)
     || negb (canvas_exists (ly_canvas_id r) db)
  then Err constraint_violation
  else Ok (mkCatalogDb (storage_metadata db) (documents db) (canvases db) (layers db ++ [r])
             (document_pages_table db) (bootstrap_bindings db)).

(** [INSERT INTO documents]: [document_id] is the primary key and
    [publication_sequence] is unique. *)
Definition insert_document (r : DocumentRow) (db : CatalogDb) : result CatalogStoreError CatalogDb :=
  if existsb (λ r', bool_decide (doc_document_id r' = doc_document_id r)
                    || (doc_publication_sequence r' =? doc_publication_sequence r)) (documents db)
  then Err constraint_violation
  else Ok (mkCatalogDb (storage_metadata db) (documents db ++ [r]) (canvases db) (layers db)
             (document_pages_table db) (bootstrap_bindings db)).

(** [INSERT INTO document_pages]: [page_id] is the primary key; the index and
    the overlay Canvas are unique in a Document. *)
Definition pages_clash (r r' : PageRow) : bool :=
  bool_decide (pg_page_id r' = pg_page_id r) ||
  (bool_decide (pg_document_id r' = pg_document_id r) &&
   ((pg_page_index r' =? pg_page_index r) ||
    bool_decide (pg_overlay_canvas_id r' = pg_overlay_canvas_id r))).
Definition insert_page (r : PageRow) (db : CatalogDb) : result CatalogStoreError CatalogDb :=
  match real_cell (pg_width r), real_cell (pg_height r) with
  | Some width, Some height =>
      if existsb (pages_clash r) (document_pages_table db)
         || negb (document_exists (pg_document_id r) db)
         || negb (canvas_exists (pg_overlay_canvas_id r) db)
      then Err constraint_violation
      else Ok (mkCatalogDb (storage_metadata db) (documents db) (canvases db) (layers db)
                 (document_pages_table db ++
                    [mkPageRow (pg_page_id r) (pg_document_id r) (pg_page_index r) width height
                       (pg_rotation r) (pg_overlay_canvas_id r)])
                 (bootstrap_bindings db))
  | _, _ => Err constraint_violation
  end.

(** [INSERT INTO bootstrap_bindings]: [binding_key] is the primary key. *)
Definition insert_binding (r : BindingRow) (db : CatalogDb) : result CatalogStoreError CatalogDb :=
  if existsb (λ r', bool_decide (bd_binding_key r' = bd_binding_key r)) (bootstrap_bindings db)
     || negb (canvas_exists (bd_canvas_id r) db)
  then Err constraint_violation
  else Ok (mkCatalogDb (storage_metadata db) (documents db) (canvases db) (layers db)
             (document_pages_table db) (bootstrap_bindings db ++ [r])).

(** The rows whose foreign keys name nothing: of the deferred key, which
    [COMMIT] tests, and of all keys, which [PRAGMA foreign_key_check] lists.
    The connection is used only after the pragma has listed nothing. *)
Definition default_layer_missing (db : CatalogDb) (r : CanvasRow) : bool :=
  negb (layer_of_canvas_exists (cv_canvas_id r) (cv_default_layer_id r) db).
Definition deferred_violation (db : CatalogDb) : bool :=
  existsb (default_layer_missing db) (canvases db).
Definition foreign_key_violation (db : CatalogDb) : bool :=
  deferred_violation db ||
  existsb (λ r, negb (canvas_exists (ly_canvas_id r) db)) (layers db) ||
  existsb (λ r, negb (document_exists (pg_document_id r) db)
                || negb (canvas_exists (pg_overlay_canvas_id r) db)) (document_pages_table db) ||
  existsb (λ r, negb (canvas_exists (bd_canvas_id r) db)) (bootstrap_bindings db).
Definition check_deferred (db : CatalogDb) : option CatalogStoreError :=
  if deferred_violation db then Some constraint_violation else None.

(** [SELECT COUNT] of the Layers that a left join with [canvases] leaves
    without a Canvas. *)
Definition count_orphan_layers (db : CatalogDb) : Z :=
  Z.of_nat (length (List.filter (λ r, negb (canvas_exists (ly_canvas_id r) db)) (layers db))).

Section catalog.
Context `{CatalogKernel}.

Abbreviation M := (sql CatalogDb SqliteError CatalogStoreError).

(** [BootstrapBinding] *)
Record BootstrapBinding := mkBinding {
  binding_session_id : SessionId;
  binding_canvas_id : CanvasId
}.
#[global] Instance BootstrapBinding_eq_dec : EqDecision BootstrapBinding.
Proof. solve_decision. Defined.

(** [transaction.commit()] *)
Definition commit : M () := sql_commit_checked map_sqlite check_deferred.

(** [parse_document_type] and [document_type_name] *)
Definition parse_document_type (value : string) : result CatalogStoreError DocumentType :=
  if bool_decide (value = "pdf") then Ok Pdf else Err (corruption "unknown Document type").
Definition document_type_name (value : DocumentType) : string :=
  match value with Pdf => "pdf" end.

(** ** Reading *)

(** One row of [load_pages]. *)
Definition decode_page (r : PageRow) : result CatalogStoreError DocumentPageDescriptor :=
  id ← ok_or (corruption "malformed Page ID") (of_text (pg_page_id r));
  index ← ok_or (corruption "invalid Page index")
            (if (0 <=? pg_page_index r) && (pg_page_index r <? 2 ^ 32)
             then Some (pg_page_index r) else None);
  degrees ← ok_or (corruption "invalid Page rotation")
              (if (0 <=? pg_rotation r) && (pg_rotation r <? 2 ^ 16)
               then Some (pg_rotation r) else None);
  rotation ← ok_or (corruption "invalid Page rotation") (rotation_from_degrees degrees);
  geometry ← ok_or (corruption "invalid Page geometry")
               (PageDisplayGeometry_new (pg_width r) (pg_height r) rotation);
  canvas ← ok_or (corruption "malformed overlay Canvas ID") (of_text (pg_overlay_canvas_id r));
  Ok (DocumentPageDescriptor_new id index geometry canvas).

Fixpoint collect_pages (rows : list PageRow) (pages : list DocumentPageDescriptor)
    : M (list DocumentPageDescriptor) :=
  match rows with
  | [] => mret pages
  | row :: rest =>
      sql_touch map_sqlite;;
      page ← sql_lift (decode_page row);
      collect_pages rest (pages ++ [page])
  end.

(** [load_pages] *)
Definition load_pages (document_id : DocumentId) : M (list DocumentPageDescriptor) :=
  sql_touch map_sqlite;;
  rows ← sql_query map_sqlite (select_pages (to_text document_id));
  collect_pages rows [].

(** [page_count <= 0 || page_count as usize != pages.len()] *)
Definition count_mismatch {A} (count : Z) (l : list A) : bool :=
  (count <=? 0) || negb (count =? Z.of_nat (length l)).

(** [load_document_tx] and [load_document] *)
Definition load_document (document_id : DocumentId) : M (option DocumentDescriptor) :=
  row ← sql_query map_sqlite (select_document (to_text document_id));
  match row with
  | None => mret None
  | Some r =>
      id ← sql_lift (ok_or (corruption "malformed document ID") (of_text (doc_document_id r)));
      session ← sql_lift (ok_or (corruption "malformed document Session ID")
                            (of_text (doc_session_id r)));
      kind ← sql_lift (parse_document_type (doc_document_type r));
      asset ← sql_lift (ok_or (corruption "malformed source Asset ID")
                          (of_text (doc_source_asset_id r)));
      pages ← load_pages id;
      if count_mismatch (doc_page_count r) pages
      then sql_fail (corruption "persisted Document page count mismatch") else
      document ← sql_lift (ok_or (corruption "invalid persisted Document descriptor")
                             (DocumentDescriptor_new id session kind asset (doc_title r) pages));
      mret (Some document)
  end.

(** The [for row in rows] loop of [load_canvas_tx]: the [BTreeSet] is a
    [gset]. *)
Fixpoint collect_layers (rows : list string) (acc : gset LayerId) : M (gset LayerId) :=
  match rows with
  | [] => mret acc
  | row :: rest =>
      sql_touch map_sqlite;;
      layer ← sql_lift (ok_or (corruption "malformed Layer ID") (of_text row));
      collect_layers rest ({[ layer ]} ∪ acc)
  end.

(** [load_canvas_tx] and [load_canvas] *)
Definition load_canvas (canvas_id : CanvasId) : M (option CanvasDescriptor) :=
  row ← sql_query map_sqlite (select_canvas (to_text canvas_id));
  match row with
  | None => mret None
  | Some r =>
      id ← sql_lift (ok_or (corruption "malformed Canvas ID")
                       (of_text (cv_canvas_id r) : option CanvasId));
      session ← sql_lift (ok_or (corruption "malformed Canvas Session ID")
                            (of_text (cv_session_id r)));
      space ← sql_lift (ok_or (corruption "invalid Canvas space")
                          (CanvasSpace_new (cv_width r) (cv_height r)));
      default_layer ← sql_lift (ok_or (corruption "malformed default Layer ID")
                                  (of_text (cv_default_layer_id r)));
      sql_touch map_sqlite;;
      rows ← sql_query map_sqlite (select_layers (to_text id));
      layers ← collect_layers rows ∅;
      if count_mismatch (cv_layer_count r) (elements layers)
      then sql_fail (corruption "persisted Canvas Layer count mismatch") else
      canvas ← sql_lift (ok_or (corruption "invalid persisted Canvas descriptor")
                           (CanvasDescriptor_new id session space (elements layers) default_layer));
      mret (Some canvas)
  end.

(** The loops of [list_documents] and [list_all_documents]. *)
Definition load_listed (row : DocumentRow) : M DocumentDescriptor :=
  sql_touch map_sqlite;;
  id ← sql_lift (ok_or (corruption "malformed document ID") (of_text (doc_document_id row)));
  document ← load_document id;
  sql_lift (ok_or (corruption "publication order references missing Document") document).

Fixpoint collect_documents (rows : list DocumentRow) (acc : list DocumentDescriptor)
    : M (list DocumentDescriptor) :=
  match rows with
  | [] => mret acc
  | row :: rest => document ← load_listed row; collect_documents rest (acc ++ [document])
  end.

Fixpoint collect_summaries (rows : list DocumentRow) (acc : list DocumentSummary)
    : M (list DocumentSummary) :=
  match rows with
  | [] => mret acc
  | row :: rest =>
      document ← load_listed row;
      summary ← sql_lift (ok_or (corruption "Document page count overflowed")
                            (DocumentSummary_from_document document));
      collect_summaries rest (acc ++ [summary])
  end.

(** [list_documents] *)
Definition list_documents (session_id : SessionId) : M (list DocumentSummary) :=
  sql_touch map_sqlite;;
  rows ← sql_query map_sqlite (select_session_documents (to_text session_id));
  collect_summaries rows [].

(** [list_all_documents] *)
Definition list_all_documents : M (list DocumentDescriptor) :=
  sql_touch map_sqlite;;
  rows ← sql_query map_sqlite select_all_documents;
  collect_documents rows [].

(** [load_binding] *)
Definition decode_binding (r : BindingRow) : result CatalogStoreError BootstrapBinding :=
  session ← ok_or (corruption "malformed bootstrap Session ID") (of_text (bd_session_id r));
  canvas ← ok_or (corruption "malformed bootstrap Canvas ID") (of_text (bd_canvas_id r));
  Ok (mkBinding session canvas).
Definition load_binding (key : string) : M (option BootstrapBinding) :=
  row ← sql_query map_sqlite (select_binding key);
  match row with
  | None => mret None
  | Some r => binding ← sql_lift (decode_binding r); mret (Some binding)
  end.

(** ** Publication *)

Fixpoint insert_layers (canvas : string) (ids : list LayerId) : M () :=
  match ids with
  | [] => mret ()
  | id :: rest =>
      sql_exec map_sqlite (insert_layer (mkLayerRow canvas (to_text id)));;
      insert_layers canvas rest
  end.

(** [i64::try_from(len)] *)
Definition i64_of_len {A} (detail : string) (l : list A) : result CatalogStoreError Z :=
  ok_or (InvalidGraph detail) (i64_of_u64 (Z.of_nat (length l))).

(** [insert_canvas_tx] *)
Definition insert_canvas_tx (d : CanvasDescriptor) : M () :=
  count ← sql_lift (i64_of_len "Canvas Layer count exceeds SQLite capacity" (canvas_layer_ids d));
  sql_exec map_sqlite (insert_canvas
    (mkCanvasRow (to_text (canvas_canvas_id d)) (to_text (canvas_session_id d))
       (space_width (canvas_space d)) (space_height (canvas_space d)) count
       (to_text (canvas_default_layer_id d))));;
  insert_layers (to_text (canvas_canvas_id d)) (canvas_layer_ids d).

Fixpoint insert_canvases (ds : list CanvasDescriptor) : M () :=
  match ds with
  | [] => mret ()
  | d :: rest => insert_canvas_tx d;; insert_canvases rest
  end.

Fixpoint insert_pages (document : string) (pages : list DocumentPageDescriptor) : M () :=
  match pages with
  | [] => mret ()
  | p :: rest =>
      sql_exec map_sqlite (insert_page
        (mkPageRow (to_text (page_id p)) document (page_index p)
           (geometry_width (display_geometry p)) (geometry_height (display_geometry p))
           (rotation_degrees (geometry_rotation (display_geometry p)))
           (to_text (overlay_canvas_id p))));;
      insert_pages document rest
  end.

(** The Layer loop of [document_ids_collide] and of [publish_standalone]. *)
Fixpoint any_layer_exists (ids : list LayerId) : M bool :=
  match ids with
  | [] => mret false
  | id :: rest =>
      found ← sql_query map_sqlite (select_layer (to_text id));
      match found with Some _ => mret true | None => any_layer_exists rest end
  end.

Fixpoint any_canvas_collides (ds : list CanvasDescriptor) : M bool :=
  match ds with
  | [] => mret false
  | d :: rest =>
      found ← sql_query map_sqlite (select_canvas (to_text (canvas_canvas_id d)));
      match found with
      | Some _ => mret true
      | None =>
          collides ← any_layer_exists (canvas_layer_ids d);
          if collides : bool then mret true else any_canvas_collides rest
      end
  end.

(** [document_ids_collide] *)
Definition document_ids_collide (c : DocumentComposition) : M bool :=
  found ← sql_query map_sqlite
            (select_document (to_text (document_document_id (composition_document c))));
  match found with
  | Some _ => mret true
  | None => any_canvas_collides (page_canvases c)
  end.

(** The loop over [page_canvases] when the Document is already stored. *)
Fixpoint same_canvases (ds : list CanvasDescriptor) (same : bool) : M bool :=
  match ds with
  | [] => mret same
  | d :: rest =>
      found ← load_canvas (canvas_canvas_id d);
      existing ← sql_lift (ok_or (corruption "published Document is missing its Canvas") found);
      same_canvases rest (same && bool_decide (existing = d))
  end.

(** [publish_document] *)
Definition publish_document (c : DocumentComposition) : M CatalogPublishOutcome :=
  let document := composition_document c in
  transaction map_sqlite (
    stored ← load_document (document_document_id document);
    match stored with
    | Some existing =>
        same ← same_canvases (page_canvases c) (bool_decide (existing = document));
        if same : bool then commit;; mret Existing else sql_fail Conflict
    | None =>
        collide ← document_ids_collide c;
        if collide : bool then sql_fail Conflict else
        next ← sql_query map_sqlite select_next_sequence;
        sequence ← sql_lift (ok_or (map_sqlite OtherSqliteError) next);
        insert_canvases (page_canvases c);;
        count ← sql_lift (i64_of_len "Document page count exceeds SQLite capacity"
                            (document_pages document));
        sql_exec map_sqlite (insert_document
          (mkDocumentRow (to_text (document_document_id document))
             (to_text (document_session_id document)) (document_type_name (document_type document))
             (to_text (source_asset_id document)) (document_title document) count sequence));;
        insert_pages (to_text (document_document_id document)) (document_pages document);;
        commit;;
        mret Inserted
    end).

(** [publish_standalone] *)
Definition publish_standalone (d : CanvasDescriptor) : M CatalogPublishOutcome :=
  transaction map_sqlite (
    stored ← load_canvas (canvas_canvas_id d);
    match stored with
    | Some existing =>
        if decide (existing = d) then commit;; mret Existing else sql_fail Conflict
    | None =>
        collide ← any_layer_exists (canvas_layer_ids d);
        if collide : bool then sql_fail Conflict else
        insert_canvas_tx d;;
        commit;;
        mret Inserted
    end).

(** The row of a binding. *)
Definition binding_row (key : string) (b : BootstrapBinding) : BindingRow :=
  mkBindingRow key (to_text (binding_session_id b)) (to_text (binding_canvas_id b)).
(** The comparison of a stored binding with the expected texts. *)
Definition same_binding (r : BindingRow) (b : BootstrapBinding) : bool :=
  bool_decide (bd_session_id r = to_text (binding_session_id b)) &&
  bool_decide (bd_canvas_id r = to_text (binding_canvas_id b)).

(** [publish_standalone_with_binding] *)
Definition publish_standalone_with_binding (key : string) (d : CanvasDescriptor)
    (b : BootstrapBinding) : M CatalogPublishOutcome :=
  if negb (bool_decide (binding_canvas_id b = canvas_canvas_id d))
     || negb (bool_decide (binding_session_id b = canvas_session_id d))
  then sql_fail Conflict else
  transaction map_sqlite (
    bound ← sql_query map_sqlite (select_binding key);
    match bound with
    | Some r =>
        if negb (same_binding r b) then sql_fail Conflict else
        found ← load_canvas (canvas_canvas_id d);
        existing ← sql_lift (ok_or (corruption "bootstrap binding references missing Canvas") found);
        if negb (bool_decide (existing = d)) then sql_fail Conflict else
        commit;; mret Existing
    | None =>
        stored ← load_canvas (canvas_canvas_id d);
        outcome ← match stored with
                  | Some existing =>
                      if negb (bool_decide (existing = d)) then sql_fail Conflict
                      else mret Existing
                  | None => insert_canvas_tx d;; mret Inserted
                  end;
        sql_exec map_sqlite (insert_binding (binding_row key b));;
        commit;;
        mret outcome
    end).

(** [store_binding] *)
Definition store_binding (key : string) (b : BootstrapBinding) : M () :=
  transaction map_sqlite (
    bound ← sql_query map_sqlite (select_binding key);
    match bound with
    | Some r => if negb (same_binding r b) then sql_fail Conflict else commit
    | None => sql_exec map_sqlite (insert_binding (binding_row key b));; commit
    end).

(** ** Opening a database *)

(** [metadata_value] *)
Definition metadata_value (key : string) : M (option string) :=
  sql_query map_sqlite (select_metadata key).

(** [ensure_metadata] *)
Definition ensure_metadata (key value : string) : M () :=
  sql_exec map_sqlite (insert_or_ignore_metadata key value).

(** [create_schema]; [fresh] is the value of [EntityId::new()]. *)
Definition create_schema (fresh : EntityId) : M () :=
  sql_touch map_sqlite;;
  ensure_metadata "schema_version" (show_u64 SUPPORTED_SCHEMA_VERSION);;
  physical ← metadata_value "physical_store_id";
  match physical with
  | None => sql_exec map_sqlite (insert_metadata "physical_store_id" (to_text fresh))
  | Some _ => mret ()
  end.

(** The loop over the Pages of a Document in [scan_integrity]. *)
Fixpoint scan_pages (session : SessionId) (pages : list DocumentPageDescriptor) : M () :=
  match pages with
  | [] => mret ()
  | p :: rest =>
      found ← load_canvas (overlay_canvas_id p);
      canvas ← sql_lift (ok_or (corruption "Document Page references missing Canvas") found);
      if negb (bool_decide (canvas_session_id canvas = session))
         || negb (f64_eqb (space_width (canvas_space canvas)) (geometry_width (display_geometry p)))
         || negb (f64_eqb (space_height (canvas_space canvas)) (geometry_height (display_geometry p)))
      then sql_fail (corruption "Document Page and Canvas descriptor mismatch")
      else scan_pages session rest
  end.

(** The loop over the Documents in [scan_integrity]. *)
Fixpoint scan_documents (expected : Z) (rows : list DocumentRow) : M () :=
  match rows with
  | [] => mret ()
  | r :: rest =>
      sql_touch map_sqlite;;
      if (doc_publication_sequence r <? 0) || (doc_publication_sequence r <? expected)
      then sql_fail (corruption "invalid Document publication sequence") else
      id ← sql_lift (ok_or (corruption "malformed document ID") (of_text (doc_document_id r)));
      session ← sql_lift (ok_or (corruption "malformed document Session ID")
                            (of_text (doc_session_id r)));
      asset ← sql_lift (ok_or (corruption "malformed source Asset ID")
                          (of_text (doc_source_asset_id r)));
      kind ← sql_lift (parse_document_type (doc_document_type r));
      pages ← load_pages id;
      if count_mismatch (doc_page_count r) pages
      then sql_fail (corruption "persisted Document page count mismatch") else
      document ← sql_lift (ok_or (corruption "invalid persisted Document descriptor")
                             (DocumentDescriptor_new id session kind asset (doc_title r) pages));
      scan_pages (document_session_id document) (document_pages document);;
      scan_documents (i64_saturating_add (doc_publication_sequence r) 1) rest
  end.

(** The loop over the Canvases. *)
Fixpoint scan_canvases (ids : list string) : M () :=
  match ids with
  | [] => mret ()
  | text :: rest =>
      sql_touch map_sqlite;;
      id ← sql_lift (ok_or (corruption "malformed Canvas ID") (of_text text));
      found ← load_canvas id;
      sql_lift (ok_or (corruption "Canvas disappeared during scan") found);;
      scan_canvases rest
  end.

(** The loop over the bindings. *)
Fixpoint scan_bindings (rows : list BindingRow) : M () :=
  match rows with
  | [] => mret ()
  | r :: rest =>
      sql_touch map_sqlite;;
      b ← sql_lift (decode_binding r);
      found ← load_canvas (binding_canvas_id b);
      canvas ← sql_lift (ok_or (corruption "bootstrap binding references missing Canvas") found);
      if negb (bool_decide (canvas_session_id canvas = binding_session_id b))
      then sql_fail (corruption "bootstrap binding Session mismatch")
      else scan_bindings rest
  end.

(** [scan_integrity]: a failing step of the pragma counts as a row. *)
Definition scan_integrity : M () :=
  sql_touch map_sqlite;;
  sql_touch map_sqlite;;
  violation ← sql_query (λ _, corruption "Catalog foreign key check failed") foreign_key_violation;
  if violation : bool then sql_fail (corruption "Catalog foreign key check failed") else
  sql_touch map_sqlite;;
  rows ← sql_query map_sqlite select_all_documents;
  scan_documents 0 rows;;
  sql_touch map_sqlite;;
  ids ← sql_query map_sqlite select_canvas_ids;
  scan_canvases ids;;
  orphan ← sql_query map_sqlite count_orphan_layers;
  if negb (orphan =? 0) then sql_fail (corruption "orphan Layer row") else
  sql_touch map_sqlite;;
  bindings ← sql_query map_sqlite bootstrap_bindings;
  scan_bindings bindings.

(** [initialize_storage]: [has_parent] tells whether the path has a parent
    directory, [quick_check] is what SQLite's integrity pragma answers. *)
Definition initialize_storage (has_parent : bool) (quick_check : string) (fresh : EntityId)
    : M EntityId :=
  (if has_parent
   then sql_touch (λ _, unavailable "catalog database directory could not be created")
   else mret ());;
  sql_touch map_sqlite;;
  sql_touch map_sqlite;;
  sql_touch map_sqlite;;
  sql_touch map_sqlite;;
  sql_touch map_sqlite;;
  create_schema fresh;;
  found ← metadata_value "schema_version";
  schema ← sql_lift (ok_or (corruption "missing catalog schema version") found);
  version ← sql_lift (ok_or (corruption "malformed catalog schema version") (parse_i64 schema));
  if SUPPORTED_SCHEMA_VERSION <? version
  then sql_fail (Schema "schema version is newer than this adapter") else
  if version <? SUPPORTED_SCHEMA_VERSION
  then sql_fail (Schema "schema migration is required") else
  stored ← metadata_value "physical_store_id";
  text ← sql_lift (ok_or (corruption "missing physical store identity") stored);
  physical ← sql_lift (ok_or (corruption "malformed physical store identity") (of_text text));
  sql_touch map_sqlite;;
  (if negb (bool_decide (quick_check = "ok"))
   then sql_fail (corruption "SQLite quick_check failed") else mret ());;
  scan_integrity;;
  mret physical.

End catalog.
