(* ===== verification/CatalogSpec.v ===== *)
(** * The Catalog contract and its SQLite refinement

    The contract of the Catalog is an abstract [Catalog]: the published
    Documents in publication order, the Canvases, and the bootstrap bindings.
    [tables] writes it as the rows of the database; the refinement lemmas show
    that every command of [Catalog.v] follows the contract or reports a
    backend error and changes nothing, whatever calls into SQLite fail. *)

From S2P Require Import Prelude Float Kernel Sql Canvas CatalogKernel Catalog.

(** ** Lists *)

Lemma find_imap {A B} (P : A → bool) (Q : B → bool) (l : list A) : ∀ (f : nat → A → B),
  (∀ i x, Q (f i x) = P x) →
  match List.find P l with
  | Some x => ∃ i, l !! i = Some x ∧ List.find Q (imap f l) = Some (f i x)
  | None => List.find Q (imap f l) = None
  end.
Proof.
  induction l as [|y l IH]; intros f HQ; [done|]. cbn. rewrite HQ. destruct (P y); [by exists 0%nat|].
  specialize (IH (f ∘ S)). cbn in IH. destruct (List.find P l) as [x|].
  - destruct IH as (i & Hi & Hf); [intros ? ?; apply HQ|]. by exists (S i).
  - apply IH. intros ? ?. apply HQ.
Qed.

Lemma find_fmap {A B} (f : A → B) (P : A → bool) (Q : B → bool) l :
  (∀ x, Q (f x) = P x) → List.find Q (f <$> l) = f <$> List.find P l.
Proof.
  intros HQ. induction l as [|y l IH]; [done|]. cbn. rewrite HQ. by destruct (P y).
Qed.

Lemma find_key_Some {A K} `{EqDecision K} (key : A → K) (k : K) l x :
  List.find (λ y, bool_decide (key y = k)) l = Some x → x ∈ l ∧ key x = k.
Proof.
  intros Hf%List.find_some. rewrite bool_decide_eq_true, <- list_elem_of_In in Hf. done.
Qed.

Lemma find_key_None {A K} `{EqDecision K} (key : A → K) (k : K) l :
  List.find (λ y, bool_decide (key y = k)) l = None ↔ k ∉ key <$> l.
Proof.
  split.
  - intros Hf (x & -> & Hx)%list_elem_of_fmap.
    eapply List.find_none in Hf; [|by apply list_elem_of_In].
    by rewrite bool_decide_eq_false in Hf.
  - intros Hk. destruct (List.find _ l) as [x|] eqn:Hf; [|done].
    apply find_key_Some in Hf as [Hx <-]. by destruct Hk; apply list_elem_of_fmap_2.
Qed.

Lemma find_key_NoDup {A K} `{EqDecision K} (key : A → K) l x :
  NoDup (key <$> l) → x ∈ l → List.find (λ y, bool_decide (key y = key x)) l = Some x.
Proof.
  induction l as [|y l IH]; intros Hnd Hx; [by apply elem_of_nil in Hx|].
  apply NoDup_cons in Hnd as [Hy Hnd]. cbn. case_bool_decide as Heq.
  - apply elem_of_cons in Hx as [->|Hx]; [done|]. destruct Hy. rewrite Heq. by apply list_elem_of_fmap_2.
  - apply elem_of_cons in Hx as [->|Hx]; [done|]. by apply IH.
Qed.

Lemma existsb_key {A K} `{EqDecision K} (key : A → K) (k : K) l :
  existsb (λ y, bool_decide (key y = k)) l = bool_decide (k ∈ key <$> l).
Proof.
  induction l as [|y l IH]; [done|]. cbn. rewrite IH, <- bool_decide_or.
  apply bool_decide_ext. rewrite elem_of_cons. split; intros [Hk|Hk]; auto.
Qed.

Lemma filter_bind {A B} (P : A → bool) (Q : B → bool) (rows : A → list B) l :
  (∀ x r, r ∈ rows x → Q r = P x) → List.filter Q (l ≫= rows) = List.filter P l ≫= rows.
Proof.
  intros HQ. induction l as [|x l IH]; [done|]. rewrite bind_cons, List.filter_app, IH. cbn.
  assert (List.filter Q (rows x) = if P x then rows x else []) as ->; [|by destruct (P x)].
  specialize (HQ x). induction (rows x) as [|r rs IHr]; [by destruct (P x)|]. cbn.
  rewrite HQ, IHr by set_solver. by destruct (P x).
Qed.

Lemma filter_key_NoDup {A K} `{EqDecision K} (key : A → K) l x :
  NoDup (key <$> l) → x ∈ l → List.filter (λ y, bool_decide (key y = key x)) l = [x].
Proof.
  induction l as [|y l IH]; intros Hnd Hx; [by apply elem_of_nil in Hx|].
  apply NoDup_cons in Hnd as [Hy Hnd]. cbn. case_bool_decide as Heq.
  - apply elem_of_cons in Hx as [->|Hx]; [|destruct Hy; rewrite Heq; by apply list_elem_of_fmap_2].
    f_equal. clear -Hy. induction l as [|z l IH]; [done|]. cbn.
    apply not_elem_of_cons in Hy as [Hyz Hy].
    rewrite bool_decide_eq_false_2 by done. by apply IH.
  - apply elem_of_cons in Hx as [->|Hx]; [done|]. by apply IH.
Qed.

Lemma filter_key_none {A K} `{EqDecision K} (key : A → K) (k : K) l :
  k ∉ key <$> l → List.filter (λ y, bool_decide (key y = k)) l = [].
Proof.
  induction l as [|y l IH]; [done|]. intros Hk. cbn.
  apply not_elem_of_cons in Hk as [Hyk Hk].
  rewrite bool_decide_eq_false_2 by done. by apply IH.
Qed.

Section spec.
Context `{CatalogKernelLaws}.
Context {KL : KernelLaws}.

Abbreviation C := (conn CatalogDb SqliteError).
Abbreviation Error := CatalogStoreError.

(** ** The abstract Catalog *)

Record Catalog := mkCatalog {
  c_documents : list DocumentDescriptor;
  c_canvases : list CanvasDescriptor;
  c_bindings : list (string * BootstrapBinding)
}.
Definition empty_catalog : Catalog := mkCatalog [] [] [].

(** Lookups by identity. *)
Definition find_document (id : DocumentId) (cat : Catalog) : option DocumentDescriptor :=
  List.find (λ d, bool_decide (document_document_id d = id)) (c_documents cat).
Definition find_canvas (id : CanvasId) (cat : Catalog) : option CanvasDescriptor :=
  List.find (λ d, bool_decide (canvas_canvas_id d = id)) (c_canvases cat).
Definition find_binding (key : string) (cat : Catalog) : option BootstrapBinding :=
  snd <$> List.find (λ kb, bool_decide (kb.1 = key)) (c_bindings cat).

Definition all_layers (cs : list CanvasDescriptor) : list LayerId := cs ≫= canvas_layer_ids.
Definition page_ids (ds : list DocumentDescriptor) : list PageId :=
  ds ≫= λ d, page_id <$> document_pages d.

Definition add_canvases (cs : list CanvasDescriptor) (cat : Catalog) : Catalog :=
  mkCatalog (c_documents cat) (c_canvases cat ++ cs) (c_bindings cat).
Definition add_document (d : DocumentDescriptor) (cat : Catalog) : Catalog :=
  mkCatalog (c_documents cat ++ [d]) (c_canvases cat) (c_bindings cat).
Definition add_binding (key : string) (b : BootstrapBinding) (cat : Catalog) : Catalog :=
  mkCatalog (c_documents cat) (c_canvases cat) (c_bindings cat ++ [(key, b)]).

(** The invariant: identities are unique, and nothing refers to a Canvas that
    is not there. *)
Record catalog_ok (cat : Catalog) : Prop := {
  ok_documents : NoDup (document_document_id <$> c_documents cat);
  ok_canvases : NoDup (canvas_canvas_id <$> c_canvases cat);
  ok_layers : NoDup (all_layers (c_canvases cat));
  ok_page_ids : NoDup (page_ids (c_documents cat));
  ok_pages : ∀ d p, d ∈ c_documents cat → p ∈ document_pages d →
    ∃ c, c ∈ c_canvases cat ∧ overlays (document_session_id d) p c;
  ok_bindings : NoDup (c_bindings cat).*1;
  ok_binding_canvas : ∀ key b, (key, b) ∈ c_bindings cat →
    binding_canvas_id b ∈ canvas_canvas_id <$> c_canvases cat
}.

Lemma empty_catalog_ok : catalog_ok empty_catalog.
Proof. split; cbn; try apply NoDup_nil_2; by intros ? ? ?%elem_of_nil. Qed.

(** ** The rows of a Catalog *)

Definition document_row (i : nat) (d : DocumentDescriptor) : DocumentRow :=
  mkDocumentRow (to_text (document_document_id d)) (to_text (document_session_id d))
    (document_type_name (document_type d)) (to_text (source_asset_id d)) (document_title d)
    (Z.of_nat (length (document_pages d))) (Z.of_nat i).
Definition page_row (document : string) (p : DocumentPageDescriptor) : PageRow :=
  mkPageRow (to_text (page_id p)) document (page_index p)
    (geometry_width (display_geometry p)) (geometry_height (display_geometry p))
    (rotation_degrees (geometry_rotation (display_geometry p))) (to_text (overlay_canvas_id p)).
Definition page_rows (d : DocumentDescriptor) : list PageRow :=
  page_row (to_text (document_document_id d)) <$> document_pages d.
Definition canvas_row (c : CanvasDescriptor) : CanvasRow :=
  mkCanvasRow (to_text (canvas_canvas_id c)) (to_text (canvas_session_id c))
    (space_width (canvas_space c)) (space_height (canvas_space c))
    (Z.of_nat (length (canvas_layer_ids c))) (to_text (canvas_default_layer_id c)).
Definition layer_row (canvas : string) (l : LayerId) : LayerRow := mkLayerRow canvas (to_text l).
Definition layer_rows (c : CanvasDescriptor) : list LayerRow :=
  layer_row (to_text (canvas_canvas_id c)) <$> canvas_layer_ids c.

Definition tables (meta : gmap string string) (cat : Catalog) : CatalogDb :=
  mkCatalogDb meta (imap document_row (c_documents cat)) (canvas_row <$> c_canvases cat)
    (c_canvases cat ≫= layer_rows) (c_documents cat ≫= page_rows)
    ((λ kb, binding_row kb.1 kb.2) <$> c_bindings cat).

(** Comparing texts is comparing identifiers. *)
Lemma text_eqb `{Identifier T, !IdentifierLaws T} (x y : T) :
  bool_decide (to_text x = to_text y) = bool_decide (x = y).
Proof. apply bool_decide_ext. split; [apply to_text_inj|congruence]. Qed.

Lemma select_document_tables meta cat id :
  match find_document id cat with
  | Some d => ∃ i, select_document (to_text id) (tables meta cat) = Some (document_row i d)
  | None => select_document (to_text id) (tables meta cat) = None
  end.
Proof.
  unfold find_document, select_document. cbn.
  pose proof (find_imap (λ d, bool_decide (document_document_id d = id))
    (λ r, bool_decide (doc_document_id r = to_text id)) (c_documents cat) document_row) as Hf.
  destruct (List.find _ (c_documents cat)) as [d|].
  - destruct Hf as (i & _ & Hf); [intros; apply text_eqb|]. by exists i.
  - apply Hf. intros; apply text_eqb.
Qed.

Lemma select_canvas_tables meta cat id :
  select_canvas (to_text id) (tables meta cat) = canvas_row <$> find_canvas id cat.
Proof. apply find_fmap. intros c. apply text_eqb. Qed.

Lemma select_binding_tables meta cat key :
  select_binding key (tables meta cat) = binding_row key <$> find_binding key cat.
Proof.
  unfold select_binding, find_binding. cbn.
  rewrite (find_fmap _ (λ kb, bool_decide (kb.1 = key))) by done.
  destruct (List.find _ (c_bindings cat)) as [[k b]|] eqn:Hf; [|done].
  apply (find_key_Some fst) in Hf as [_ Hk]. cbn in *. by rewrite Hk.
Qed.

Lemma select_pages_tables meta cat d :
  catalog_ok cat → d ∈ c_documents cat →
  select_pages (to_text (document_document_id d)) (tables meta cat) = page_rows d.
Proof.
  intros Hok Hd. unfold select_pages. cbn.
  rewrite (filter_bind (λ d', bool_decide (document_document_id d' = document_document_id d))).
  2:{ intros d' r (p & -> & _)%list_elem_of_fmap. apply text_eqb. }
  rewrite (filter_key_NoDup document_document_id) by (apply Hok || done). cbn. rewrite app_nil_r.
  apply order_by_id. unfold page_rows. pose proof (document_pages_sorted d) as Hs.
  induction Hs as [|p ps Hs IH Hp]; [constructor|]. cbn. constructor; [done|].
  apply Forall_fmap. eapply Forall_impl; [exact Hp|]. intros q Hpq. apply Z.leb_le. cbn in Hpq |- *. by apply Z.lt_le_incl.
Qed.

Lemma select_layers_tables meta cat c :
  catalog_ok cat → c ∈ c_canvases cat →
  select_layers (to_text (canvas_canvas_id c)) (tables meta cat) ≡ₚ to_text <$> canvas_layer_ids c.
Proof.
  intros Hok Hc. unfold select_layers. rewrite order_by_perm. cbn.
  rewrite (filter_bind (λ c', bool_decide (canvas_canvas_id c' = canvas_canvas_id c))).
  2:{ intros c' r (p & -> & _)%list_elem_of_fmap. apply text_eqb. }
  rewrite (filter_key_NoDup canvas_canvas_id) by (apply Hok || done). cbn. rewrite app_nil_r.
  unfold layer_rows. by rewrite <- list_fmap_compose.
Qed.

(** ** Reading follows the contract

    [reads m cat a]: on a connection that sees the rows of [cat], [m] answers
    [a] and changes nothing, or a call into SQLite has failed. *)

Definition reads {A} (m : sql CatalogDb SqliteError Error A) (db : CatalogDb) (a : result Error A)
    : Prop :=
  ∀ (Q : result Error A → C → Prop) base w p,
  default base w = db →
  (∀ e p', faulty p → Q (Err (Backend e)) (mkConn base w p')) →
  (∀ p', (faulty p' → faulty p) → Q a (mkConn base w p')) →
  sql_wp m Q (mkConn base w p).

Lemma reads_ret {A} (a : A) db : reads (mret a) db (Ok a).
Proof. intros Q base w p _ _ Hk. by sql_step; apply Hk. Qed.

Lemma reads_lift {A} (r : result Error A) db : reads (sql_lift r) db r.
Proof. intros Q base w p _ _ Hk. by sql_step; apply Hk. Qed.

Lemma reads_query {A} (f : CatalogDb → A) db : reads (sql_query map_sqlite f) db (Ok (f db)).
Proof. intros Q base w p <- He Hk. sql_step; [by apply He|by apply Hk]. Qed.

Lemma reads_touch db : reads (sql_touch map_sqlite) db (Ok ()).
Proof. apply reads_query. Qed.

Lemma reads_bind {A B} (m : sql CatalogDb SqliteError Error A) (k : A → sql CatalogDb SqliteError Error B)
    db r r' :
  reads m db r →
  match r with Ok a => reads (k a) db r' | Err e => r' = Err e end →
  reads (m ≫= k) db r'.
Proof.
  intros Hm Hr Q base w p Hdb He Hk. sql_step. apply Hm; [done|intros; by apply He|].
  intros p' Hp. destruct r as [a|e]; [|subst; by apply Hk].
  apply Hr; [done|intros; apply He; auto|intros; apply Hk; auto].
Qed.

End spec.

(** One step of a proof about [reads]. *)
Ltac reads_step :=
  lazymatch goal with
  | |- reads (_ ≫= _) _ _ => eapply reads_bind
  | |- reads (mret _) _ _ => apply reads_ret
  | |- reads (sql_lift _) _ _ => apply reads_lift
  | |- reads (sql_fail _) _ _ => apply reads_lift
  | |- reads (sql_query map_sqlite _) _ _ => apply reads_query
  | |- reads (sql_touch map_sqlite) _ _ => apply reads_touch
  end; cbv beta iota.
(** A call of [Catalog.v] that is a primitive. *)
Ltac reads_next := reads_step; [reads_step|]; cbn [ok_or]; cbv beta iota.

Section spec.
Context `{CatalogKernelLaws}.
Context {KL : KernelLaws}.

Abbreviation C := (conn CatalogDb SqliteError).
Abbreviation Error := CatalogStoreError.

Lemma decode_page_row text p : decode_page (page_row text p) = Ok p.
Proof.
  unfold decode_page. cbn. rewrite !of_to_text. cbn.
  pose proof (page_index_u32 p) as [Hi Hi']. pose proof (rotation_u16 (geometry_rotation (display_geometry p))) as [Hr Hr'].
  rewrite (proj2 (Z.leb_le 0 (page_index p)) Hi), (proj2 (Z.ltb_lt (page_index p) _) Hi'). cbn.
  rewrite (proj2 (Z.leb_le 0 (rotation_degrees _)) Hr), (proj2 (Z.ltb_lt (rotation_degrees _) _) Hr'). cbn.
  rewrite rotation_eta. cbn. rewrite geometry_eta. cbn. by rewrite page_eta.
Qed.

Lemma collect_pages_reads db text ps : ∀ acc,
  reads (collect_pages (page_row text <$> ps) acc) db (Ok (acc ++ ps)).
Proof.
  induction ps as [|p ps IH]; intros acc; cbn [fmap list_fmap collect_pages].
  - rewrite app_nil_r. reads_step.
  - reads_next. rewrite decode_page_row. reads_next.
    replace (acc ++ p :: ps) with ((acc ++ [p]) ++ ps) by by rewrite <- app_assoc. apply IH.
Qed.

Lemma load_pages_reads meta cat d :
  catalog_ok cat → d ∈ c_documents cat →
  reads (load_pages (document_document_id d)) (tables meta cat) (Ok (document_pages d)).
Proof.
  intros Hok Hd. unfold load_pages. reads_next.
  reads_next. rewrite select_pages_tables by done.
  apply (collect_pages_reads _ _ _ []).
Qed.

Lemma count_mismatch_length {A} (l : list A) : l ≠ [] → count_mismatch (Z.of_nat (length l)) l = false.
Proof.
  intros Hl. unfold count_mismatch. destruct l as [|x l]; [done|]. cbn [length].
  rewrite Z.eqb_refl, (proj2 (Z.leb_gt _ _)) by lia. done.
Qed.

Lemma parse_document_type_name t : parse_document_type (document_type_name t) = Ok t.
Proof. by destruct t. Qed.

Lemma find_document_Some id cat d :
  find_document id cat = Some d → d ∈ c_documents cat ∧ document_document_id d = id.
Proof. apply find_key_Some. Qed.
Lemma find_canvas_Some id cat c :
  find_canvas id cat = Some c → c ∈ c_canvases cat ∧ canvas_canvas_id c = id.
Proof. apply find_key_Some. Qed.
Lemma find_canvas_in cat c :
  catalog_ok cat → c ∈ c_canvases cat → find_canvas (canvas_canvas_id c) cat = Some c.
Proof. intros Hok. apply (find_key_NoDup canvas_canvas_id), Hok. Qed.
Lemma find_document_in cat d :
  catalog_ok cat → d ∈ c_documents cat → find_document (document_document_id d) cat = Some d.
Proof. intros Hok. apply (find_key_NoDup document_document_id), Hok. Qed.

Lemma load_document_reads meta cat id :
  catalog_ok cat → reads (load_document id) (tables meta cat) (Ok (find_document id cat)).
Proof.
  intros Hok. unfold load_document. reads_next.
  pose proof (select_document_tables meta cat id) as Hs.
  destruct (find_document id cat) as [d|] eqn:Hf; [|rewrite Hs; reads_step].
  destruct Hs as [i ->]. apply find_document_Some in Hf as [Hd <-]. cbn [document_row doc_document_id
    doc_session_id doc_document_type doc_source_asset_id doc_title doc_page_count].
  rewrite !of_to_text, parse_document_type_name. do 4 reads_next.
  reads_step; [by apply load_pages_reads|]. cbv beta iota.
  rewrite count_mismatch_length by apply document_pages_nonempty. cbv beta iota.
  rewrite document_eta. reads_next. reads_step.
Qed.

Lemma collect_layers_reads db ids : ∀ acc,
  reads (collect_layers (to_text <$> ids) acc) db (Ok (list_to_set ids ∪ acc)).
Proof.
  induction ids as [|l ids IH]; intros acc; cbn [fmap list_fmap collect_layers].
  - rewrite list_to_set_nil, (left_id_L ∅ (∪)). reads_step.
  - reads_next. rewrite of_to_text. reads_next.
    replace (list_to_set (l :: ids) ∪ acc) with (list_to_set ids ∪ ({[l]} ∪ acc) : gset LayerId)
      by by rewrite list_to_set_cons, (assoc_L (∪)), (comm_L (∪) (list_to_set ids)).
    apply IH.
Qed.

Lemma load_canvas_reads meta cat id :
  catalog_ok cat → reads (load_canvas id) (tables meta cat) (Ok (find_canvas id cat)).
Proof.
  intros Hok. unfold load_canvas. reads_next.
  rewrite select_canvas_tables. destruct (find_canvas id cat) as [c|] eqn:Hf; cbn [fmap option_fmap option_map];
    [|reads_step].
  apply find_canvas_Some in Hf as [Hc <-].
  cbn [canvas_row cv_canvas_id cv_session_id cv_width cv_height cv_layer_count cv_default_layer_id].
  rewrite !of_to_text, space_eta. do 5 reads_next.
  reads_next.
  destruct (Permutation_map_inv _ _ (select_layers_tables meta cat c Hok Hc)) as (ids & Heq & Hp).
  rewrite Heq. reads_step; [apply (collect_layers_reads _ ids ∅)|]. cbv beta iota.
  rewrite (right_id_L ∅ (∪)).
  assert (elements (list_to_set ids : gset LayerId) ≡ₚ canvas_layer_ids c) as Hel.
  { rewrite Hp. apply elements_list_to_set. rewrite <- Hp. apply canvas_layers_nodup. }
  assert (canvas_layer_ids c ≠ []) as Hne.
  { intros Hnil. pose proof (canvas_default_layer_in c) as Hin. by rewrite Hnil in Hin; apply elem_of_nil in Hin. }
  rewrite <- Hel at 1. rewrite count_mismatch_length.
  2:{ intros Hnil. rewrite Hnil in Hel. by apply Permutation_nil_l in Hel. }
  cbv beta iota. rewrite canvas_eta; [reads_next; reads_step|].
  intros l. by rewrite Hel.
Qed.

Lemma decode_binding_row key b : decode_binding (binding_row key b) = Ok b.
Proof. unfold decode_binding. cbn. rewrite !of_to_text. cbn. by destruct b. Qed.

Lemma load_binding_reads meta cat key :
  reads (load_binding key) (tables meta cat) (Ok (find_binding key cat)).
Proof.
  unfold load_binding. reads_next. rewrite select_binding_tables.
  destruct (find_binding key cat) as [b|]; cbn [fmap option_fmap option_map]; [|reads_step].
  rewrite decode_binding_row. reads_next. reads_step.
Qed.

(** The rows of some of the Documents. *)
Definition row_for (cat : Catalog) (r : DocumentRow) (d : DocumentDescriptor) : Prop :=
  d ∈ c_documents cat ∧ ∃ i, r = document_row i d.

Lemma rows_for_all cat : Forall2 (row_for cat) (imap document_row (c_documents cat)) (c_documents cat).
Proof.
  apply Forall2_same_length_lookup. split; [apply length_imap|].
  intros i r d (d' & Hd' & ->)%list_lookup_imap_Some Hd. rewrite Hd in Hd'. injection Hd' as <-.
  split; [by eapply list_elem_of_lookup_2|by exists i].
Qed.

Lemma documents_sorted docs : StronglySorted (λ a b, sequence_leb a b = true) (imap document_row docs).
Proof.
  apply StronglySorted_lookup. intros i j x y Hij (d & _ & ->)%list_lookup_imap_Some
    (d' & _ & ->)%list_lookup_imap_Some. apply Z.leb_le. cbn. lia.
Qed.

Lemma select_all_documents_tables meta cat :
  select_all_documents (tables meta cat) = imap document_row (c_documents cat).
Proof. apply order_by_id, documents_sorted. Qed.

Definition session_documents (session : SessionId) (cat : Catalog) : list DocumentDescriptor :=
  List.filter (λ d, bool_decide (document_session_id d = session)) (c_documents cat).

Lemma select_session_documents_tables meta cat session :
  Forall2 (row_for cat) (select_session_documents (to_text session) (tables meta cat))
    (session_documents session cat).
Proof.
  unfold select_session_documents. rewrite order_by_id by apply StronglySorted_filter, documents_sorted.
  apply Forall2_List_filter; [|apply rows_for_all]. intros r d (_ & i & ->). apply text_eqb.
Qed.

Lemma load_listed_reads meta cat r d :
  catalog_ok cat → row_for cat r d → reads (load_listed r) (tables meta cat) (Ok d).
Proof.
  intros Hok (Hd & i & ->). unfold load_listed. reads_next. cbn [document_row doc_document_id].
  rewrite of_to_text. reads_next. reads_step; [by apply load_document_reads|]. cbv beta iota.
  rewrite find_document_in by done. reads_step.
Qed.

Lemma collect_documents_reads meta cat rows ds : catalog_ok cat → Forall2 (row_for cat) rows ds →
  ∀ acc, reads (collect_documents rows acc) (tables meta cat) (Ok (acc ++ ds)).
Proof.
  intros Hok. induction 1 as [|r d rows ds Hr Hrows IH]; intros acc; cbn [collect_documents].
  - rewrite app_nil_r. reads_step.
  - reads_step; [by apply load_listed_reads|]. cbv beta iota.
    replace (acc ++ d :: ds) with ((acc ++ [d]) ++ ds) by by rewrite <- app_assoc. apply IH.
Qed.

Definition summary_of (d : DocumentDescriptor) : result Error DocumentSummary :=
  ok_or (corruption "Document page count overflowed") (DocumentSummary_from_document d).

Lemma collect_summaries_reads meta cat rows ds : catalog_ok cat → Forall2 (row_for cat) rows ds →
  ∀ acc, reads (collect_summaries rows acc) (tables meta cat)
           (ss ← mapM summary_of ds; Ok (acc ++ ss)).
Proof.
  intros Hok. induction 1 as [|r d rows ds Hr Hrows IH]; intros acc; cbn [collect_summaries mapM].
  - cbn. rewrite app_nil_r. reads_step.
  - reads_step; [by apply load_listed_reads|]. cbv beta iota.
    reads_step; [reads_step|]. change (ok_or _ _) with (summary_of d).
    destruct (summary_of d) as [s|e]; [|done]. specialize (IH (acc ++ [s])). cbn.
    destruct (mapM summary_of ds) as [ss|e]; cbn in IH |- *; [|done].
    by rewrite <- app_assoc in IH.
Qed.

(** The listings of the contract. *)
Definition spec_list_documents (session : SessionId) (cat : Catalog)
    : result Error (list DocumentSummary) := mapM summary_of (session_documents session cat).

Lemma list_documents_reads meta cat session :
  catalog_ok cat →
  reads (list_documents session) (tables meta cat) (spec_list_documents session cat).
Proof.
  intros Hok. unfold list_documents. reads_next. reads_next.
  pose proof (collect_summaries_reads meta cat _ _ Hok (select_session_documents_tables meta cat session) [])
    as Hc. unfold spec_list_documents. by destruct (mapM summary_of _).
Qed.

Lemma list_all_documents_reads meta cat :
  catalog_ok cat → reads list_all_documents (tables meta cat) (Ok (c_documents cat)).
Proof.
  intros Hok. unfold list_all_documents. reads_next. reads_next.
  rewrite select_all_documents_tables.
  by apply (collect_documents_reads meta cat _ _ Hok (rows_for_all cat) []).
Qed.

(** ** The tests of a publication *)

Lemma layers_table_ids meta cat :
  ly_layer_id <$> layers (tables meta cat) = to_text <$> all_layers (c_canvases cat).
Proof.
  cbn. unfold all_layers. induction (c_canvases cat) as [|c cs IH]; [done|].
  rewrite !bind_cons, !fmap_app, IH. unfold layer_rows. by rewrite <- list_fmap_compose.
Qed.

Lemma text_elem_of `{Identifier T, !IdentifierLaws T} (x : T) (l : list T) :
  to_text x ∈ to_text <$> l ↔ x ∈ l.
Proof. apply list_elem_of_fmap_inj. intros ? ?. apply to_text_inj. Qed.

Lemma any_layer_exists_reads meta cat ids :
  reads (any_layer_exists ids) (tables meta cat)
    (Ok (bool_decide (Exists (λ l, l ∈ all_layers (c_canvases cat)) ids))).
Proof.
  induction ids as [|l ids IH]; cbn [any_layer_exists]; [reads_step|]. reads_next.
  unfold select_layer. destruct (List.find _ _) as [r|] eqn:Hf.
  - rewrite bool_decide_eq_true_2; [reads_step|]. left.
    apply (find_key_Some ly_layer_id) in Hf as [Hr Hl]. apply text_elem_of.
    rewrite <- Hl, <- (layers_table_ids meta). by apply list_elem_of_fmap_2.
  - apply (find_key_None ly_layer_id) in Hf. rewrite layers_table_ids, text_elem_of in Hf.
    erewrite bool_decide_ext; [exact IH|]. rewrite Exists_cons. tauto.
Qed.

(** A Canvas, or a Layer of it, is already stored. *)
Definition canvas_collides (cat : Catalog) (d : CanvasDescriptor) : Prop :=
  canvas_canvas_id d ∈ canvas_canvas_id <$> c_canvases cat ∨
  Exists (λ l, l ∈ all_layers (c_canvases cat)) (canvas_layer_ids d).
#[global] Instance canvas_collides_dec cat d : Decision (canvas_collides cat d).
Proof. apply _. Defined.

Lemma any_canvas_collides_reads meta cat ds :
  reads (any_canvas_collides ds) (tables meta cat) (Ok (bool_decide (Exists (canvas_collides cat) ds))).
Proof.
  induction ds as [|d ds IH]; cbn [any_canvas_collides]; [reads_step|]. reads_next.
  rewrite select_canvas_tables. destruct (find_canvas _ cat) as [c|] eqn:Hf; cbn [fmap option_fmap option_map].
  - apply find_canvas_Some in Hf as [Hc Hid]. rewrite bool_decide_eq_true_2; [reads_step|].
    left. left. rewrite <- Hid. by apply list_elem_of_fmap_2.
  - apply (find_key_None canvas_canvas_id) in Hf. reads_step; [apply any_layer_exists_reads|]. cbv beta iota.
    destruct (bool_decide (Exists _ (canvas_layer_ids d))) eqn:He.
    + apply bool_decide_eq_true in He. rewrite bool_decide_eq_true_2; [reads_step|]. left. by right.
    + apply bool_decide_eq_false in He. erewrite bool_decide_ext; [exact IH|]. rewrite Exists_cons. unfold canvas_collides at 1. tauto.
Qed.

Lemma document_ids_collide_reads meta cat c :
  find_document (document_document_id (composition_document c)) cat = None →
  reads (document_ids_collide c) (tables meta cat)
    (Ok (bool_decide (Exists (canvas_collides cat) (page_canvases c)))).
Proof.
  intros Hf. unfold document_ids_collide. reads_next.
  pose proof (select_document_tables meta cat (document_document_id (composition_document c))) as Hs.
  rewrite Hf in Hs. rewrite Hs. apply any_canvas_collides_reads.
Qed.

(** The stored Canvases of the identities of [ds]; [None] when one is missing. *)
Definition stored_canvases (ds : list CanvasDescriptor) (cat : Catalog)
    : option (list CanvasDescriptor) := mapM (λ d, find_canvas (canvas_canvas_id d) cat) ds.

Lemma same_canvases_reads meta cat ds : catalog_ok cat → ∀ same,
  reads (same_canvases ds same) (tables meta cat)
    (found ← ok_or (corruption "published Document is missing its Canvas") (stored_canvases ds cat);
     Ok (same && bool_decide (found = ds))).
Proof.
  intros Hok. induction ds as [|d ds IH]; intros same; cbn [same_canvases stored_canvases mapM].
  - cbn. rewrite andb_true_r. reads_step.
  - reads_step; [by apply load_canvas_reads|]. cbv beta iota. unfold stored_canvases. cbn [mapM].
    destruct (find_canvas _ cat) as [c|] eqn:Hf; cbn [ok_or]; [|reads_step; [reads_step|done]].
    reads_next. specialize (IH (same && bool_decide (c = d))). fold (stored_canvases ds cat).
    cbn. destruct (stored_canvases ds cat) as [found|]; cbn in IH |- *; [|done].
    replace (bool_decide (c :: found = d :: ds)) with (bool_decide (c = d) && bool_decide (found = ds));
      [by rewrite andb_assoc|].
    rewrite <- bool_decide_and. apply bool_decide_ext. split; [by intros [-> ->]|by intros [= -> ->]].
Qed.

(** ** The statements of a publication

    [writes m db P db']: inside a transaction that sees [db], [m] leaves [db']
    when [P] holds and violates a constraint when it does not, or a call into
    SQLite has failed. *)

Definition writes (m : sql CatalogDb SqliteError Error ()) (db : CatalogDb) (P : Prop)
    (db' : CatalogDb) : Prop :=
  ∀ (Q : result Error () → C → Prop) base p,
  (∀ e p' d, faulty p → Q (Err (Backend e)) (mkConn base (Some d) p')) →
  (P → ∀ p', (faulty p' → faulty p) → Q (Ok ()) (mkConn base (Some db') p')) →
  (¬ P → ∀ p' d, Q (Err constraint_violation) (mkConn base (Some d) p')) →
  sql_wp m Q (mkConn base (Some db) p).

Lemma writes_ret db (P : Prop) : P → writes (mret ()) db P db.
Proof. intros HP Q base p _ Hk _. sql_step. by apply Hk. Qed.

Lemma writes_exec (f : CatalogDb → result Error CatalogDb) db (P : Prop) db' :
  (P ∧ f db = Ok db') ∨ (¬ P ∧ f db = Err constraint_violation) →
  writes (sql_exec map_sqlite f) db P db'.
Proof.
  intros Hf Q base p He Hk Hc. sql_step; [by apply He|]. cbn.
  destruct Hf as [[HP ->]|[HP ->]]; [by apply Hk|by apply Hc].
Qed.

Lemma writes_seq m m' db (P P1 P2 : Prop) db1 db2 :
  writes m db P1 db1 → (P1 → writes m' db1 P2 db2) → (P ↔ P1 ∧ P2) →
  writes (m;; m') db P db2.
Proof.
  intros Hm Hm' HP Q base p He Hk Hc. sql_step. apply Hm.
  - intros. by apply He.
  - intros HP1 p' Hp. apply (Hm' HP1); [intros; apply He; auto| |].
    + intros HP2 p'' Hp'. apply Hk; [by apply HP|auto].
    + intros HP2. apply Hc. tauto.
  - intros HP1. apply Hc. tauto.
Qed.

Lemma writes_lift {A} (r : result Error A) k db P db' (a : A) :
  r = Ok a → writes (k a) db P db' → writes (sql_lift r ≫= k) db P db'.
Proof. intros -> Hk Q base p He Hok Hc. sql_step. sql_step. by apply Hk. Qed.

Definition push_canvas (r : CanvasRow) (db : CatalogDb) : CatalogDb :=
  mkCatalogDb (storage_metadata db) (documents db) (canvases db ++ [r]) (layers db)
    (document_pages_table db) (bootstrap_bindings db).
Definition push_layers (rows : list LayerRow) (db : CatalogDb) : CatalogDb :=
  mkCatalogDb (storage_metadata db) (documents db) (canvases db) (layers db ++ rows)
    (document_pages_table db) (bootstrap_bindings db).
Definition push_document (r : DocumentRow) (db : CatalogDb) : CatalogDb :=
  mkCatalogDb (storage_metadata db) (documents db ++ [r]) (canvases db) (layers db)
    (document_pages_table db) (bootstrap_bindings db).
Definition push_pages (rows : list PageRow) (db : CatalogDb) : CatalogDb :=
  mkCatalogDb (storage_metadata db) (documents db) (canvases db) (layers db)
    (document_pages_table db ++ rows) (bootstrap_bindings db).

Lemma insert_layers_writes text ids : ∀ db,
  canvas_exists text db = true → NoDup (ly_layer_id <$> layers db) →
  writes (insert_layers text ids) db (NoDup ((ly_layer_id <$> layers db) ++ (to_text <$> ids)))
    (push_layers (layer_row text <$> ids) db).
Proof.
  induction ids as [|l ids IH]; intros db Hc Hnd; cbn [insert_layers].
  - unfold push_layers. cbn. rewrite !app_nil_r. by destruct db; apply writes_ret.
  - set (row := mkLayerRow text (to_text l)).
    eapply (writes_seq _ _ _ _ (to_text l ∉ ly_layer_id <$> layers db) _ (push_layers [row] db)).
    + apply writes_exec. unfold insert_layer. rewrite existsb_key. cbn [row ly_layer_id ly_canvas_id].
      rewrite Hc, orb_false_r. case_bool_decide; [right; tauto|by left].
    + intros Hfresh. replace (push_layers (layer_row text <$> l :: ids) db)
        with (push_layers (layer_row text <$> ids) (push_layers [row] db))
        by (unfold push_layers; cbn; by rewrite <- app_assoc).
      apply IH; [done|]. cbn. rewrite fmap_app. apply NoDup_app. split_and!; [done| |apply NoDup_singleton].
      intros x Hx ->%list_elem_of_singleton. done.
    + cbn. rewrite fmap_app, <- app_assoc. cbn. split; [|tauto]. intros HP. split; [|done].
      apply NoDup_app in HP as (_ & HP & _). intros Hin. apply (HP _ Hin). by left.
Qed.

Lemma canvas_exists_tables meta cat id :
  canvas_exists (to_text id) (tables meta cat) =
  bool_decide (id ∈ canvas_canvas_id <$> c_canvases cat).
Proof.
  unfold canvas_exists. rewrite existsb_key. apply bool_decide_ext. cbn.
  rewrite <- list_fmap_compose. rewrite <- text_elem_of, <- list_fmap_compose. done.
Qed.

(** The Canvases [ds] can be added: all identities stay unique. *)
Definition canvases_fit (cat : Catalog) (ds : list CanvasDescriptor) : Prop :=
  NoDup (canvas_canvas_id <$> c_canvases cat ++ ds) ∧ NoDup (all_layers (c_canvases cat ++ ds)).
#[global] Instance canvases_fit_dec cat ds : Decision (canvases_fit cat ds).
Proof. apply _. Defined.

Lemma text_NoDup `{Identifier T, !IdentifierLaws T} (l : list T) :
  NoDup (to_text <$> l) ↔ NoDup l.
Proof. split; [apply NoDup_fmap_1|apply NoDup_fmap_2; intros ? ?; apply to_text_inj]. Qed.

Lemma canvas_layer_count c : i64_of_len "Canvas Layer count exceeds SQLite capacity"
  (canvas_layer_ids c) = Ok (Z.of_nat (length (canvas_layer_ids c))).
Proof.
  unfold i64_of_len, i64_of_u64. rewrite (proj2 (Z.ltb_ge _ _)) by apply canvas_layers_bounded. done.
Qed.

Lemma tables_add_canvas meta cat c :
  tables meta (add_canvases [c] cat) =
  push_layers (layer_rows c) (push_canvas (canvas_row c) (tables meta cat)).
Proof.
  unfold tables, push_layers, push_canvas. cbn. rewrite fmap_app, bind_app. cbn. by rewrite app_nil_r.
Qed.

Lemma insert_canvas_writes meta cat c :
  writes (sql_exec map_sqlite (insert_canvas (canvas_row c))) (tables meta cat)
    (canvas_canvas_id c ∉ canvas_canvas_id <$> c_canvases cat)
    (push_canvas (canvas_row c) (tables meta cat)).
Proof.
  apply writes_exec. unfold insert_canvas. destruct (space_positive (canvas_space c)) as [Hw Hh].
  cbn [canvas_row cv_width cv_height cv_canvas_id]. rewrite !real_cell_positive by done.
  rewrite canvas_exists_tables. case_bool_decide; [right; tauto|by left].
Qed.

Lemma insert_canvas_tx_writes meta cat c :
  canvases_fit cat [] →
  writes (insert_canvas_tx c) (tables meta cat) (canvases_fit cat [c])
    (tables meta (add_canvases [c] cat)).
Proof.
  intros [Hids Hlay]. rewrite app_nil_r in Hids, Hlay. unfold insert_canvas_tx.
  eapply writes_lift; [apply canvas_layer_count|]. rewrite tables_add_canvas.
  eapply writes_seq; [apply insert_canvas_writes|intros Hfresh; apply insert_layers_writes|].
  - unfold canvas_exists, push_canvas. cbn. rewrite existsb_app. cbn.
    by rewrite bool_decide_eq_true_2, orb_true_r by done.
  - cbn [push_canvas layers]. rewrite layers_table_ids. by apply text_NoDup.
  - cbn [push_canvas layers]. rewrite layers_table_ids, <- fmap_app, text_NoDup.
    unfold canvases_fit, all_layers. rewrite fmap_app, bind_app. cbn. rewrite app_nil_r.
    apply and_iff_compat_r. rewrite NoDup_app. split.
    + intros (_ & Hd & _) Hin. apply (Hd _ Hin). by left.
    + intros Hn. split_and!; [done| |apply NoDup_singleton]. by intros x Hx ->%list_elem_of_singleton.
Qed.

Lemma canvases_fit_app cat ds ds' : canvases_fit cat (ds ++ ds') → canvases_fit cat ds.
Proof.
  unfold canvases_fit, all_layers. rewrite !app_assoc, (fmap_app _ (_ ++ _)), (bind_app _ (_ ++ _)).
  intros [Hids%NoDup_app Hlay%NoDup_app]. tauto.
Qed.

Lemma add_canvases_app cat ds ds' :
  add_canvases ds' (add_canvases ds cat) = add_canvases (ds ++ ds') cat.
Proof. unfold add_canvases. cbn. by rewrite app_assoc. Qed.

Lemma insert_canvases_writes meta ds : ∀ cat,
  canvases_fit cat [] →
  writes (insert_canvases ds) (tables meta cat) (canvases_fit cat ds)
    (tables meta (add_canvases ds cat)).
Proof.
  induction ds as [|d ds IH]; intros cat Hcat; cbn [insert_canvases].
  - replace (add_canvases [] cat) with cat by (destruct cat; unfold add_canvases; cbn; by rewrite app_nil_r).
    by apply writes_ret.
  - eapply writes_seq; [by apply insert_canvas_tx_writes| |].
    + intros Hd. replace (add_canvases (d :: ds) cat) with (add_canvases ds (add_canvases [d] cat))
        by apply add_canvases_app.
      apply IH. unfold canvases_fit in *. cbn. by rewrite !app_nil_r.
    + assert (canvases_fit (add_canvases [d] cat) ds ↔ canvases_fit cat (d :: ds)) as ->.
      { unfold canvases_fit. cbn. by rewrite <- !app_assoc. }
      split; [|tauto]. intros Hd. split; [|done]. by apply (canvases_fit_app cat [d] ds).
Qed.
End spec.
