(* ===== verification/CatalogRefine.v ===== *)
(** * Publications refine the Catalog contract

    What a publication does to the abstract [Catalog] ([spec_publish_document]
    and the like), that the transactions of [Catalog.v] do exactly that under
    every plan of faults, and that the invariant of the Catalog is kept. *)

From S2P Require Import Prelude Float Kernel Sql Canvas CatalogKernel Catalog CatalogSpec.

Section refine.
Context `{CatalogKernelLaws}.
Context {KL : KernelLaws}.

Abbreviation C := (conn CatalogDb SqliteError).
Abbreviation Error := CatalogStoreError.

(** ** The contract *)

(** The graph of [c] can be added: all identities stay unique, and no two Pages
    share a Canvas. *)
Definition graph_fits (cat : Catalog) (c : DocumentComposition) : Prop :=
  canvases_fit cat (page_canvases c) ∧
  NoDup (page_ids (c_documents cat ++ [composition_document c])) ∧
  NoDup (overlay_canvas_id <$> document_pages (composition_document c)).
#[global] Instance graph_fits_dec cat c : Decision (graph_fits cat c).
Proof. apply _. Defined.

Definition add_composition (c : DocumentComposition) (cat : Catalog) : Catalog :=
  add_document (composition_document c) (add_canvases (page_canvases c) cat).

Definition spec_publish_document (c : DocumentComposition) (cat : Catalog)
    : result Error CatalogPublishOutcome * Catalog :=
  match find_document (document_document_id (composition_document c)) cat with
  | Some existing =>
      (found ← ok_or (corruption "published Document is missing its Canvas")
                 (stored_canvases (page_canvases c) cat);
       if decide (existing = composition_document c ∧ found = page_canvases c)
       then Ok Existing else Err Conflict, cat)
  | None =>
      if decide (Exists (canvas_collides cat) (page_canvases c)) then (Err Conflict, cat) else
      if decide (graph_fits cat c) then (Ok Inserted, add_composition c cat)
      else (Err constraint_violation, cat)
  end.

Definition spec_publish_standalone (d : CanvasDescriptor) (cat : Catalog)
    : result Error CatalogPublishOutcome * Catalog :=
  match find_canvas (canvas_canvas_id d) cat with
  | Some existing => (if decide (existing = d) then Ok Existing else Err Conflict, cat)
  | None =>
      if decide (Exists (λ l, l ∈ all_layers (c_canvases cat)) (canvas_layer_ids d))
      then (Err Conflict, cat) else (Ok Inserted, add_canvases [d] cat)
  end.

Definition spec_publish_with_binding (key : string) (d : CanvasDescriptor) (b : BootstrapBinding)
    (cat : Catalog) : result Error CatalogPublishOutcome * Catalog :=
  if decide (binding_canvas_id b = canvas_canvas_id d ∧ binding_session_id b = canvas_session_id d)
  then
    match find_binding key cat, find_canvas (canvas_canvas_id d) cat with
    | Some b', found =>
        (if decide (b' = b ∧ found = Some d) then Ok Existing else Err Conflict, cat)
    | None, Some existing =>
        if decide (existing = d) then (Ok Existing, add_binding key b cat) else (Err Conflict, cat)
    | None, None =>
        if decide (canvases_fit cat [d])
        then (Ok Inserted, add_binding key b (add_canvases [d] cat))
        else (Err constraint_violation, cat)
    end
  else (Err Conflict, cat).

Definition spec_store_binding (key : string) (b : BootstrapBinding) (cat : Catalog)
    : result Error () * Catalog :=
  match find_binding key cat with
  | Some b' => (if decide (b' = b) then Ok () else Err Conflict, cat)
  | None =>
      if decide (binding_canvas_id b ∈ canvas_canvas_id <$> c_canvases cat)
      then (Ok (), add_binding key b cat) else (Err constraint_violation, cat)
  end.

(** ** Pages and Documents *)

Lemma page_ids_table docs :
  pg_page_id <$> (docs ≫= page_rows) = to_text <$> page_ids docs.
Proof.
  unfold page_ids. induction docs as [|d docs IH]; [done|].
  rewrite !bind_cons, !fmap_app, IH. unfold page_rows. by rewrite <- !list_fmap_compose.
Qed.

(** The next Page of a Document clashes with no row. *)
Definition page_fresh (old : list PageRow) (done : list DocumentPageDescriptor)
    (p : DocumentPageDescriptor) : Prop :=
  (to_text (page_id p) ∉ (pg_page_id <$> old) ++ (to_text <$> (page_id <$> done))) ∧
  (overlay_canvas_id p ∉ overlay_canvas_id <$> done).

Lemma pages_clash_spec text old pre p :
  (∀ r, r ∈ old → pg_document_id r ≠ text) → (∀ q, q ∈ pre → page_index q < page_index p) →
  let clash := existsb (pages_clash (page_row text p)) (old ++ (page_row text <$> pre)) in
  (page_fresh old pre p ∧ clash = false) ∨ ((¬ page_fresh old pre p) ∧ clash = true).
Proof.
  intros Hold Hpre clash. destruct clash eqn:Hc; [right|left]; split; try done; subst clash.
  - apply existsb_exists in Hc as (r & Hr%list_elem_of_In & Hc). intros [Hid Hov].
    rewrite not_elem_of_app in Hid. destruct Hid as [Hid Hid'].
    apply elem_of_app in Hr as [Hr|(q & -> & Hq)%list_elem_of_fmap]; unfold pages_clash in Hc; cbn in Hc.
    + rewrite (bool_decide_eq_false_2 (pg_document_id r = text)), orb_false_r in Hc by auto.
      apply bool_decide_eq_true in Hc. apply Hid. rewrite <- Hc. by apply list_elem_of_fmap_2.
    + rewrite (bool_decide_eq_true_2 (text = text)) in Hc by done. cbn in Hc.
      apply orb_true_iff in Hc as [Hc%bool_decide_eq_true|[Hc%Z.eqb_eq|Hc%bool_decide_eq_true]%orb_true_iff].
      * apply Hid'. rewrite <- Hc. by do 2 apply list_elem_of_fmap_2.
      * specialize (Hpre q Hq). lia.
      * apply to_text_inj in Hc. apply Hov. rewrite <- Hc. by apply list_elem_of_fmap_2.
  - rewrite <- not_true_iff_false, existsb_exists in Hc.
    split; [rewrite not_elem_of_app; split|]; intros Hin; apply Hc.
    + apply list_elem_of_fmap in Hin as (r & Hid & Hr). exists r.
      rewrite <- list_elem_of_In, elem_of_app. split; [by left|]. unfold pages_clash. cbn.
      by rewrite bool_decide_eq_true_2 by congruence.
    + apply list_elem_of_fmap in Hin as (i & Hid & (q & -> & Hq)%list_elem_of_fmap).
      exists (page_row text q). rewrite <- list_elem_of_In, elem_of_app.
      split; [right; by apply list_elem_of_fmap_2|]. unfold pages_clash. cbn.
      by rewrite bool_decide_eq_true_2 by congruence.
    + apply list_elem_of_fmap in Hin as (q & Hov & Hq). exists (page_row text q).
      rewrite <- list_elem_of_In, elem_of_app. split; [right; by apply list_elem_of_fmap_2|].
      unfold pages_clash. cbn. rewrite Hov, !(bool_decide_eq_true_2 (text = text)), (bool_decide_eq_true_2 (to_text _ = to_text (overlay_canvas_id q))) by done.
      by rewrite !orb_true_r.
Qed.

(** All Pages of a Document can be inserted. *)
Definition pages_fit (old : list PageRow) (ps : list DocumentPageDescriptor) : Prop :=
  NoDup ((pg_page_id <$> old) ++ (to_text <$> (page_id <$> ps))) ∧
  NoDup (overlay_canvas_id <$> ps).

Lemma pages_fit_snoc old pre p :
  pages_fit old pre → page_fresh old pre p → pages_fit old (pre ++ [p]).
Proof.
  intros [Hid Hov] [Hid' Hov']. unfold pages_fit. rewrite !fmap_app, app_assoc. cbn.
  split; apply NoDup_app; (split_and!; [done| |apply NoDup_singleton]);
    intros x Hx ->%list_elem_of_singleton; done.
Qed.

Lemma pages_fit_fresh old pre p ps :
  pages_fit old (pre ++ p :: ps) → page_fresh old pre p.
Proof.
  unfold pages_fit. rewrite !fmap_app, app_assoc. cbn.
  intros [(_ & Hid & _)%NoDup_app (_ & Hov & _)%NoDup_app].
  split; intros Hin; [apply (Hid _ Hin)|apply (Hov _ Hin)]; by left.
Qed.

Lemma insert_pages_writes text old ps : ∀ pre db,
  document_pages_table db = old ++ (page_row text <$> pre) →
  (∀ r, r ∈ old → pg_document_id r ≠ text) → document_exists text db = true →
  (∀ p, p ∈ ps → canvas_exists (to_text (overlay_canvas_id p)) db = true) →
  StronglySorted (λ p q, page_index p < page_index q) (pre ++ ps) → pages_fit old pre →
  writes (insert_pages text ps) db (pages_fit old (pre ++ ps)) (push_pages (page_row text <$> ps) db).
Proof.
  induction ps as [|p ps IH]; intros pre db Hdb Hold Hdoc Hcv Hs Hfit; cbn [insert_pages].
  - unfold push_pages. cbn. rewrite !app_nil_r. by destruct db; apply writes_ret.
  - fold (page_row text p).
    eapply (writes_seq _ _ _ _ (page_fresh old pre p) _ (push_pages [page_row text p] db)).
    + apply writes_exec. unfold insert_page. destruct (geometry_positive (display_geometry p)) as [Hw Hh].
      cbn [page_row pg_width pg_height pg_document_id pg_overlay_canvas_id].
      rewrite !real_cell_positive, Hdoc, (Hcv p), Hdb by (done || by left).
      destruct (pages_clash_spec text old pre p Hold) as [[Hf ->]|[Hf ->]];
        [|left; unfold push_pages; by rewrite Hdb|by right].
      intros q Hq. apply StronglySorted_app in Hs as (Hs & _). apply Hs; [done|by left].
    + intros Hf. replace (push_pages (page_row text <$> p :: ps) db)
        with (push_pages (page_row text <$> ps) (push_pages [page_row text p] db))
        by (unfold push_pages; cbn; by rewrite <- app_assoc).
      apply (IH (pre ++ [p])); try done.
      * cbn. by rewrite Hdb, fmap_app, <- app_assoc.
      * intros q Hq. apply Hcv. by right.
      * by rewrite <- app_assoc.
      * by apply pages_fit_snoc.
    + rewrite <- app_assoc. cbn. split; [|tauto]. intros HP. split; [|done].
      by eapply pages_fit_fresh.
Qed.

Lemma document_pages_bounded d : Z.of_nat (length (document_pages d)) ≤ 2 ^ 32.
Proof.
  assert (∀ ps lo, lo ≤ 2 ^ 32 → StronglySorted (λ p q, page_index p < page_index q) ps →
    Forall (λ p, lo ≤ page_index p) ps → Z.of_nat (length ps) ≤ 2 ^ 32 - lo) as Hlen.
  { induction ps as [|p ps IH]; intros lo Hlo Hs Hp; [cbn; lia|].
    apply StronglySorted_cons in Hs as [Hps Hs]. apply Forall_cons in Hp as [Hp _].
    pose proof (page_index_u32 p).
    assert (Z.of_nat (length ps) ≤ 2 ^ 32 - (page_index p + 1)); [|cbn [length]; lia].
    apply IH; [lia|done|]. eapply Forall_impl; [exact Hps|]. cbn. lia. }
  rewrite <- (Z.sub_0_r (2 ^ 32)). apply Hlen; [lia|apply document_pages_sorted|].
  apply Forall_forall. intros p _. apply page_index_u32.
Qed.

Lemma document_page_count d : i64_of_len "Document page count exceeds SQLite capacity"
  (document_pages d) = Ok (Z.of_nat (length (document_pages d))).
Proof.
  unfold i64_of_len, i64_of_u64. rewrite (proj2 (Z.ltb_ge _ _)); [done|].
  pose proof (document_pages_bounded d). unfold i64_max. lia.
Qed.

Lemma max_sequence_snoc rows r :
  max_sequence (rows ++ [r]) =
  match rows with [] => doc_publication_sequence r
  | _ => Z.max (max_sequence rows) (doc_publication_sequence r) end.
Proof.
  destruct rows as [|r0 rows]; [done|]. cbn. by rewrite fmap_app, fold_left_app.
Qed.

Lemma max_sequence_rows docs : max_sequence (imap document_row docs) = Z.of_nat (length docs) - 1.
Proof.
  induction docs as [|d docs IH] using rev_ind; [done|].
  rewrite imap_app, length_app. cbn [imap length]. rewrite max_sequence_snoc, IH. cbn.
  destruct docs as [|d0 docs]; [done|]. cbn [length]. cbn. lia.
Qed.

Lemma select_next_sequence_tables meta cat :
  select_next_sequence (tables meta cat) =
  if Z.of_nat (length (c_documents cat)) <=? i64_max
  then Some (Z.of_nat (length (c_documents cat))) else None.
Proof.
  unfold select_next_sequence. cbn [tables documents]. rewrite max_sequence_rows.
  by replace (Z.of_nat _ - 1 + 1) with (Z.of_nat (length (c_documents cat))) by lia.
Qed.

Lemma no_deferred_violation meta cat : check_deferred (tables meta cat) = None.
Proof.
  unfold check_deferred. replace (deferred_violation _) with false; [done|]. symmetry.
  apply not_true_iff_false. unfold deferred_violation. rewrite existsb_exists.
  intros (r & (c & -> & Hc)%list_elem_of_In%list_elem_of_fmap & Hv).
  unfold default_layer_missing in Hv. apply negb_true_iff in Hv.
  unfold layer_of_canvas_exists in Hv. apply not_true_iff_false in Hv. apply Hv, existsb_exists.
  exists (layer_row (to_text (canvas_canvas_id c)) (canvas_default_layer_id c)). split.
  - apply list_elem_of_In, list_elem_of_bind. exists c.
    split; [apply list_elem_of_fmap_2, canvas_default_layer_in|done].
  - cbn. by rewrite !bool_decide_eq_true_2.
Qed.

Lemma insert_document_writes meta cat d :
  document_document_id d ∉ document_document_id <$> c_documents cat →
  writes (sql_exec map_sqlite (insert_document (document_row (length (c_documents cat)) d)))
    (tables meta cat) True (push_document (document_row (length (c_documents cat)) d) (tables meta cat)).
Proof.
  intros Hfresh. apply writes_exec. left. split; [done|]. unfold insert_document.
  replace (existsb _ _) with false; [done|]. symmetry. apply not_true_iff_false.
  rewrite existsb_exists. intros (r & Hr%list_elem_of_In & Hc). cbn in Hr, Hc.
  apply list_elem_of_lookup in Hr as (i & (d' & Hd' & ->)%list_lookup_imap_Some). cbn in Hc.
  apply orb_true_iff in Hc as [Hc%bool_decide_eq_true%to_text_inj|Hc%Z.eqb_eq].
  - apply Hfresh. rewrite <- Hc. apply list_elem_of_fmap_2. by eapply list_elem_of_lookup_2.
  - apply lookup_lt_Some in Hd'. lia.
Qed.

Lemma tables_add_document meta cat d :
  tables meta (add_document d cat) =
  push_pages (page_rows d) (push_document (document_row (length (c_documents cat)) d) (tables meta cat)).
Proof.
  unfold tables, push_pages, push_document. cbn. rewrite imap_app, bind_app. cbn.
  by rewrite app_nil_r, Nat.add_0_r.
Qed.

(** ** Refinement *)

(** The connection holds [cat'] and no transaction is open. *)
Definition holds (meta : gmap string string) (c : C) (cat : Catalog) : Prop :=
  committed c = tables meta cat ∧ working c = None.

(** The answer and the change of the contract, or an error of SQLite that
    [reason] explains and no change. *)
Definition catalog_follows {A} (meta : gmap string string) (cat : Catalog)
    (spec : result Error A * Catalog) (reason : Prop) (r : result Error A) (c : C) : Prop :=
  (r = spec.1 ∧ holds meta c spec.2) ∨
  (reason ∧ (∃ e, r = Err (Backend e)) ∧ holds meta c cat).

Lemma catalog_follows_answer {A} meta cat (spec : result Error A * Catalog) reason r c :
  r = spec.1 → committed c = tables meta spec.2 → working c = None →
  catalog_follows meta cat spec reason r c.
Proof. intros. by left. Qed.

Lemma catalog_follows_fault {A} meta cat (spec : result Error A * Catalog) (reason : Prop) e w p :
  reason → catalog_follows meta cat spec reason (Err (Backend e))
             (drop_transaction (mkConn (tables meta cat) w p)).
Proof. intros. right. split_and!; [done|by exists e|done]. Qed.

(** Committing the rows of [cat'] and answering [a]. *)
Lemma commit_wp {A} meta cat cat' (a : A) spec (reason : Prop) p :
  spec = (Ok a, cat') → (faulty p → reason) →
  sql_wp (commit;; mret a) (λ r c, catalog_follows meta cat spec reason r (drop_transaction c))
    (mkConn (tables meta cat) (Some (tables meta cat')) p).
Proof.
  intros -> Hp. sql_step. unfold commit. sql_step; [apply catalog_follows_fault; auto|]. cbn.
  rewrite no_deferred_violation. sql_step. by apply catalog_follows_answer.
Qed.

Lemma commit_unit_wp meta cat cat' spec (reason : Prop) p :
  spec = (Ok (), cat') → (faulty p → reason) →
  sql_wp commit (λ r c, catalog_follows meta cat spec reason r (drop_transaction c))
    (mkConn (tables meta cat) (Some (tables meta cat')) p).
Proof.
  intros -> Hp. unfold commit. sql_step; [apply catalog_follows_fault; auto|]. cbn.
  rewrite no_deferred_violation. by apply catalog_follows_answer.
Qed.

(** A constraint that the contract foresees. *)
Lemma follows_constraint {A} meta cat (spec : result Error A * Catalog) reason w p :
  spec = (Err constraint_violation, cat) →
  catalog_follows meta cat spec reason (Err constraint_violation)
    (drop_transaction (mkConn (tables meta cat) w p)).
Proof. intros ->. by apply catalog_follows_answer. Qed.

(** Discharges the failing calls of a transaction. *)
Ltac tx_fault := intros; apply catalog_follows_fault; tauto.

Lemma catalog_ok_fit cat : catalog_ok cat → canvases_fit cat [].
Proof. intros Hok. unfold canvases_fit. rewrite app_nil_r. split; apply Hok. Qed.

Lemma pages_fit_graph cat d :
  catalog_ok cat →
  pages_fit (c_documents cat ≫= page_rows) (document_pages d) ↔
  NoDup (page_ids (c_documents cat ++ [d])) ∧ NoDup (overlay_canvas_id <$> document_pages d).
Proof.
  intros Hok. unfold pages_fit. rewrite page_ids_table, <- fmap_app, text_NoDup.
  unfold page_ids. rewrite bind_app. cbn. by rewrite app_nil_r.
Qed.

(** The pages of a composition lie over Canvases that have been inserted. *)
Lemma composition_canvas_exists meta cat c p :
  p ∈ document_pages (composition_document c) →
  canvas_exists (to_text (overlay_canvas_id p)) (tables meta (add_canvases (page_canvases c) cat)) = true.
Proof.
  intros (canvas & Hin & Hid & _)%composition_coherent. rewrite canvas_exists_tables.
  apply bool_decide_eq_true. rewrite <- Hid. cbn. rewrite fmap_app. apply elem_of_app. right.
  by apply list_elem_of_fmap_2.
Qed.

(** Inserting the Pages into the rows of a catalog with the Document row. *)
Lemma insert_composition_pages_writes meta cat c :
  let cat1 := add_canvases (page_canvases c) cat in
  let d := composition_document c in
  catalog_ok cat → document_document_id d ∉ document_document_id <$> c_documents cat →
  writes (insert_pages (to_text (document_document_id d)) (document_pages d))
    (push_document (document_row (length (c_documents cat)) d) (tables meta cat1))
    (NoDup (page_ids (c_documents cat ++ [d])) ∧ NoDup (overlay_canvas_id <$> document_pages d))
    (tables meta (add_document d cat1)).
Proof.
  intros cat1 d Hok Hfresh. rewrite tables_add_document.
  assert (writes (insert_pages (to_text (document_document_id d)) (document_pages d))
    (push_document (document_row (length (c_documents cat)) d) (tables meta cat1))
    (pages_fit (c_documents cat ≫= page_rows) ([] ++ document_pages d))
    (push_pages (page_rows d) (push_document (document_row (length (c_documents cat)) d) (tables meta cat1))))
    as Hw; [|intros Q base p He Hk Hc; apply Hw; [done|..]; cbn; rewrite pages_fit_graph by done; done].
  apply insert_pages_writes.
  - cbn. by rewrite app_nil_r.
  - intros r (d' & (q & -> & _)%list_elem_of_fmap & Hd')%list_elem_of_bind Heq. cbn in Heq.
    apply to_text_inj in Heq. apply Hfresh. rewrite <- Heq. by apply list_elem_of_fmap_2.
  - unfold document_exists. cbn. rewrite existsb_app. cbn. by rewrite bool_decide_eq_true_2, orb_true_r.
  - intros p Hp. exact (composition_canvas_exists meta cat c p Hp).
  - apply document_pages_sorted.
  - unfold pages_fit. cbn. rewrite app_nil_r, page_ids_table, text_NoDup.
    split; [apply Hok|apply NoDup_nil_2].
Qed.

Lemma publish_document_wp meta cat c p :
  catalog_ok cat →
  sql_wp (publish_document c)
    (catalog_follows meta cat (spec_publish_document c cat)
       (faulty p ∨ i64_max < Z.of_nat (length (c_documents cat))))
    (mkConn (tables meta cat) None p).
Proof.
  intros Hok. unfold publish_document. sql_step; [apply (catalog_follows_fault _ _ _ _ _ None); auto|].
  sql_step. apply (load_document_reads meta cat); [done|done|tx_fault|]. intros p1 Hp1.
  unfold spec_publish_document. set (d := composition_document c).
  destruct (find_document (document_document_id d) cat) as [existing|] eqn:Hf.
  - sql_step. apply (same_canvases_reads meta cat _ Hok); [done|tx_fault|]. intros p2 Hp2.
    destruct (stored_canvases _ cat) as [found|]; cbn; [|by apply catalog_follows_answer].
    rewrite <- bool_decide_and. case_bool_decide as Hs.
    + rewrite decide_True by done. apply (commit_wp _ _ cat); [done|tauto].
    + rewrite decide_False by done. sql_step. by apply catalog_follows_answer.
  - sql_step. apply (document_ids_collide_reads meta cat _ Hf); [done|tx_fault|]. intros p2 Hp2.
    case_bool_decide as Hc; [rewrite decide_True by done; sql_step; by apply catalog_follows_answer|].
    rewrite decide_False by done.
    sql_step; sql_step; [tx_fault|]. cbn [from_option Datatypes.id]. rewrite select_next_sequence_tables.
    destruct (Z.leb_spec (Z.of_nat (length (c_documents cat))) i64_max); cbn [ok_or];
      [|sql_step; sql_step; apply catalog_follows_fault; auto].
    sql_step; sql_step. sql_step. apply insert_canvases_writes; [by apply catalog_ok_fit|tx_fault| |].
    2:{ intros Hnf p4 db. unfold graph_fits. rewrite decide_False by tauto. by apply follows_constraint. }
    intros Hcf p4 Hp4. sql_step; sql_step. rewrite document_page_count. fold d.
    apply (find_key_None document_document_id) in Hf.
    sql_step. apply (insert_document_writes meta (add_canvases (page_canvases c) cat) d Hf); [tx_fault| |done].
    intros _ p5 Hp5. sql_step.
    apply (insert_composition_pages_writes meta cat c Hok Hf); [tx_fault| |]; fold d.
    + intros Hpf p6 Hp6. apply (commit_wp _ _ (add_composition c cat)); [|tauto].
      rewrite decide_True; [done|]. by split.
    + intros Hpf p6 db. unfold graph_fits. fold d. rewrite decide_False by tauto. by apply follows_constraint.
Qed.

(** A Canvas whose identity and Layers are new fits. *)
Lemma canvas_fits cat d :
  catalog_ok cat → find_canvas (canvas_canvas_id d) cat = None →
  ¬ Exists (λ l, l ∈ all_layers (c_canvases cat)) (canvas_layer_ids d) → canvases_fit cat [d].
Proof.
  intros Hok Hf%(find_key_None canvas_canvas_id) Hl. unfold canvases_fit, all_layers.
  rewrite fmap_app, bind_app. cbn. rewrite app_nil_r. split; apply NoDup_app; split_and!; try apply Hok.
  - by intros x Hx ->%list_elem_of_singleton.
  - apply NoDup_singleton.
  - intros x Hx Hd. apply Hl, Exists_exists. by exists x.
  - apply canvas_layers_nodup.
Qed.

Lemma publish_standalone_wp meta cat d p :
  catalog_ok cat →
  sql_wp (publish_standalone d)
    (catalog_follows meta cat (spec_publish_standalone d cat) (faulty p))
    (mkConn (tables meta cat) None p).
Proof.
  intros Hok. unfold publish_standalone, spec_publish_standalone.
  sql_step; [apply (catalog_follows_fault _ _ _ _ _ None); auto|].
  sql_step. apply (load_canvas_reads meta cat); [done|done|tx_fault|]. intros p1 Hp1.
  destruct (find_canvas _ cat) as [existing|] eqn:Hf.
  - case_decide; [apply (commit_wp _ _ cat); [done|tauto]|sql_step; by apply catalog_follows_answer].
  - sql_step. apply (any_layer_exists_reads meta cat); [done|tx_fault|]. intros p2 Hp2.
    case_bool_decide as Hc; [rewrite decide_True by done; sql_step; by apply catalog_follows_answer|].
    rewrite decide_False by done. sql_step.
    apply insert_canvas_tx_writes; [by apply catalog_ok_fit|tx_fault| |].
    + intros _ p3 Hp3. apply (commit_wp _ _ (add_canvases [d] cat)); [done|tauto].
    + intros Hn. by destruct Hn; apply canvas_fits.
Qed.

Lemma insert_binding_writes meta cat key b :
  find_binding key cat = None →
  writes (sql_exec map_sqlite (insert_binding (binding_row key b))) (tables meta cat)
    (binding_canvas_id b ∈ canvas_canvas_id <$> c_canvases cat) (tables meta (add_binding key b cat)).
Proof.
  intros Hf. apply writes_exec. unfold insert_binding. rewrite existsb_key.
  cbn [binding_row bd_binding_key bd_canvas_id]. rewrite canvas_exists_tables.
  rewrite (bool_decide_eq_false_2 (key ∈ _)).
  - case_bool_decide; [left|by right]. split; [done|].
    unfold add_binding, tables. cbn [c_documents c_canvases c_bindings]. by rewrite fmap_app.
  - cbn. rewrite <- list_fmap_compose. unfold find_binding in Hf. apply fmap_None in Hf.
    by apply (find_key_None fst) in Hf.
Qed.

Lemma same_binding_row key b b' : same_binding (binding_row key b) b' = bool_decide (b = b').
Proof.
  unfold same_binding. cbn. rewrite !text_eqb, <- bool_decide_and. apply bool_decide_ext.
  destruct b, b'; cbn. split; [by intros [-> ->]|by intros [= -> ->]].
Qed.

Lemma store_binding_wp meta cat key b p :
  sql_wp (store_binding key b)
    (catalog_follows meta cat (spec_store_binding key b cat) (faulty p))
    (mkConn (tables meta cat) None p).
Proof.
  unfold store_binding, spec_store_binding.
  sql_step; [apply (catalog_follows_fault _ _ _ _ _ None); auto|].
  sql_step; sql_step; [tx_fault|]. cbn [from_option Datatypes.id]. rewrite select_binding_tables.
  destruct (find_binding key cat) as [b'|] eqn:Hf; cbn [fmap option_fmap option_map].
  - rewrite same_binding_row. case_bool_decide; cbn [negb].
    + rewrite decide_True by done. apply (commit_unit_wp _ _ cat); [done|tauto].
    + rewrite decide_False by done. sql_step. by apply catalog_follows_answer.
  - sql_step. apply insert_binding_writes; [done|tx_fault| |].
    + intros Hin p2 Hp2. rewrite decide_True by done.
      apply (commit_unit_wp _ _ (add_binding key b cat)); [done|tauto].
    + intros Hin p2 db. rewrite decide_False by done. by apply follows_constraint.
Qed.

Lemma bound_canvas_found cat key b :
  catalog_ok cat → find_binding key cat = Some b → is_Some (find_canvas (binding_canvas_id b) cat).
Proof.
  intros Hok Hf. unfold find_binding in Hf. apply fmap_Some in Hf as ([k b'] & Hf & ->).
  apply (find_key_Some fst) in Hf as [Hin _].
  apply (ok_binding_canvas _ Hok) in Hin. cbn. destruct (find_canvas _ cat) eqn:Hc; [done|].
  by apply (find_key_None canvas_canvas_id) in Hc.
Qed.

Lemma publish_with_binding_wp meta cat key d b p :
  catalog_ok cat →
  sql_wp (publish_standalone_with_binding key d b)
    (catalog_follows meta cat (spec_publish_with_binding key d b cat) (faulty p))
    (mkConn (tables meta cat) None p).
Proof.
  intros Hok. unfold publish_standalone_with_binding, spec_publish_with_binding.
  rewrite <- negb_andb, <- bool_decide_and.
  case_bool_decide as Hb; cbn [negb]; [|rewrite decide_False by done; sql_step; by apply catalog_follows_answer].
  rewrite decide_True by done. sql_step; [apply (catalog_follows_fault _ _ _ _ _ None); auto|].
  sql_step; sql_step; [tx_fault|]. cbn [from_option Datatypes.id]. rewrite select_binding_tables.
  destruct (find_binding key cat) as [b'|] eqn:Hf; cbn [fmap option_fmap option_map].
  - rewrite same_binding_row. case_bool_decide as Hb'; cbn [negb];
      [|rewrite decide_False by tauto; sql_step; by apply catalog_follows_answer].
    subst b'. destruct (bound_canvas_found _ _ _ Hok Hf) as [c Hc]. destruct Hb as [<- Hs].
    sql_step. apply (load_canvas_reads meta cat); [done|done|tx_fault|]. intros p2 Hp2. rewrite Hc.
    sql_step; sql_step. cbn [ok_or]. case_bool_decide as Hcd; cbn [negb].
    + rewrite decide_True by (split; congruence). apply (commit_wp _ _ cat); [done|tauto].
    + rewrite decide_False by (intros [_ ?]; congruence). sql_step. by apply catalog_follows_answer.
  - sql_step. apply (load_canvas_reads meta cat); [done|done|tx_fault|]. intros p2 Hp2.
    destruct (find_canvas (canvas_canvas_id d) cat) as [existing|] eqn:Hc.
    + case_bool_decide as He; cbn [negb]; [|rewrite decide_False by done; sql_step; sql_step; by apply catalog_follows_answer].
      rewrite decide_True by done. sql_step; sql_step. sql_step.
      apply find_canvas_Some in Hc as [Hin Hid].
      apply insert_binding_writes; [done|tx_fault| |].
      * intros _ p3 Hp3. apply (commit_wp _ _ (add_binding key b cat)); [done|tauto].
      * intros Hn. destruct Hn. destruct Hb as [-> _]. rewrite <- Hid. by apply list_elem_of_fmap_2.
    + sql_step. sql_step. apply insert_canvas_tx_writes; [by apply catalog_ok_fit|tx_fault| |].
      2:{ intros Hn p3 db. rewrite decide_False by done. by apply follows_constraint. }
      intros Hfit p3 Hp3. rewrite decide_True by done. sql_step. sql_step.
      apply insert_binding_writes; [done|tx_fault| |].
      * intros _ p4 Hp4. apply (commit_wp _ _ (add_binding key b (add_canvases [d] cat))); [done|tauto].
      * intros Hn. destruct Hn. destruct Hb as [-> _]. cbn. rewrite fmap_app. apply elem_of_app. right. by left.
Qed.

(** ** The invariant *)

Lemma add_canvases_ok cat ds : catalog_ok cat → canvases_fit cat ds → catalog_ok (add_canvases ds cat).
Proof.
  intros Hok [Hids Hlay]. split; try apply Hok; try done.
  - intros d p Hd Hp. destruct (ok_pages _ Hok d p Hd Hp) as (c & Hc & Ho). exists c.
    split; [apply elem_of_app; by left|done].
  - intros key b Hb%(ok_binding_canvas _ Hok). cbn. rewrite fmap_app. apply elem_of_app. by left.
Qed.

Lemma add_binding_ok cat key b :
  catalog_ok cat → find_binding key cat = None →
  binding_canvas_id b ∈ canvas_canvas_id <$> c_canvases cat → catalog_ok (add_binding key b cat).
Proof.
  intros Hok Hf Hin. split; try apply Hok.
  - cbn. rewrite fmap_app. apply NoDup_app. split_and!; [apply Hok| |apply NoDup_singleton].
    intros x Hx ->%list_elem_of_singleton. unfold find_binding in Hf. apply fmap_None in Hf.
    by apply (find_key_None fst) in Hf.
  - intros key' b' [Hb|Hb%list_elem_of_singleton]%elem_of_app; [by apply (ok_binding_canvas _ Hok key')|].
    by injection Hb as -> ->.
Qed.

Lemma add_composition_ok cat c :
  catalog_ok cat → find_document (document_document_id (composition_document c)) cat = None →
  graph_fits cat c → catalog_ok (add_composition c cat).
Proof.
  intros Hok Hf%(find_key_None document_document_id) (Hcf & Hp & _).
  pose proof (add_canvases_ok _ _ Hok Hcf) as Hok'. split; try apply Hok'; [| |].
  - cbn. rewrite fmap_app. apply NoDup_app. split_and!; [apply Hok| |apply NoDup_singleton].
    by intros x Hx ->%list_elem_of_singleton.
  - done.
  - intros d p [Hd|Hd%list_elem_of_singleton]%elem_of_app Hpd; [by apply (ok_pages _ Hok' d p)|]. subst d.
    destruct (composition_coherent _ _ Hpd) as (canvas & Hin & Ho). exists canvas.
    split; [apply elem_of_app; by right|done].
Qed.

Lemma spec_publish_document_ok c cat : catalog_ok cat → catalog_ok (spec_publish_document c cat).2.
Proof.
  intros Hok. unfold spec_publish_document. destruct (find_document _ cat) eqn:Hf; [done|].
  repeat case_decide; try done. by apply add_composition_ok.
Qed.

Lemma spec_publish_standalone_ok d cat : catalog_ok cat → catalog_ok (spec_publish_standalone d cat).2.
Proof.
  intros Hok. unfold spec_publish_standalone. destruct (find_canvas _ cat) eqn:Hf; [done|].
  case_decide; [done|]. by apply add_canvases_ok, canvas_fits.
Qed.

Lemma spec_store_binding_ok key b cat : catalog_ok cat → catalog_ok (spec_store_binding key b cat).2.
Proof.
  intros Hok. unfold spec_store_binding. destruct (find_binding key cat) eqn:Hf; [done|].
  case_decide; [|done]. by apply add_binding_ok.
Qed.

Lemma spec_publish_with_binding_ok key d b cat :
  catalog_ok cat → catalog_ok (spec_publish_with_binding key d b cat).2.
Proof.
  intros Hok. unfold spec_publish_with_binding. case_decide as Hb; [|done]. destruct Hb as [Hid _].
  destruct (find_binding key cat) eqn:Hf; [done|].
  destruct (find_canvas _ cat) as [e|] eqn:Hc; case_decide as He; try done.
  - apply find_canvas_Some in Hc as [Hin Hid']. apply add_binding_ok; [done|done|].
    rewrite Hid, <- Hid'. by apply list_elem_of_fmap_2.
  - apply add_binding_ok; [by apply add_canvases_ok|done|]. rewrite Hid. cbn. rewrite fmap_app.
    apply elem_of_app. right. by left.
Qed.

(** ** The fault plan is only consumed *)

Lemma commit_consumes : consumes commit.
Proof. apply consumes_commit. Qed.
#[local] Hint Resolve commit_consumes : consumes.
Lemma collect_pages_consumes rows : ∀ acc, consumes (collect_pages rows acc).
Proof. induction rows as [|r rows IH]; intros acc; cbn [collect_pages]; solve_consumes. Qed.
Lemma collect_layers_consumes rows : ∀ acc, consumes (collect_layers rows acc).
Proof. induction rows as [|r rows IH]; intros acc; cbn [collect_layers]; solve_consumes. Qed.
#[local] Hint Resolve collect_pages_consumes collect_layers_consumes : consumes.
Lemma load_document_consumes id : consumes (load_document id).
Proof. unfold load_document, load_pages. solve_consumes. Qed.
Lemma load_canvas_consumes id : consumes (load_canvas id).
Proof. unfold load_canvas. solve_consumes. Qed.
#[local] Hint Resolve load_document_consumes load_canvas_consumes : consumes.
Lemma same_canvases_consumes ds : ∀ b, consumes (same_canvases ds b).
Proof. induction ds as [|d ds IH]; intros b; cbn [same_canvases]; solve_consumes. Qed.
Lemma any_layer_exists_consumes ids : consumes (any_layer_exists ids).
Proof. induction ids as [|i ids IH]; cbn [any_layer_exists]; solve_consumes. Qed.
#[local] Hint Resolve any_layer_exists_consumes : consumes.
Lemma any_canvas_collides_consumes ds : consumes (any_canvas_collides ds).
Proof. induction ds as [|d ds IH]; cbn [any_canvas_collides]; solve_consumes. Qed.
Lemma insert_layers_consumes t ids : consumes (insert_layers t ids).
Proof. induction ids as [|i ids IH]; cbn [insert_layers]; solve_consumes. Qed.
#[local] Hint Resolve insert_layers_consumes : consumes.
Lemma insert_canvases_consumes ds : consumes (insert_canvases ds).
Proof. induction ds as [|d ds IH]; cbn [insert_canvases]; unfold insert_canvas_tx; solve_consumes. Qed.
Lemma insert_pages_consumes t ps : consumes (insert_pages t ps).
Proof. induction ps as [|p ps IH]; cbn [insert_pages]; solve_consumes. Qed.
#[local] Hint Resolve same_canvases_consumes any_canvas_collides_consumes insert_canvases_consumes
  insert_pages_consumes : consumes.
Lemma publish_document_consumes c : consumes (publish_document c).
Proof. unfold publish_document, document_ids_collide. solve_consumes. Qed.

(** ** The properties *)

Lemma reads_answer {A} (m : sql CatalogDb SqliteError Error A) db a : reads m db a → answer_on m db = a.
Proof.
  intros Hm. apply (Hm (λ r _, r = a) db None []); [done| |done].
  intros e p' []%not_faulty_nil.
Qed.

(** C3. Publishing a Document refines the contract: from the rows of a
    well-formed catalog, and whatever calls into SQLite fail, the whole
    Document, Page, Canvas and Layer graph is added when no identity of it is in
    use, an identical graph is reported as existing, anything else is refused,
    and nothing changes unless the graph was added; the catalog stays
    well-formed.  Only a failing call, or [2^63] Documents, give another
    answer, which is a backend error. *)
Theorem publish_document_refines meta cat c p :
  catalog_ok cat →
  let '(r, conn) := publish_document c (mkConn (tables meta cat) None p) in
  catalog_follows meta cat (spec_publish_document c cat)
    (faulty p ∨ i64_max < Z.of_nat (length (c_documents cat))) r conn ∧
  ∃ cat', holds meta conn cat' ∧ catalog_ok cat'.
Proof.
  intros Hok. pose proof (publish_document_wp meta cat c p Hok) as Hw. unfold sql_wp in Hw.
  destruct (publish_document c _) as [r conn]. split; [done|]. cbn in Hw.
  destruct Hw as [[_ Hh]|(_ & _ & Hh)]; [|by exists cat].
  eexists. split; [exact Hh|by apply spec_publish_document_ok].
Qed.

(** The graph of [c] is stored in [cat]. *)
Definition stores_graph (cat : Catalog) (c : DocumentComposition) : Prop :=
  find_document (document_document_id (composition_document c)) cat = Some (composition_document c) ∧
  stored_canvases (page_canvases c) cat = Some (page_canvases c).

Lemma find_key_app_l {A K} `{EqDecision K} (key : A → K) k l l' x :
  List.find (λ y, bool_decide (key y = k)) l = Some x →
  List.find (λ y, bool_decide (key y = k)) (l ++ l') = Some x.
Proof. induction l as [|y l IH]; [done|]. cbn. by case_bool_decide. Qed.

Lemma stored_canvases_all cat ds :
  catalog_ok cat → (∀ d, d ∈ ds → d ∈ c_canvases cat) → stored_canvases ds cat = Some ds.
Proof.
  intros Hok. unfold stored_canvases. induction ds as [|d ds IH]; intros Hds; [done|]. cbn.
  rewrite find_canvas_in by (done || apply Hds; by left). cbn. rewrite IH; [done|].
  intros d' Hd'. apply Hds. by right.
Qed.

Lemma add_composition_stores cat c :
  catalog_ok (add_composition c cat) → stores_graph (add_composition c cat) c.
Proof.
  intros Hok. split.
  - apply find_document_in; [done|]. cbn. apply elem_of_app. right. by left.
  - apply stored_canvases_all; [done|]. intros d Hd. cbn. apply elem_of_app. by right.
Qed.

Lemma published_stores_graph c cat o :
  catalog_ok cat → (spec_publish_document c cat).1 = Ok o →
  stores_graph (spec_publish_document c cat).2 c.
Proof.
  intros Hok Ho. pose proof (spec_publish_document_ok c cat Hok) as Hok'. revert Ho Hok'.
  unfold spec_publish_document. destruct (find_document _ cat) as [existing|] eqn:Hf.
  - cbn. destruct (stored_canvases _ cat) as [found|] eqn:Hs; [|done]. cbn.
    case_decide as Hd; [|done]. destruct Hd as [-> ->]. by split.
  - repeat case_decide; try done. intros _ Hok'. by apply add_composition_stores.
Qed.

Lemma stores_graph_republish cat c :
  stores_graph cat c → spec_publish_document c cat = (Ok Existing, cat).
Proof.
  intros [Hd Hc]. unfold spec_publish_document. rewrite Hd, Hc. cbn. by rewrite decide_True.
Qed.

(** Without faults, a stored graph is answered and the connection unchanged. *)
Lemma republish_existing meta cat c :
  catalog_ok cat → stores_graph cat c → Z.of_nat (length (c_documents cat)) ≤ i64_max →
  publish_document c (mkConn (tables meta cat) None []) = (Ok Existing, mkConn (tables meta cat) None []).
Proof.
  intros Hok Hst Hlen. pose proof (publish_document_wp meta cat c [] Hok) as Hw. unfold sql_wp in Hw.
  pose proof (publish_document_consumes c (mkConn (tables meta cat) None [])) as Hs.
  destruct (publish_document c _) as [r [d w q]]. cbn in Hw, Hs. apply suffix_nil_inv in Hs as ->.
  rewrite stores_graph_republish in Hw by done.
  destruct Hw as [[-> [Hd Hn]]|([[]%not_faulty_nil|] & _)]; [|lia]. cbn in *. by subst.
Qed.

Lemma stored_canvases_find ds : ∀ cat fs, stored_canvases ds cat = Some fs → fs = ds →
  ∀ d, d ∈ ds → find_canvas (canvas_canvas_id d) cat = Some d.
Proof.
  intros cat fs Hs -> d Hd. unfold stored_canvases in Hs. apply mapM_Some in Hs.
  apply list_elem_of_lookup in Hd as [i Hi].
  destruct (Forall2_lookup_lr _ _ _ _ _ _ Hs Hi Hi). done.
Qed.

(** What was published is served, and publishing is idempotent: after a
    publication that answered success, under any plan of faults, the Document,
    its place at the end of the publication order when it is new, and each of
    its Canvases are read back exactly, and publishing the same graph again
    answers [Existing] and changes nothing. *)
Theorem published_graph_is_served meta cat c p o conn :
  catalog_ok cat → publish_document c (mkConn (tables meta cat) None p) = (Ok o, conn) →
  let db := committed conn in
  answer_on (load_document (document_document_id (composition_document c))) db =
    Ok (Some (composition_document c)) ∧
  (∀ d, d ∈ page_canvases c → answer_on (load_canvas (canvas_canvas_id d)) db = Ok (Some d)) ∧
  (o = Inserted → answer_on list_all_documents db = Ok (c_documents cat ++ [composition_document c])) ∧
  (Z.of_nat (length (c_documents cat)) < i64_max →
   publish_document c (mkConn db None []) = (Ok Existing, mkConn db None [])).
Proof.
  intros Hok Hp. pose proof (publish_document_wp meta cat c p Hok) as Hw. unfold sql_wp in Hw.
  rewrite Hp in Hw. cbn in Hw. destruct Hw as [[Hr [Hdb Hn]]|(_ & [e He] & _)]; [|done].
  pose proof (spec_publish_document_ok c cat Hok) as Hok'.
  pose proof (published_stores_graph c cat o Hok (eq_sym Hr)) as Hst.
  cbn zeta. rewrite Hdb. destruct Hst as [Hd Hc]. split_and!.
  - rewrite <- Hd. by apply reads_answer, load_document_reads.
  - intros d Hin. rewrite <- (stored_canvases_find _ _ _ Hc eq_refl d Hin).
    by apply reads_answer, load_canvas_reads.
  - intros ->. rewrite (reads_answer _ _ _ (list_all_documents_reads meta _ Hok')).
    revert Hr. unfold spec_publish_document. destruct (find_document _ cat); cbn.
    + destruct (stored_canvases _ cat); cbn; [|done]. by case_decide.
    + repeat case_decide; done.
  - intros Hlen. apply (republish_existing meta (spec_publish_document c cat).2 c); [done|by split|].
    revert Hr. unfold spec_publish_document. destruct (find_document _ cat); cbn; [lia|].
    repeat case_decide; cbn; try lia. rewrite length_app. cbn. lia.
Qed.
End refine.

(** ** A concrete catalog *)

Module CatalogSample.
Import CatalogDemo.
#[export] Existing Instances Demo.demo_kernel Demo.demo_laws Demo.text_identifier.

Definition sample_size : checked size_ok := mkChecked (f := size_ok) (f64_of_Z 10, f64_of_Z 20) I.
(** Two Layers on one Canvas. *)
Definition sample_canvas : CanvasDescriptor :=
  mkChecked (f := canvas_ok) (mkRawCanvas "canvas" "session" sample_size {["l1"; "l2"]} "l1") I.
Definition sample_document : DocumentDescriptor :=
  mkChecked (f := document_ok) (mkRawDocument "document" "session" Pdf "asset" "Title"
    [DocumentPageDescriptor_new "page" 0 (sample_size, Deg90) "canvas"]) I.
Definition sample_composition : DocumentComposition :=
  mkChecked (f := composition_ok) (sample_document, [sample_canvas]) I.


(** Witness of C3. *)
Lemma publish_document_refines_witness :
  let '(r, conn) := publish_document sample_composition (mkConn (tables ∅ empty_catalog) None []) in
  catalog_follows ∅ empty_catalog (spec_publish_document sample_composition empty_catalog)
    (faulty (F := SqliteError) [] ∨ i64_max < Z.of_nat (length (c_documents empty_catalog))) r conn ∧
  ∃ cat', holds ∅ conn cat' ∧ catalog_ok cat'.
Proof. apply publish_document_refines, empty_catalog_ok. Defined.

(** An instance. *)
Lemma published_graph_is_served_witness :
  let conn := (publish_document sample_composition (mkConn (tables ∅ empty_catalog) None [])).2 in
  answer_on (load_document "document") (committed conn) = Ok (Some sample_document) ∧
  publish_document sample_composition (mkConn (committed conn) None []) =
    (Ok Existing, mkConn (committed conn) None []).
Proof.
  intros conn.
  destruct (published_graph_is_served ∅ empty_catalog sample_composition [] Inserted conn)
    as (Hd & _ & _ & Hr); [apply empty_catalog_ok|vm_compute; reflexivity|].
  split; [exact Hd|apply Hr; reflexivity].
Defined.
End CatalogSample.
