(* ===== verification/CatalogOpen.v ===== *)
(** * Opening a Catalog

    The integrity scan is a gate: whatever the database holds, after a
    successful opening every read answers, and every Document and binding
    refers to Canvases that match it.  Conversely, a database that this adapter
    has written opens again, unless a binding names another Session than its
    Canvas: [store_binding] accepts such a binding. *)

From S2P Require Import Prelude Float Kernel Sql Canvas CatalogKernel Catalog CatalogSpec CatalogRefine.

Section gate.
Context `{CatalogKernelLaws}.
Context {KL : KernelLaws}.

Abbreviation C := (conn CatalogDb SqliteError).
Abbreviation Error := CatalogStoreError.

(** ** Reads are steady *)

Lemma collect_pages_steady rows : ∀ acc, steady (collect_pages rows acc).
Proof. induction rows as [|r rows IH]; intros acc; cbn [collect_pages]; solve_steady. Qed.
#[local] Hint Resolve collect_pages_steady : steady.
Lemma load_pages_steady id : steady (load_pages id).
Proof. unfold load_pages. solve_steady. Qed.
#[local] Hint Resolve load_pages_steady : steady.
Lemma load_document_steady id : steady (load_document id).
Proof. unfold load_document. solve_steady. Qed.
Lemma collect_layers_steady rows : ∀ acc, steady (collect_layers rows acc).
Proof. induction rows as [|r rows IH]; intros acc; cbn [collect_layers]; solve_steady. Qed.
#[local] Hint Resolve collect_layers_steady load_document_steady : steady.
Lemma load_canvas_steady id : steady (load_canvas id).
Proof. unfold load_canvas. solve_steady. Qed.
#[local] Hint Resolve load_canvas_steady : steady.
Lemma load_listed_steady r : steady (load_listed r).
Proof. unfold load_listed. solve_steady. Qed.
#[local] Hint Resolve load_listed_steady : steady.
Lemma collect_documents_steady rows : ∀ acc, steady (collect_documents rows acc).
Proof. induction rows as [|r rows IH]; intros acc; cbn [collect_documents]; solve_steady. Qed.
#[local] Hint Resolve collect_documents_steady : steady.
Lemma scan_pages_steady s ps : steady (scan_pages s ps).
Proof. induction ps as [|p ps IH]; cbn [scan_pages]; solve_steady. Qed.
#[local] Hint Resolve scan_pages_steady : steady.
Lemma scan_documents_steady rows : ∀ n, steady (scan_documents n rows).
Proof. induction rows as [|r rows IH]; intros n; cbn [scan_documents]; solve_steady. Qed.
Lemma scan_canvases_steady ids : steady (scan_canvases ids).
Proof. induction ids as [|t ids IH]; cbn [scan_canvases]; solve_steady. Qed.
Lemma scan_bindings_steady rows : steady (scan_bindings rows).
Proof. induction rows as [|r rows IH]; cbn [scan_bindings]; solve_steady. Qed.
#[local] Hint Resolve scan_documents_steady scan_canvases_steady scan_bindings_steady : steady.
Lemma scan_integrity_steady : steady scan_integrity.
Proof. unfold scan_integrity. solve_steady. Qed.

(** ** What the scan establishes *)

Lemma select_canvas_Some id db r : select_canvas id db = Some r → r ∈ canvases db ∧ cv_canvas_id r = id.
Proof. apply find_key_Some. Qed.

Lemma load_canvas_id id db c : answer_on (load_canvas id) db = Ok (Some c) → canvas_canvas_id c = id.
Proof.
  unfold load_canvas. intros Hl. answer_inv Hl.
  destruct (select_canvas (to_text id) db) as [r|] eqn:Hs; [|answer_inv Hl; discriminate].
  apply select_canvas_Some in Hs as [_ Hid]. answer_inv Hl. rewrite Hid, of_to_text in E.
  injection E as <-. destruct (count_mismatch _ _); answer_inv Hl; [discriminate|].
  injection Hl as <-. apply canvas_new_fields in E. tauto.
Qed.

Lemma scan_pages_inv db session ps :
  answer_on (scan_pages session ps) db = Ok () →
  ∀ p, p ∈ ps → ∃ c, answer_on (load_canvas (overlay_canvas_id p)) db = Ok (Some c) ∧ overlays session p c.
Proof.
  induction ps as [|q ps IH]; intros Hs p Hp; [by apply elem_of_nil in Hp|]. cbn [scan_pages] in Hs.
  answer_inv Hs. subst a.
  destruct (_ || _ || _) eqn:Hm; [answer_inv Hs; discriminate|].
  apply elem_of_cons in Hp as [->|Hp]; [|by apply IH]. exists a0. split; [done|].
  apply orb_false_iff in Hm as [[Hses Hw]%orb_false_iff Hh].
  apply negb_false_iff in Hses, Hw, Hh. apply bool_decide_eq_true in Hses.
  destruct (space_positive (canvas_space a0)) as [Pw Ph].
  split_and!; [by eapply load_canvas_id|done|by apply f64_eqb_positive|by apply f64_eqb_positive].
Qed.

(** A Document row that the scan has accepted. *)
Definition scanned (db : CatalogDb) (r : DocumentRow) : Prop :=
  ∃ id session kind asset pages d,
    of_text (doc_document_id r) = Some id ∧ of_text (doc_session_id r) = Some session ∧
    parse_document_type (doc_document_type r) = Ok kind ∧
    of_text (doc_source_asset_id r) = Some asset ∧
    answer_on (load_pages id) db = Ok pages ∧ count_mismatch (doc_page_count r) pages = false ∧
    DocumentDescriptor_new id session kind asset (doc_title r) pages = Some d ∧
    ∀ p, p ∈ pages → ∃ c, answer_on (load_canvas (overlay_canvas_id p)) db = Ok (Some c) ∧
                          overlays session p c.

Lemma scan_documents_inv db rows : ∀ n,
  answer_on (scan_documents n rows) db = Ok () → ∀ r, r ∈ rows → scanned db r.
Proof.
  induction rows as [|r0 rows IH]; intros n Hs r Hr; [by apply elem_of_nil in Hr|].
  cbn [scan_documents] in Hs. answer_inv Hs.
  destruct (_ || _); [answer_inv Hs; discriminate|]. answer_inv Hs.
  destruct (count_mismatch _ _) eqn:Hcm; [answer_inv Hs; discriminate|]. answer_inv Hs.
  apply elem_of_cons in Hr as [->|Hr]; [|by eapply IH].
  destruct a5. pose proof (document_new_fields _ _ _ _ _ _ _ E4) as (_ & Hses & _ & Hpages).
  rewrite Hses, Hpages in E5. exists a, a0, a2, a1, a3, a4. split_and!; try done.
  by apply scan_pages_inv.
Qed.

Lemma scanned_loads db r id :
  scanned db r → select_document (to_text id) db = Some r →
  ∃ d, answer_on (load_document id) db = Ok (Some d) ∧
       ∀ p, p ∈ document_pages d → ∃ c, answer_on (load_canvas (overlay_canvas_id p)) db = Ok (Some c) ∧
                                       overlays (document_session_id d) p c.
Proof.
  intros (id' & session & kind & asset & pages & d & Hid & Hs & Hk & Ha & Hp & Hc & Hd & Ho) Hsel.
  exists d. pose proof (document_new_fields _ _ _ _ _ _ _ Hd) as (_ & -> & _ & ->). split; [|done].
  pose proof (find_key_Some doc_document_id _ _ _ Hsel) as [_ Htext].
  rewrite Htext, of_to_text in Hid. injection Hid as <-. unfold load_document.
  rewrite answer_on_bind by solve_steady. rewrite answer_on_query, Hsel. cbn [mbind result_mbind].
  rewrite Htext, of_to_text, Hs, Hk, Ha. cbn [ok_or].
  repeat (rewrite answer_on_bind by solve_steady; rewrite answer_on_lift; cbn [mbind result_mbind]).
  rewrite answer_on_bind by solve_steady. rewrite Hp. cbn [mbind result_mbind]. rewrite Hc, Hd. done.
Qed.

Lemma scan_canvases_inv db ids :
  answer_on (scan_canvases ids) db = Ok () →
  ∀ t, t ∈ ids → ∃ id c, of_text t = Some id ∧ answer_on (load_canvas id) db = Ok (Some c).
Proof.
  induction ids as [|t0 ids IH]; intros Hs t Ht; [by apply elem_of_nil in Ht|].
  cbn [scan_canvases] in Hs. answer_inv Hs.
  apply elem_of_cons in Ht as [->|Ht]; [|by apply IH].
  subst. by exists a, a1.
Qed.

Lemma scan_bindings_inv db rows :
  answer_on (scan_bindings rows) db = Ok () →
  ∀ r, r ∈ rows → ∃ b c, decode_binding r = Ok b ∧
    answer_on (load_canvas (binding_canvas_id b)) db = Ok (Some c) ∧
    canvas_session_id c = binding_session_id b.
Proof.
  induction rows as [|r0 rows IH]; intros Hs r Hr; [by apply elem_of_nil in Hr|].
  cbn [scan_bindings] in Hs. answer_inv Hs. subst.
  destruct (negb _) eqn:Hm; [answer_inv Hs; discriminate|].
  apply negb_false_iff, bool_decide_eq_true in Hm.
  apply elem_of_cons in Hr as [->|Hr]; [|by apply IH]. by exists a, a1.
Qed.

(** The invariant of an open database. *)
Record intact (db : CatalogDb) : Prop := {
  intact_keys : foreign_key_violation db = false;
  intact_documents : ∀ r, r ∈ documents db → scanned db r;
  intact_canvases : ∀ r, r ∈ canvases db → ∃ id c, of_text (cv_canvas_id r) = Some id ∧
    answer_on (load_canvas id) db = Ok (Some c);
  intact_bindings : ∀ r, r ∈ bootstrap_bindings db → ∃ b c, decode_binding r = Ok b ∧
    answer_on (load_canvas (binding_canvas_id b)) db = Ok (Some c) ∧
    canvas_session_id c = binding_session_id b
}.

Lemma scan_integrity_inv db : answer_on scan_integrity db = Ok () → intact db.
Proof.
  unfold scan_integrity. intros Hs. answer_inv Hs.
  destruct (foreign_key_violation db) eqn:Hfk; [answer_inv Hs; discriminate|]. answer_inv Hs.
  destruct (negb _); [answer_inv Hs; discriminate|]. answer_inv Hs. destruct a, a0.
  split; [done| | |by apply scan_bindings_inv].
  - intros r Hr. eapply scan_documents_inv; [exact E|]. unfold select_all_documents. by rewrite order_by_perm.
  - intros r Hr. eapply scan_canvases_inv; [exact E0|]. unfold select_canvas_ids. rewrite order_by_perm.
    by apply list_elem_of_fmap_2.
Qed.

(** A Document of the database with all Canvases that its Pages are drawn on. *)
Definition served_document (db : CatalogDb) (d : DocumentDescriptor) : Prop :=
  ∀ p, p ∈ document_pages d → ∃ c, answer_on (load_canvas (overlay_canvas_id p)) db = Ok (Some c) ∧
                                  overlays (document_session_id d) p c.

Lemma intact_load_document db id : intact db →
  ∃ o, answer_on (load_document id) db = Ok o ∧
       (is_Some o ↔ is_Some (select_document (to_text id) db)) ∧ ∀ d, o = Some d → served_document db d.
Proof.
  intros Hok. destruct (select_document (to_text id) db) as [r|] eqn:Hs.
  - pose proof (find_key_Some doc_document_id _ _ _ Hs) as [Hr _].
    destruct (scanned_loads db r id (intact_documents _ Hok r Hr) Hs) as (d & Hd & Ho).
    exists (Some d). split_and!; [done|done|]. by intros d' [= <-].
  - exists None. unfold load_document. rewrite answer_on_bind by solve_steady.
    rewrite answer_on_query, Hs. split_and!; [done|done|done].
Qed.

Lemma intact_load_canvas db id : intact db → is_ok (answer_on (load_canvas id) db) = true.
Proof.
  intros Hok. destruct (select_canvas (to_text id) db) as [r|] eqn:Hs.
  - apply select_canvas_Some in Hs as [Hr Ht].
    destruct (intact_canvases _ Hok r Hr) as (id' & c & Hid & Hc).
    rewrite Ht, of_to_text in Hid. injection Hid as <-. by rewrite Hc.
  - unfold load_canvas. rewrite answer_on_bind by solve_steady. by rewrite answer_on_query, Hs.
Qed.

(** The Document row that the Pages of an accepted row refer to. *)
Lemma scanned_canonical db r :
  intact db → r ∈ documents db →
  ∃ id : DocumentId, of_text (doc_document_id r) = Some id ∧ is_Some (select_document (to_text id) db).
Proof.
  intros Hok Hr. destruct (intact_documents _ Hok r Hr)
    as (id & session & kind & asset & pages & d & Hid & _ & _ & _ & Hp & Hc & _). exists id. split; [done|].
  assert (pages ≠ []) as Hne.
  { intros ->. unfold count_mismatch in Hc. cbn in Hc. apply orb_false_iff in Hc as [Hc1%Z.leb_gt Hc2].
    apply negb_false_iff, Z.eqb_eq in Hc2. lia. }
  unfold load_pages in Hp. answer_inv Hp.
  destruct (select_pages (to_text id) db) as [|pr prs] eqn:Hsel; [by injection Hp as <-|].
  assert (pr ∈ select_pages (to_text id) db) as Hpr by (rewrite Hsel; by left).
  unfold select_pages in Hpr. rewrite order_by_perm, list_elem_of_In, filter_In, <- list_elem_of_In in Hpr.
  destruct Hpr as [Hpr Ht%bool_decide_eq_true]. pose proof (intact_keys _ Hok) as Hfk.
  unfold foreign_key_violation in Hfk. apply orb_false_iff in Hfk as [[_ Hfk]%orb_false_iff _].
  apply not_true_iff_false in Hfk. rewrite existsb_exists in Hfk.
  destruct (select_document (to_text id) db) as [r'|] eqn:Hdoc; [done|]. destruct Hfk.
  exists pr. split; [by apply list_elem_of_In|]. unfold document_exists. rewrite existsb_key, Ht.
  apply (find_key_None doc_document_id) in Hdoc. by rewrite bool_decide_eq_false_2.
Qed.

(** The Document that a row of a list stands for. *)
Definition listed (db : CatalogDb) (r : DocumentRow) (d : DocumentDescriptor) : Prop :=
  ∃ id, of_text (doc_document_id r) = Some id ∧ answer_on (load_document id) db = Ok (Some d).

Lemma intact_listed db r : intact db → r ∈ documents db →
  ∃ d, listed db r d ∧ answer_on (load_listed r) db = Ok d.
Proof.
  intros Hok Hr. destruct (scanned_canonical db r Hok Hr) as (id & Hid & Hsel).
  destruct (intact_load_document db id Hok) as (o & Ho & Hsome & _).
  destruct (proj2 Hsome Hsel) as [d ->]. exists d. split; [by exists id|].
  unfold load_listed. rewrite answer_on_bind by solve_steady. rewrite answer_on_touch. cbn [mbind result_mbind].
  rewrite answer_on_bind by solve_steady. rewrite answer_on_lift, Hid. cbn [ok_or mbind result_mbind].
  rewrite answer_on_bind by solve_steady. by rewrite Ho.
Qed.

Lemma intact_collect_documents db rows : intact db → (∀ r, r ∈ rows → r ∈ documents db) →
  ∃ ds, Forall2 (listed db) rows ds ∧ ∀ acc, answer_on (collect_documents rows acc) db = Ok (acc ++ ds).
Proof.
  intros Hok. induction rows as [|r rows IH]; intros Hrows.
  { exists []. split; [done|]. intros acc. by rewrite app_nil_r. }
  destruct (intact_listed db r Hok) as (d & Hd & Hl); [apply Hrows; by left|].
  destruct IH as (ds & Hds & Hc); [intros r' Hr'; apply Hrows; by right|].
  exists (d :: ds). split; [by constructor|]. intros acc. cbn [collect_documents].
  rewrite answer_on_bind, Hl by solve_steady. cbn. by rewrite Hc, <- app_assoc.
Qed.

(** The summaries of a list, or the error when one cannot be made. *)
Definition summaries (ds : list DocumentDescriptor) : result Error (list DocumentSummary) :=
  ok_or (Corruption "Document page count overflowed") (mapM DocumentSummary_from_document ds).

Lemma intact_collect_summaries db rows : intact db → (∀ r, r ∈ rows → r ∈ documents db) →
  ∃ ds, Forall2 (listed db) rows ds ∧
    ∀ acc, answer_on (collect_summaries rows acc) db = (l ← summaries ds; Ok (acc ++ l)).
Proof.
  intros Hok. induction rows as [|r rows IH]; intros Hrows.
  { exists []. split; [done|]. intros acc. cbn. by rewrite app_nil_r. }
  destruct (intact_listed db r Hok) as (d & Hd & Hl); [apply Hrows; by left|].
  destruct IH as (ds & Hds & Hc); [intros r' Hr'; apply Hrows; by right|].
  exists (d :: ds). split; [by constructor|]. intros acc. cbn [collect_summaries].
  rewrite answer_on_bind, Hl by solve_steady. cbn [mbind result_mbind].
  rewrite answer_on_bind, answer_on_lift by solve_steady. unfold summaries. cbn [mapM].
  destruct (DocumentSummary_from_document d) as [x|]; [|done]. cbn. rewrite Hc. unfold summaries.
  destruct (mapM _ ds); cbn; [|done]. by rewrite <- app_assoc.
Qed.

(** ** The scan of a database that the adapter has written *)

Lemma scan_pages_reads meta cat session ps :
  catalog_ok cat → (∀ p, p ∈ ps → ∃ c, c ∈ c_canvases cat ∧ overlays session p c) →
  reads (scan_pages session ps) (tables meta cat) (Ok ()).
Proof.
  intros Hok. induction ps as [|p ps IH]; intros Hps; cbn [scan_pages]; [reads_step|].
  destruct (Hps p) as (c & Hc & Hid & Hs & Hw & Hh); [by left|].
  reads_step; [by apply load_canvas_reads|]. cbv beta iota. rewrite <- Hid, find_canvas_in by done. reads_next.
  destruct (geometry_positive (display_geometry p)) as [Pw Ph].
  rewrite bool_decide_eq_true_2, Hw, Hh, !f64_eqb_refl by done. apply IH. intros q Hq. apply Hps. by right.
Qed.

Lemma scan_documents_reads meta cat ds : catalog_ok cat → ∀ f n expected,
  (∀ i d, f i d = document_row (n + i) d) → expected ≤ Z.of_nat n →
  (∀ d, d ∈ ds → d ∈ c_documents cat) →
  reads (scan_documents expected (imap f ds)) (tables meta cat) (Ok ()).
Proof.
  intros Hok. induction ds as [|d ds IH]; intros f n expected Hf Hn Hds; cbn [imap scan_documents]; [reads_step|].
  rewrite Hf, Nat.add_0_r. cbn [document_row doc_document_id doc_session_id doc_document_type
    doc_source_asset_id doc_title doc_page_count doc_publication_sequence]. reads_next.
  rewrite (proj2 (Z.ltb_ge (Z.of_nat n) 0)), (proj2 (Z.ltb_ge _ _) Hn) by lia. cbn [orb].
  rewrite !of_to_text, parse_document_type_name. do 4 reads_next.
  reads_step; [apply load_pages_reads; [done|apply Hds; by left]|]. cbv beta iota.
  rewrite count_mismatch_length by apply document_pages_nonempty. cbv beta iota.
  rewrite document_eta. reads_next.
  reads_step; [apply scan_pages_reads; [done|]; intros p Hp; apply (ok_pages _ Hok); [apply Hds; by left|done]|].
  cbv beta iota. apply (IH _ (S n)).
  - intros i d'. unfold compose. rewrite Hf. f_equal. lia.
  - unfold i64_saturating_add, i64_min, i64_max. lia.
  - intros d' Hd'. apply Hds. by right.
Qed.

Lemma scan_canvases_reads meta cat ids :
  catalog_ok cat → (∀ t, t ∈ ids → t ∈ to_text <$> (canvas_canvas_id <$> c_canvases cat)) →
  reads (scan_canvases ids) (tables meta cat) (Ok ()).
Proof.
  intros Hok. induction ids as [|t ids IH]; intros Hids; cbn [scan_canvases]; [reads_step|]. reads_next.
  destruct (proj1 (list_elem_of_fmap _ _ _) (Hids t (list_elem_of_here _ _)))
    as (id & -> & (c & -> & Hc)%list_elem_of_fmap).
  rewrite of_to_text. reads_next. reads_step; [by apply load_canvas_reads|]. cbv beta iota.
  rewrite find_canvas_in by done. reads_next. apply IH. intros t Ht. apply Hids. by right.
Qed.

(** A binding names the Session of its Canvas. *)
Definition binding_coherent (cat : Catalog) (b : BootstrapBinding) : Prop :=
  canvas_session_id <$> find_canvas (binding_canvas_id b) cat = Some (binding_session_id b).
#[global] Instance binding_coherent_dec cat b : Decision (binding_coherent cat b).
Proof. unfold binding_coherent. apply _. Defined.
Definition bindings_coherent (cat : Catalog) : Prop :=
  Forall (binding_coherent cat) (c_bindings cat).*2.
#[global] Instance bindings_coherent_dec cat : Decision (bindings_coherent cat).
Proof. unfold bindings_coherent. apply _. Defined.

Definition bindings_verdict (cat : Catalog) (bs : list BootstrapBinding) : result Error () :=
  if decide (Forall (binding_coherent cat) bs) then Ok ()
  else Err (corruption "bootstrap binding Session mismatch").

Lemma scan_bindings_reads meta cat kbs :
  catalog_ok cat → (∀ kb, kb ∈ kbs → kb ∈ c_bindings cat) →
  reads (scan_bindings ((λ kb, binding_row kb.1 kb.2) <$> kbs)) (tables meta cat)
    (bindings_verdict cat kbs.*2).
Proof.
  intros Hok. induction kbs as [|[key b] kbs IH]; intros Hkbs; cbn [fmap list_fmap scan_bindings]; [reads_step|].
  reads_next. rewrite decode_binding_row. reads_next. cbn [snd].
  reads_step; [by apply load_canvas_reads|]. cbv beta iota.
  destruct (find_canvas (binding_canvas_id b) cat) as [c|] eqn:Hf.
  2:{ apply (find_key_None canvas_canvas_id) in Hf. destruct Hf.
      apply (ok_binding_canvas _ Hok key), Hkbs. by left. }
  reads_next. unfold bindings_verdict.
  case_bool_decide as Hs; cbn [negb].
  - erewrite decide_ext; [apply IH; intros kb Hkb; apply Hkbs; by right|].
    rewrite Forall_cons. unfold binding_coherent at 1. rewrite Hf. cbn. rewrite Hs.
    split; [by intros [_ ?]|by intros ?; split].
  - rewrite decide_False; [reads_step|]. rewrite Forall_cons. unfold binding_coherent at 1.
    rewrite Hf. cbn. intros [[= ?] _]. done.
Qed.

Lemma canvas_row_exists meta cat r :
  r ∈ layers (tables meta cat) → canvas_exists (ly_canvas_id r) (tables meta cat) = true.
Proof.
  change (layers _) with (c_canvases cat ≫= layer_rows).
  intros (c & (l & -> & _)%list_elem_of_fmap & Hc)%list_elem_of_bind. cbn [layer_row ly_canvas_id].
  rewrite canvas_exists_tables. apply bool_decide_eq_true. by apply list_elem_of_fmap_2.
Qed.

Lemma tables_foreign_keys meta cat : catalog_ok cat → foreign_key_violation (tables meta cat) = false.
Proof.
  intros Hok. unfold foreign_key_violation. rewrite !orb_false_iff. split_and!.
  - pose proof (no_deferred_violation meta cat) as Hd. unfold check_deferred in Hd. by destruct (deferred_violation _).
  - apply not_true_iff_false. rewrite existsb_exists. intros (r & Hr%list_elem_of_In & Hv).
    by rewrite canvas_row_exists in Hv.
  - apply not_true_iff_false. rewrite existsb_exists. intros (r & Hr%list_elem_of_In & Hv). cbn in Hr.
    apply list_elem_of_bind in Hr as (d & (p & -> & Hp)%list_elem_of_fmap & Hd).
    cbn [page_row pg_document_id pg_overlay_canvas_id] in Hv.
    destruct (ok_pages _ Hok d p Hd Hp) as (c & Hc & Hid & _). rewrite canvas_exists_tables in Hv.
    rewrite (bool_decide_eq_true_2 (overlay_canvas_id p ∈ _)), orb_false_r in Hv
      by (rewrite <- Hid; by apply list_elem_of_fmap_2).
    apply negb_true_iff, not_true_iff_false in Hv. apply Hv. apply existsb_exists.
    apply list_elem_of_lookup in Hd as [i Hi]. exists (document_row i d). split; [|by apply bool_decide_eq_true].
    apply list_elem_of_In, (list_elem_of_lookup_2 _ i). cbn. rewrite list_lookup_imap, Hi. done.
  - apply not_true_iff_false. rewrite existsb_exists. intros (r & Hr%list_elem_of_In & Hv). cbn in Hr.
    apply list_elem_of_fmap in Hr as ([key b] & -> & Hb).
    cbn [binding_row bd_canvas_id fst snd] in Hv. rewrite canvas_exists_tables in Hv.
    rewrite bool_decide_eq_true_2 in Hv; [done|]. by apply (ok_binding_canvas _ Hok key).
Qed.

Lemma tables_no_orphans meta cat : count_orphan_layers (tables meta cat) = 0.
Proof.
  unfold count_orphan_layers. rewrite (List_filter_ext _ (λ _, false)).
  - by induction (layers (tables meta cat)).
  - intros r Hr. by rewrite canvas_row_exists.
Qed.

Lemma scan_integrity_wp meta cat (Q : result Error () → C → Prop) p :
  catalog_ok cat →
  (∀ e p', faulty p → Q (Err e) (mkConn (tables meta cat) None p')) →
  (∀ p', (faulty p' → faulty p) →
         Q (bindings_verdict cat (c_bindings cat).*2) (mkConn (tables meta cat) None p')) →
  sql_wp scan_integrity Q (mkConn (tables meta cat) None p).
Proof.
  intros Hok He Hk. unfold scan_integrity.
  do 2 (sql_step; sql_step; [by apply He; tauto|]). sql_step; sql_step; [by apply He; tauto|].
  cbn [from_option]. rewrite tables_foreign_keys by done. cbv beta iota.
  do 2 (sql_step; sql_step; [by apply He; tauto|]). cbn [from_option]. rewrite select_all_documents_tables.
  sql_step. apply (scan_documents_reads meta cat _ Hok _ 0); [done|done|done|done|intros; apply He; tauto|].
  intros p5 Hp5. cbv beta iota. do 2 (sql_step; sql_step; [by apply He; tauto|]). cbn [from_option].
  sql_step. apply (scan_canvases_reads meta cat); [done| |done|intros; apply He; tauto|].
  { intros t. unfold select_canvas_ids. rewrite order_by_perm. cbn. by rewrite <- !list_fmap_compose. }
  intros p8 Hp8. cbv beta iota. sql_step; sql_step; [by apply He; tauto|]. cbn [from_option].
  rewrite tables_no_orphans. cbn [negb Z.eqb]. do 2 (sql_step; sql_step; [by apply He; tauto|]). cbn [from_option].
  apply (scan_bindings_reads meta cat (c_bindings cat)); [done|done|done|intros; apply He; tauto|].
  intros p12 Hp12. apply Hk. tauto.
Qed.

(** ** Opening *)

(** The metadata after [create_schema]. *)
Definition ensured (fresh : EntityId) (meta : gmap string string) : gmap string string :=
  let m := match meta !! "schema_version" with
           | Some _ => meta
           | None => <["schema_version" := show_u64 SUPPORTED_SCHEMA_VERSION]> meta
           end in
  match m !! "physical_store_id" with
  | Some _ => m
  | None => <["physical_store_id" := to_text fresh]> m
  end.

Lemma set_metadata_id db : set_metadata (storage_metadata db) db = db.
Proof. by destruct db. Qed.

Lemma create_schema_wp fresh db p (Q : result Error () → C → Prop) :
  (∀ e meta p', faulty p → Q (Err (Backend e)) (mkConn (set_metadata meta db) None p')) →
  (∀ p', (faulty p' → faulty p) →
         Q (Ok ()) (mkConn (set_metadata (ensured fresh (storage_metadata db)) db) None p')) →
  sql_wp (create_schema fresh) Q (mkConn db None p).
Proof.
  intros He Hk. rewrite <- (set_metadata_id db) at 1. unfold create_schema.
  sql_step; sql_step; [by apply He|]. sql_step. unfold ensure_metadata. sql_step; [apply He; tauto|].
  unfold insert_or_ignore_metadata. cbn [from_option storage_metadata set_metadata].
  set (m := match storage_metadata db !! "schema_version" with
            | Some _ => storage_metadata db
            | None => <["schema_version" := show_u64 SUPPORTED_SCHEMA_VERSION]> (storage_metadata db)
            end).
  replace (match storage_metadata db !! "schema_version" with Some _ => _ | None => _ end)
    with (Ok (set_metadata m db) : result Error CatalogDb) by (subst m; by case_match).
  cbn [set_current working committed plan].
  sql_step. unfold metadata_value. sql_step; [apply He; tauto|]. cbn.
  unfold ensured in Hk. fold m in Hk. destruct (m !! "physical_store_id") eqn:Hm.
  - sql_step. apply Hk. tauto.
  - sql_step; [apply He; tauto|]. cbn. unfold insert_metadata. cbn. rewrite Hm. apply Hk. tauto.
Qed.

(** What every read of an open database answers.  The list of a Session has a
    summary of each of its Documents; it fails only when [orbitrelay-documents]
    cannot summarize one of them. *)
Definition readable (db : CatalogDb) : Prop :=
  (∀ id, ∃ o, answer_on (load_document id) db = Ok o ∧ ∀ d, o = Some d → served_document db d) ∧
  (∀ id, is_ok (answer_on (load_canvas id) db) = true) ∧
  (∀ key, ∃ o, answer_on (load_binding key) db = Ok o ∧ ∀ b, o = Some b →
     ∃ c, answer_on (load_canvas (binding_canvas_id b)) db = Ok (Some c) ∧
          canvas_session_id c = binding_session_id b) ∧
  (∃ ds, Forall2 (listed db) (select_all_documents db) ds ∧ answer_on list_all_documents db = Ok ds) ∧
  (∀ session, ∃ ds, Forall2 (listed db) (select_session_documents (to_text session) db) ds ∧
                    answer_on (list_documents session) db = summaries ds).

Lemma intact_readable db : intact db → readable db.
Proof.
  intros Hok. split_and!.
  - intros id. destruct (intact_load_document db id Hok) as (o & Ho & _ & Hs). by exists o.
  - intros id. by apply intact_load_canvas.
  - intros key. unfold load_binding.
    destruct (select_binding key db) as [r|] eqn:Hs.
    + pose proof (find_key_Some bd_binding_key _ _ _ Hs) as [Hr _].
      destruct (intact_bindings _ Hok r Hr) as (b & c & Hb & Hc & Hses). exists (Some b).
      rewrite answer_on_bind by solve_steady. rewrite answer_on_query, Hs. cbn [mbind result_mbind].
      rewrite answer_on_bind by solve_steady. rewrite answer_on_lift, Hb. split; [done|].
      intros b' [= <-]. by exists c.
    + exists None. rewrite answer_on_bind by solve_steady. by rewrite answer_on_query, Hs.
  - unfold list_all_documents. do 2 (rewrite answer_on_bind by solve_steady; cbn [mbind result_mbind]).
    rewrite answer_on_query.
    destruct (intact_collect_documents db (select_all_documents db) Hok) as (ds & Hds & Hc);
      [intros r; unfold select_all_documents; by rewrite order_by_perm|].
    exists ds. split; [done|apply Hc].
  - intros session. unfold list_documents.
    do 2 (rewrite answer_on_bind by solve_steady; cbn [mbind result_mbind]). rewrite answer_on_query.
    destruct (intact_collect_summaries db (select_session_documents (to_text session) db) Hok) as (ds & Hds & Hc).
    { intros r. unfold select_session_documents. rewrite order_by_perm, list_elem_of_In, filter_In.
      intros [Hr _]. by apply list_elem_of_In. }
    exists ds. split; [done|]. cbn [mbind result_mbind]. rewrite Hc. by destruct (summaries ds).
Qed.

Lemma initialize_storage_intact has_parent quick_check fresh db p :
  sql_wp (initialize_storage has_parent quick_check fresh)
    (λ r c, is_ok r = true → working c = None ∧ intact (committed c) ∧
            ∃ meta, committed c = set_metadata meta db)
    (mkConn db None p).
Proof.
  unfold initialize_storage. sql_step.
  apply (sql_wp_mono _ (λ r c, is_ok r = true → ∃ p', c = mkConn db None p')).
  { destruct has_parent; [sql_step; [done|]|sql_step]; intros; by eexists. }
  intros [[]|e] c; [|done]. intros [p0 ->]; [done|]. do 5 (sql_step; sql_step; [done|]).
  sql_step. apply create_schema_wp; [done|]. intros p1 _. set (meta := ensured fresh _).
  sql_step. unfold metadata_value. sql_step; [done|]. sql_step; sql_step.
  destruct (ok_or _ _) as [schema|]; [|done]. sql_step; sql_step. destruct (ok_or _ _) as [version|]; [|done].
  case_match; [by sql_step|]. case_match; [by sql_step|]. sql_step; sql_step; [done|].
  sql_step; sql_step. destruct (ok_or _ _); [|done]. sql_step; sql_step. destruct (ok_or _ _); [|done].
  sql_step; sql_step; [done|]. sql_step.
  destruct (negb _); [by sql_step|]. sql_step. sql_step.
  unfold sql_wp. destruct (scan_integrity _) as [[[]|e] c] eqn:Hs; [|done].
  destruct (answer_on_steady _ _ _ _ _ scan_integrity_steady Hs) as [Ha [p'' ->]].
  cbn. intros _. split_and!; [done|by apply scan_integrity_inv|by exists meta].
Qed.

(** C32. Opening is a gate: whatever the database file holds and whatever calls
    fail, when opening answers success, only the metadata has changed, and from
    then on every read answers: each lookup of a Document or Canvas, with the
    Pages of a Document over stored Canvases of its Session and of their size;
    each binding, which names a stored Canvas of its Session; the list of all
    Documents, in order of publication; and the list of each Session, with the
    summary of each of its Documents, which is refused only when a stored
    Document has no summary. *)
Theorem opened_catalog_is_readable has_parent quick_check fresh db p id c :
  initialize_storage has_parent quick_check fresh (mkConn db None p) = (Ok id, c) →
  working c = None ∧ readable (committed c) ∧ ∃ meta, committed c = set_metadata meta db.
Proof.
  intros Hi. pose proof (initialize_storage_intact has_parent quick_check fresh db p) as Hw.
  unfold sql_wp in Hw. rewrite Hi in Hw. destruct (Hw eq_refl) as (Hn & Hok & Hm).
  split_and!; [done|by apply intact_readable|done].
Qed.

(** The stored metadata names the supported schema and the identity [id]. *)
Definition metadata_ok (id : EntityId) (meta : gmap string string) : Prop :=
  (∃ v, meta !! "schema_version" = Some v ∧ parse_i64 v = Some SUPPORTED_SCHEMA_VERSION) ∧
  (∃ t, meta !! "physical_store_id" = Some t ∧ of_text t = Some id).
(** Opening accepts [meta] and answers [id]: a new file gets [fresh]. *)
Definition metadata_usable (fresh id : EntityId) (meta : gmap string string) : Prop :=
  (∀ v, meta !! "schema_version" = Some v → parse_i64 v = Some SUPPORTED_SCHEMA_VERSION) ∧
  match meta !! "physical_store_id" with Some t => of_text t = Some id | None => id = fresh end.

Lemma metadata_ok_usable fresh id meta : metadata_ok id meta → metadata_usable fresh id meta.
Proof.
  intros [(v & Hv & Hp) (t & Ht & Hid)]. split; [|by rewrite Ht].
  intros v' Hv'. rewrite Hv in Hv'. by injection Hv' as <-.
Qed.

Lemma ensured_ok fresh id meta : metadata_usable fresh id meta → metadata_ok id (ensured fresh meta).
Proof.
  intros [Hv Hp]. unfold ensured.
  set (m := match meta !! "schema_version" with Some _ => _ | None => _ end).
  assert (∃ v, m !! "schema_version" = Some v ∧ parse_i64 v = Some SUPPORTED_SCHEMA_VERSION) as (v & Hmv & Hpv).
  { subst m. destruct (meta !! "schema_version") as [v|] eqn:Hs; [exists v; auto|].
    eexists. split; [apply lookup_insert_eq|done]. }
  assert (m !! "physical_store_id" = meta !! "physical_store_id") as Hmp.
  { subst m. destruct (meta !! "schema_version"); [done|]. by rewrite lookup_insert_ne. }
  rewrite Hmp. destruct (meta !! "physical_store_id") as [t|] eqn:Ht.
  - split; [by exists v|]. exists t. by rewrite Hmp.
  - split; [exists v; by rewrite lookup_insert_ne|]. exists (to_text fresh).
    rewrite lookup_insert_eq, of_to_text. by subst id.
Qed.

Lemma open_catalog_wp has_parent fresh id meta cat p :
  catalog_ok cat → metadata_usable fresh id meta →
  sql_wp (initialize_storage has_parent "ok" fresh)
    (λ r c, (∃ meta', holds meta' c cat ∧ (is_ok r = true → metadata_ok id meta')) ∧
            (faulty p ∨ r = (bindings_verdict cat (c_bindings cat).*2;; Ok id)))
    (mkConn (tables meta cat) None p).
Proof.
  intros Hok Hmeta.
  set (Q := λ r c, (∃ meta', holds meta' c cat ∧ (is_ok r = true → metadata_ok id meta')) ∧
                   (faulty p ∨ r = (bindings_verdict cat (c_bindings cat).*2;; Ok id))).
  assert (∀ e meta' p', faulty p → Q (Err e) (mkConn (tables meta' cat) None p')) as He.
  { intros e meta' p' Hp. split; [by exists meta'|by left]. }
  unfold initialize_storage. sql_step.
  apply (sql_wp_mono _ (λ r c, ∃ p', c = mkConn (tables meta cat) None p' ∧ (faulty p' → faulty p) ∧
                                     (r = Ok () ∨ faulty p ∧ is_ok r = false))).
  { destruct has_parent; sql_step; eexists; (split_and!; [done|done|]); auto. }
  intros r c (p0 & -> & Hp0 & [->|[Hf Hr]]); [|destruct r; [done|by apply He]].
  do 5 (sql_step; sql_step; [apply He; tauto|]). sql_step.
  apply create_schema_wp; [intros ? ? ? ?; apply He; tauto|]. intros p1 Hp1.
  cbn [storage_metadata tables]. pose proof (ensured_ok _ _ _ Hmeta) as Hens.
  set (meta' := ensured fresh meta) in *. change (set_metadata meta' _) with (tables meta' cat).
  destruct Hens as [(v & Hv & Hpv) (t & Ht & Hid)].
  sql_step. unfold metadata_value. sql_step; [apply He; tauto|].
  change (select_metadata "schema_version" _) with (meta' !! "schema_version"). rewrite Hv.
  sql_step; sql_step. cbn [ok_or]. sql_step; sql_step. rewrite Hpv. cbn [ok_or].
  change (SUPPORTED_SCHEMA_VERSION <? SUPPORTED_SCHEMA_VERSION) with false. cbv beta iota.
  sql_step; sql_step; [apply He; tauto|].
  change (select_metadata "physical_store_id" _) with (meta' !! "physical_store_id"). rewrite Ht.
  sql_step; sql_step. cbn [ok_or]. sql_step; sql_step. rewrite Hid. cbn [ok_or].
  sql_step; sql_step; [apply He; tauto|]. rewrite bool_decide_eq_true_2 by done. cbn [negb]. sql_step; sql_step.
  sql_step. apply scan_integrity_wp; [done|intros; apply He; tauto|]. intros p2 Hp2.
  destruct (bindings_verdict cat _) as [[]|e] eqn:Hbv; [sql_step|]; (split; [exists meta'; split; [done|]|by right]).
  - intros _. split; [by exists v|by exists t].
  - done.
Qed.

(** C33. Reopening a written catalog: opening the rows of a well-formed catalog
    with usable metadata keeps every row and, when no call fails, answers the
    stored identity exactly when every binding names the Session of its
    Canvas; otherwise it reports the corruption. *)
Theorem reopen_iff_bindings_coherent has_parent fresh id meta cat p :
  catalog_ok cat → metadata_usable fresh id meta →
  let '(r, c) := initialize_storage has_parent "ok" fresh (mkConn (tables meta cat) None p) in
  (∃ meta', holds meta' c cat ∧ (is_ok r = true → metadata_ok id meta')) ∧
  (faulty p ∨ r = if decide (bindings_coherent cat) then Ok id
                  else Err (Corruption "bootstrap binding Session mismatch")).
Proof.
  intros Hok Hm. pose proof (open_catalog_wp has_parent fresh id meta cat p Hok Hm) as Hw.
  unfold sql_wp in Hw. destruct (initialize_storage _ _ _ _) as [r c]. cbn in Hw.
  destruct Hw as [Hh [Hf| ->]]; (split; [done|]); [by left|right].
  unfold bindings_verdict, bindings_coherent. repeat case_decide; done.
Qed.

(** A binding that [put_bootstrap_binding] accepts can lock the database: for
    a stored Canvas and any other Session, storing the binding succeeds, and
    every later opening is refused. *)
Theorem stored_binding_locks_database key d session meta cat fresh id :
  catalog_ok cat → metadata_ok id meta → d ∈ c_canvases cat → find_binding key cat = None →
  session ≠ canvas_session_id d →
  let b := mkBinding session (canvas_canvas_id d) in
  let '(r, c) := store_binding key b (mkConn (tables meta cat) None []) in
  r = Ok () ∧
  (initialize_storage true "ok" fresh (mkConn (committed c) None [])).1 =
    Err (Corruption "bootstrap binding Session mismatch").
Proof.
  intros Hok Hm Hd Hf Hs b. pose proof (store_binding_wp meta cat key b []) as Hw. unfold sql_wp in Hw.
  destruct (store_binding key b _) as [r c]. cbn in Hw.
  assert (binding_canvas_id b ∈ canvas_canvas_id <$> c_canvases cat) as Hin
    by exact (list_elem_of_fmap_2 canvas_canvas_id _ _ Hd).
  assert (spec_store_binding key b cat = (Ok (), add_binding key b cat)) as Hspec.
  { unfold spec_store_binding. rewrite Hf. by rewrite decide_True. }
  rewrite Hspec in Hw. destruct Hw as [[-> [Hc _]]|([]%not_faulty_nil & _)]. split; [done|].
  rewrite Hc. cbn [snd]. pose proof (add_binding_ok _ _ _ Hok Hf Hin) as Hok'.
  pose proof (open_catalog_wp true fresh id meta _ [] Hok' (metadata_ok_usable _ _ _ Hm)) as Hi.
  unfold sql_wp in Hi. destruct Hi as [_ [[]%not_faulty_nil| ->]].
  unfold bindings_verdict. rewrite decide_False; [done|]. cbn. rewrite fmap_app, Forall_app.
  intros [_ Hb%Forall_inv].
  change (canvas_session_id <$> find_canvas (canvas_canvas_id d) cat = Some session) in Hb.
  rewrite find_canvas_in in Hb by done. by injection Hb as Hb.
Qed.
End gate.

(** ** A concrete database *)

Module OpenSample.
Import CatalogDemo CatalogSample.

Definition sample_meta : gmap string string :=
  {["schema_version" := "1"; "physical_store_id" := "store"]}.
Definition sample_catalog : Catalog := add_composition sample_composition empty_catalog.

Lemma sample_catalog_ok : catalog_ok sample_catalog.
Proof.
  apply add_composition_ok; [apply empty_catalog_ok|reflexivity|].
  apply (bool_decide_eq_true_1 (graph_fits empty_catalog sample_composition)). vm_compute. reflexivity.
Qed.

(** Witness of C32. *)
Lemma opened_catalog_is_readable_witness :
  let c := (initialize_storage true "ok" "fresh" (mkConn (tables sample_meta sample_catalog) None [])).2 in
  working c = None ∧ readable (committed c) ∧
  ∃ meta, committed c = set_metadata meta (tables sample_meta sample_catalog).
Proof.
  intros c. apply (opened_catalog_is_readable (H := Demo.demo_kernel) true "ok" "fresh" _ [] "store"). vm_compute. reflexivity.
Defined.

(** Witness of C33. *)
Lemma reopen_iff_bindings_coherent_witness :
  let '(r, c) := initialize_storage true "ok" "fresh" (mkConn (tables sample_meta sample_catalog) None []) in
  (∃ meta', holds meta' c sample_catalog ∧ (is_ok r = true → metadata_ok "store" meta')) ∧
  (faulty (F := SqliteError) [] ∨
   r = if decide (bindings_coherent sample_catalog) then Ok "store"
       else Err (Corruption "bootstrap binding Session mismatch")).
Proof.
  assert (metadata_usable "fresh" "store" sample_meta) as Hm by (split; [by intros v [= <-]|reflexivity]).
  exact (reopen_iff_bindings_coherent (H := Demo.demo_kernel) true "fresh" "store" sample_meta
           sample_catalog [] sample_catalog_ok Hm).
Defined.
End OpenSample.
