(* ===== verification/CatalogWorker.v ===== *)
(** * The SQLite Catalog behind its queue

    The [Command] enum of [catalog-sqlite] and its dispatch in [run_worker], as
    the [exec] of the generic worker of [Worker.v], with the errors that a
    client sees.  Publications are immutable: no interleaving of clients and no
    failing call changes or removes what has been published. *)

From S2P Require Import Prelude Float Kernel Sql Canvas CatalogKernel Catalog CatalogSpec CatalogRefine.
From S2P Require Import Worker.

Section catalog_worker.
Context `{CatalogKernel}.

Abbreviation C := (conn CatalogDb SqliteError).
Abbreviation Error := CatalogStoreError.

(** [Command], without the reply channel and [Shutdown]. *)
Inductive CatalogCommand :=
| GetDocument (document_id : DocumentId)
| ListDocuments (session_id : SessionId)
| ListAllDocuments
| GetCanvas (canvas_id : CanvasId)
| PublishDocument (composition : DocumentComposition)
| PublishStandalone (descriptor : CanvasDescriptor)
| PublishStandaloneWithBinding (key : string) (descriptor : CanvasDescriptor)
    (binding : BootstrapBinding)
| GetBinding (key : string)
| PutBinding (key : string) (binding : BootstrapBinding).

Inductive CatalogReply :=
| DocumentReply (r : result Error (option DocumentDescriptor))
| SummariesReply (r : result Error (list DocumentSummary))
| DocumentsReply (r : result Error (list DocumentDescriptor))
| CanvasReply (r : result Error (option CanvasDescriptor))
| OutcomeReply (r : result Error CatalogPublishOutcome)
| BindingReply (r : result Error (option BootstrapBinding))
| UnitReply (r : result Error ()).

(** The arms of [run_worker]. *)
Definition exec_command (cmd : CatalogCommand) (c : C) : CatalogReply * C :=
  match cmd with
  | GetDocument id => let '(r, c') := load_document id c in (DocumentReply r, c')
  | ListDocuments session => let '(r, c') := list_documents session c in (SummariesReply r, c')
  | ListAllDocuments => let '(r, c') := list_all_documents c in (DocumentsReply r, c')
  | GetCanvas id => let '(r, c') := load_canvas id c in (CanvasReply r, c')
  | PublishDocument composition =>
      let '(r, c') := publish_document composition c in (OutcomeReply r, c')
  | PublishStandalone d => let '(r, c') := publish_standalone d c in (OutcomeReply r, c')
  | PublishStandaloneWithBinding key d b =>
      let '(r, c') := publish_standalone_with_binding key d b c in (OutcomeReply r, c')
  | GetBinding key => let '(r, c') := load_binding key c in (BindingReply r, c')
  | PutBinding key b => let '(r, c') := store_binding key b c in (UnitReply r, c')
  end.

(** The error a caller sees when its command was not answered:
    [WorkerHandle::sender], [map_send_error] and [dispatch]. *)
Definition dispatch_error (r : reply (R := CatalogReply)) : option Error :=
  match r with
  | Answer _ => None
  | StoreClosed => Some (unavailable "catalog is closed")
  | NoSender => Some (unavailable "catalog worker is unavailable")
  | QueueFull => Some (unavailable "catalog command queue is full")
  | QueueClosed => Some (unavailable "catalog worker is unavailable")
  | ResponseLost => Some (unavailable "catalog worker response was lost")
  end.

(** [Display for CatalogStoreError]; [sqlite_text] is the one of the SQLite
    error. *)
Definition error_to_string (sqlite_text : SqliteError → string) (e : Error) : string :=
  match e with
  | InvalidQueueCapacity => "catalog command queue capacity must be greater than zero"
  | Unavailable detail => "catalog backend unavailable: " +:+ detail
  | Backend error => "catalog backend failure: " +:+ sqlite_text error
  | Corruption detail => "catalog persistence corruption: " +:+ detail
  | Schema detail => "catalog schema is incompatible: " +:+ detail
  | Conflict => "catalog immutable identity conflict"
  | InvalidGraph detail => "catalog graph is invalid: " +:+ detail
  end.
(** The [map_err] of [DocumentCatalog] and [CanvasCatalog]: both error types
    carry the text. *)
Definition port_result {A} (sqlite_text : SqliteError → string) (r : result Error A)
    : result string A := map_err (error_to_string sqlite_text) r.

(** [open_with_queue_capacity]: the checks before and after the worker has
    initialized its connection. *)
Definition open_with_queue_capacity (queue_capacity : Z) (has_parent : bool)
    (quick_check : string) (fresh : EntityId) (c : C)
    : result Error (EntityId * worker (Cmd := CatalogCommand)) * C :=
  if queue_capacity =? 0 then (Err InvalidQueueCapacity, c)
  else
    match pop_fault c with
    | (Some _, c1) => (Err (unavailable "could not start catalog worker"), c1)
    | (None, c1) =>
        let '(r, c2) := initialize_storage has_parent quick_check fresh c1 in
        (id ← r; Ok (id, Worker.start (R := CatalogReply) c2), c2)
    end.
End catalog_worker.

Section grows.
Context `{CatalogKernelLaws}.
Context {KL : KernelLaws}.

Abbreviation C := (conn CatalogDb SqliteError).
Abbreviation Error := CatalogStoreError.

(** [cat'] has everything that [cat] has, in the same places. *)
Record extends (cat cat' : Catalog) : Prop := {
  ext_documents : c_documents cat `prefix_of` c_documents cat';
  ext_canvases : c_canvases cat `prefix_of` c_canvases cat';
  ext_bindings : c_bindings cat `prefix_of` c_bindings cat'
}.
#[global] Instance extends_preorder : PreOrder extends.
Proof.
  split; [by intros cat; split|]. intros a b c [] []. split; by etrans.
Qed.

Lemma find_prefix {A} (f : A → bool) l l' x :
  l `prefix_of` l' → List.find f l = Some x → List.find f l' = Some x.
Proof.
  intros [k ->]. induction l as [|y l IH]; [done|]. cbn. by destruct (f y).
Qed.
Lemma find_binding_extends key cat cat' b :
  extends cat cat' → find_binding key cat = Some b → find_binding key cat' = Some b.
Proof.
  intros [_ _ Hb]. unfold find_binding. intros (kb & Hf & Hs)%fmap_Some. by rewrite (find_prefix _ _ _ _ Hb Hf), Hs.
Qed.
Lemma find_canvas_extends id cat cat' d :
  extends cat cat' → find_canvas id cat = Some d → find_canvas id cat' = Some d.
Proof. intros [_ Hc _]. unfold find_canvas. by apply find_prefix. Qed.

(** What is added last is found, when nothing before it has its identity. *)
Lemma find_snoc {A} (f : A → bool) l x : List.find f l = None → f x = true → List.find f (l ++ [x]) = Some x.
Proof. induction l as [|y l IH]; cbn; [by intros _ ->|]. by destruct (f y). Qed.
Lemma find_binding_add key b cat : find_binding key cat = None → find_binding key (add_binding key b cat) = Some b.
Proof.
  unfold find_binding. intros Hn%fmap_None. cbn. rewrite find_snoc; [done|done|]. cbn. by apply bool_decide_eq_true_2.
Qed.
Lemma find_canvas_add cat d :
  find_canvas (canvas_canvas_id d) cat = None → find_canvas (canvas_canvas_id d) (add_canvases [d] cat) = Some d.
Proof. unfold find_canvas. intros Hn. cbn. apply find_snoc; [done|]. by apply bool_decide_eq_true_2. Qed.

Lemma add_canvases_extends ds cat : extends cat (add_canvases ds cat).
Proof. split; cbn; [done|by apply prefix_app_r|done]. Qed.
Lemma add_document_extends d cat : extends cat (add_document d cat).
Proof. split; cbn; [by apply prefix_app_r|done|done]. Qed.
Lemma add_binding_extends key b cat : extends cat (add_binding key b cat).
Proof. split; cbn; [done|done|by apply prefix_app_r]. Qed.

Lemma spec_publish_document_extends c cat : extends cat (spec_publish_document c cat).2.
Proof.
  unfold spec_publish_document. destruct (find_document _ cat); [done|]. repeat case_decide; try done.
  cbn. unfold add_composition. etrans; [apply add_canvases_extends|apply add_document_extends].
Qed.
Lemma spec_publish_standalone_extends d cat : extends cat (spec_publish_standalone d cat).2.
Proof. unfold spec_publish_standalone. destruct (find_canvas _ cat); [done|]. case_decide; [done|apply add_canvases_extends]. Qed.
Lemma spec_store_binding_extends key b cat : extends cat (spec_store_binding key b cat).2.
Proof. unfold spec_store_binding. destruct (find_binding _ cat); [done|]. case_decide; [apply add_binding_extends|done]. Qed.
Lemma spec_publish_with_binding_extends key d b cat :
  extends cat (spec_publish_with_binding key d b cat).2.
Proof.
  unfold spec_publish_with_binding. case_decide; [|done]. destruct (find_binding _ cat); [done|].
  destruct (find_canvas _ cat); case_decide; try done. cbn.
  - apply add_binding_extends.
  - etrans; [apply add_canvases_extends|apply add_binding_extends].
Qed.

(** A well-formed catalog that extends [cat] is stored. *)
Definition grown (meta : gmap string string) (cat : Catalog) (c : C) : Prop :=
  ∃ cat', holds meta c cat' ∧ catalog_ok cat' ∧ extends cat cat'.

Lemma reads_grown {A} (m : sql CatalogDb SqliteError Error A) meta cat a p :
  catalog_ok cat → reads m (tables meta cat) a → grown meta cat (m (mkConn (tables meta cat) None p)).2.
Proof.
  intros Hok Hm. exists cat. split; [|done].
  by apply (Hm (λ _ c, holds meta c cat) (tables meta cat) None p).
Qed.

Lemma follows_grown {A} meta cat (spec : result Error A * Catalog) reason r c :
  catalog_ok spec.2 → catalog_ok cat → extends cat spec.2 →
  catalog_follows meta cat spec reason r c → grown meta cat c.
Proof. intros Hs Hok He [[_ Hh]|(_ & _ & Hh)]; [by exists spec.2|by exists cat]. Qed.

Lemma exec_command_grows meta cat p cmd :
  catalog_ok cat → grown meta cat (exec_command cmd (mkConn (tables meta cat) None p)).2.
Proof.
  intros Hok. destruct cmd; cbn [exec_command].
  - pose proof (reads_grown _ meta cat _ p Hok (load_document_reads meta cat document_id Hok)).
    by destruct (load_document _ _).
  - pose proof (reads_grown _ meta cat _ p Hok (list_documents_reads meta cat session_id Hok)).
    by destruct (list_documents _ _).
  - pose proof (reads_grown _ meta cat _ p Hok (list_all_documents_reads meta cat Hok)).
    by destruct (list_all_documents _).
  - pose proof (reads_grown _ meta cat _ p Hok (load_canvas_reads meta cat canvas_id Hok)).
    by destruct (load_canvas _ _).
  - pose proof (publish_document_wp meta cat composition p Hok) as Hw. unfold sql_wp in Hw.
    destruct (publish_document _ _). eapply follows_grown; [by apply spec_publish_document_ok|done| |exact Hw].
    apply spec_publish_document_extends.
  - pose proof (publish_standalone_wp meta cat descriptor p Hok) as Hw. unfold sql_wp in Hw.
    destruct (publish_standalone _ _). eapply follows_grown; [by apply spec_publish_standalone_ok|done| |exact Hw].
    apply spec_publish_standalone_extends.
  - pose proof (publish_with_binding_wp meta cat key descriptor binding p Hok) as Hw. unfold sql_wp in Hw.
    destruct (publish_standalone_with_binding _ _ _ _).
    eapply follows_grown; [by apply spec_publish_with_binding_ok|done| |exact Hw].
    apply spec_publish_with_binding_extends.
  - pose proof (reads_grown _ meta cat _ p Hok (load_binding_reads meta cat key)).
    by destruct (load_binding _ _).
  - pose proof (store_binding_wp meta cat key binding p) as Hw. unfold sql_wp in Hw.
    destruct (store_binding _ _ _). eapply follows_grown; [by apply spec_store_binding_ok|done| |exact Hw].
    apply spec_store_binding_extends.
Qed.

Lemma run_all_grows meta cmds : ∀ cat c,
  holds meta c cat → catalog_ok cat → grown meta cat (run_all exec_command cmds c).
Proof.
  induction cmds as [|[t cmd] cmds IH]; intros cat [d w p] [Hd Hw] Hok; cbn in Hd, Hw; subst.
  - by exists cat.
  - cbn. destruct (exec_command_grows meta cat p cmd Hok) as (cat1 & Hh & Hok1 & He).
    destruct (IH cat1 _ Hh Hok1) as (cat2 & Hh2 & Hok2 & He2). exists cat2. split_and!; [done|done|by etrans].
Qed.

(** C13. Publications are permanent: after any interleaving of clients, closers
    and the worker, with any plan of failing calls, no transaction is open, the
    catalog is well-formed, and every Document, Canvas and binding that was
    there at the start is read back unchanged. *)
Theorem publications_are_permanent capacity meta cat p ls w :
  catalog_ok cat →
  wsteps exec_command capacity ls (start (mkConn (tables meta cat) None p)) = Some w →
  let db := committed (store w) in
  working (store w) = None ∧ (∃ cat', db = tables meta cat' ∧ catalog_ok cat') ∧
  (∀ id d, find_document id cat = Some d → answer_on (load_document id) db = Ok (Some d)) ∧
  (∀ id d, find_canvas id cat = Some d → answer_on (load_canvas id) db = Ok (Some d)) ∧
  (∀ key b, find_binding key cat = Some b → answer_on (load_binding key) db = Ok (Some b)).
Proof.
  intros Hok Hw%(winv_steps _ _ (mkConn (tables meta cat) None p)); [|apply winv_start].
  cbn zeta. rewrite (inv_store _ _ _ _ Hw).
  destruct (run_all_grows meta (executed w) cat (mkConn (tables meta cat) None p))
    as (cat' & [Hd Hn] & Hok' & [[x Hx] [y Hy] [z Hz]]); [done|done|]. rewrite Hd.
  split_and!; [done|by exists cat'|..].
  - intros id d Hf. rewrite (reads_answer _ _ _ (load_document_reads meta cat' id Hok')). f_equal.
    unfold find_document. rewrite Hx. by apply (find_key_app_l document_document_id).
  - intros id d Hf. rewrite (reads_answer _ _ _ (load_canvas_reads meta cat' id Hok')). f_equal.
    unfold find_canvas. rewrite Hy. by apply (find_key_app_l canvas_canvas_id).
  - intros key b Hf. rewrite (reads_answer _ _ _ (load_binding_reads meta cat' key)). f_equal.
    unfold find_binding in Hf |- *. apply fmap_Some in Hf as (kb & Hf & ->). rewrite Hz.
    by rewrite (find_key_app_l fst _ _ _ _ Hf).
Qed.
End grows.

Module WorkerSample.
Import CatalogDemo CatalogSample.

(** A client publishes a Document. *)
Definition sample_labels : list (label (Cmd := CatalogCommand)) :=
  [CheckClosed 0; CloneSender 0; TrySend 0 (PublishDocument sample_composition); Worker.Worker].
Definition sample_after : option (worker (Cmd := CatalogCommand) (R := CatalogReply)) :=
  wsteps exec_command 4 sample_labels (start (mkConn (tables ∅ empty_catalog) None [])).

(** Witness of C13. *)
Lemma publications_are_permanent_witness :
  match sample_after with
  | Some w => working (store w) = None ∧ ∃ cat', committed (store w) = tables ∅ cat' ∧ catalog_ok cat'
  | None => False
  end.
Proof.
  assert (match sample_after with Some _ => true | None => false end = true) as Hsome
    by (vm_compute; reflexivity).
  destruct sample_after as [w|] eqn:Hw; [|discriminate Hsome]. unfold sample_after in Hw.
  destruct (publications_are_permanent (H := Demo.demo_kernel) 4 ∅ empty_catalog [] sample_labels w
              empty_catalog_ok Hw) as (Hn & Hc & _).
  split; [exact Hn|exact Hc].
Defined.
End WorkerSample.
