(* ===== verification/StoreCalls.v ===== *)
(** * The methods of the stores

    The public methods of [SQLiteEventStore] and [SQLiteCatalogStore] as typed
    calls over the command queue ([WorkerApi.v]): the command that each method
    sends, the reply that it awaits, and that the worker answers with the
    method's own operation.  What a client was told is then what every later
    client reads: an appended event keeps its cursor, a published graph is
    found. *)

From S2P Require Import Prelude Float Kernel Sql EventStore EventLog EventReplay Worker WorkerApi EventWorker.
From S2P Require Import Canvas CatalogKernel Catalog CatalogSpec CatalogRefine CatalogWorker.

(** ** [impl EventStore for SQLiteEventStore] *)

Section events.
Context `{Kernel, !KernelLaws} (store_id epoch : EntityId).

Abbreviation Error := (StorageError EventId).
Abbreviation C := (conn EventDb SqliteError).

Inductive EventMethod : Type → Type :=
| event_capture_checkpoint : EventMethod EventStoreCheckpoint
| event_append (event : Event) : EventMethod StoredEvent
| event_get (event_id : EventId) : EventMethod (option StoredEvent)
| event_query (query : EventQuery) : EventMethod EventPage.

(** [dispatch_capture], [dispatch_append], [dispatch_get], [dispatch_query]:
    the command. *)
Definition event_command {A} (m : EventMethod A) : EventCommand :=
  match m with
  | event_capture_checkpoint => CaptureCheckpoint
  | event_append event => Append event
  | event_get event_id => Get event_id
  | event_query query => Query query
  end.

(** The type of the one-shot sender in the command. *)
Definition event_reply {A} (m : EventMethod A) : result Error A → EventReply :=
  match m in EventMethod A return result Error A → EventReply with
  | event_capture_checkpoint => CheckpointReply
  | event_append _ => AppendReply
  | event_get _ => GetReply
  | event_query _ => QueryReply
  end.
Definition event_receive {A} (m : EventMethod A) (r : EventReply) : option (result Error A) :=
  match m in EventMethod A return option (result Error A) with
  | event_capture_checkpoint => match r with CheckpointReply x => Some x | _ => None end
  | event_append _ => match r with AppendReply x => Some x | _ => None end
  | event_get _ => match r with GetReply x => Some x | _ => None end
  | event_query _ => match r with QueryReply x => Some x | _ => None end
  end.

Definition event_run {A} (m : EventMethod A) : C → result Error A * C :=
  match m in EventMethod A return C → result Error A * C with
  | event_capture_checkpoint => capture_checkpoint store_id epoch
  | event_append event => append_event store_id event epoch
  | event_get event_id => get_event store_id event_id epoch
  | event_query query => query_events store_id query epoch
  end.

Definition event_api : StoreApi EventCommand EventReply C Error := {|
  Method := EventMethod;
  method_command := @event_command;
  method_run := @event_run;
  method_reply := @event_reply;
  method_read := @event_receive;
  unanswered := EventWorker.dispatch_error
|}.
#[local] Existing Instance event_api.

#[local] Instance event_api_laws : StoreApiLaws EventCommand EventReply C Error (EventWorker.exec_command store_id epoch).
Proof.
  split.
  - intros A m s. by destruct m; cbn; case_match.
  - by intros A [] r.
  - intros []; cbn; eauto.
Qed.

(** The entry of an event keeps its position while the log grows. *)
Lemma log_find_prefix id log log' ie :
  log `prefix_of` log' → log_find id log = Some ie → log_find id log' = Some ie.
Proof. intros [k ->]. apply find_prefix. unfold indexed. rewrite imap_app. by eexists. Qed.

(** A successful append leaves its event in the log, at the cursor it answered. *)
Lemma append_answers c log e stored :
  sqlite_holds c log → (append_event store_id e epoch c).1 = Ok stored →
  ∃ log' ie, sqlite_holds (append_event store_id e epoch c).2 log' ∧
             log_find (event_id e) log' = Some ie ∧ ie.2 = e ∧ stored = stored_at store_id epoch ie.
Proof.
  intros Hc Hr. pose proof (sqlite_port_laws store_id epoch) as Hlaws.
  destruct (law_append (EventStorePortLaws := Hlaws) c log e Hc) as [_ [(Hb & _)|(Hs & Hh)]]; cbn in *.
  { destruct Hb as (x & [Hb|Hb]); rewrite Hr in Hb; discriminate Hb. }
  rewrite Hr in Hs. revert Hs Hh. unfold spec_append. destruct (log_find _ log) as [[i e']|] eqn:Hf; cbn.
  - case_decide as He; [|done]. subst e'. intros [= ->] Hh. by exists log, (i, e).
  - intros [= ->] Hh. exists (log ++ [e]), (Z.of_nat (length log), e). split_and!; try done.
    unfold log_find. rewrite indexed_snoc. apply find_snoc; [done|]. by apply bool_decide_eq_true_2.
Qed.
Lemma get_answers c log id found :
  sqlite_holds c log → (get_event store_id id epoch c).1 = Ok found → found = spec_get store_id epoch id log.
Proof.
  intros Hc Hr. pose proof (sqlite_port_laws store_id epoch) as Hlaws.
  destruct (law_get (EventStorePortLaws := Hlaws) c log id Hc) as [_ [(Hb & _)|(Hs & Hh)]]; cbn in *.
  { destruct Hb as (x & [Hb|Hb]); rewrite Hr in Hb; discriminate Hb. }
  rewrite Hr in Hs. by injection Hs.
Qed.

(** C14. Read your writes: in any interleaving of clients, closers and the
    worker and with any plan of failing calls, when [append] has returned a
    [StoredEvent] to one client, every [get] of that event that begins later
    and succeeds returns that [StoredEvent], with the same cursor and event. *)
Theorem appended_event_is_read capacity db p log ls1 w1 ls2 w2 a e stored b found :
  represents db log →
  wsteps (EventWorker.exec_command store_id epoch) capacity ls1 (start (mkConn db None p)) = Some w1 →
  returned w1 a (event_append e) (Ok stored) → clients w1 !! b = None →
  wsteps (EventWorker.exec_command store_id epoch) capacity ls2 w1 = Some w2 →
  returned w2 b (event_get (event_id e)) (Ok found) →
  found = Some stored ∧ stored_event_of stored = e.
Proof.
  intros Hrep Hs1 Ha Hb Hs2 Hg.
  destruct (returned_in_order (EventWorker.exec_command store_id epoch) capacity _ _ _ _ _ _ _ _ _ _ _ Hs1 Ha Hb Hs2 Hg)
    as (pre & mid & Hx & Hy). cbn [method_run event_api event_run] in Hx, Hy.
  destruct (run_all_log store_id epoch pre (mkConn db None p) log) as (log1 & Hh1 & _); [by split|].
  destruct (append_answers _ _ _ _ Hh1 Hx) as (log2 & ie & Hh2 & Hf & <- & ->).
  destruct (run_all_log store_id epoch mid _ _ Hh2) as (log3 & Hh3 & Hp).
  rewrite (get_answers _ _ _ _ Hh3 Hy). unfold spec_get. rewrite (log_find_prefix _ _ _ _ Hp Hf).
  split; [done|]. unfold stored_at. by rewrite stored_event_of_new.
Qed.
End events.

(** ** The methods of [SQLiteCatalogStore] *)

Section catalog.
Context `{CatalogKernel}.

Abbreviation Error := CatalogStoreError.
Abbreviation C := (conn CatalogDb SqliteError).

Inductive CatalogMethod : Type → Type :=
| catalog_publish_document (composition : DocumentComposition) : CatalogMethod CatalogPublishOutcome
| catalog_list_all_documents : CatalogMethod (list DocumentDescriptor)
| catalog_publish_standalone_canvas (descriptor : CanvasDescriptor) : CatalogMethod CatalogPublishOutcome
| catalog_publish_standalone_canvas_with_binding (key : string) (descriptor : CanvasDescriptor)
    (binding : BootstrapBinding) : CatalogMethod CatalogPublishOutcome
| catalog_get_bootstrap_binding (key : string) : CatalogMethod (option BootstrapBinding)
| catalog_put_bootstrap_binding (key : string) (binding : BootstrapBinding) : CatalogMethod ()
| catalog_get_document (document_id : DocumentId) : CatalogMethod (option DocumentDescriptor)
| catalog_list_documents (session_id : SessionId) : CatalogMethod (list DocumentSummary)
| catalog_get_canvas (canvas_id : CanvasId) : CatalogMethod (option CanvasDescriptor).

Definition catalog_command {A} (m : CatalogMethod A) : CatalogCommand :=
  match m with
  | catalog_publish_document composition => PublishDocument composition
  | catalog_list_all_documents => ListAllDocuments
  | catalog_publish_standalone_canvas descriptor => PublishStandalone descriptor
  | catalog_publish_standalone_canvas_with_binding key descriptor binding =>
      PublishStandaloneWithBinding key descriptor binding
  | catalog_get_bootstrap_binding key => GetBinding key
  | catalog_put_bootstrap_binding key binding => PutBinding key binding
  | catalog_get_document document_id => GetDocument document_id
  | catalog_list_documents session_id => ListDocuments session_id
  | catalog_get_canvas canvas_id => GetCanvas canvas_id
  end.

(** The type of the one-shot sender in the command. *)
Definition catalog_reply {A} (m : CatalogMethod A) : result Error A → CatalogReply :=
  match m in CatalogMethod A return result Error A → CatalogReply with
  | catalog_publish_document _ | catalog_publish_standalone_canvas _
  | catalog_publish_standalone_canvas_with_binding _ _ _ => OutcomeReply
  | catalog_list_all_documents => DocumentsReply
  | catalog_get_bootstrap_binding _ => BindingReply
  | catalog_put_bootstrap_binding _ _ => UnitReply
  | catalog_get_document _ => DocumentReply
  | catalog_list_documents _ => SummariesReply
  | catalog_get_canvas _ => CanvasReply
  end.
Definition catalog_receive {A} (m : CatalogMethod A) (r : CatalogReply) : option (result Error A) :=
  match m in CatalogMethod A return option (result Error A) with
  | catalog_publish_document _ | catalog_publish_standalone_canvas _
  | catalog_publish_standalone_canvas_with_binding _ _ _ => match r with OutcomeReply x => Some x | _ => None end
  | catalog_list_all_documents => match r with DocumentsReply x => Some x | _ => None end
  | catalog_get_bootstrap_binding _ => match r with BindingReply x => Some x | _ => None end
  | catalog_put_bootstrap_binding _ _ => match r with UnitReply x => Some x | _ => None end
  | catalog_get_document _ => match r with DocumentReply x => Some x | _ => None end
  | catalog_list_documents _ => match r with SummariesReply x => Some x | _ => None end
  | catalog_get_canvas _ => match r with CanvasReply x => Some x | _ => None end
  end.

Definition catalog_run {A} (m : CatalogMethod A) : C → result Error A * C :=
  match m in CatalogMethod A return C → result Error A * C with
  | catalog_publish_document composition => publish_document composition
  | catalog_list_all_documents => list_all_documents
  | catalog_publish_standalone_canvas descriptor => publish_standalone descriptor
  | catalog_publish_standalone_canvas_with_binding key descriptor binding =>
      publish_standalone_with_binding key descriptor binding
  | catalog_get_bootstrap_binding key => load_binding key
  | catalog_put_bootstrap_binding key binding => store_binding key binding
  | catalog_get_document document_id => load_document document_id
  | catalog_list_documents session_id => list_documents session_id
  | catalog_get_canvas canvas_id => load_canvas canvas_id
  end.

#[local] Instance catalog_api : StoreApi CatalogCommand CatalogReply C Error := {|
  Method := CatalogMethod;
  method_command := @catalog_command;
  method_run := @catalog_run;
  method_reply := @catalog_reply;
  method_read := @catalog_receive;
  unanswered := CatalogWorker.dispatch_error
|}.

#[local] Instance catalog_api_laws : StoreApiLaws CatalogCommand CatalogReply C Error CatalogWorker.exec_command.
Proof.
  split.
  - intros A m s. by destruct m; cbn; case_match.
  - by intros A [] r.
  - intros []; cbn; eauto.
Qed.

Context {CKL : CatalogKernelLaws} {KL : KernelLaws}.

Lemma find_document_extends id cat cat' d :
  extends cat cat' → find_document id cat = Some d → find_document id cat' = Some d.
Proof. intros [Hd _ _]. unfold find_document. by apply find_prefix. Qed.
Lemma stored_canvases_extends ds cat cat' fs :
  extends cat cat' → stored_canvases ds cat = Some fs → stored_canvases ds cat' = Some fs.
Proof.
  unfold stored_canvases. rewrite !mapM_Some. intros He Hs.
  eapply Forall2_impl; [exact Hs|]. intros d f. by apply find_canvas_extends.
Qed.
Lemma stores_graph_extends cat cat' c : extends cat cat' → stores_graph cat c → stores_graph cat' c.
Proof.
  intros He [Hd Hc]. split; [by eapply find_document_extends|by eapply stored_canvases_extends].
Qed.

(** A read that succeeds gives what the catalog has. *)
Lemma reads_returns {A} (m : sql CatalogDb SqliteError Error A) meta cat p v y :
  reads m (tables meta cat) (Ok v) → (m (mkConn (tables meta cat) None p)).1 = Ok y → y = v.
Proof.
  intros Hm Hy.
  assert (sql_wp m (λ r _, ∀ y, r = Ok y → y = v) (mkConn (tables meta cat) None p)) as Hwp
    by (apply Hm; [done|by intros e p' _ y' Hy'|by intros p' _ y' [= ->]]).
  by apply Hwp.
Qed.

(** A publication that succeeds leaves its graph in the catalog. *)
Lemma publish_answers meta cat conn c o :
  holds meta conn cat → catalog_ok cat → (publish_document c conn).1 = Ok o →
  ∃ cat', holds meta (publish_document c conn).2 cat' ∧ catalog_ok cat' ∧ extends cat cat' ∧ stores_graph cat' c.
Proof.
  destruct conn as [d w p]. intros [Hd Hw] Hok Hx. cbn in Hd, Hw. subst.
  pose proof (publish_document_wp meta cat c p Hok) as Hwp. unfold sql_wp in Hwp.
  destruct (publish_document c _) as [r conn]. cbn in Hx |- *. subst r.
  destruct Hwp as [[Hr Hh]|(_ & [e He] & _)]; [|done].
  eexists. split; [exact Hh|]. split_and!; [by apply spec_publish_document_ok|apply spec_publish_document_extends|].
  by eapply published_stores_graph.
Qed.

(** What a client of the queue meets after a publication has returned. *)
Lemma published_then {B} capacity meta cat p ls1 w1 ls2 w2 a c o b (n : CatalogMethod B) y :
  catalog_ok cat →
  wsteps CatalogWorker.exec_command capacity ls1 (start (mkConn (tables meta cat) None p)) = Some w1 →
  returned w1 a (catalog_publish_document c) (Ok o) → clients w1 !! b = None →
  wsteps CatalogWorker.exec_command capacity ls2 w1 = Some w2 → returned w2 b n (Ok y) →
  ∃ cat' p', catalog_ok cat' ∧ stores_graph cat' c ∧ (catalog_run n (mkConn (tables meta cat') None p')).1 = Ok y.
Proof.
  intros Hok Hs1 Ha Hb Hs2 Hn.
  destruct (returned_in_order CatalogWorker.exec_command capacity _ _ _ _ _ _ _ _ _ _ _ Hs1 Ha Hb Hs2 Hn)
    as (pre & mid & Hx & Hy). cbn [method_run catalog_api catalog_run] in Hx, Hy.
  destruct (run_all_grows meta pre cat (mkConn (tables meta cat) None p)) as (cat1 & Hh1 & Hok1 & _); [done|done|].
  destruct (publish_answers _ _ _ _ _ Hh1 Hok1 Hx) as (cat2 & Hh2 & Hok2 & _ & Hst).
  destruct (run_all_grows meta mid _ _ Hh2 Hok2) as (cat3 & [Hd3 Hw3] & Hok3 & He3).
  destruct (run_all CatalogWorker.exec_command mid _) as [d3 wk3 p3]. cbn in Hd3, Hw3. subst.
  exists cat3, p3. split_and!; [done|by eapply stores_graph_extends|done].
Qed.

(** C15. A publication that has returned is visible to every later call: in any
    interleaving of clients, closers and the worker and with any plan of
    failing calls, a later [get_document] and [get_canvas] that succeed return
    the Document and each of its Canvases, [list_all_documents] lists the
    Document, and a second publication of the same graph answers [Existing]. *)
Theorem published_document_is_read capacity meta cat p ls1 w1 ls2 w2 a c o b :
  catalog_ok cat →
  wsteps CatalogWorker.exec_command capacity ls1 (start (mkConn (tables meta cat) None p)) = Some w1 →
  returned w1 a (catalog_publish_document c) (Ok o) → clients w1 !! b = None →
  wsteps CatalogWorker.exec_command capacity ls2 w1 = Some w2 →
  (∀ found, returned w2 b (catalog_get_document (document_document_id (composition_document c))) (Ok found) →
     found = Some (composition_document c)) ∧
  (∀ d found, d ∈ page_canvases c → returned w2 b (catalog_get_canvas (canvas_canvas_id d)) (Ok found) →
     found = Some d) ∧
  (∀ ds, returned w2 b catalog_list_all_documents (Ok ds) → composition_document c ∈ ds) ∧
  (∀ o', returned w2 b (catalog_publish_document c) (Ok o') → o' = Existing).
Proof.
  intros Hok Hs1 Ha Hb Hs2.
  split_and!; [intros y Hn|intros d y Hd Hn|intros y Hn|intros y Hn];
    destruct (published_then _ _ _ _ _ _ _ _ _ _ _ _ _ _ Hok Hs1 Ha Hb Hs2 Hn)
      as (cat' & p' & Hok' & [Hdoc Hcan] & Hy); cbn [catalog_run] in Hy.
  - rewrite <- Hdoc. exact (reads_returns _ _ _ _ _ _ (load_document_reads meta cat' _ Hok') Hy).
  - rewrite <- (stored_canvases_find _ _ _ Hcan eq_refl d Hd).
    exact (reads_returns _ _ _ _ _ _ (load_canvas_reads meta cat' _ Hok') Hy).
  - rewrite (reads_returns _ _ _ _ _ _ (list_all_documents_reads meta cat' Hok') Hy).
    by apply find_document_Some in Hdoc as [Hin _].
  - pose proof (publish_document_wp meta cat' c p' Hok') as Hwp. unfold sql_wp in Hwp.
    rewrite stores_graph_republish in Hwp by done. destruct (publish_document c _) as [r conn]. cbn in Hy, Hwp. subst r.
    destruct Hwp as [[[= ->] _]|(_ & [e He] & _)]; done.
Qed.
End catalog.

(** ** Concrete runs *)

(** The labels of one call that the worker answers at once. *)
Definition one_call {Cmd} (t : nat) (c : Cmd) : list (label (Cmd := Cmd)) :=
  [CheckClosed t; CloneSender t; TrySend t c; Worker.Worker].

Module EventCalls.
#[local] Existing Instances Demo.demo_kernel Demo.demo_laws.
Abbreviation EStart := (start (R := EventReply) (mkConn demo_db None [])).
Abbreviation erun := (wsteps (EventWorker.exec_command (H := Demo.demo_kernel) "store" "epoch") 3).

(** One client appends, then another asks for the event. *)
Definition e1 : Event := demo_event "e9" "b".
Definition after_append : worker := default EStart (erun (one_call 0 (Append e1)) EStart).
Definition after_get : worker := default EStart (erun (one_call 1 (Get (event_id e1))) after_append).
Definition e1_stored : StoredEvent := stored_at "store" "epoch" (Z.of_nat (length demo_log), e1).

(** Witness of C14. *)
Lemma appended_event_is_read_witness :
  Some e1_stored = Some e1_stored ∧ stored_event_of e1_stored = e1.
Proof.
  apply (appended_event_is_read (H := Demo.demo_kernel) "store" "epoch" 3 demo_db [] demo_log
           (one_call 0 (Append e1)) after_append (one_call 1 (Get (event_id e1))) after_get 0 e1 e1_stored 1).
  - exact demo_represents.
  - reflexivity.
  - split; [intros c Hc|]. { apply list_elem_of_singleton in Hc. by injection Hc. }
    eexists. split; reflexivity.
  - reflexivity.
  - reflexivity.
  - split; [intros c Hc|eexists; split; reflexivity].
    apply elem_of_cons in Hc as [Hc|Hc%list_elem_of_singleton]; [discriminate Hc|by injection Hc].
Defined.
End EventCalls.

Module CatalogCalls.
Import CatalogDemo CatalogSample.
Abbreviation CStart := (start (R := CatalogReply) (mkConn (tables ∅ empty_catalog) None [])).
Abbreviation crun := (wsteps CatalogWorker.exec_command 3).
Abbreviation publication := (catalog_publish_document sample_composition).
Abbreviation reading := (catalog_get_document (document_document_id (composition_document sample_composition))).

(** One client publishes, then another reads. *)
Definition after_publish : worker := default CStart (crun (one_call 0 (catalog_command publication)) CStart).
Definition after_read : worker := default CStart (crun (one_call 1 (catalog_command reading)) after_publish).

Lemma publish_returned : returned (StoreApi0 := catalog_api) after_publish 0 publication (Ok Inserted).
Proof.
  split; [intros c Hc|eexists; split; reflexivity].
  apply list_elem_of_singleton in Hc. by injection Hc.
Qed.
Lemma read_returned : returned (StoreApi0 := catalog_api) after_read 1 reading (Ok (Some (composition_document sample_composition))).
Proof.
  split; [intros c Hc|eexists; split; reflexivity].
  apply elem_of_cons in Hc as [Hc|Hc%list_elem_of_singleton]; [discriminate Hc|by injection Hc].
Qed.

(** Witness of C15. *)
Lemma published_document_is_read_witness :
  Some (composition_document sample_composition) = Some (composition_document sample_composition).
Proof.
  apply (published_document_is_read (H := Demo.demo_kernel) 3 ∅ empty_catalog []
           (one_call 0 (catalog_command publication)) after_publish
           (one_call 1 (catalog_command reading)) after_read 0 sample_composition Inserted 1).
  - exact empty_catalog_ok.
  - reflexivity.
  - exact publish_returned.
  - reflexivity.
  - reflexivity.
  - exact read_returned.
Defined.

(** An instance. *)
Lemma calls_are_atomic_witness :
  ∃ answer, dispatch (StoreApi0 := catalog_api) publication (Answer (OutcomeReply (Ok Inserted))) = Some answer ∧
    ((∃ e, unanswered (StoreApi := catalog_api) (Answer (OutcomeReply (Ok Inserted))) = Some e ∧ answer = Err e) ∨
     ∃ pre post, executed after_publish = pre ++ (0%nat, method_command (StoreApi := catalog_api) publication) :: post ∧
       answer = (method_run (StoreApi := catalog_api) publication
                   (run_all CatalogWorker.exec_command pre (mkConn (tables ∅ empty_catalog) None []))).1).
Proof.
  apply (calls_are_atomic (StoreApi0 := catalog_api) CatalogWorker.exec_command (StoreApiLaws0 := catalog_api_laws) 3
           (mkConn (tables ∅ empty_catalog) None []) (one_call 0 (catalog_command publication)) after_publish 0 publication).
  - reflexivity.
  - exact (proj1 publish_returned).
  - reflexivity.
Defined.
End CatalogCalls.
