(* ===== verification/Http.v ===== *)
(** * One Asset HTTP connection

    Models [orbitrelay-server/src/asset_delivery/http.rs]: reading and parsing
    one request, the decisions of [handle_connection], writing a response head
    and streaming the body.  A TCP stream is the list of what its reads return;
    what is written is a list of bytes.  Semaphore permits, timeouts,
    cancellation and failing writes are explicit inputs here; the accept loop with
    its semaphores is in [AssetListener.v]. *)

From S2P Require Import Prelude Kernel Range Base64 Grant.

(** ** Text *)

(** [std::str::from_utf8] succeeds: RFC 3629, no surrogates, no overlong form. *)
Definition is_cont (c : ascii) : bool := in_byte_range 0x80 0xBF c.
Fixpoint utf8_valid (s : string) : bool :=
  match s with
  | EmptyString => true
  | String a s1 =>
      let x := byte_of a in
      if x <? 0x80 then utf8_valid s1 else
      match s1 with
      | EmptyString => false
      | String b s2 =>
          if (0xC2 <=? x) && (x <=? 0xDF) then is_cont b && utf8_valid s2 else
          match s2 with
          | EmptyString => false
          | String c s3 =>
              if (0xE0 <=? x) && (x <=? 0xEF) then
                in_byte_range (if x =? 0xE0 then 0xA0 else 0x80) (if x =? 0xED then 0x9F else 0xBF) b
                && is_cont c && utf8_valid s3
              else
              match s3 with
              | EmptyString => false
              | String d s4 =>
                  (0xF0 <=? x) && (x <=? 0xF4) &&
                  in_byte_range (if x =? 0xF0 then 0x90 else 0x80) (if x =? 0xF4 then 0x8F else 0xBF) b
                  && is_cont c && is_cont d && utf8_valid s4
              end
          end
      end
  end.

(** [str::split_once] and [str::split] with a string. *)
Fixpoint split_once_str (sep s : string) : option (string * string) :=
  match strip_prefix sep s with
  | Some r => Some (EmptyString, r)
  | None =>
      match s with
      | EmptyString => None
      | String a s' => '(l, r) ← split_once_str sep s'; Some (String a l, r)
      end
  end.
Fixpoint split_str_fuel (fuel : nat) (sep s : string) : list string :=
  match fuel with
  | O => [s]
  | S f => match split_once_str sep s with
           | Some (l, r) => l :: split_str_fuel f sep r
           | None => [s]
           end
  end.
(** A non-empty separator occurs at most as often as there are bytes. *)
Definition split_str (sep s : string) : list string := split_str_fuel (str_len s) sep s.

(** [str::split_whitespace]: [cur] is the token being read. *)
Definition push_token (cur : string) (l : list string) : list string :=
  if str_is_empty cur then l else cur :: l.
Fixpoint split_ws_fuel (fuel : nat) (cur s : string) : list string :=
  match fuel, s with
  | S f, String a s' =>
      match ws_head s with
      | Some n => push_token cur (split_ws_fuel f EmptyString (str_drop n s))
      | None => split_ws_fuel f (cur +:+ String a EmptyString) s'
      end
  | _, _ => push_token cur []
  end.
Definition split_whitespace (s : string) : list string := split_ws_fuel (str_len s) EmptyString s.

(** [str::eq_ignore_ascii_case] *)
Definition eq_ignore_ascii_case (a b : string) : bool :=
  bool_decide (to_ascii_lowercase a = to_ascii_lowercase b).

Definition CR : ascii := ascii_of_N 13.
Definition LF : ascii := ascii_of_N 10.
Definition CRLF : string := String CR (String LF EmptyString).

(** ** Requests *)

Definition MAX_HEADER_BYTES : Z := 16 * 1024.

Inductive HttpTaskError := ErrRequest | ErrBackend.

Record HttpRequest := mkRequest {
  method : string;
  target : string;
  req_headers : gmap string string
}.

(** What one [stream.read] returns: some bytes (none at the end of the
    stream), an error, or nothing before the idle timeout. *)
Inductive read_result := ReadBytes (s : string) | ReadFailed | ReadTimeout.

(** The read loop of [read_request]. *)
Fixpoint read_head (reads : list read_result) (buffer : string) : result HttpTaskError string :=
  if MAX_HEADER_BYTES <=? Z.of_nat (str_len buffer) then Err ErrRequest else
  match reads with
  | ReadBytes chunk :: rest =>
      if str_is_empty chunk then Err ErrRequest else
      let buffer := buffer +:+ chunk in
      if bool_decide (is_Some (split_once_str (CRLF +:+ CRLF) buffer)) then Ok buffer
      else read_head rest buffer
  | _ => Err ErrRequest
  end.

(** The [for line in lines] loop of [read_request]. *)
Fixpoint parse_headers (lines : list string) (headers : gmap string string)
    : result HttpTaskError (gmap string string) :=
  match lines with
  | [] => Ok headers
  | line :: rest =>
      '(name, value) ← ok_or ErrRequest (split_once ":"%char line);
      if str_is_empty name || str_contains CR value || str_contains LF value then Err ErrRequest else
      parse_headers rest (<[to_ascii_lowercase (trim name) := trim value]> headers)
  end.

(** [read_request] after the read loop. *)
Definition parse_request (buffer : string) : result HttpTaskError HttpRequest :=
  if negb (utf8_valid buffer) then Err ErrRequest else
  head ← ok_or ErrRequest (List.hd_error (split_str (CRLF +:+ CRLF) buffer));
  match split_str CRLF head with
  | [] => Err ErrRequest
  | request_line :: lines =>
      match split_whitespace request_line with
      | [m; t; version] =>
          if negb (starts_with "HTTP/1." version) then Err ErrRequest else
          headers ← parse_headers lines ∅;
          match headers !! "content-length" with
          | Some value => if bool_decide (value = "0") then Ok (mkRequest m t headers)
                          else Err ErrRequest
          | None => Ok (mkRequest m t headers)
          end
      | _ => Err ErrRequest
      end
  end.

(** [read_request] *)
Definition read_request (reads : list read_result) : result HttpTaskError HttpRequest :=
  buffer ← read_head reads EmptyString; parse_request buffer.

(** [bearer_token] *)
Definition bearer_token (value : option string) : option string :=
  value ← value;
  '(scheme, token) ← split_once " "%char value;
  if negb (eq_ignore_ascii_case scheme "Bearer") || str_is_empty token || has_whitespace token
  then None else Some token.

(** ** Responses *)

Abbreviation header := (string * string)%type.

(** [base_headers] *)
Definition quote_char : ascii := ascii_of_N 34.
Definition base_headers (media : string) (length : Z) (hash : string) : list header :=
  [("Content-Type", media); ("Content-Length", show_u64 length); ("Accept-Ranges", "bytes");
   ("ETag", String quote_char ("sha256-" +:+ hash +:+ String quote_char EmptyString));
   ("Connection", "close")].

(** [cors_headers] *)
Definition cors_headers (origin : option string) : list header :=
  match origin with
  | None => []
  | Some origin =>
      [("Access-Control-Allow-Origin", origin);
       ("Access-Control-Allow-Methods", "GET, HEAD, OPTIONS");
       ("Access-Control-Allow-Headers", "Authorization, Range");
       ("Access-Control-Expose-Headers", "Content-Length, Content-Range, ETag, Accept-Ranges");
       ("Vary", "Origin")]
  end.

(** [reason] *)
Definition reason (status : Z) : string :=
  match status with
  | 200 => "OK" | 204 => "No Content" | 206 => "Partial Content" | 400 => "Bad Request"
  | 401 => "Unauthorized" | 403 => "Forbidden" | 404 => "Not Found"
  | 405 => "Method Not Allowed" | 416 => "Range Not Satisfiable" | 503 => "Service Unavailable"
  | _ => "Internal Server Error"
  end.

(** The header loop of [write_response]: a value with a line break is refused. *)
Fixpoint push_headers (headers : list header) (response : string) : result HttpTaskError string :=
  match headers with
  | [] => Ok response
  | (name, value) :: rest =>
      if str_contains CR value || str_contains LF value then Err ErrRequest
      else push_headers rest (response +:+ name +:+ ": " +:+ value +:+ CRLF)
  end.
(** The text that [write_response] sends before the body. *)
Definition response_head (status : Z) (headers : list header) : result HttpTaskError string :=
  response ← push_headers headers ("HTTP/1.1 " +:+ show_u64 status +:+ " " +:+ reason status +:+ CRLF);
  Ok (response +:+ CRLF).

Fixpoint bytes_of (s : string) : list Z :=
  match s with EmptyString => [] | String a s' => byte_of a :: bytes_of s' end.

(** [write_response]: [write_ok n] tells whether the [n]-th write of the
    connection succeeds before its timeout.  The result carries the bytes that
    have been written. *)
Definition write_response (write_ok : nat → bool) (status : Z) (headers : list header)
    (body : option (list Z)) : result HttpTaskError () * list Z :=
  match response_head status headers with
  | Err e => (Err e, [])
  | Ok head =>
      if negb (write_ok 0%nat) then (Err ErrRequest, []) else
      match body with
      | None => (Ok (), bytes_of head)
      | Some body =>
          if negb (write_ok 1%nat) then (Err ErrRequest, bytes_of head)
          else (Ok (), bytes_of head ++ body)
      end
  end.

(** The headers and body of [write_simple_response]. *)
Definition simple_headers (message : string) (extra : list header) : list header :=
  [("Content-Type", "text/plain; charset=utf-8");
   ("Content-Length", show_u64 (Z.of_nat (str_len message) + 1)); ("Connection", "close")] ++ extra.
Definition write_simple_response (write_ok : nat → bool) (status : Z) (message : string)
    (extra : list header) : result HttpTaskError () * list Z :=
  write_response write_ok status (simple_headers message extra) (Some (bytes_of message ++ [10])).

(** ** The connection handler *)

Section handler.
Context `{Kernel, !KernelLaws} {AK : AssetKernel} {AL : AssetKernelLaws}.

(** What [handle_connection] decides to send. *)
Inductive response :=
| Simple (status : Z) (message : string) (extra : list header)
| HeadOnly (status : Z) (headers : list header)
| Stream (status : Z) (headers : list header) (asset : AssetId) (start len : Z).

(** The surroundings of one request: the allowed origins, the grant registry
    and the clock, the Asset catalog, and whether a download permit is free. *)
Record surroundings := mkSurroundings {
  allowed_origins : list string;
  issuer : AssetAccessGrantIssuer;
  now : Timestamp;
  get_asset : AssetId → result () (option SourceAssetDescriptor);
  download_permit : bool
}.

(** The part of [handle_connection] after the Asset has been found, for [GET]:
    the range, the permit, and the head of the response. *)
Definition respond_get (env : surroundings) (request : HttpRequest) (origin : option string)
    (asset_id : AssetId) (asset : SourceAssetDescriptor) : response :=
  let resolved := match req_headers request !! "range" with
                  | None => Ok None
                  | Some value => parse_range value (byte_length asset)
                  end in
  match resolved with
  | Err Malformed => Simple 400 "bad range" []
  | Err _ => Simple 416 "range not satisfiable"
               [("Content-Range", "bytes */" +:+ show_u64 (byte_length asset))]
  | Ok resolved =>
      let '(status, start, len, content_range) :=
        match resolved with
        | None => (200, 0, byte_length asset, None)
        | Some range =>
            (206, range_start range, range_length range,
             Some ("bytes " +:+ show_u64 (range_start range) +:+ "-" +:+ show_u64 (range_end range)
                   +:+ "/" +:+ show_u64 (byte_length asset)))
        end in
      let range_header := match content_range with
                          | Some value => [("Content-Range", value)]
                          | None => []
                          end in
      if 0 <? len then
        if negb (download_permit env) then Simple 503 "server busy" [] else
        Stream status (base_headers (media_type asset) len (to_text (content_hash asset))
                       ++ range_header ++ cors_headers origin) asset_id start len
      else
        HeadOnly status (base_headers (media_type asset) 0 (to_text (content_hash asset))
                         ++ range_header ++ cors_headers origin)
  end.

(** The checks of [handle_connection], in their order; the registry is the one
    after [validate]. *)
Definition respond (env : surroundings) (request : HttpRequest) : response * AssetAccessGrantIssuer :=
  let origin := req_headers request !! "origin" in
  if match origin with
     | Some o => negb (bool_decide (o ∈ allowed_origins env))
     | None => false
     end then (Simple 403 "forbidden" [], issuer env) else
  if bool_decide (method request = "OPTIONS") then
    (HeadOnly 204 (cors_headers origin ++ [("Content-Length", "0")]), issuer env) else
  if negb (bool_decide (method request = "GET")) && negb (bool_decide (method request = "HEAD"))
  then (Simple 405 "method not allowed" [], issuer env) else
  if str_contains "?"%char (target request) || str_contains "#"%char (target request)
  then (Simple 400 "bad request" [], issuer env) else
  match strip_prefix "/assets/" (target request) with
  | None => (Simple 404 "not found" [], issuer env)
  | Some asset_text =>
      if str_is_empty asset_text || str_contains "/"%char asset_text
      then (Simple 400 "bad request" [], issuer env) else
      match of_text asset_text with
      | None => (Simple 400 "bad request" [], issuer env)
      | Some asset_id =>
          match bearer_token (req_headers request !! "authorization") with
          | None => (Simple 401 "unauthorized" [], issuer env)
          | Some token =>
              match validate sha256 (issuer env) (now env) token asset_id with
              | (Err _, st) => (Simple 401 "unauthorized" [], st)
              | (Ok _, st) =>
                  match get_asset env asset_id with
                  | Err _ => (Simple 503 "service unavailable" [], st)
                  | Ok None => (Simple 404 "not found" [], st)
                  | Ok (Some asset) =>
                      if str_contains CR (media_type asset) || str_contains LF (media_type asset)
                      then (Simple 500 "internal server error" [], st) else
                      if bool_decide (method request = "HEAD") then
                        (HeadOnly 200 (base_headers (media_type asset) (byte_length asset)
                                         (to_text (content_hash asset)) ++ cors_headers origin), st)
                      else (respond_get env request origin asset_id asset, st)
                  end
              end
          end
      end
  end.

(** ** Streaming *)

(** The loop of [stream_asset]: [read n o l] is the [n]-th answer of
    [reader.read_range] for the range from [o] of length [l], [cancelled n]
    whether the [n]-th iteration sees the cancellation, [write_ok n] whether
    its write succeeds.  The fuel is the number of remaining bytes. *)
Fixpoint stream_loop (fuel n : nat) (read : nat → AssetByteRange → result () AssetByteChunk)
    (cancelled write_ok : nat → bool) (offset remaining chunk_size : Z)
    : result HttpTaskError () * list Z :=
  match fuel with
  | O => (Ok (), [])
  | S fuel' =>
      if remaining <=? 0 then (Ok (), []) else
      if cancelled n then (Ok (), []) else
      let requested := Z.min remaining chunk_size in
      match AssetByteRange_new offset requested with
      | None => (Err ErrBackend, [])
      | Some range =>
          match read n range with
          | Err _ => (Err ErrBackend, [])
          | Ok chunk =>
              let written := Z.of_nat (length (chunk_bytes chunk)) in
              if negb (chunk_offset chunk =? offset) || (written =? 0) || (requested <? written)
                 || (remaining <? written)
              then (Err ErrBackend, []) else
              if negb (write_ok n) then (Err ErrRequest, []) else
              match u64_checked_add offset written with
              | None => (Err ErrBackend, chunk_bytes chunk)
              | Some offset' =>
                  let '(r, out) := stream_loop fuel' (S n) read cancelled write_ok offset'
                                     (remaining - written) chunk_size in
                  (r, chunk_bytes chunk ++ out)
              end
          end
      end
  end.
(** [stream_asset] *)
Definition stream_asset (read : nat → AssetByteRange → result () AssetByteChunk)
    (cancelled write_ok : nat → bool) (offset remaining chunk_size : Z)
    : result HttpTaskError () * list Z :=
  stream_loop (Z.to_nat remaining) 0 read cancelled write_ok offset remaining chunk_size.

(** [handle_connection]: what is written on the stream, and the registry
    afterwards.  [read_asset] is [reader.read_range] for an Asset. *)
Definition handle_connection (env : surroundings) (reads : list read_result) (chunk_size : Z)
    (read_asset : AssetId → nat → AssetByteRange → result () AssetByteChunk)
    (cancelled write_ok : nat → bool)
    : result HttpTaskError () * list Z * AssetAccessGrantIssuer :=
  match read_request reads with
  | Err _ =>
      let '(_, out) := write_simple_response write_ok 400 "bad request" [] in
      (Ok (), out, issuer env)
  | Ok request =>
      let '(response, st) := respond env request in
      match response with
      | Simple status message extra =>
          let '(r, out) := write_simple_response write_ok status message extra in
          (map_err (λ _, ErrRequest) r, out, st)
      | HeadOnly status headers =>
          let '(r, out) := write_response write_ok status headers None in (r, out, st)
      | Stream status headers asset start len =>
          match write_response write_ok status headers None with
          | (Err e, out) => (Err e, out, st)
          | (Ok _, out) =>
              let '(r, body) := stream_asset (read_asset asset) cancelled (λ n, write_ok (S n))
                                  start len chunk_size in
              (r, out ++ body, st)
          end
      end
  end.
(** ** Properties of the handler *)

(** What a request must carry to reach the Asset [asset_id]: it is a [GET] or
    [HEAD] for that Asset, with the token of a live Grant for it, and comes from
    an allowed origin or from none. *)
Record entitled (env : surroundings) (request : HttpRequest) (asset_id : AssetId) : Prop := {
  entitled_method : method request = "GET" ∨ method request = "HEAD";
  entitled_target : ∃ text, target request = "/assets/" +:+ text ∧ of_text text = Some asset_id;
  entitled_token : ∃ token raw grant,
    bearer_token (req_headers request !! "authorization") = Some token ∧
    is_secret raw ∧ token = base64url raw ∧
    entries (issuer env) !! digest sha256 raw = Some grant ∧
    grant_asset_id grant = asset_id ∧
    unix_timestamp (now env) < unix_timestamp (grant_expires_at grant);
  entitled_origin : ∀ o, req_headers request !! "origin" = Some o → o ∈ allowed_origins env
}.
(** Such a request for an Asset that exists. *)
Definition granted (env : surroundings) (request : HttpRequest) (asset_id : AssetId)
    (asset : SourceAssetDescriptor) : Prop :=
  entitled env request asset_id ∧ get_asset env asset_id = Ok (Some asset).

(** The same surroundings over other Assets. *)
Definition with_assets (lookup : AssetId → result () (option SourceAssetDescriptor)) (env : surroundings)
    : surroundings :=
  mkSurroundings (allowed_origins env) (issuer env) (now env) lookup (download_permit env).

Lemma respond_get_range env request origin asset_id asset :
  match respond_get env request origin asset_id asset with
  | Simple _ _ _ => True
  | HeadOnly status headers => byte_length asset = 0 ∧ ("Content-Length", show_u64 0) ∈ headers
  | Stream status headers a start len =>
      a = asset_id ∧ 0 ≤ start ∧ 0 < len ∧ start + len ≤ byte_length asset ∧
      ("Content-Length", show_u64 len) ∈ headers
  end.
Proof.
  pose proof (byte_length_u64 asset) as Hlen. unfold respond_get.
  set (resolved := match req_headers request !! "range" with Some _ => _ | None => _ end).
  assert (∀ r, resolved = Ok (Some r) → 0 ≤ range_start r ∧ 0 < range_length r ∧
            range_start r + range_length r ≤ byte_length asset) as Hrange.
  { unfold resolved. intros r. destruct (req_headers request !! "range") as [value|]; [|done].
    intros (r' & [= <-] & ? & ? & ? & _)%parse_range_bounds; [|done].
    unfold range_length in *. lia. }
  destruct resolved as [[r|]|[]]; try done.
  - destruct (Hrange r eq_refl) as (? & ? & ?). rewrite (proj2 (Z.ltb_lt 0 _)) by done.
    destruct (download_permit env); [|done]. split_and!; [done..|right; left].
  - destruct (Z.ltb_spec 0 (byte_length asset)) as [Hpos|Hnon].
    + destruct (download_permit env); [|done]. split_and!; [done|lia|done|lia|right; left].
    + destruct Hlen. split; [lia|]. right. left.
Qed.

(** [respond] up to the lookup of the Asset: the request is entitled, or its
    answer is settled and carries nothing of an Asset. *)
Lemma respond_entitled env request :
  (∃ response st,
     (∀ lookup, respond (with_assets lookup env) request = (response, st)) ∧
     match response with
     | Simple _ _ extra => extra = []
     | HeadOnly status _ => status = 204 ∧ method request = "OPTIONS"
     | Stream _ _ _ _ _ => False
     end) ∨
  (∃ id st, entitled env request id ∧
     ∀ lookup, respond (with_assets lookup env) request =
       match lookup id with
       | Err _ => (Simple 503 "service unavailable" [], st)
       | Ok None => (Simple 404 "not found" [], st)
       | Ok (Some asset) =>
           if str_contains CR (media_type asset) || str_contains LF (media_type asset)
           then (Simple 500 "internal server error" [], st) else
           if bool_decide (method request = "HEAD") then
             (HeadOnly 200 (base_headers (media_type asset) (byte_length asset)
                              (to_text (content_hash asset)) ++ cors_headers (req_headers request !! "origin")), st)
           else (respond_get (with_assets lookup env) request (req_headers request !! "origin") id asset, st)
       end).
Proof.
  unfold respond, with_assets. cbn [allowed_origins issuer now get_asset].
  set (origin := req_headers request !! "origin").
  destruct (match origin with Some o => _ | None => _ end) eqn:Horigin; [left; by do 2 eexists|].
  destruct (bool_decide_reflect (method request = "OPTIONS")); [left; by do 2 eexists|].
  destruct (negb _ && negb _) eqn:Hmethod; [left; by do 2 eexists|].
  destruct (str_contains _ _ || str_contains _ _); [left; by do 2 eexists|].
  destruct (strip_prefix "/assets/" (target request)) as [text|] eqn:Hprefix; [|left; by do 2 eexists].
  destruct (str_is_empty text || str_contains _ text); [left; by do 2 eexists|].
  destruct (of_text text) as [asset_id|] eqn:Hid; [|left; by do 2 eexists].
  destruct (bearer_token _) as [token|] eqn:Htoken; [|left; by do 2 eexists].
  destruct (validate sha256 _ _ token asset_id) as [[grant|] st] eqn:Hvalid; [|left; by do 2 eexists].
  right. exists asset_id, st. split; [|done]. split.
  - apply andb_false_iff in Hmethod as [Hm%negb_false_iff%bool_decide_eq_true|Hm%negb_false_iff%bool_decide_eq_true]; auto.
  - exists text. split; [by apply strip_prefix_Some|done].
  - apply validate_Ok in Hvalid as (_ & raw & Hs & -> & Hg & Ha & Hnow). by exists (base64url raw), raw, grant.
  - intros o Ho. fold origin in Ho. rewrite Ho in Horigin. apply negb_false_iff in Horigin.
    by apply bool_decide_eq_true in Horigin.
Qed.

(** C7. Asset bytes and metadata are only disclosed under a live Grant, and only
    those of the granted Asset.  A request that is not entitled to an Asset, that
    is a [GET] or [HEAD] for it with the token of an unexpired Grant for that very
    Asset and from an allowed origin (or none), is answered in the same way
    whatever Assets there are; an entitled one in the same way whatever other
    Assets there are.  Every answer with a body, with Asset headers or with the
    length of an Asset (416) belongs to an entitled request for an existing
    Asset; the exceptions are plain messages and the 204 of [OPTIONS].  A
    streamed range lies inside the Asset and its [Content-Length] is the number
    of streamed bytes. *)
Theorem disclosure_requires_grant env request :
  ((∀ lookup, respond (with_assets lookup env) request = respond env request) ∨
   ∃ id, entitled env request id ∧
     ∀ lookup, lookup id = get_asset env id → respond (with_assets lookup env) request = respond env request) ∧
  match (respond env request).1 with
  | Simple _ _ extra => extra = [] ∨ ∃ id asset, granted env request id asset
  | HeadOnly status _ =>
      (status = 204 ∧ method request = "OPTIONS") ∨ ∃ id asset, granted env request id asset
  | Stream _ headers id start len =>
      ∃ asset, granted env request id asset ∧ 0 ≤ start ∧ 0 < len ∧
               start + len ≤ byte_length asset ∧ ("Content-Length", show_u64 len) ∈ headers
  end.
Proof.
  assert (with_assets (get_asset env) env = env) as Hself by (by destruct env).
  destruct (respond_entitled env request) as [(response & st & Hr & Hplain)|(id & st & He & Hr)];
    pose proof (Hr (get_asset env)) as Henv; rewrite Hself in Henv.
  - split; [left; intros lookup; by rewrite Hr|]. rewrite Henv. cbn [fst]. destruct response; [by left|by left|done].
  - split; [right; exists id; split; [done|]; intros lookup Hl; rewrite Henv, Hr, Hl; by repeat case_match|].
    rewrite Henv. destruct (get_asset env id) as [[asset|]|] eqn:Ha; cbn [fst]; [|by left..].
    destruct (_ || _); [by left|]. assert (granted env request id asset) as Hg by done.
    destruct (bool_decide (method request = "HEAD")); [right; eauto|]. cbn [fst].
    pose proof (respond_get_range env request (req_headers request !! "origin") id asset) as Hrange.
    destruct (respond_get env request _ id asset); [right; eauto|right; eauto|].
    destruct Hrange as (-> & ? & ? & ? & ?). by exists asset.
Qed.

(** A [GET] without an origin that passes every check. *)
Lemma respond_granted env request id asset text token g st :
  req_headers request !! "origin" = None → method request = "GET" →
  str_contains "?"%char (target request) = false → str_contains "#"%char (target request) = false →
  strip_prefix "/assets/" (target request) = Some text → str_is_empty text = false →
  str_contains "/"%char text = false → of_text text = Some id →
  bearer_token (req_headers request !! "authorization") = Some token →
  validate sha256 (issuer env) (now env) token id = (Ok g, st) →
  get_asset env id = Ok (Some asset) →
  str_contains CR (media_type asset) = false → str_contains LF (media_type asset) = false →
  respond env request = (respond_get env request None id asset, st).
Proof.
  intros Ho Hm Hq Hh Hp He Hs Hid Ht Hv Ha Hcr Hlf. unfold respond.
  rewrite Ho, Hm, Hq, Hh, Hp, He, Hs, Hid, Ht, Hv, Ha, Hcr, Hlf. reflexivity.
Qed.

(** The whole Asset, when no range is asked for. *)
Lemma respond_get_whole env request origin id asset :
  req_headers request !! "range" = None → 0 < byte_length asset → download_permit env = true →
  respond_get env request origin id asset =
  Stream 200 (base_headers (media_type asset) (byte_length asset) (to_text (content_hash asset)) ++
              cors_headers origin) id 0 (byte_length asset).
Proof. intros Hr Hl Hp. unfold respond_get. by rewrite Hr, (proj2 (Z.ltb_lt _ _)), Hp by done. Qed.

(** ** Properties of the stream *)

Section stream.
Context (read : nat → AssetByteRange → result () AssetByteChunk) (cancelled write_ok : nat → bool).

Lemma stream_loop_length fuel : ∀ n offset remaining chunk_size,
  0 ≤ remaining → (Z.to_nat remaining ≤ fuel)%nat →
  let '(r, out) := stream_loop fuel n read cancelled write_ok offset remaining chunk_size in
  Z.of_nat (length out) ≤ remaining ∧
  (r = Ok () → (∀ k, cancelled k = false) → Z.of_nat (length out) = remaining).
Proof.
  induction fuel as [|fuel IH]; intros n offset remaining chunk_size Hr Hf; cbn [stream_loop].
  { cbn. split; [lia|]. lia. }
  destruct (Z.leb_spec remaining 0); [cbn; split; [lia|]; lia|].
  destruct (cancelled n) eqn:Hc; [cbn; split; [lia|]; intros _ Hno; by rewrite Hno in Hc|].
  destruct (AssetByteRange_new _ _) as [range|]; [|by cbn; split; [lia|]].
  destruct (read n range) as [chunk|]; [|by cbn; split; [lia|]].
  destruct (negb _ || _ || _ || _) eqn:Hbad; [by cbn; split; [lia|]|].
  apply orb_false_elim in Hbad as [Hbad Hrem]. apply orb_false_elim in Hbad as [Hbad _].
  apply orb_false_elim in Hbad as [_ Hzero]. apply Z.ltb_ge in Hrem. apply Z.eqb_neq in Hzero.
  destruct (write_ok n); cbn [negb]; [|by cbn; split; [lia|]].
  destruct (u64_checked_add _ _) as [offset'|]; [|by split; [lia|]].
  specialize (IH (S n) offset' (remaining - Z.of_nat (length (chunk_bytes chunk))) chunk_size
                ltac:(lia) ltac:(lia)).
  destruct (stream_loop fuel (S n) _ _ _ _ _ _) as [r out]. destruct IH as [IH1 IH2].
  rewrite length_app. split; [lia|]. intros Hok Hno. specialize (IH2 Hok Hno). lia.
Qed.

(** A stream never sends more than the announced bytes, whatever the
    reader answers; when it ends without an error and without cancellation it
    has sent exactly as many. *)
Theorem stream_never_exceeds offset remaining chunk_size :
  0 ≤ remaining →
  let '(r, out) := stream_asset read cancelled write_ok offset remaining chunk_size in
  Z.of_nat (length out) ≤ remaining ∧
  (r = Ok () → (∀ k, cancelled k = false) → Z.of_nat (length out) = remaining).
Proof. intros Hr. by apply stream_loop_length. Qed.

(** A reader of [content]: it answers every range with a non-empty part of it
    (a short read is allowed). *)
Definition reads_content (content : list Z) : Prop :=
  ∀ n range o l, AssetByteRange_new o l = Some range → 0 ≤ o → 0 < l →
    o + l ≤ Z.of_nat (length content) →
    ∃ chunk k, read n range = Ok chunk ∧ 0 < k ≤ l ∧ chunk_offset chunk = o ∧
               chunk_bytes chunk = take (Z.to_nat k) (drop (Z.to_nat o) content).

Context (content : list Z).
Hypothesis reader_ok : reads_content content.
Hypothesis not_cancelled : ∀ n, cancelled n = false.
Hypothesis writes_ok : ∀ n, write_ok n = true.
Hypothesis content_u64 : Z.of_nat (length content) ≤ u64_max.

Lemma stream_loop_exact fuel : ∀ n offset remaining chunk_size,
  0 < chunk_size → 0 ≤ offset → 0 ≤ remaining → (Z.to_nat remaining ≤ fuel)%nat →
  offset + remaining ≤ Z.of_nat (length content) →
  stream_loop fuel n read cancelled write_ok offset remaining chunk_size =
  (Ok (), take (Z.to_nat remaining) (drop (Z.to_nat offset) content)).
Proof.
  induction fuel as [|fuel IH]; intros n offset remaining chunk_size Hcs Ho Hr Hf Hlen; cbn [stream_loop].
  { by replace (Z.to_nat remaining) with 0%nat by lia. }
  destruct (Z.leb_spec remaining 0) as [Hz|Hpos]; [by replace (Z.to_nat remaining) with 0%nat by lia|].
  rewrite not_cancelled. set (requested := Z.min remaining chunk_size).
  destruct (byte_range_new offset requested) as [range Hrange]; [lia|lia|lia|]. rewrite Hrange.
  destruct (reader_ok n range offset requested Hrange) as (chunk & k & -> & Hk & -> & Hbytes); [lia|lia|lia|].
  assert (Z.of_nat (length (chunk_bytes chunk)) = k) as Hl
    by (rewrite Hbytes, length_take, length_drop; lia).
  rewrite Hl, Z.eqb_refl, (proj2 (Z.eqb_neq k 0)), (proj2 (Z.ltb_ge requested k)),
    (proj2 (Z.ltb_ge remaining k)), writes_ok by lia. cbn [negb orb].
  rewrite u64_checked_add_small by lia. rewrite IH by lia. f_equal.
  rewrite Hbytes. replace (Z.to_nat (offset + k)) with (Z.to_nat offset + Z.to_nat k)%nat by lia.
  rewrite <- drop_drop. rewrite <- (take_drop (Z.to_nat k) (drop (Z.to_nat offset) content)) at 3.
  rewrite take_app, take_take, length_take, length_drop.
  replace (Z.to_nat remaining `min` Z.to_nat k)%nat with (Z.to_nat k) by lia.
  f_equal. f_equal. lia.
Qed.

(** A download is exact: with a reader of the Asset's content and no
    failing write, the stream sends precisely the requested slice, whatever
    the chunk size and however short the individual reads are. *)
Theorem stream_is_exact offset remaining chunk_size :
  0 < chunk_size → 0 ≤ offset → 0 ≤ remaining → offset + remaining ≤ Z.of_nat (length content) →
  stream_asset read cancelled write_ok offset remaining chunk_size =
  (Ok (), take (Z.to_nat remaining) (drop (Z.to_nat offset) content)).
Proof. intros. by apply stream_loop_exact. Qed.
End stream.

End handler.

(** ** Header values cannot break lines *)

Definition single_line (s : string) : bool := negb (str_contains CR s || str_contains LF s).

Lemma str_contains_drop c n s : str_contains c (str_drop n s) = true → str_contains c s = true.
Proof.
  revert s. induction n as [|n IH]; intros [|a s]; try done. cbn.
  intros Hs%IH. by rewrite Hs, orb_true_r.
Qed.
Lemma str_contains_trim_start fuel c s :
  str_contains c (trim_start_fuel fuel s) = true → str_contains c s = true.
Proof.
  revert s. induction fuel as [|f IH]; intros s; [done|]. cbn.
  destruct (ws_head s); [|done]. intros Hs%IH. by eapply str_contains_drop.
Qed.
Lemma str_contains_trim_end c s : str_contains c (trim_end s) = true → str_contains c s = true.
Proof.
  induction s as [|a s IH]; [done|]. cbn [trim_end]. destruct (trim_start (String a s)); [done|].
  cbn [str_contains]. destruct (char_eqb c a); [done|]. exact IH.
Qed.
Lemma single_line_trim s : single_line s = true → single_line (trim s) = true.
Proof.
  unfold single_line. rewrite !negb_true_iff, !orb_false_iff. intros [Hc Hl].
  split; apply not_true_is_false; intros Ht%str_contains_trim_end%str_contains_trim_start; congruence.
Qed.

Lemma parse_headers_single lines : ∀ headers headers',
  (∀ k v, headers !! k = Some v → single_line v = true) →
  parse_headers lines headers = Ok headers' →
  ∀ k v, headers' !! k = Some v → single_line v = true.
Proof.
  induction lines as [|line lines IH]; intros headers headers' Hh; cbn [parse_headers].
  - by intros [= <-].
  - destruct (split_once ":" line) as [[name value]|]; [|done]. cbn [ok_or mbind result_mbind].
    destruct (str_is_empty name || str_contains CR value || str_contains LF value) eqn:Hbad; [done|].
    apply IH. intros k v. rewrite lookup_insert_Some. intros [[_ <-]|[_ Hv]]; [|by eapply Hh].
    apply single_line_trim. unfold single_line.
    apply orb_false_elim in Hbad as [Hbad ->]. apply orb_false_elim in Hbad as [_ ->]. done.
Qed.

Lemma str_len_app a b : str_len (a +:+ b) = (str_len a + str_len b)%nat.
Proof. induction a as [|c a IH]; [done|]. rewrite append_cons. cbn. by rewrite IH. Qed.

Lemma read_head_bound reads : ∀ buffer buffer',
  (∀ s, ReadBytes s ∈ reads → (str_len s ≤ 1024)%nat) →
  read_head reads buffer = Ok buffer' → Z.of_nat (str_len buffer') < MAX_HEADER_BYTES + 1024.
Proof.
  induction reads as [|[s| |] reads IH]; intros buffer buffer' Hreads; cbn [read_head];
    destruct (Z.leb_spec MAX_HEADER_BYTES (Z.of_nat (str_len buffer))) as [|Hlt]; try done.
  destruct (str_is_empty s); [done|]. case_bool_decide.
  - intros [= <-]. specialize (Hreads s ltac:(left)).
    rewrite str_len_app. lia.
  - apply IH. intros s' Hs'. apply Hreads. by right.
Qed.

(** An accepted request is bounded and has clean headers: at most
    [MAX_HEADER_BYTES] and one more read of 1024 bytes are buffered, the
    version is HTTP/1, no body is announced, and no header value contains a
    line break. *)
Theorem accepted_request_is_clean reads request :
  (∀ s, ReadBytes s ∈ reads → (str_len s ≤ 1024)%nat) →
  read_request reads = Ok request →
  (∃ buffer, read_head reads EmptyString = Ok buffer ∧
             Z.of_nat (str_len buffer) < MAX_HEADER_BYTES + 1024) ∧
  (∀ k v, req_headers request !! k = Some v → single_line v = true) ∧
  (∀ v, req_headers request !! "content-length" = Some v → v = "0").
Proof.
  intros Hreads Hr. unfold read_request in Hr. apply bind_Ok_inv in Hr as (buffer & Hb & Hp).
  split; [exists buffer; split; [done|]; by eapply read_head_bound|].
  unfold parse_request in Hp. destruct (negb (utf8_valid buffer)); [done|].
  apply bind_Ok_inv in Hp as (head & _ & Hp). destruct (split_str CRLF head) as [|line lines]; [done|].
  destruct (split_whitespace line) as [|m [|t [|version [|]]]]; try done.
  destruct (negb _); [done|]. apply bind_Ok_inv in Hp as (headers & Hh & Hp).
  assert (request = mkRequest m t headers ∧
          ∀ v, headers !! "content-length" = Some v → v = "0") as [-> Hcl].
  { destruct (headers !! "content-length") as [v|]; [case_bool_decide; [|done]|];
      injection Hp as <-; split; congruence. }
  split; [|done]. cbn. eapply parse_headers_single; [|exact Hh]. intros k v. by rewrite lookup_empty.
Qed.

(** ** The lines of a response head *)

Lemma split_once_str_crlf l r :
  str_contains CR l = false → split_once_str CRLF (l +:+ CRLF +:+ r) = Some (l, r).
Proof.
  induction l as [|a l IH]; intros Hl.
  - unfold CRLF. rewrite append_nil, !append_cons, append_nil. cbn. done.
  - rewrite append_cons. cbn [split_once_str strip_prefix CRLF]. cbn [str_contains] in Hl.
    apply orb_false_elim in Hl as [Ha Hl]. rewrite Ha. by rewrite (IH Hl).
Qed.

(** Joins lines with their terminators. *)
Fixpoint join_lines (lines : list string) : string :=
  match lines with [] => EmptyString | l :: ls => l +:+ CRLF +:+ join_lines ls end.

Lemma str_app_assoc a b c : (a +:+ b) +:+ c = a +:+ b +:+ c.
Proof. induction a as [|x a IH]; [done|]. by rewrite !append_cons, IH. Qed.

Lemma split_str_join lines fuel :
  Forall (λ l, str_contains CR l = false) lines → (length lines ≤ fuel)%nat →
  split_str_fuel fuel CRLF (join_lines lines) = lines ++ [EmptyString].
Proof.
  intros Hl. revert fuel. induction Hl as [|l lines Hc Hl IH]; intros [|fuel] Hf; cbn in Hf; try lia;
    cbn [join_lines split_str_fuel]; [done|by cbn|].
  rewrite split_once_str_crlf by done. cbn [app]. by rewrite IH by lia.
Qed.

Lemma length_join_lines lines : (length lines ≤ str_len (join_lines lines))%nat.
Proof.
  induction lines as [|l lines IH]; cbn [join_lines length]; [lia|].
  rewrite !str_len_app. cbn. lia.
Qed.

Definition header_line (h : header) : string := h.1 +:+ ": " +:+ h.2.
Definition status_line (status : Z) : string :=
  "HTTP/1.1 " +:+ show_u64 status +:+ " " +:+ reason status.

Lemma push_headers_join headers : ∀ response out,
  push_headers headers response = Ok out →
  out = response +:+ join_lines (header_line <$> headers) ∧
  Forall (λ h, single_line h.2 = true) headers.
Proof.
  induction headers as [|[name value] headers IH]; intros response out; cbn [push_headers].
  - intros [= <-]. cbn. by rewrite str_app_nil_r.
  - destruct (str_contains CR value || str_contains LF value) eqn:Hv; [done|].
    intros (-> & Hall)%IH. split; [|constructor; [unfold single_line; cbn [snd]; by rewrite Hv|done]].
    rewrite fmap_cons. cbn [join_lines]. unfold header_line at 2. cbn [fst snd].
    by rewrite !str_app_assoc.
Qed.

Lemma reason_no_cr status : str_contains CR (reason status) = false.
Proof.
  destruct status as [|p|p]; [done| |done]. cbn.
  repeat (destruct p as [p|p|]; try done).
Qed.

Lemma status_line_no_cr status : 0 ≤ status → str_contains CR (status_line status) = false.
Proof.
  intros Hs. unfold status_line. rewrite !str_contains_app, reason_no_cr.
  by rewrite (str_forall_contains is_digit CR _ (show_u64_digits _ Hs) eq_refl).
Qed.

(** No header injection: a response head that is written consists of
    exactly the status line and one line per header, followed by the empty
    line; a value with a line break is refused and nothing is written.  The
    names of headers are constants without a carriage return. *)
Theorem response_head_lines status headers out :
  0 ≤ status → Forall (λ h, str_contains CR h.1 = false) headers →
  response_head status headers = Ok out →
  split_str CRLF out = (status_line status :: (header_line <$> headers)) ++ [EmptyString; EmptyString] ∧
  Forall (λ h, single_line h.2 = true) headers.
Proof.
  intros Hs Hnames Hr. unfold response_head in Hr. apply bind_Ok_inv in Hr as (r & Hp & Hr).
  injection Hr as <-. apply push_headers_join in Hp as (-> & Hvalues). split; [|done].
  set (lines := (status_line status :: (header_line <$> headers)) ++ [EmptyString]).
  assert (("HTTP/1.1 " +:+ show_u64 status +:+ " " +:+ reason status +:+ CRLF) +:+
            join_lines (header_line <$> headers) +:+ CRLF = join_lines lines) as Heq.
  { unfold lines. cbn [app join_lines]. unfold status_line. rewrite !str_app_assoc.
    do 5 f_equal. generalize (header_line <$> headers). intros ls.
    induction ls as [|l ls IH]; [done|]. cbn [app join_lines]. by rewrite !str_app_assoc, IH. }
  rewrite str_app_assoc, Heq. unfold split_str.
  rewrite split_str_join; [unfold lines; by rewrite <- app_assoc| |apply length_join_lines].
  unfold lines. apply Forall_app. split; [|by constructor].
  constructor; [by apply status_line_no_cr|]. apply Forall_fmap.
  apply Forall_forall. intros h Hh. rewrite Forall_forall in Hnames, Hvalues.
  specialize (Hnames h Hh). change (str_contains CR (header_line h) = false). unfold header_line.
  rewrite !str_contains_app, Hnames. specialize (Hvalues h Hh). unfold single_line in Hvalues. apply negb_true_iff, orb_false_iff in Hvalues as [-> _].
  done.
Qed.

(** ** Concrete runs *)

Section demo.
#[local] Existing Instances Demo.demo_kernel Demo.demo_laws Demo.demo_assets Demo.demo_asset_laws.

Definition demo_content : list Z := [10; 20; 30; 40; 50].
(** A reader that answers at most two bytes. *)
Definition demo_read (n : nat) (range : Z * Z) : result () (Z * list Z) :=
  Ok (range.1, take (Z.to_nat (Z.min 2 range.2)) (drop (Z.to_nat range.1) demo_content)).

Lemma demo_reads : reads_content (H := Demo.demo_kernel) (AK := Demo.demo_assets) demo_read demo_content.
Proof.
  intros n range o l Hr Ho Hl Hlen. cbn in Hr. case_match; [|done]. injection Hr as <-.
  exists (o, take (Z.to_nat (Z.min 2 l)) (drop (Z.to_nat o) demo_content)), (Z.min 2 l).
  split; [reflexivity|]. split; [lia|]. by split.
Qed.

(** An instance. *)
Lemma stream_never_exceeds_witness :
  let '(r, out) := stream_asset (H := Demo.demo_kernel) (AK := Demo.demo_assets) demo_read (λ _, false) (λ _, true) 1 3 2 in
  Z.of_nat (length out) ≤ 3 ∧
  (r = Ok () → (∀ k : nat, false = false) → Z.of_nat (length out) = 3).
Proof. apply (stream_never_exceeds (H := Demo.demo_kernel) (AK := Demo.demo_assets) demo_read (λ _, false)). lia. Defined.

(** An instance. *)
Lemma stream_is_exact_witness :
  stream_asset (H := Demo.demo_kernel) (AK := Demo.demo_assets) demo_read (λ _, false) (λ _, true) 1 3 2 =
  (Ok (), [20; 30; 40]).
Proof.
  apply (stream_is_exact (H := Demo.demo_kernel) (AK := Demo.demo_assets) demo_read (λ _, false) (λ _, true) demo_content);
    [exact demo_reads|reflexivity|reflexivity|unfold u64_max; cbn; lia|lia..|cbn; lia].
Defined.
End demo.

Definition demo_request_text : string :=
  "GET /assets/a HTTP/1.1" +:+ CRLF +:+ "Host: example" +:+ CRLF +:+ CRLF.
Definition demo_request : HttpRequest := mkRequest "GET" "/assets/a" {[ "host" := "example" ]}.

(** An instance. *)
Lemma accepted_request_is_clean_witness :
  (∃ buffer, read_head [ReadBytes demo_request_text] EmptyString = Ok buffer ∧
             Z.of_nat (str_len buffer) < MAX_HEADER_BYTES + 1024) ∧
  (∀ k v, req_headers demo_request !! k = Some v → single_line v = true) ∧
  (∀ v, req_headers demo_request !! "content-length" = Some v → v = "0").
Proof.
  apply (accepted_request_is_clean [ReadBytes demo_request_text]).
  - intros s Hs. apply list_elem_of_singleton in Hs. injection Hs as ->. vm_compute. lia.
  - vm_compute. reflexivity.
Defined.

(** An instance. *)
Lemma response_head_lines_witness :
  split_str CRLF ("HTTP/1.1 200 OK" +:+ CRLF +:+ "Vary: Origin" +:+ CRLF +:+ CRLF) =
    (status_line 200 :: (header_line <$> [("Vary", "Origin")])) ++ [EmptyString; EmptyString] ∧
  Forall (λ h : header, single_line h.2 = true) [("Vary", "Origin")].
Proof.
  apply response_head_lines; [lia|by constructor|vm_compute; reflexivity].
Defined.
