(* ===== verification/HttpRequest.v ===== *)
(** * Requests on the wire

    The request parser of [orbitrelay-server/src/asset_delivery/http.rs]
    ([read_request] of [Http.v]) against a printer: a request that is written
    line by line, and arrives in any fragments, is read back exactly. *)

From S2P Require Import Prelude Kernel Range Base64 Grant Http.

(** ** Searching in prefixes *)

Lemma strip_prefix_app_Some p s r t : strip_prefix p s = Some r → strip_prefix p (s +:+ t) = Some (r +:+ t).
Proof.
  revert s. induction p as [|a p IH]; intros s Hs; [by injection Hs as ->|].
  destruct s as [|b s]; [done|]. rewrite append_cons. cbn in *. destruct (char_eqb a b); [|done]. by apply IH.
Qed.
Lemma strip_prefix_app_None p s t :
  (str_len p ≤ str_len s)%nat → strip_prefix p s = None → strip_prefix p (s +:+ t) = None.
Proof.
  revert s. induction p as [|a p IH]; intros s Hl Hs; [done|].
  destruct s as [|b s]; cbn in Hl; [lia|]. rewrite append_cons. cbn in *. destruct (char_eqb a b); [|done].
  apply IH; [lia|done].
Qed.
Lemma strip_prefix_len p s r : strip_prefix p s = Some r → str_len s = (str_len p + str_len r)%nat.
Proof. intros ->%strip_prefix_Some. apply str_len_app. Qed.

Lemma split_once_str_len sep s l r :
  split_once_str sep s = Some (l, r) → (str_len sep ≤ str_len s)%nat.
Proof.
  revert l r. induction s as [|a s IH]; intros l r Hs; cbn [split_once_str] in Hs;
    destruct (strip_prefix sep _) as [r'|] eqn:Hp; try (apply strip_prefix_len in Hp; lia); [done|].
  destruct (split_once_str sep s) as [[l' r']|] eqn:Hr; [|done]. specialize (IH _ _ eq_refl). cbn. lia.
Qed.

(** The first occurrence in a prefix is the first occurrence. *)
Lemma split_once_str_app sep s t l r :
  split_once_str sep s = Some (l, r) → split_once_str sep (s +:+ t) = Some (l, r +:+ t).
Proof.
  revert l r. induction s as [|a s IH]; intros l r Hs; pose proof (split_once_str_len _ _ _ _ Hs) as Hlen;
    cbn [split_once_str] in Hs; destruct (strip_prefix sep _) as [r'|] eqn:Hp.
  - injection Hs as <- <-. apply (strip_prefix_app_Some _ _ _ t) in Hp. rewrite append_nil in *.
    destruct t; cbn [split_once_str]; by rewrite Hp.
  - done.
  - injection Hs as <- <-. apply (strip_prefix_app_Some _ _ _ t) in Hp. rewrite append_cons in *.
    cbn [split_once_str]. by rewrite Hp.
  - destruct (split_once_str sep s) as [[l' r']|] eqn:Hr; [|done]. injection Hs as <- <-.
    apply (strip_prefix_app_None _ _ t Hlen) in Hp. rewrite append_cons in *. cbn [split_once_str].
    by rewrite Hp, (IH l' r').
Qed.

(** ** The head of a request *)

Abbreviation END := (CRLF +:+ CRLF).
(** A line of a head: not empty and without a carriage return. *)
Definition is_line (l : string) : Prop := str_is_empty l = false ∧ str_contains CR l = false.

(** The lines of a head, without the last terminator *)
Fixpoint head_of (lines : list string) : string :=
  match lines with
  | [] => EmptyString
  | l :: ls => match ls with [] => l | _ :: _ => l +:+ CRLF +:+ head_of ls end
  end.

Lemma split_END_skip l s :
  str_contains CR l = false →
  split_once_str END (l +:+ s) = '(a, b) ← split_once_str END s; Some (l +:+ a, b).
Proof.
  induction l as [|c l IH]; intros Hl.
  - rewrite append_nil. by destruct (split_once_str END s) as [[a b]|].
  - cbn [str_contains] in Hl. apply orb_false_elim in Hl as [Hc Hl]. rewrite append_cons.
    cbn [split_once_str]. replace (strip_prefix END (String c (l +:+ s))) with (@None string).
    + rewrite (IH Hl). by destruct (split_once_str END s) as [[a b]|].
    + unfold CRLF. rewrite !append_cons. cbn [strip_prefix]. by rewrite Hc.
Qed.

Lemma split_once_str_cons sep a s :
  strip_prefix sep (String a s) = None →
  split_once_str sep (String a s) = '(l, r) ← split_once_str sep s; Some (String a l, r).
Proof. intros Hp. cbn [split_once_str]. by rewrite Hp. Qed.

Lemma split_END_line s :
  str_is_empty s = false → (∀ s', s ≠ String CR s') →
  split_once_str END (CRLF +:+ s) = '(a, b) ← split_once_str END s; Some (CRLF +:+ a, b).
Proof.
  intros Hne Hs. destruct s as [|c s]; [done|].
  assert (char_eqb CR c = false) as Hc by (apply bool_decide_eq_false; intros <-; by eapply Hs).
  change (CRLF +:+ String c s) with (String CR (String LF (String c s))).
  rewrite (split_once_str_cons END CR), (split_once_str_cons END LF);
    [by destruct (split_once_str END (String c s)) as [[a b]|]|done|].
  change END with (String CR (String LF (String CR (String LF EmptyString)))).
  cbn [strip_prefix]. by rewrite !char_eqb_refl, Hc.
Qed.

Lemma split_END_lines lines :
  lines ≠ [] → Forall is_line lines →
  split_once_str END (join_lines lines +:+ CRLF) = Some (head_of lines, EmptyString).
Proof.
  intros Hne Hl. induction Hl as [|l lines [Hle Hlc] Hl IH]; [done|]. clear Hne.
  cbn [join_lines]. rewrite !str_app_assoc, split_END_skip by done.
  destruct lines as [|l2 lines].
  - change (split_once_str END (CRLF +:+ join_lines [] +:+ CRLF)) with (Some (EmptyString, EmptyString)).
    cbn [mbind option_bind head_of]. by rewrite str_app_nil_r.
  - apply Forall_cons in Hl as [[Hle2 Hlc2] _]. destruct l2 as [|c l2]; [done|].
    rewrite split_END_line, IH; [done|done|done|]. cbn [join_lines]. rewrite append_cons.
    intros s' [= -> _]. cbn [str_contains] in Hlc2. by rewrite char_eqb_refl in Hlc2.
Qed.

Lemma split_CRLF_None l : str_contains CR l = false → split_once_str CRLF l = None.
Proof.
  induction l as [|c l IH]; intros Hl; [done|]. cbn [str_contains] in Hl. apply orb_false_elim in Hl as [Hc Hl].
  cbn [split_once_str]. unfold CRLF at 1. cbn [strip_prefix]. by rewrite Hc, (IH Hl).
Qed.

Lemma split_str_head lines : ∀ fuel,
  lines ≠ [] → Forall is_line lines → (length lines ≤ S fuel)%nat →
  split_str_fuel fuel CRLF (head_of lines) = lines.
Proof.
  induction lines as [|l lines IH]; intros fuel Hne Hl Hf; [done|].
  apply Forall_cons in Hl as [[Hle Hlc] Hl]. destruct lines as [|l2 lines].
  - cbn [head_of]. destruct fuel; cbn [split_str_fuel]; [done|]. by rewrite split_CRLF_None.
  - cbn in Hf. destruct fuel as [|fuel]; [lia|]. cbn [head_of split_str_fuel].
    rewrite split_once_str_crlf by done. f_equal. apply IH; [done|done|cbn; lia].
Qed.

Lemma length_head lines : Forall is_line lines → (length lines ≤ S (str_len (head_of lines)))%nat.
Proof.
  induction 1 as [|l lines [Hle _] Hl IH]; cbn [length]; [lia|]. destruct lines as [|l2 lines]; [cbn; lia|].
  cbn [head_of]. rewrite !str_len_app. cbn [str_len CRLF] in *. cbn in IH |- *. lia.
Qed.

(** ** Tokens and headers *)

Definition is_visible (c : ascii) : bool := in_byte_range 33 126 c.
(** Printable ASCII, with the space *)
Definition is_printable (c : ascii) : bool := in_byte_range 32 126 c.

Lemma str_forall_app f a b : str_forall f (a +:+ b) = str_forall f a && str_forall f b.
Proof. induction a as [|c a IH]; [done|]. rewrite append_cons. cbn [str_forall]. by rewrite IH, andb_assoc. Qed.
Lemma str_forall_impl f g s : (∀ c, f c = true → g c = true) → str_forall f s = true → str_forall g s = true.
Proof.
  intros Hfg. induction s as [|c s IH]; [done|]. cbn [str_forall].
  intros [Hc Hs]%andb_prop. by rewrite (Hfg _ Hc), IH.
Qed.

Lemma in_byte_range_true lo hi c : in_byte_range lo hi c = true ↔ lo ≤ byte_of c ≤ hi.
Proof. unfold in_byte_range. by rewrite andb_true_iff, !Z.leb_le. Qed.
Lemma visible_printable c : is_visible c = true → is_printable c = true.
Proof. unfold is_visible, is_printable. rewrite !in_byte_range_true. lia. Qed.

Lemma printable_single s : str_forall is_printable s = true → single_line s = true.
Proof.
  intros Hs. unfold single_line. by rewrite !(str_forall_contains is_printable _ s Hs) by reflexivity.
Qed.

Lemma utf8_ascii s : str_forall (λ c, byte_of c <? 0x80) s = true → utf8_valid s = true.
Proof. induction s as [|c s IH]; [done|]. cbn. intros [Hc Hs]%andb_prop. rewrite Hc. by apply IH. Qed.

Lemma ws_head_visible c s : is_visible c = true → ws_head (String c s) = None.
Proof.
  unfold is_visible. rewrite in_byte_range_true. intros Hc. cbn [ws_head].
  rewrite (proj2 (Z.leb_gt (byte_of c) 13)), (proj2 (Z.eqb_neq (byte_of c) 32)) by lia.
  rewrite andb_false_r. cbn [orb].
  assert (∀ k, 128 ≤ k → (byte_of c =? k) = false) as Hk by (intros k Hk; apply Z.eqb_neq; lia).
  destruct s as [|b [|d s]]; rewrite ?(Hk 0xC2), ?(Hk 0xE1), ?(Hk 0xE2), ?(Hk 0xE3) by lia; done.
Qed.

Lemma split_ws_word w : ∀ fuel cur rest,
  str_forall is_visible w = true → (str_len w ≤ fuel)%nat →
  split_ws_fuel fuel cur (w +:+ rest) = split_ws_fuel (fuel - str_len w) (cur +:+ w) rest.
Proof.
  induction w as [|c w IH]; intros fuel cur rest Hw Hf.
  - rewrite append_nil, str_app_nil_r. by rewrite Nat.sub_0_r.
  - cbn [str_forall] in Hw. apply andb_prop in Hw as [Hc Hw]. cbn in Hf. destruct fuel as [|fuel]; [lia|].
    rewrite append_cons. cbn [split_ws_fuel]. rewrite ws_head_visible by done.
    rewrite IH by (done || lia). by rewrite str_app_assoc.
Qed.
Lemma split_ws_space fuel cur rest :
  split_ws_fuel (S fuel) cur (String " " rest) = push_token cur (split_ws_fuel fuel EmptyString rest).
Proof. done. Qed.
Lemma split_ws_end fuel cur : split_ws_fuel fuel cur EmptyString = push_token cur [].
Proof. by destruct fuel. Qed.

(** A word: a visible token, as a method or a target is. *)
Definition is_word (w : string) : Prop := str_is_empty w = false ∧ str_forall is_visible w = true.

Lemma push_word w l : is_word w → push_token w l = w :: l.
Proof. intros [Hw _]. unfold push_token. by rewrite Hw. Qed.

Lemma split_request_line m t v :
  is_word m → is_word t → is_word v → split_whitespace (m +:+ " " +:+ t +:+ " " +:+ v) = [m; t; v].
Proof.
  intros Hm Ht Hv. unfold split_whitespace.
  change (m +:+ " " +:+ t +:+ " " +:+ v) with (m +:+ String " " (t +:+ String " " v)).
  rewrite !str_len_app. cbn [str_len]. rewrite str_len_app. cbn [str_len].
  rewrite split_ws_word by (apply Hm || lia).
  replace (str_len m + S (str_len t + S (str_len v)) - str_len m)%nat
    with (S (str_len t + S (str_len v))) by lia.
  rewrite append_nil, split_ws_space, push_word, split_ws_word by (done || apply Ht || lia).
  replace (str_len t + S (str_len v) - str_len t)%nat with (S (str_len v)) by lia.
  rewrite append_nil, split_ws_space, push_word by done.
  rewrite <- (str_app_nil_r v) at 2. rewrite split_ws_word by (apply Hv || lia).
  by rewrite split_ws_end, append_nil, push_word.
Qed.

(** A header as a client writes it *)
Definition is_header (h : header) : Prop :=
  str_is_empty h.1 = false ∧ str_contains ":" h.1 = false ∧ trim h.1 = h.1 ∧ trim h.2 = h.2 ∧
  str_forall is_printable h.1 = true ∧ str_forall is_printable h.2 = true.
Definition header_map (headers : list header) : gmap string string :=
  foldl (λ m h, <[to_ascii_lowercase h.1 := h.2]> m) ∅ headers.

Lemma parse_headers_lines headers m :
  Forall is_header headers →
  parse_headers (header_line <$> headers) m =
  Ok (foldl (λ m h, <[to_ascii_lowercase h.1 := h.2]> m) m headers).
Proof.
  intros Hh. revert m. induction Hh as [|[name value] headers (Hne & Hc & Hn & Hv & _ & Hp) Hh IH]; intros m; [done|].
  cbn [fst snd] in *. rewrite fmap_cons. cbn [parse_headers foldl].
  change (header_line (name, value)) with (name +:+ String ":" (String " " value)).
  rewrite split_once_app by done. cbn [ok_or mbind result_mbind]. rewrite Hne. cbn [orb str_contains].
  apply printable_single in Hp. unfold single_line in Hp. apply negb_true_iff, orb_false_iff in Hp as [-> ->].
  change (trim (String " " value)) with (trim value). cbn. by rewrite Hn, Hv, IH.
Qed.

(** ** The whole request *)

Definition request_line (m t : string) : string := m +:+ " " +:+ t +:+ " HTTP/1.1".
Definition request_lines (m t : string) (headers : list header) : list string :=
  request_line m t :: (header_line <$> headers).
Definition request_text (m t : string) (headers : list header) : string :=
  join_lines (request_lines m t headers) +:+ CRLF.

(** The fragments of a text, none of them empty *)
Definition join_fragments (fragments : list string) : string := foldr String.append EmptyString fragments.
Definition fragments_of (text : string) (fragments : list string) : Prop :=
  join_fragments fragments = text ∧ Forall (λ f, str_is_empty f = false) fragments.

Lemma printable_line s : str_is_empty s = false → str_forall is_printable s = true → is_line s.
Proof. intros Hne Hs. split; [done|]. by apply (str_forall_contains is_printable). Qed.
Lemma request_line_printable m t :
  is_word m → is_word t → str_forall is_printable (request_line m t) = true.
Proof.
  intros [_ Hm] [_ Ht]. unfold request_line. rewrite !str_forall_app.
  by rewrite (str_forall_impl _ _ m visible_printable Hm), (str_forall_impl _ _ t visible_printable Ht).
Qed.
Lemma header_line_printable h : is_header h → str_forall is_printable (header_line h) = true.
Proof.
  intros (_ & _ & _ & _ & Hn & Hv). unfold header_line. rewrite !str_forall_app. by rewrite Hn, Hv.
Qed.

Section request.
Context (m t : string) (headers : list header).
Hypothesis method_word : is_word m.
Hypothesis target_word : is_word t.
Hypothesis headers_ok : Forall is_header headers.

Lemma request_lines_printable : Forall (λ l, str_forall is_printable l = true) (request_lines m t headers).
Proof.
  constructor; [by apply request_line_printable|]. apply Forall_fmap. eapply Forall_impl; [exact headers_ok|].
  intros h. apply header_line_printable.
Qed.
Lemma request_lines_ok : Forall is_line (request_lines m t headers).
Proof.
  pose proof request_lines_printable as Hp. inversion Hp as [|l ls Hl Hls]; subst. constructor.
  - apply printable_line; [|done]. unfold request_line. by destruct method_word, m.
  - apply Forall_fmap. rewrite Forall_fmap in Hls. rewrite Forall_forall in Hls, headers_ok.
    apply Forall_forall. intros h Hh. apply printable_line; [|by apply Hls].
    destruct (headers_ok h Hh) as [Hne _]. unfold header_line. by destruct h as [[] ?].
Qed.

Lemma request_text_ascii : str_forall (λ c, byte_of c <? 0x80) (request_text m t headers) = true.
Proof.
  unfold request_text. rewrite str_forall_app, andb_true_iff. split; [|done].
  pose proof request_lines_printable as Hl. induction Hl as [|l ls Hl Hls IH]; [done|].
  cbn [join_lines]. rewrite !str_forall_app, IH, andb_true_r.
  rewrite (str_forall_impl is_printable); [done| |done].
  intros c. unfold is_printable. rewrite in_byte_range_true, Z.ltb_lt. lia.
Qed.

Lemma request_text_end : split_once_str END (request_text m t headers) = Some (head_of (request_lines m t headers), EmptyString).
Proof. apply split_END_lines; [done|apply request_lines_ok]. Qed.

(** The parser on the complete text *)
Lemma parse_request_text :
  (∀ v, header_map headers !! "content-length" = Some v → v = "0") →
  parse_request (request_text m t headers) = Ok (mkRequest m t (header_map headers)).
Proof.
  intros Hcl. unfold parse_request. rewrite utf8_ascii by apply request_text_ascii. cbn [negb].
  assert (List.hd_error (split_str END (request_text m t headers)) = Some (head_of (request_lines m t headers))) as ->.
  { unfold split_str. pose proof request_text_end as Hend.
    destruct (str_len (request_text m t headers)) eqn:Hlen.
    - apply split_once_str_len in Hend. rewrite Hlen in Hend. by inversion Hend.
    - cbn [split_str_fuel]. by rewrite Hend. }
  cbn [ok_or mbind result_mbind]. unfold split_str.
  rewrite split_str_head by (done || apply request_lines_ok || apply length_head, request_lines_ok).
  unfold request_lines, request_line.
  change (m +:+ " " +:+ t +:+ " HTTP/1.1") with (m +:+ " " +:+ t +:+ " " +:+ "HTTP/1.1").
  rewrite split_request_line by done. cbn [starts_with negb].
  rewrite (parse_headers_lines headers ∅ headers_ok). fold (header_map headers). cbn.
  destruct (header_map headers !! "content-length") as [v|] eqn:Hv; [|done].
  by rewrite bool_decide_eq_true_2 by (by apply Hcl).
Qed.

Lemma fragments_nonempty fragments :
  Forall (λ f, str_is_empty f = false) fragments → fragments ≠ [] → str_is_empty (join_fragments fragments) = false.
Proof. intros [|f fs Hf _]; [done|]. intros _. cbn. by destruct f. Qed.

(** A text whose end only its last byte completes is read whole. *)
Lemma read_head_fragments text l fragments : ∀ buffer,
  split_once_str END text = Some (l, EmptyString) → Z.of_nat (str_len text) ≤ MAX_HEADER_BYTES →
  buffer +:+ join_fragments fragments = text → Forall (λ f, str_is_empty f = false) fragments → fragments ≠ [] →
  read_head (ReadBytes <$> fragments) buffer = Ok text.
Proof.
  induction fragments as [|f fragments IH]; intros buffer Hend Hmax Htext Hne Hnil; [done|].
  apply Forall_cons in Hne as [Hf Hne]. rewrite fmap_cons. cbn [read_head].
  assert (str_len buffer < str_len text)%nat as Hlen.
  { rewrite <- Htext, str_len_app. cbn. rewrite str_len_app. destruct f; [done|]. cbn. lia. }
  rewrite (proj2 (Z.leb_gt _ _)), Hf by lia. cbn [join_fragments foldr] in Htext.
  change (foldr String.append "" fragments) with (join_fragments fragments) in Htext.
  rewrite <- str_app_assoc in Htext. destruct fragments as [|f2 fragments].
  - cbn in Htext. rewrite str_app_nil_r in Htext. rewrite Htext, bool_decide_eq_true_2; [done|].
    rewrite Hend. by eexists.
  - rewrite bool_decide_eq_false_2; [by apply IH|]. intros [[l' r'] Hs].
    pose proof (fragments_nonempty _ Hne ltac:(done)) as Hx. revert Htext Hx.
    generalize (join_fragments (f2 :: fragments)). intros rest Htext Hx.
    apply (split_once_str_app _ _ rest) in Hs. rewrite Htext, Hend in Hs.
    injection Hs as _ Hs. destruct r'; [|done]. rewrite append_nil in Hs. by rewrite <- Hs in Hx.
Qed.

Lemma fragmented_request fragments :
  (∀ v, header_map headers !! "content-length" = Some v → v = "0") →
  Z.of_nat (str_len (request_text m t headers)) ≤ MAX_HEADER_BYTES →
  fragments_of (request_text m t headers) fragments →
  read_request (ReadBytes <$> fragments) = Ok (mkRequest m t (header_map headers)).
Proof.
  intros Hcl Hmax [Htext Hne]. unfold read_request.
  rewrite (read_head_fragments _ _ fragments EmptyString request_text_end Hmax); [by apply parse_request_text|done|done|].
  intros ->. cbn in Htext. pose proof request_text_end as Hend. by rewrite <- Htext in Hend.
Qed.

(** C35. Requests survive the wire: a request that is written line by line, within
    the size limit, is read back exactly, into whatever fragments the network
    has split it: its method, its target and its headers (the last one of a
    name, in lower case). *)
Theorem fragmented_request_roundtrip fragments :
  (∀ v, header_map headers !! "content-length" = Some v → v = "0") →
  Z.of_nat (str_len (request_text m t headers)) ≤ MAX_HEADER_BYTES →
  fragments_of (request_text m t headers) fragments →
  read_request (ReadBytes <$> fragments) = Ok (mkRequest m t (header_map headers)).
Proof. exact (fragmented_request fragments). Qed.
End request.

(** ** A bearer token in a header *)

Lemma printable_ws_head c s :
  is_printable c = true → ws_head (String c s) = if decide (c = " "%char) then Some 1%nat else None.
Proof.
  intros Hc. case_decide as Hs; [by subst|]. apply ws_head_visible. unfold is_visible, is_printable in *.
  rewrite in_byte_range_true in *. assert (byte_of c ≠ 32); [|lia]. intros Hb. apply Hs.
  rewrite <- (ascii_N_embedding c). unfold byte_of in Hb. by replace (N_of_ascii c) with 32%N by lia.
Qed.

(** Something is left when a word is trimmed from the left. *)
Lemma trim_start_word a w : ∀ fuel,
  str_forall is_printable a = true → is_word w → str_is_empty (trim_start_fuel fuel (a +:+ w)) = false.
Proof.
  induction a as [|c a IH]; intros fuel Ha [Hne Hw].
  - rewrite append_nil. destruct w as [|c w]; [done|]. cbn [str_forall] in Hw. apply andb_prop in Hw as [Hc _].
    destruct fuel; cbn [trim_start_fuel]; [done|]. by rewrite ws_head_visible.
  - cbn [str_forall] in Ha. apply andb_prop in Ha as [Hc Ha]. rewrite append_cons.
    destruct fuel; cbn [trim_start_fuel]; [done|]. rewrite printable_ws_head by done.
    case_decide; [|done]. cbn [str_drop]. by apply IH.
Qed.
Lemma trim_end_word a w :
  str_forall is_printable a = true → is_word w → trim_end (a +:+ w) = a +:+ w.
Proof.
  intros Ha [Hne Hw]. induction a as [|c a IH].
  - rewrite append_nil. clear Ha. induction w as [|c w IHw]; [done|]. cbn [trim_end].
    pose proof (trim_start_word EmptyString (String c w) (str_len (String c w)) eq_refl (conj Hne Hw)) as Ht.
    rewrite append_nil in Ht. unfold trim_start. destruct (trim_start_fuel _ _); [done|].
    cbn [str_forall] in Hw. apply andb_prop in Hw as [_ Hw]. destruct w as [|c2 w]; [done|]. by rewrite IHw.
  - pose proof (trim_start_word (String c a) w (str_len (String c a +:+ w)) Ha (conj Hne Hw)) as Ht.
    cbn [str_forall] in Ha. apply andb_prop in Ha as [Hc Ha]. rewrite append_cons in *. cbn [trim_end].
    unfold trim_start. destruct (trim_start_fuel _ _); [done|]. by rewrite IH.
Qed.
Lemma trim_word c a w :
  is_visible c = true → str_forall is_printable a = true → is_word w →
  trim (String c a +:+ w) = String c a +:+ w.
Proof.
  intros Hc Ha Hw. unfold trim. rewrite append_cons. unfold trim_start. cbn [str_len trim_start_fuel].
  rewrite ws_head_visible by done. rewrite <- append_cons. apply trim_end_word; [|done].
  cbn [str_forall]. by rewrite visible_printable.
Qed.

Lemma bearer_header token : is_word token → is_header ("Authorization", "Bearer " +:+ token).
Proof.
  intros Hw. unfold is_header. cbn [fst snd]. split_and!; [done..| |done|].
  - change ("Bearer " +:+ token) with (String "B" "earer " +:+ token). by apply trim_word.
  - rewrite str_forall_app. destruct Hw as [_ Hw]. by rewrite (str_forall_impl _ _ token visible_printable Hw).
Qed.

Lemma base64url_word raw : is_secret raw → is_word (base64url raw).
Proof.
  intros Hs. pose proof (is_secret_token raw Hs) as [Hlen _]. destruct Hs as [_ Hb].
  split; [by destruct (base64url raw)|]. destruct (base64url_sextets raw Hb) as (sx & pad & -> & Hsx & _).
  assert (forallb is_visible TABLE = true) as Hall by (vm_compute; reflexivity).
  rewrite forallb_forall in Hall. clear Hlen.
  induction Hsx as [|i sx Hi Hsx IH]; [done|]. cbn [map String.string_of_list_ascii str_forall].
  rewrite IH, andb_true_r. apply Hall, nth_In.
  unfold is_digit_of in Hi. change (length TABLE) with 64%nat. lia.
Qed.

(** ** A concrete request *)

Definition sample_headers : list header := [("Host", "127.0.0.1"); ("Range", "bytes=0-4")].

(** Witness of C35: the request in three fragments, one of which ends inside a line
    terminator. *)
Lemma fragmented_request_roundtrip_witness :
  read_request (ReadBytes <$>
    ["GET /assets/a HTTP"; "/1.1" +:+ CRLF +:+ "Host: 127.0.0.1" +:+ String CR EmptyString;
     String LF "Range: bytes=0-4" +:+ CRLF +:+ CRLF]) =
  Ok (mkRequest "GET" "/assets/a" (header_map sample_headers)).
Proof.
  apply (fragmented_request_roundtrip "GET" "/assets/a" sample_headers);
    [by split|by split|repeat constructor; by vm_compute|by intros v|vm_compute; discriminate|].
  split; [reflexivity|by repeat constructor].
Defined.
