(* ===== verification/Lifecycle.v ===== *)
(** * The process lifecycle

    Models [orbitrelay-server/src/lifecycle.rs], [health.rs], [error.rs], the
    stateful part of [context.rs] and [application.rs]: the lifecycle state
    machine with the health it publishes, the registration of the local node,
    startup with its rollback, and graceful shutdown.  The monad of [Sql.v] runs
    over one [ServerWorld]; binding a socket or closing a store consults the
    plan of faults, and the node registry is a parameter with its laws. *)

From S2P Require Import Prelude Sql.

(** ** [lifecycle.rs], [health.rs], [error.rs] *)

Inductive LifecycleState := Starting | Ready | Draining | Stopped.
#[global] Instance LifecycleState_eq_dec : EqDecision LifecycleState.
Proof. solve_decision. Defined.
Inductive HealthState := HealthStarting | HealthReady | HealthDegraded | HealthStopping | HealthStopped.
#[global] Instance HealthState_eq_dec : EqDecision HealthState.
Proof. solve_decision. Defined.

Record LifecycleError := mkLifecycleError { from : LifecycleState; to : LifecycleState }.

Inductive ServerError :=
| Lifecycle (e : LifecycleError)
| Config (message : string)
| Bootstrap (message : string)
| NodeLifecycle (message : string)
| Listener (message : string)
| Connection (message : string)
| Shutdown (message : string).

(** [Display] of the state and of the two errors *)
Definition state_to_string (s : LifecycleState) : string :=
  match s with
  | Starting => "starting"
  | Ready => "ready"
  | Draining => "draining"
  | Stopped => "stopped"
  end.
Definition lifecycle_error_to_string (e : LifecycleError) : string :=
  "invalid server lifecycle transition from `" +:+ state_to_string (from e) +:+
  "` to `" +:+ state_to_string (to e) +:+ "`".
Definition server_error_to_string (e : ServerError) : string :=
  match e with
  | Lifecycle e => lifecycle_error_to_string e
  | Config message => "invalid server configuration: " +:+ message
  | Bootstrap message => "server bootstrap failed: " +:+ message
  | NodeLifecycle message => "node lifecycle failed: " +:+ message
  | Listener message => "WebSocket listener failed: " +:+ message
  | Connection message => "WebSocket connection failed: " +:+ message
  | Shutdown message => "server shutdown failed: " +:+ message
  end.

(** How a call ends that does not answer: with an error, or with a panic, which
    no handler of this program catches. *)
Inductive failure := FailedWith (e : ServerError) | Panicked.

Record ServerLifecycle := mkLifecycle { lc_state : LifecycleState; lc_health : HealthState }.

Definition health_for (s : LifecycleState) : HealthState :=
  match s with
  | Starting => HealthStarting
  | Ready => HealthReady
  | Draining => HealthStopping
  | Stopped => HealthStopped
  end.
Definition from_state (s : LifecycleState) : ServerLifecycle := mkLifecycle s (health_for s).
Definition lifecycle_new : ServerLifecycle := from_state Stopped.
(** [HealthStatus::is_ready] *)
Definition is_ready (l : ServerLifecycle) : bool := bool_decide (lc_health l = HealthReady).

Definition transition (allowed_from : list LifecycleState) (to : LifecycleState) (l : ServerLifecycle)
    : result LifecycleError () * ServerLifecycle :=
  let from := lc_state l in
  if negb (bool_decide (from ∈ allowed_from)) then (Err (mkLifecycleError from to), l)
  else (Ok (), mkLifecycle to (health_for to)).
Definition lifecycle_start := transition [Stopped] Starting.
Definition lifecycle_ready := transition [Starting] Ready.
Definition lifecycle_begin_shutdown := transition [Starting; Ready] Draining.
Definition lifecycle_stop := transition [Draining] Stopped.

(** ** The node registry *)

(** [orbitrelay-node]: the states of a node that the server uses, and the
    registry port as the local node sees it. *)
Class NodeRegistry (Reg : Type) := {
  NodeState : Type;
  NodeState_eq_dec :: EqDecision NodeState;
  NodeStarting : NodeState;
  NodeReady : NodeState;
  NodeDraining : NodeState;
  NodeOffline : NodeState;
  reg_register : NodeState → Reg → result () () * Reg;
  reg_unregister : Reg → result () () * Reg;
  reg_state : Reg → option NodeState
}.
(** A successful call has its effect, a failed one has none, and [Ready] is not
    one of the other states. *)
Class NodeRegistryLaws (Reg : Type) `{NodeRegistry Reg} : Prop := {
  register_ok : ∀ s r r', reg_register s r = (Ok (), r') → reg_state r' = Some s;
  register_err : ∀ s r r', reg_register s r = (Err (), r') → reg_state r' = reg_state r;
  unregister_ok : ∀ r r', reg_unregister r = (Ok (), r') → reg_state r' = None;
  unregister_err : ∀ r r', reg_unregister r = (Err (), r') → reg_state r' = reg_state r;
  ready_not_draining : NodeReady ≠ NodeDraining;
  ready_not_offline : NodeReady ≠ NodeOffline
}.

Section server.
Context {Reg : Type} `{NodeRegistry Reg}.

(** The mutable state of a [ServerContext] and its [ServerApplication]. *)
Record ServerWorld := mkServer {
  lifecycle : ServerLifecycle;
  node_state : NodeState;
  registry : Reg;
  listener : bool;
  asset_listener : bool;
  cancelled : bool;
  event_store_closed : bool;
  asset_store_closed : bool;
  catalog_store_closed : bool
}.
(** What the process was composed with: the answer of [ServerConfig::validate],
    and the two [bind] calls on its configuration, [WebSocketListener::bind] and,
    when the context has a delivery service, [AssetHttpListener::bind].  The
    arguments of a bind tell whether the two calls of the operating system that
    it makes succeed: binding the socket, and reading its address. *)
Record Composition := mkComposition {
  config_valid : result ServerError ();
  bind_websocket : bool → bool → result failure ();
  delivery_enabled : bool;
  bind_assets : option (bool → bool → result failure ());
  has_asset_store : bool;
  has_catalog_store : bool
}.

(** A planned fault is the error of a socket or store call. *)
Abbreviation M := (sql ServerWorld ServerError failure).

Definition get {A} (f : ServerWorld → A) : M A := λ c, (Ok (f (current c)), c).
Definition update (f : ServerWorld → ServerWorld) : M () := λ c, (Ok (), set_current c (f (current c))).
Abbreviation fail e := (sql_fail (FailedWith e)).
(** [if let Err(error) = m { handler }] *)
Definition catch {A} (m : M A) (handler : ServerError → M A) : M A := λ c,
  match m c with
  | (Err (FailedWith e), c') => handler e c'
  | r => r
  end.
(** A call of the operating system, and a [bind] with its two *)
Definition os_call : M bool := λ c,
  match pop_fault c with (Some _, c') => (Ok false, c') | (None, c') => (Ok true, c') end.
Definition bind_socket (bind : bool → bool → result failure ()) : M () :=
  bound ← os_call; addressed ← os_call; sql_lift (bind bound addressed).

Definition set_lifecycle (l : ServerLifecycle) (w : ServerWorld) : ServerWorld :=
  mkServer l (node_state w) (registry w) (listener w) (asset_listener w) (cancelled w)
    (event_store_closed w) (asset_store_closed w) (catalog_store_closed w).
Definition set_node (s : NodeState) (r : Reg) (w : ServerWorld) : ServerWorld :=
  mkServer (lifecycle w) s r (listener w) (asset_listener w) (cancelled w)
    (event_store_closed w) (asset_store_closed w) (catalog_store_closed w).
Definition set_listeners (l a : bool) (w : ServerWorld) : ServerWorld :=
  mkServer (lifecycle w) (node_state w) (registry w) l a (cancelled w)
    (event_store_closed w) (asset_store_closed w) (catalog_store_closed w).
Definition set_cancelled (w : ServerWorld) : ServerWorld :=
  mkServer (lifecycle w) (node_state w) (registry w) (listener w) (asset_listener w) true
    (event_store_closed w) (asset_store_closed w) (catalog_store_closed w).
Definition set_closed (e a k : bool) (w : ServerWorld) : ServerWorld :=
  mkServer (lifecycle w) (node_state w) (registry w) (listener w) (asset_listener w) (cancelled w)
    (event_store_closed w || e) (asset_store_closed w || a) (catalog_store_closed w || k).

(** [self.lifecycle.<op>()?] *)
Definition on_lifecycle (op : ServerLifecycle → result LifecycleError () * ServerLifecycle) : M () :=
  λ c, let '(r, l) := op (lifecycle (current c)) in
       (map_err (λ e, FailedWith (Lifecycle e)) r, set_current c (set_lifecycle l (current c))).

(** ** [context.rs] *)

Definition register_node_state (s : NodeState) : M () := λ c,
  let w := current c in
  match reg_register s (registry w) with
  | (Ok _, r) => (Ok (), set_current c (set_node s r w))
  | (Err _, r) => (Err (FailedWith (NodeLifecycle "node state registration failed")),
                   set_current c (set_node (node_state w) r w))
  end.

Definition mark_ready : M () :=
  register_node_state NodeReady;;
  on_lifecycle lifecycle_ready.

Definition begin_shutdown : M () :=
  state ← get (λ w, lc_state (lifecycle w));
  (if bool_decide (state = Draining) then mret () else on_lifecycle lifecycle_begin_shutdown);;
  node ← get node_state;
  if bool_decide (node = NodeDraining) then mret () else register_node_state NodeDraining.

Definition unregister_node : M () := λ c,
  let w := current c in
  match reg_unregister (registry w) with
  | (Ok _, r) => (Ok (), set_current c (set_node (node_state w) r w))
  | (Err _, r) => (Err (FailedWith (NodeLifecycle "node unregister failed")),
                   set_current c (set_node (node_state w) r w))
  end.

Definition finish_shutdown (app : Composition) : M () :=
  sql_exec (λ _, FailedWith (Shutdown "event store shutdown failed")) (λ w, Ok (set_closed true false false w));;
  (if has_asset_store app
   then sql_exec (λ _, FailedWith (Shutdown "asset store shutdown failed")) (λ w, Ok (set_closed false true false w))
   else mret ());;
  (if has_catalog_store app
   then sql_exec (λ _, FailedWith (Shutdown "catalog store shutdown failed")) (λ w, Ok (set_closed false false true w))
   else mret ());;
  node ← get node_state;
  (if bool_decide (node = NodeOffline) then mret () else register_node_state NodeOffline);;
  unregister_node;;
  state ← get (λ w, lc_state (lifecycle w));
  if bool_decide (state = Draining) then on_lifecycle lifecycle_stop else mret ().

(** [ServerContext::shutdown] *)
Definition context_shutdown (app : Composition) : M () := begin_shutdown;; finish_shutdown app.

(** ** [application.rs] *)

Definition rollback_startup (app : Composition) : M () :=
  state ← get (λ w, lc_state (lifecycle w));
  if bool_decide (state = Stopped) then mret () else
  catch begin_shutdown (λ _, mret ());;
  catch (finish_shutdown app) (λ _, mret ()).

(** [start] *)
Definition app_start (app : Composition) : M () :=
  bound ← get listener;
  if bound : bool then mret () else
  match config_valid app with
  | Err e => rollback_startup app;; fail e
  | Ok _ =>
      catch (bind_socket (bind_websocket app)) (λ e, rollback_startup app;; fail e);;
      update (λ w, set_listeners true (asset_listener w) w);;
      (if delivery_enabled app then
         match bind_assets app with
         | None =>
             update (λ w, set_listeners false (asset_listener w) w);;
             rollback_startup app;;
             fail (Bootstrap "Asset Delivery service was not composed")
         | Some bind =>
             catch (bind_socket bind)
               (λ e, update (λ w, set_listeners false (asset_listener w) w);;
                     rollback_startup app;; fail e);;
             update (λ w, set_listeners (listener w) true w)
         end
       else mret ());;
      catch mark_ready
        (λ e, update set_cancelled;;
              update (set_listeners false false);;
              rollback_startup app;; fail e)
  end.

(** [shutdown] *)
Definition app_shutdown (app : Composition) : M () :=
  state ← get (λ w, lc_state (lifecycle w));
  if bool_decide (state = Stopped) then mret () else
  begin_shutdown;;
  update set_cancelled;;
  update (set_listeners false false);;
  finish_shutdown app.

(** [serve_after_start]; [outcome] is how the accept loop ends. *)
Definition serve_after_start (outcome : result ServerError ()) : M () :=
  bound ← get listener;
  if negb (bound : bool) then fail (Listener "listener was not initialized")
  else sql_lift (map_err FailedWith outcome).

(** [serve]: the part after [start]. *)
Definition serve_then_shutdown (app : Composition) (outcome : result ServerError ()) : M () := λ c,
  let '(result, c1) := serve_after_start outcome c in
  if bool_decide (lc_state (lifecycle (current c1)) = Stopped) then (result, c1) else
  let '(shut, c2) := app_shutdown app c1 in
  match result, shut with
  | Ok _, Err e => (Err e, c2)
  | _, _ => (result, c2)
  end.
Definition app_serve (app : Composition) (outcome : result ServerError ()) : M () :=
  app_start app;; serve_then_shutdown app outcome.

(** What wakes [run]: the accept loop, the signal, or a signal that could not
    be awaited, which returns at once. *)
Inductive wake := Served (outcome : result ServerError ()) | Signal | SignalFailed.
(** [run]: the part after [start]. *)
Definition wait_then_shutdown (app : Composition) (woken : wake) : M () := λ c,
  match woken with
  | SignalFailed => (Err (FailedWith (Shutdown "failed to wait for process shutdown signal")), c)
  | _ =>
      let '(served, c1) := match woken with
                           | Served outcome => serve_after_start outcome c
                           | _ => (Ok (), c)
                           end in
      let '(shut, c2) := app_shutdown app c1 in
      (match served with Err e => Err e | Ok _ => shut end, c2)
  end.
Definition app_run (app : Composition) (woken : wake) : M () :=
  app_start app;; wait_then_shutdown app woken.

(** [run_with_stdin_shutdown]: the same for a line of the standard input; here
    a failed read does not skip the shutdown. *)
Definition input_then_shutdown (app : Composition) (woken : wake) : M () := λ c,
  let '(served, c1) := match woken with
                       | Served outcome => serve_after_start outcome c
                       | Signal => (Ok (), c)
                       | SignalFailed =>
                           (Err (FailedWith (Shutdown "failed to wait for process shutdown input")), c)
                       end in
  let '(shut, c2) := app_shutdown app c1 in
  (match served with Err e => Err e | Ok _ => shut end, c2).
Definition app_run_with_stdin (app : Composition) (woken : wake) : M () :=
  app_start app;; input_then_shutdown app woken.

(** ** Properties *)

Context `{!NodeRegistryLaws Reg}.
Abbreviation C := (conn ServerWorld ServerError).

(** The sockets and the cancellation are the same. *)
Definition same_sockets (w w' : ServerWorld) : Prop :=
  listener w' = listener w ∧ asset_listener w' = asset_listener w ∧ cancelled w' = cancelled w.

Lemma sql_wp_catch {A} (m : M A) handler (Q : result failure A → C → Prop) c :
  sql_wp m (λ r c', match r with Err (FailedWith e) => sql_wp (handler e) Q c' | _ => Q r c' end) c →
  sql_wp (catch m handler) Q c.
Proof. unfold sql_wp, catch. by destruct (m c) as [[a|[e|]] c']. Qed.

(** The calls of the operating system succeed, or one of them was planned to fail. *)
Lemma bind_socket_wp bind w p (Q : result failure () → C → Prop) :
  (∀ bound addressed p', (faulty p' → faulty p) → bound && addressed = true ∨ faulty p →
     Q (bind bound addressed) (mkConn w None p')) →
  sql_wp (bind_socket bind) Q (mkConn w None p).
Proof.
  intros HQ. unfold sql_wp, bind_socket, os_call, mbind, sql_mbind, pop_fault, sql_lift. cbn.
  destruct p as [|[e|] p]; cbn; [by apply HQ; auto| |]; destruct p as [|[e'|] p]; cbn;
    apply HQ; auto using faulty_head, faulty_tail.
Qed.

Lemma get_wp {A} (f : ServerWorld → A) w p (Q : result failure A → C → Prop) :
  Q (Ok (f w)) (mkConn w None p) → sql_wp (get f) Q (mkConn w None p).
Proof. done. Qed.

Lemma update_wp f w p (Q : result failure () → C → Prop) :
  Q (Ok ()) (mkConn (f w) None p) → sql_wp (update f) Q (mkConn w None p).
Proof. done. Qed.

Lemma on_lifecycle_wp op w p (Q : result failure () → C → Prop) r l :
  op (lifecycle w) = (r, l) → Q (map_err (λ e, FailedWith (Lifecycle e)) r) (mkConn (set_lifecycle l w) None p) →
  sql_wp (on_lifecycle op) Q (mkConn w None p).
Proof. intros Ho HQ. unfold sql_wp, on_lifecycle. cbn. by rewrite Ho. Qed.

Lemma register_wp s w p (Q : result failure () → C → Prop) :
  (∀ e r, reg_state r = reg_state (registry w) → (∃ r', reg_register s (registry w) = (Err (), r')) →
     Q (Err (FailedWith e)) (mkConn (set_node (node_state w) r w) None p)) →
  (∀ r, reg_state r = Some s → Q (Ok ()) (mkConn (set_node s r w) None p)) →
  sql_wp (register_node_state s) Q (mkConn w None p).
Proof.
  intros He Hk. unfold sql_wp, register_node_state. cbn.
  destruct (reg_register s (registry w)) as [[[]|[]] r] eqn:Hr; cbn.
  - apply Hk. by eapply register_ok.
  - apply He; [by eapply register_err|by exists r].
Qed.

(** After [begin_shutdown], failed or not, the process is draining. *)
Lemma begin_shutdown_wp w p (Q : result failure () → C → Prop) :
  lifecycle w = from_state (lc_state (lifecycle w)) → lc_state (lifecycle w) ≠ Stopped →
  (∀ r w', same_sockets w w' → lifecycle w' = from_state Draining → Q (map_err FailedWith r) (mkConn w' None p)) →
  sql_wp begin_shutdown Q (mkConn w None p).
Proof.
  intros Hsync Hst HQ. unfold begin_shutdown. sql_step. apply get_wp.
  assert (∀ w', same_sockets w w' → lifecycle w' = from_state Draining →
    sql_wp (node ← get node_state; if bool_decide (node = NodeDraining) then mret ()
            else register_node_state NodeDraining) Q (mkConn w' None p)) as Hrest.
  { intros w' Hs Hl. sql_step. apply get_wp. case_bool_decide; [sql_step; by apply (HQ (Ok ()))|].
    apply register_wp; [intros e r _ _; by apply (HQ (Err e))|intros; by apply (HQ (Ok ()))]. }
  sql_step. case_bool_decide as Hd; [sql_step; apply Hrest; [done|by rewrite Hsync, Hd]|].
  unfold sql_wp, on_lifecycle, lifecycle_begin_shutdown, transition. cbn.
  rewrite bool_decide_eq_true_2; [cbn; by apply Hrest|].
  destruct (lc_state (lifecycle w)); [left|right; left|done|done].
Qed.

(** A successful [finish_shutdown] of a draining process has stopped it. *)
Record finished (app : Composition) (w : ServerWorld) : Prop := {
  finished_lifecycle : lifecycle w = from_state Stopped;
  finished_registry : reg_state (registry w) = None;
  finished_event_store : event_store_closed w = true;
  finished_asset_store : has_asset_store app = true → asset_store_closed w = true;
  finished_catalog_store : has_catalog_store app = true → catalog_store_closed w = true
}.

Lemma close_wp message f (b : bool) w p (Q : result failure () → C → Prop) :
  (∀ e p', Q (Err (FailedWith e)) (mkConn w None p')) →
  (∀ p', Q (Ok ()) (mkConn (if b then f w else w) None p')) →
  sql_wp (if b then sql_exec (λ _, FailedWith (Shutdown message)) (λ w, Ok (f w)) else mret ()) Q (mkConn w None p).
Proof. intros He Hk. destruct b; [sql_step; [apply He|apply Hk]|sql_step; apply Hk]. Qed.

(** The end of [finish_shutdown], with the stores closed. *)
Lemma leave_wp w p (Q : result failure () → C → Prop) :
  lifecycle w = from_state Draining →
  (∀ e n r, Q (Err (FailedWith e)) (mkConn (set_node n r w) None p)) →
  (∀ n r, reg_state r = None →
     Q (Ok ()) (mkConn (set_lifecycle (from_state Stopped) (set_node n r w)) None p)) →
  sql_wp (node ← get node_state;
          (if bool_decide (node = NodeOffline) then mret () else register_node_state NodeOffline);;
          unregister_node;;
          state ← get (λ w, lc_state (lifecycle w));
          if bool_decide (state = Draining) then on_lifecycle lifecycle_stop else mret ())
    Q (mkConn w None p).
Proof.
  intros Hl He Hk. sql_step. apply get_wp.
  assert (∀ n r, sql_wp (unregister_node;;
          state ← get (λ w, lc_state (lifecycle w));
          if bool_decide (state = Draining) then on_lifecycle lifecycle_stop else mret ())
    Q (mkConn (set_node n r w) None p)) as Hrest.
  { intros n r. sql_step. unfold sql_wp at 1, unregister_node. cbn.
    destruct (reg_unregister r) as [[[]|[]] r'] eqn:Hr; cbn; [|apply He].
    sql_step. apply get_wp. cbn. rewrite Hl. rewrite bool_decide_eq_true_2 by done.
    unfold sql_wp, on_lifecycle, lifecycle_stop, transition. cbn. rewrite Hl. cbn.
    apply Hk. by eapply unregister_ok. }
  sql_step. case_bool_decide.
  - sql_step. specialize (Hrest (node_state w) (registry w)). by destruct w.
  - apply register_wp; intros; [apply He|apply Hrest].
Qed.

Lemma finish_shutdown_wp app w p (Q : result failure () → C → Prop) :
  lifecycle w = from_state Draining →
  (∀ e w' p', same_sockets w w' → lifecycle w' = from_state Draining →
     Q (Err (FailedWith e)) (mkConn w' None p')) →
  (∀ w' p', same_sockets w w' → finished app w' → Q (Ok ()) (mkConn w' None p')) →
  sql_wp (finish_shutdown app) Q (mkConn w None p).
Proof.
  intros Hl He Hk. unfold finish_shutdown.
  sql_step. sql_step; [by apply He|]. cbn [from_option Datatypes.id set_current working committed plan].
  set (w1 := set_closed true false false w).
  sql_step. apply (close_wp _ (set_closed false true false)); [intros; by apply He|]. intros p1.
  set (w2 := if has_asset_store app then set_closed false true false w1 else w1).
  assert (lifecycle w2 = from_state Draining ∧ same_sockets w w2 ∧ event_store_closed w2 = true ∧
          (has_asset_store app = true → asset_store_closed w2 = true)) as (Hl2 & Hs2 & Hev2 & Has2).
  { unfold w2. destruct (has_asset_store app); cbn; rewrite ?orb_true_r; done. }
  sql_step. apply (close_wp _ (set_closed false false true)); [intros; by apply He|]. intros p2.
  set (w3 := if has_catalog_store app then set_closed false false true w2 else w2).
  assert (lifecycle w3 = from_state Draining ∧ same_sockets w w3 ∧ event_store_closed w3 = true ∧
          (has_asset_store app = true → asset_store_closed w3 = true) ∧
          (has_catalog_store app = true → catalog_store_closed w3 = true)) as (Hl3 & Hs3 & Hev3 & Has3 & Hk3).
  { unfold w3. destruct (has_catalog_store app); cbn; rewrite ?orb_true_r; [|done].
    rewrite Hev2. split_and!; try done. intros Ha. by rewrite (Has2 Ha). }
  apply leave_wp; [done|intros; apply He; [exact Hs3|exact Hl3]|].
  intros n r Hr. apply Hk; [exact Hs3|]. by split.
Qed.

(** A process that has shut down. *)
Record shut_down (app : Composition) (w : ServerWorld) : Prop := {
  shut_finished : finished app w;
  shut_listener : listener w = false;
  shut_asset_listener : asset_listener w = false;
  shut_cancelled : cancelled w = true
}.

Lemma app_shutdown_wp app w p (Q : result failure () → C → Prop) :
  lifecycle w = from_state (lc_state (lifecycle w)) → lc_state (lifecycle w) ≠ Stopped →
  (∀ e w' p', lifecycle w' = from_state Draining → Q (Err (FailedWith e)) (mkConn w' None p')) →
  (∀ w' p', shut_down app w' → Q (Ok ()) (mkConn w' None p')) →
  sql_wp (app_shutdown app) Q (mkConn w None p).
Proof.
  intros Hsync Hst He Hk. unfold app_shutdown. sql_step. apply get_wp. rewrite bool_decide_eq_false_2 by done.
  sql_step. apply begin_shutdown_wp; [done|done|]. intros r w1 Hs1 Hl1.
  destruct r as [[]|e]; cbn [map_err]; [|by apply He].
  sql_step. apply update_wp. sql_step. apply update_wp.
  apply finish_shutdown_wp; [done|intros e w' p' _ Hl; by apply He|].
  intros w' p' (Hl & Ha & Hc) Hf. by apply Hk.
Qed.

(** Graceful shutdown: called on a running process, whatever call fails,
    [shutdown] leaves the process draining or stopped, never ready.  A success
    means that it is stopped and reports so, its node is unregistered, all its
    stores are closed, its listeners are gone and its sessions are cancelled. *)
Theorem shutdown_stops app w p :
  lifecycle w = from_state (lc_state (lifecycle w)) → lc_state (lifecycle w) ≠ Stopped →
  let '(r, c) := app_shutdown app (mkConn w None p) in
  let w' := committed c in
  is_ready (lifecycle w') = false ∧
  match r with
  | Ok _ => finished app w' ∧ listener w' = false ∧ asset_listener w' = false ∧ cancelled w' = true
  | Err _ => lifecycle w' = from_state Draining
  end.
Proof.
  intros Hsync Hst.
  enough (sql_wp (app_shutdown app) (λ r c,
    is_ready (lifecycle (committed c)) = false ∧
    match r with
    | Ok _ => finished app (committed c) ∧ listener (committed c) = false ∧
              asset_listener (committed c) = false ∧ cancelled (committed c) = true
    | Err _ => lifecycle (committed c) = from_state Draining
    end) (mkConn w None p)) as Hw by (unfold sql_wp in Hw; by destruct (app_shutdown _ _)).
  apply app_shutdown_wp; [done|done|intros e w' p' Hl; cbn; by rewrite Hl|].
  intros w' p' [Hf ? ? ?]. cbn. by rewrite (finished_lifecycle _ _ Hf).
Qed.

(** After the rollback of a failed start the process is draining, or stopped
    and unregistered. *)
Definition rolled_back (w w' : ServerWorld) : Prop :=
  same_sockets w w' ∧
  (lifecycle w' = from_state Draining ∨
   (lifecycle w' = from_state Stopped ∧ reg_state (registry w') = None)).

Lemma rollback_wp {A} app e w p (Q : result failure A → C → Prop) :
  lifecycle w = from_state Starting →
  (∀ w' p', rolled_back w w' → Q (Err (FailedWith e)) (mkConn w' None p')) →
  sql_wp (rollback_startup app;; fail e) Q (mkConn w None p).
Proof.
  intros Hl HQ. sql_step. unfold rollback_startup. sql_step. apply get_wp.
  rewrite bool_decide_eq_false_2 by (by rewrite Hl). sql_step. apply sql_wp_catch. apply begin_shutdown_wp; [by rewrite Hl|by rewrite Hl|].
  assert (∀ w', same_sockets w w' → lifecycle w' = from_state Draining →
    sql_wp (catch (finish_shutdown app) (λ _, mret ()))
      (λ r c', match r with Ok _ => sql_wp (fail e) Q c' | Err e' => Q (Err e') c' end)
      (mkConn w' None p)) as Hrest.
  { intros w' Hs Hl'. apply sql_wp_catch. apply finish_shutdown_wp; [done| |].
    - intros e' w2 p' Hs2 Hl2. sql_step. sql_step. apply HQ.
      destruct Hs as (? & ? & ?), Hs2 as (? & ? & ?). split; [split_and!; congruence|by left].
    - intros w2 p' Hs2 Hf. sql_step. apply HQ.
      destruct Hs as (? & ? & ?), Hs2 as (? & ? & ?). split; [split_and!; congruence|right].
      by destruct Hf. }
  intros [[]|e'] w1 Hs1 Hl1; cbn [map_err]; [|sql_step]; by apply Hrest.
Qed.

(** Why a start can fail, and why it can panic. *)
Definition start_excuse (app : Composition) (w : ServerWorld) (p : list (option ServerError)) : Prop :=
  faulty p ∨ is_ok (config_valid app) = false ∨
  (∃ e, bind_websocket app true true = Err (FailedWith e)) ∨
  (delivery_enabled app = true ∧ bind_assets app = None) ∨
  (delivery_enabled app = true ∧ ∃ bind e, bind_assets app = Some bind ∧ bind true true = Err (FailedWith e)) ∨
  ∃ r, reg_register NodeReady (registry w) = (Err (), r).
Definition start_panics (app : Composition) : Prop :=
  (∃ bound addressed, bind_websocket app bound addressed = Err Panicked) ∨
  (delivery_enabled app = true ∧
   ∃ bind bound addressed, bind_assets app = Some bind ∧ bind bound addressed = Err Panicked).

(** What [start] promises. *)
Definition started (app : Composition) (w : ServerWorld) (p : list (option ServerError))
    (r : result failure ()) (c : C) : Prop :=
  let w' := committed c in
  match r with
  | Ok _ => lifecycle w' = from_state Ready ∧ reg_state (registry w') = Some NodeReady ∧
            listener w' = true ∧ asset_listener w' = delivery_enabled app
  | Err (FailedWith _) =>
      start_excuse app w p ∧ listener w' = false ∧ asset_listener w' = false ∧
      (lifecycle w' = from_state Draining ∨
       (lifecycle w' = from_state Stopped ∧ reg_state (registry w') = None))
  | Err Panicked => start_panics app ∧ lifecycle w' = from_state Starting
  end.

(** The same, and no state is pending. *)
Definition started_now (app : Composition) (w : ServerWorld) (p : list (option ServerError))
    (r : result failure ()) (c : C) : Prop := working c = None ∧ started app w p r c.

Lemma started_err app w p w1 w2 p' e :
  start_excuse app w p → listener w1 = false → asset_listener w1 = false → rolled_back w1 w2 →
  started_now app w p (Err (FailedWith e)) (mkConn w2 None p').
Proof. intros Hx Hl Ha ((Hl' & Ha' & _) & Hr). split; [done|]. cbn. rewrite Hl', Ha'. by rewrite Hl, Ha. Qed.

(** The end of [start]: both listeners are bound. *)
Lemma mark_ready_wp app w p w1 p1 :
  lifecycle w1 = from_state Starting → registry w1 = registry w →
  listener w1 = true → asset_listener w1 = delivery_enabled app →
  sql_wp (catch mark_ready
            (λ e, update set_cancelled;; update (set_listeners false false);;
                  rollback_startup app;; fail e)) (started_now app w p) (mkConn w1 None p1).
Proof.
  intros Hl Hreg Hlis Has. apply sql_wp_catch. unfold mark_ready. sql_step. apply register_wp.
  - intros e r Hr Hfail. sql_step. apply update_wp. sql_step. apply update_wp.
    apply rollback_wp; [done|]. intros w2 p2 Hrb. rewrite Hreg in Hfail.
    eapply started_err; [by do 5 right| | |exact Hrb]; done.
  - intros r Hr. unfold sql_wp, on_lifecycle, lifecycle_ready, transition. cbn. rewrite Hl. cbn. done.
Qed.

(** One of the binds: it succeeds, fails with an excuse, or panics. *)
Lemma bind_wp bind (undo : ServerError → M ()) (p : list (option ServerError)) w p0 (Q : result failure () → C → Prop) :
  (faulty p0 → faulty p) →
  (∀ p', (faulty p' → faulty p) → Q (Ok ()) (mkConn w None p')) →
  (∀ e p', faulty p ∨ bind true true = Err (FailedWith e) → sql_wp (undo e) Q (mkConn w None p')) →
  (∀ bound addressed p', bind bound addressed = Err Panicked → Q (Err Panicked) (mkConn w None p')) →
  sql_wp (catch (bind_socket bind) undo) Q (mkConn w None p0).
Proof.
  intros Hp Hk He Hx. apply sql_wp_catch, bind_socket_wp. intros bound addressed p' Hp' Hor.
  destruct (bind bound addressed) as [[]|[e|]] eqn:Hb; [by apply Hk; auto| |by eapply Hx].
  apply He. destruct Hor as [[-> ->]%andb_true_iff|Hf]; auto.
Qed.

Lemma app_start_wp app w p :
  lifecycle w = from_state Starting → listener w = false → asset_listener w = false →
  sql_wp (app_start app) (started_now app w p) (mkConn w None p).
Proof.
  intros Hl Hlis Has. unfold app_start. sql_step. apply get_wp. rewrite Hlis.
  destruct (config_valid app) as [[]|e] eqn:Hcfg.
  2:{ apply rollback_wp; [done|]. intros w2 p2 Hrb.
      eapply (started_err _ _ _ w); [right; left; by rewrite Hcfg|done|done|done]. }
  sql_step. apply (bind_wp _ _ p); [done| | |].
  2:{ intros e p' Hor. apply rollback_wp; [done|]. intros w2 p2 Hrb.
      eapply (started_err _ _ _ w); [|done|done|done]. destruct Hor; [by left|right; right; left; by exists e]. }
  2:{ intros bound addressed p' Hb. split; [done|]. split; [left; by exists bound, addressed|done]. }
  intros p1 Hp1. cbv beta iota. sql_step. apply update_wp. sql_step.
  destruct (delivery_enabled app) eqn:Hen; [|sql_step; apply mark_ready_wp; cbn; congruence].
  destruct (bind_assets app) as [bind|] eqn:Had.
  - sql_step. apply (bind_wp _ _ p); [done| | |].
    + intros p' _. cbv beta iota. apply update_wp. apply mark_ready_wp; cbn; congruence.
    + intros e p' Hor. sql_step. apply update_wp. apply rollback_wp; [done|]. intros w2 p2 Hrb.
      eapply started_err; [| | |exact Hrb]; [|done|done].
      destruct Hor as [Hf|Hb]; [by left|do 4 right; left; split; [done|by exists bind, e]].
    + intros bound addressed p' Hb. split; [done|]. split; [right; split; [done|by exists bind, bound, addressed]|done].
  - sql_step. apply update_wp. apply rollback_wp; [done|]. intros w2 p2 Hrb.
    eapply started_err; [do 3 right; left; done| | |exact Hrb]; done.
Qed.

(** Startup is all or nothing: from a composed, starting process, a success
    means that the process is ready and reports so, its node is registered as
    ready and its listeners are bound; an error has a stated reason, leaves no
    listener behind and never a ready process, which is draining when the
    rollback itself failed and stopped and unregistered otherwise; and a panic
    comes from one of the binds, before the process was ready. *)
Theorem start_all_or_nothing app w p :
  lifecycle w = from_state Starting → listener w = false → asset_listener w = false →
  let '(r, c) := app_start app (mkConn w None p) in started app w p r c.
Proof.
  intros Hl Hlis Has. pose proof (app_start_wp app w p Hl Hlis Has) as Hw. unfold sql_wp in Hw.
  destruct (app_start _ _). apply Hw.
Qed.

(** A stopped process is not restarted, but its node is advertised as ready:
    [start] registers the node before the lifecycle refuses, and the rollback
    of a stopped process does nothing. *)
Theorem restart_advertises_stopped_node app w r :
  lifecycle w = from_state Stopped → listener w = false →
  is_ok (config_valid app) = true → bind_websocket app true true = Ok () → delivery_enabled app = false →
  reg_register NodeReady (registry w) = (Ok (), r) →
  let '(result, c) := app_start app (mkConn w None []) in
  result = Err (FailedWith (Lifecycle (mkLifecycleError Stopped Ready))) ∧
  lifecycle (committed c) = from_state Stopped ∧ reg_state (registry (committed c)) = Some NodeReady.
Proof.
  intros Hl Hlis Hcfg Hbind Hen Hreg.
  assert (sql_wp (app_start app) (λ result c,
    result = Err (FailedWith (Lifecycle (mkLifecycleError Stopped Ready))) ∧
    lifecycle (committed c) = from_state Stopped ∧ reg_state (registry (committed c)) = Some NodeReady)
    (mkConn w None [])) as Hw; [|unfold sql_wp in Hw; by destruct (app_start _ _)].
  unfold app_start. sql_step. apply get_wp. rewrite Hlis.
  destruct (config_valid app) as [[]|]; [|done]. sql_step.
  assert (∀ undo, catch (bind_socket (bind_websocket app)) undo (mkConn w None []) = (Ok (), mkConn w None [])) as Hok
    by (intros undo; unfold catch, bind_socket, mbind, sql_mbind, os_call, sql_lift; cbn; by rewrite Hbind).
  unfold sql_wp at 1. rewrite Hok. cbn [fst snd]. sql_step. apply update_wp.
  rewrite Hen. sql_step. sql_step. apply sql_wp_catch. unfold mark_ready. sql_step. apply register_wp.
  { intros e r' _ [r'' Hr]. cbn in Hr. congruence. }
  intros r' Hr'. eapply on_lifecycle_wp; [cbn [lifecycle set_node set_listeners]; by rewrite Hl|].
  cbn [map_err]. sql_step. apply update_wp. sql_step. apply update_wp. sql_step.
  unfold rollback_startup. sql_step. apply get_wp. rewrite bool_decide_eq_true_2 by done.
  sql_step. sql_step. done.
Qed.
End server.

(** ** A registry that accepts everything *)

Section demo.

#[local] Instance demo_registry : NodeRegistry (option LifecycleState) := {|
  NodeState := LifecycleState;
  NodeStarting := Starting; NodeReady := Ready; NodeDraining := Draining; NodeOffline := Stopped;
  reg_register := λ s _, (Ok (), Some s);
  reg_unregister := λ _, (Ok (), None);
  reg_state := Datatypes.id
|}.
#[local] Instance demo_registry_laws : NodeRegistryLaws (option LifecycleState).
Proof.
  split; cbn; try done; intros; simplify_eq; done.
Qed.

(** The bind of a socket that asks the operating system alone *)
Definition demo_bind (bound addressed : bool) : result failure () :=
  if bound && addressed then Ok () else Err (FailedWith (Listener "socket")).
Definition demo_app : Composition := mkComposition (Ok ()) demo_bind true (Some demo_bind) true true.
Definition demo_server (s : LifecycleState) (bound : bool) : ServerWorld (Reg := option LifecycleState) :=
  mkServer (from_state s) s (Some s) bound bound false false false false.

(** An instance. *)
Lemma shutdown_stops_witness :
  let '(r, c) := app_shutdown demo_app (mkConn (demo_server Ready true) None []) in
  let w' := committed c in
  is_ready (lifecycle w') = false ∧
  match r with
  | Ok _ => finished demo_app w' ∧ listener w' = false ∧ asset_listener w' = false ∧ cancelled w' = true
  | Err _ => lifecycle w' = from_state Draining
  end.
Proof. apply (shutdown_stops demo_app (demo_server Ready true) []); done. Defined.

(** An instance. *)
Lemma start_all_or_nothing_witness :
  let '(r, c) := app_start demo_app (mkConn (demo_server Starting false) None [None; None; Some (Listener "asset")]) in
  started demo_app (demo_server Starting false) [None; None; Some (Listener "asset")] r c.
Proof. apply (start_all_or_nothing demo_app (demo_server Starting false)); done. Defined.
End demo.
