(* ===== verification/DeliveryConfig.v ===== *)
(** * The configuration of Asset delivery

    Models [orbitrelay-server/src/asset_delivery/config.rs]: the settings, their
    defaults and builders, and the validation.  A validated base URL is a bare
    [scheme://authority], so that the locators built from it have one form. *)

From S2P Require Import Prelude Net Http Lifecycle.

(** ** The settings *)

Record AssetDeliveryConfig := mkDeliveryConfig {
  enabled : bool;
  listen_addr : SocketAddr;
  cfg_public_base_url : option string;
  max_connections : Z;
  max_active_downloads : Z;
  chunk_size : Z;
  idle_timeout_milliseconds : Z;
  cfg_grant_ttl_seconds : Z;
  cfg_max_grants : Z;
  cfg_allowed_origins : list string
}.
Definition delivery_default : AssetDeliveryConfig :=
  mkDeliveryConfig false (mkSocketAddr (V4 [127; 0; 0; 1]) 8081 0) None 64 8 (64 * 1024) 30000 (10 * 60) 4096 [].

(** *** Builders *)

Definition with_enabled (value : bool) (c : AssetDeliveryConfig) : AssetDeliveryConfig :=
  mkDeliveryConfig value (listen_addr c) (cfg_public_base_url c) (max_connections c)
    (max_active_downloads c) (chunk_size c) (idle_timeout_milliseconds c) (cfg_grant_ttl_seconds c)
    (cfg_max_grants c) (cfg_allowed_origins c).
Definition with_listen_addr (value : SocketAddr) (c : AssetDeliveryConfig) : AssetDeliveryConfig :=
  mkDeliveryConfig (enabled c) value (cfg_public_base_url c) (max_connections c)
    (max_active_downloads c) (chunk_size c) (idle_timeout_milliseconds c) (cfg_grant_ttl_seconds c)
    (cfg_max_grants c) (cfg_allowed_origins c).
(** The assignment of [public_base_url] *)
Definition assign_public_base_url (value : option string) (c : AssetDeliveryConfig) : AssetDeliveryConfig :=
  mkDeliveryConfig (enabled c) (listen_addr c) value (max_connections c)
    (max_active_downloads c) (chunk_size c) (idle_timeout_milliseconds c) (cfg_grant_ttl_seconds c)
    (cfg_max_grants c) (cfg_allowed_origins c).
Definition with_public_base_url (value : string) : AssetDeliveryConfig → AssetDeliveryConfig :=
  assign_public_base_url (Some value).
Definition without_public_base_url : AssetDeliveryConfig → AssetDeliveryConfig :=
  assign_public_base_url None.
Definition with_max_connections (value : Z) (c : AssetDeliveryConfig) : AssetDeliveryConfig :=
  mkDeliveryConfig (enabled c) (listen_addr c) (cfg_public_base_url c) value
    (max_active_downloads c) (chunk_size c) (idle_timeout_milliseconds c) (cfg_grant_ttl_seconds c)
    (cfg_max_grants c) (cfg_allowed_origins c).
Definition with_max_active_downloads (value : Z) (c : AssetDeliveryConfig) : AssetDeliveryConfig :=
  mkDeliveryConfig (enabled c) (listen_addr c) (cfg_public_base_url c) (max_connections c)
    value (chunk_size c) (idle_timeout_milliseconds c) (cfg_grant_ttl_seconds c)
    (cfg_max_grants c) (cfg_allowed_origins c).
Definition with_chunk_size (value : Z) (c : AssetDeliveryConfig) : AssetDeliveryConfig :=
  mkDeliveryConfig (enabled c) (listen_addr c) (cfg_public_base_url c) (max_connections c)
    (max_active_downloads c) value (idle_timeout_milliseconds c) (cfg_grant_ttl_seconds c)
    (cfg_max_grants c) (cfg_allowed_origins c).
Definition with_idle_timeout_milliseconds (value : Z) (c : AssetDeliveryConfig) : AssetDeliveryConfig :=
  mkDeliveryConfig (enabled c) (listen_addr c) (cfg_public_base_url c) (max_connections c)
    (max_active_downloads c) (chunk_size c) value (cfg_grant_ttl_seconds c)
    (cfg_max_grants c) (cfg_allowed_origins c).
Definition with_grant_ttl_seconds (value : Z) (c : AssetDeliveryConfig) : AssetDeliveryConfig :=
  mkDeliveryConfig (enabled c) (listen_addr c) (cfg_public_base_url c) (max_connections c)
    (max_active_downloads c) (chunk_size c) (idle_timeout_milliseconds c) value
    (cfg_max_grants c) (cfg_allowed_origins c).
Definition with_max_grants (value : Z) (c : AssetDeliveryConfig) : AssetDeliveryConfig :=
  mkDeliveryConfig (enabled c) (listen_addr c) (cfg_public_base_url c) (max_connections c)
    (max_active_downloads c) (chunk_size c) (idle_timeout_milliseconds c) (cfg_grant_ttl_seconds c)
    value (cfg_allowed_origins c).
Definition with_allowed_origins (value : list string) (c : AssetDeliveryConfig) : AssetDeliveryConfig :=
  mkDeliveryConfig (enabled c) (listen_addr c) (cfg_public_base_url c) (max_connections c)
    (max_active_downloads c) (chunk_size c) (idle_timeout_milliseconds c) (cfg_grant_ttl_seconds c)
    (cfg_max_grants c) value.

(** ** Validation *)

Definition config (message : string) : ServerError := Config message.

(** [str::trim_matches(['[', ']'])] *)
Definition is_bracket (c : ascii) : bool := char_eqb c "[" || char_eqb c "]".
Fixpoint trim_brackets_start (s : string) : string :=
  match s with String c s' => if is_bracket c then trim_brackets_start s' else s | EmptyString => s end.
Fixpoint trim_brackets_end (s : string) : string :=
  match s with
  | EmptyString => EmptyString
  | String c s' =>
      let t := trim_brackets_end s' in
      if str_is_empty t && is_bracket c then EmptyString else String c t
  end.
Definition trim_brackets (s : string) : string := trim_brackets_end (trim_brackets_start s).

(** [authority.matches(':').count()] *)
Fixpoint count_char (c : ascii) (s : string) : nat :=
  match s with
  | EmptyString => O
  | String a s' => if char_eqb c a then S (count_char c s') else count_char c s'
  end.

(** The [let host = ...] of [validate_public_base_url].  With at most one colon,
    [rsplit_once] splits where [split_once] does. *)
Definition authority_host (authority : string) : result ServerError string :=
  match strip_prefix "[" authority with
  | Some rest =>
      '(host, suffix) ← ok_or (config "asset public base URL has an invalid IPv6 authority")
                          (split_once "]" rest);
      if negb (str_is_empty suffix) &&
         (negb (starts_with ":" suffix) || negb (bool_decide (is_Some (parse_u16 (str_drop 1 suffix)))))
      then Err (config "asset public base URL has an invalid port") else Ok host
  | None =>
      if (1 <? count_char ":" authority)%nat
      then Err (config "asset public base URL has an invalid IPv6 authority") else
      match split_once ":" authority with
      | Some (host, port) =>
          if str_is_empty host || negb (bool_decide (is_Some (parse_u16 port)))
          then Err (config "asset public base URL has an invalid port") else Ok host
      | None => Ok authority
      end
  end.

(** [validate_public_base_url] *)
Definition validate_public_base_url (value : string) : result ServerError () :=
  '(scheme, remainder) ← ok_or (config "asset public base URL must be absolute")
                           (split_once_str "://" value);
  if (negb (bool_decide (scheme = "http")) && negb (bool_decide (scheme = "https")))
     || has_whitespace value
  then Err (config "asset public base URL must use http or https") else
  let '(authority, path) := match split_once "/" remainder with
                            | Some (authority, path) => (authority, Some path)
                            | None => (remainder, None)
                            end in
  if str_is_empty authority
     || match path with Some path => negb (str_is_empty path) | None => false end
     || str_contains "?" remainder || str_contains "#" remainder
  then Err (config "asset public base URL must include a host without query or fragment") else
  host ← authority_host authority;
  if str_is_empty host then Err (config "asset public base URL must include a host") else
  match parse_ip_addr (trim_brackets host) with
  | Some ip => if is_unspecified ip
               then Err (config "asset public base URL must not advertise an unspecified host")
               else Ok ()
  | None => Ok ()
  end.

(** [AssetDeliveryConfig::validate] *)
Definition validate_delivery (c : AssetDeliveryConfig) : result ServerError () :=
  if (max_connections c =? 0) || (max_active_downloads c =? 0)
  then Err (config "asset delivery connection and download limits must be greater than zero") else
  if chunk_size c =? 0 then Err (config "asset delivery chunk size must be greater than zero") else
  if idle_timeout_milliseconds c =? 0
  then Err (config "asset delivery idle timeout must be greater than zero") else
  if cfg_grant_ttl_seconds c <=? 0 then Err (config "asset delivery Grant TTL must be positive") else
  if cfg_max_grants c =? 0 then Err (config "asset delivery max grants must be greater than zero") else
  match cfg_public_base_url c with
  | Some url => validate_public_base_url url
  | None => if enabled c && negb (is_loopback (ip (listen_addr c)))
            then Err (config "asset public base URL is required for non-loopback binds") else Ok ()
  end.

(** ** What a validated base URL looks like *)

Lemma split_once_str_Some sep s l r : split_once_str sep s = Some (l, r) → s = l +:+ sep +:+ r.
Proof.
  revert l. induction s as [|a s IH]; intros l; cbn [split_once_str];
    destruct (strip_prefix sep _) as [rest|] eqn:Hp; try done.
  - intros [= <- <-]. rewrite append_nil. by apply strip_prefix_Some.
  - intros [= <- <-]. rewrite append_nil. by apply strip_prefix_Some.
  - destruct (split_once_str sep s) as [[l' r']|]; [|done]. intros [= <- <-].
    rewrite append_cons. f_equal. by apply IH.
Qed.

Lemma split_once_None c s : split_once c s = None → str_contains c s = false.
Proof.
  induction s as [|a s IH]; [done|]. cbn [split_once str_contains]. destruct (char_eqb c a); [done|].
  destruct (split_once c s) as [[]|]; [done|]. auto.
Qed.

(** A scheme and an authority, with nothing after it but possibly a slash. *)
Record base_url_shape (value scheme authority : string) : Prop := {
  shape_scheme : scheme = "http"%string ∨ scheme = "https"%string;
  shape_value : value = scheme +:+ "://" +:+ authority ∨ value = scheme +:+ "://" +:+ authority +:+ "/";
  shape_host : str_is_empty authority = false;
  shape_slash : str_contains "/" authority = false;
  shape_query : str_contains "?" authority = false;
  shape_fragment : str_contains "#" authority = false;
  shape_space : has_whitespace value = false
}.

Lemma validate_public_base_url_shape value :
  validate_public_base_url value = Ok () → ∃ scheme authority, base_url_shape value scheme authority.
Proof.
  unfold validate_public_base_url. intros Hv.
  apply bind_Ok_inv in Hv as ([scheme remainder] & Hs%ok_or_Ok_inv%split_once_str_Some & Hv).
  cbv beta iota in Hv.
  destruct ((negb (bool_decide (scheme = "http"%string)) && negb (bool_decide (scheme = "https"%string)))
            || has_whitespace value) eqn:Hscheme; [done|].
  apply orb_false_elim in Hscheme as [Hscheme Hws].
  assert (scheme = "http"%string ∨ scheme = "https"%string) as Hsch.
  { apply andb_false_iff in Hscheme. rewrite !negb_false_iff, !bool_decide_eq_true in Hscheme. tauto. }
  destruct (split_once "/" remainder) as [[authority path]|] eqn:Hsplit.
  - destruct (str_is_empty authority || _ || _ || _) eqn:Hbad; [done|].
    apply orb_false_elim in Hbad as [Hbad Hhash]. apply orb_false_elim in Hbad as [Hbad Hq].
    apply orb_false_elim in Hbad as [Hempty Hpath]. apply negb_false_iff in Hpath.
    destruct path; [|done]. apply split_once_Some in Hsplit as [-> Hslash].
    rewrite str_contains_app in Hhash, Hq. apply orb_false_elim in Hhash as [Hhash _], Hq as [Hq _].
    exists scheme, authority. split; try done. right. rewrite Hs. done.
  - destruct (str_is_empty remainder || _ || _ || _) eqn:Hbad; [done|].
    apply orb_false_elim in Hbad as [Hbad Hhash]. apply orb_false_elim in Hbad as [Hbad Hq].
    apply orb_false_elim in Hbad as [Hempty _]. apply split_once_None in Hsplit.
    exists scheme, remainder. split; try done. by left.
Qed.

(** Every field within the range of its type. *)
Record delivery_typed (c : AssetDeliveryConfig) : Prop := {
  typed_listen_addr : addr_typed (listen_addr c);
  typed_max_connections : is_u64 (max_connections c);
  typed_max_active_downloads : is_u64 (max_active_downloads c);
  typed_chunk_size : is_u64 (chunk_size c);
  typed_idle_timeout : is_u64 (idle_timeout_milliseconds c);
  typed_grant_ttl : is_i64 (cfg_grant_ttl_seconds c);
  typed_max_grants : is_u64 (cfg_max_grants c)
}.

(** What [validate_delivery] checks *)
Record delivery_valid (c : AssetDeliveryConfig) : Prop := {
  valid_max_connections : max_connections c ≠ 0;
  valid_max_active_downloads : max_active_downloads c ≠ 0;
  valid_chunk_size : chunk_size c ≠ 0;
  valid_idle_timeout : idle_timeout_milliseconds c ≠ 0;
  valid_grant_ttl : 0 < cfg_grant_ttl_seconds c;
  valid_max_grants : cfg_max_grants c ≠ 0;
  valid_base_url : match cfg_public_base_url c with
                   | Some url => validate_public_base_url url = Ok ()
                   | None => enabled c = true → is_loopback (ip (listen_addr c)) = true
                   end
}.

Lemma validate_delivery_iff c : validate_delivery c = Ok () ↔ delivery_valid c.
Proof.
  unfold validate_delivery. rewrite !guard_Ok, orb_false_iff, !Z.eqb_neq, Z.leb_gt.
  assert ((match cfg_public_base_url c with
           | Some url => validate_public_base_url url
           | None => if enabled c && negb (is_loopback (ip (listen_addr c)))
                     then Err (config "asset public base URL is required for non-loopback binds") else Ok ()
           end) = Ok () ↔
          match cfg_public_base_url c with
          | Some url => validate_public_base_url url = Ok ()
          | None => enabled c = true → is_loopback (ip (listen_addr c)) = true
          end) as ->.
  { destruct (cfg_public_base_url c); [done|]. rewrite guard_Ok.
    rewrite andb_false_iff, negb_false_iff. destruct (enabled c), (is_loopback _); intuition congruence. }
  split; [intros ([? ?] & ? & ? & ? & ? & ?); by split|].
  intros []. by split_and!.
Qed.
