(* ===== verification/Delivery.v ===== *)
(** * Asset access resolution

    Models [orbitrelay-server/src/asset_delivery/access.rs] and [mod.rs]: the
    [asset.access.resolve] Query, which turns an authorized Document into a
    short-lived Grant and a URL.  The last theorem joins the Query with the
    HTTP listener of [Http.v]: what is resolved can be downloaded. *)

From S2P Require Import Prelude Net Kernel Range Base64 Grant Http CanvasHistory Lifecycle DeliveryConfig.

Definition ASSET_ACCESS_RESOLVE_QUERY_TYPE : string := "asset.access.resolve".

(** [str::trim_end_matches] with an ASCII [char] *)
Fixpoint trim_end_matches (c : ascii) (s : string) : string :=
  match s with
  | EmptyString => EmptyString
  | String a s' =>
      match trim_end_matches c s' with
      | EmptyString => if char_eqb c a then EmptyString else String a EmptyString
      | t => String a t
      end
  end.

Section access.
Context `{Kernel, !KernelLaws} {AK : AssetKernel} {AL : AssetKernelLaws} {DK : DocumentKernel}.
Context {Actor : Type} (actor_actor_id : Actor → ActorId).

(** [AssetAccessAuthorization] and [AssetAccessDescriptor] *)
Inductive AssetAccessAuthorization := Bearer (token : string).
Record AssetAccessDescriptor := mkAccess {
  access_asset_id : AssetId;
  delivery_kind : string;
  url : string;
  authorization : AssetAccessAuthorization;
  expires_at : Timestamp;
  supports_range : bool
}.
(** [AssetAccessDescriptor::http_bearer] *)
Definition http_bearer (asset_id : AssetId) (url token : string) (expires_at : Timestamp)
    : AssetAccessDescriptor :=
  mkAccess asset_id "http" url (Bearer token) expires_at true.

(** [AssetDeliveryService]: the parts that change, and its operations. *)
Record AssetDeliveryService := mkService {
  grants : AssetAccessGrantIssuer;
  public_base_url : option string
}.
(** [AssetDeliveryService::new] *)
Definition service_new (config : AssetDeliveryConfig) : result ServerError AssetDeliveryService :=
  validate_delivery config;;
  Ok (mkService (issuer_new (cfg_grant_ttl_seconds config) (cfg_max_grants config))
        (cfg_public_base_url config)).
(** [set_bound_public_base_url] *)
Definition set_bound_public_base_url (port : Z) (s : AssetDeliveryService) : AssetDeliveryService :=
  match public_base_url s with
  | Some _ => s
  | None => mkService (grants s) (Some ("http://127.0.0.1:" +:+ show_u64 port))
  end.

(** [serde]: reading the request and writing the descriptor. *)
Context (decode_payload : Payload → option DocumentId).
Context (encode_payload : AssetAccessDescriptor → option Payload).

(** [DocumentReadAuthorizationError]; the enum is non-exhaustive. *)
Inductive DocumentAuthorizationError := DocUnauthorized | DocUnavailable | DocInternal | DocOther.
Definition map_document_authorization (e : DocumentAuthorizationError) : QueryHandlerError :=
  match e with
  | DocUnauthorized => HandlerUnauthorized
  | DocUnavailable => HandlerUnavailable
  | DocInternal | DocOther => HandlerInternal
  end.
Definition map_grant_error (e : GrantError) : QueryHandlerError :=
  match e with
  | GrantUnavailable => HandlerUnavailable
  | GrantRandomness => HandlerInternal
  | GrantUnauthorized => HandlerUnauthorized
  end.

(** [AssetAccessQueryHandler], with the ports it calls. *)
Record AccessHandler := mkAccessHandler {
  a_get_document : DocumentId → result () (option DocumentDescriptor);
  a_authorize : Actor → SessionId → string → result DocumentAuthorizationError ();
  a_get_asset : AssetId → result () (option SourceAssetDescriptor)
}.

(** The checks of [execute] up to the Grant: the Document and the base URL. *)
Definition resolve_document (h : AccessHandler) (actor : Actor) (id : DocumentId)
    (base_url : option string) : result QueryHandlerError (DocumentDescriptor * string) :=
  found ← map_err (λ _, HandlerUnavailable) (a_get_document h id);
  document ← ok_or HandlerNotFound found;
  map_err map_document_authorization
    (a_authorize h actor (document_session_id document) ASSET_ACCESS_RESOLVE_QUERY_TYPE);;
  let asset_id := source_asset_id document in
  found ← map_err (λ _, HandlerUnavailable) (a_get_asset h asset_id);
  descriptor ← ok_or HandlerInternal found;
  reject_if (negb (bool_decide (asset_asset_id descriptor = asset_id))) HandlerInternal;;
  base ← ok_or HandlerUnavailable base_url;
  Ok (document, base).

(** [execute] from the decoded request to the descriptor. *)
Definition resolve_access (h : AccessHandler) (actor : Actor) (id : DocumentId) (now : Timestamp)
    (rand : option (list Z)) (s : AssetDeliveryService)
    : result QueryHandlerError AssetAccessDescriptor * AssetDeliveryService :=
  match resolve_document h actor id (public_base_url s) with
  | Err e => (Err e, s)
  | Ok (document, base_url) =>
      let asset_id := source_asset_id document in
      let '(r, st) := issue sha256 (grants s) now rand asset_id (actor_actor_id actor)
                        (document_session_id document) (document_document_id document) in
      ('(token, grant) ← map_err map_grant_error r;
       Ok (http_bearer asset_id
             (trim_end_matches "/" base_url +:+ "/assets/" +:+ to_text (grant_asset_id grant))
             token (grant_expires_at grant)),
       mkService st (public_base_url s))
  end.

(** [AssetAccessQueryHandler::execute] *)
Definition access_execute (h : AccessHandler) (actor : Actor) (request : Payload) (now : Timestamp)
    (rand : option (list Z)) (s : AssetDeliveryService)
    : result QueryHandlerError Payload * AssetDeliveryService :=
  match decode_payload request with
  | None => (Err HandlerInvalidQuery, s)
  | Some id =>
      let '(r, s') := resolve_access h actor id now rand s in
      (descriptor ← r; ok_or HandlerInternal (encode_payload descriptor), s')
  end.

(** ** Properties *)

Lemma resolve_document_Ok h actor id base_url document base :
  resolve_document h actor id base_url = Ok (document, base) →
  a_get_document h id = Ok (Some document) ∧
  a_authorize h actor (document_session_id document) ASSET_ACCESS_RESOLVE_QUERY_TYPE = Ok () ∧
  (∃ asset, a_get_asset h (source_asset_id document) = Ok (Some asset) ∧
            asset_asset_id asset = source_asset_id document) ∧
  base_url = Some base.
Proof.
  unfold resolve_document. intros Hr.
  destruct (a_get_document h id) as [[doc|]|] eqn:Hd; try done. cbn in Hr.
  destruct (a_authorize h actor (document_session_id doc) _) as [[]|] eqn:Ha; [|done]. cbn in Hr.
  destruct (a_get_asset h (source_asset_id doc)) as [[asset|]|] eqn:Hg; try done. cbn in Hr.
  destruct (bool_decide_reflect (asset_asset_id asset = source_asset_id doc)); [|done]. cbn in Hr.
  destruct base_url as [b|]; [|done]. cbn in Hr. injection Hr as <- <-. eauto 6.
Qed.

Lemma resolve_access_spec h actor id now rand s :
  let '(r, s') := resolve_access h actor id now rand s in
  (∃ document base asset raw grant,
     a_get_document h id = Ok (Some document) ∧
     a_authorize h actor (document_session_id document) ASSET_ACCESS_RESOLVE_QUERY_TYPE = Ok () ∧
     a_get_asset h (source_asset_id document) = Ok (Some asset) ∧
     public_base_url s = Some base ∧ rand = Some raw ∧
     grant = mkGrant (source_asset_id document) (actor_actor_id actor)
               (document_session_id document) (document_document_id document)
               (grant_expires_at grant) ∧
     r = Ok (http_bearer (source_asset_id document)
               (trim_end_matches "/" base +:+ "/assets/" +:+ to_text (source_asset_id document))
               (base64url raw) (grant_expires_at grant)) ∧
     entries (grants s') = <[digest sha256 raw := grant]> (retain_live now (entries (grants s)))) ∨
  (is_ok r = false ∧ entries (grants s') ⊆ entries (grants s)).
Proof.
  unfold resolve_access.
  destruct (resolve_document h actor id (public_base_url s)) as [[document base]|e] eqn:Hd;
    [|by right].
  apply resolve_document_Ok in Hd as (Hdoc & Hauth & (asset & Hasset & _) & Hbase).
  unfold issue. destruct (from_unix_timestamp _) as [expires|]; [|by right].
  assert (retain_live now (entries (grants s)) ⊆ entries (grants s)) as Hsub
    by (unfold retain_live; apply map_filter_subseteq).
  destruct (max_grants (grants s) <=? _); [by right|]. destruct rand as [raw|]; [|by right].
  left. eexists document, base, asset, raw, (mkGrant _ _ _ _ expires). cbn.
  split_and!; done.
Qed.

(** A Grant is only issued with authorization: [asset.access.resolve]
    answers with a descriptor only if the Document exists, the authorizer
    accepts the actor for its Session, and its source Asset exists; the Grant
    is then for exactly that Asset, actor, Session and Document.  In every
    other case no Grant is added to the registry. *)
Theorem access_requires_authorization h actor id now rand s :
  let '(r, s') := resolve_access h actor id now rand s in
  (∃ document base asset raw grant,
     a_get_document h id = Ok (Some document) ∧
     a_authorize h actor (document_session_id document) ASSET_ACCESS_RESOLVE_QUERY_TYPE = Ok () ∧
     a_get_asset h (source_asset_id document) = Ok (Some asset) ∧
     public_base_url s = Some base ∧ rand = Some raw ∧
     grant = mkGrant (source_asset_id document) (actor_actor_id actor)
               (document_session_id document) (document_document_id document)
               (grant_expires_at grant) ∧
     r = Ok (http_bearer (source_asset_id document)
               (trim_end_matches "/" base +:+ "/assets/" +:+ to_text (source_asset_id document))
               (base64url raw) (grant_expires_at grant)) ∧
     entries (grants s') = <[digest sha256 raw := grant]> (retain_live now (entries (grants s)))) ∨
  (is_ok r = false ∧ entries (grants s') ⊆ entries (grants s)).
Proof. exact (resolve_access_spec h actor id now rand s). Qed.

(** *** Resolving and downloading *)

Lemma table_char_plain i : 
  is_digit_of 6 i → let x := byte_of (table_at i) in 33 ≤ x < 128.
Proof.
  intros Hi. unfold is_digit_of in Hi. cbn zeta.
  assert (forallb (λ c, (33 <=? byte_of c) && (byte_of c <? 128)) TABLE = true) as Hall
    by (vm_compute; reflexivity).
  rewrite forallb_forall in Hall. specialize (Hall (table_at i)).
  rewrite andb_true_iff, Z.leb_le, Z.ltb_lt in Hall. apply Hall, nth_In.
  change (length TABLE) with 64%nat. lia.
Qed.

Lemma has_whitespace_plain (l : list ascii) :
  Forall (λ c, 33 ≤ byte_of c < 128) l → has_whitespace (String.string_of_list_ascii l) = false.
Proof.
  induction 1 as [|c l Hc Hl IH]; [done|]. cbn [String.string_of_list_ascii has_whitespace].
  rewrite IH, orb_false_r. apply bool_decide_eq_false. cbn [ws_head].
  rewrite (proj2 (Z.leb_gt (byte_of c) 13)), (proj2 (Z.eqb_neq (byte_of c) 32)) by lia.
  rewrite andb_false_r. cbn [orb].
  assert (∀ k, 128 ≤ k → (byte_of c =? k) = false) as Hk by (intros k Hk; apply Z.eqb_neq; lia).
  destruct (String.string_of_list_ascii l) as [|b [|d s]]; [by intros []|..];
    rewrite ?(Hk 0xC2), ?(Hk 0xE1), ?(Hk 0xE2), ?(Hk 0xE3) by lia; by intros [].
Qed.

Lemma bearer_token_accepts raw :
  is_secret raw → bearer_token (Some ("Bearer " +:+ base64url raw)) = Some (base64url raw).
Proof.
  intros Hs. pose proof (is_secret_token raw Hs) as [Hlen _]. destruct Hs as [_ Hb].
  destruct (base64url_sextets raw Hb) as (sx & pad & Heq & Hsx & _).
  assert (has_whitespace (base64url raw) = false) as Hws.
  { rewrite Heq. apply has_whitespace_plain, Forall_map.
    eapply Forall_impl; [exact Hsx|]. intros i. apply table_char_plain. }
  unfold bearer_token. cbn [mbind option_bind].
  change ("Bearer " +:+ base64url raw) with ("Bearer" +:+ String " " (base64url raw)).
  rewrite split_once_app by done. cbn [mbind option_bind].
  assert (str_is_empty (base64url raw) = false) as -> by (by destruct (base64url raw)).
  by rewrite Hws.
Qed.

(** The download request for an access descriptor. *)
Definition download_request (d : AssetAccessDescriptor) : HttpRequest :=
  let 'Bearer token := authorization d in
  mkRequest "GET" ("/assets/" +:+ to_text (access_asset_id d))
    {[ "authorization" := "Bearer " +:+ token ]}.

(** An identifier text that is one path segment, as a UUID is. *)
Definition is_segment (s : string) : Prop :=
  str_is_empty s = false ∧
  str_contains "/"%char s = false ∧ str_contains "?"%char s = false ∧ str_contains "#"%char s = false.

(** What a delivery service serves: resolutions, and requests on the HTTP
    listener, whose surroundings are [env] but for the registry. *)
Inductive traffic :=
| Resolved (h : AccessHandler) (actor : Actor) (id : DocumentId) (t : Timestamp) (rand : option (list Z))
| Requested (env : surroundings) (request : HttpRequest).
Definition with_issuer (st : AssetAccessGrantIssuer) (env : surroundings) : surroundings :=
  mkSurroundings (allowed_origins env) st (now env) (get_asset env) (download_permit env).
Definition serve_one (s : AssetDeliveryService) (event : traffic) : AssetDeliveryService :=
  match event with
  | Resolved h actor id t rand => (resolve_access h actor id t rand s).2
  | Requested env request => mkService (respond (with_issuer (grants s) env) request).2 (public_base_url s)
  end.
Definition serve_all (events : list traffic) (s : AssetDeliveryService) : AssetDeliveryService :=
  fold_left serve_one events s.

(** Traffic before the time [exp] that does not draw a secret with the digest [key]. *)
Definition quiet (exp : Z) (key : list Z) (event : traffic) : Prop :=
  match event with
  | Resolved _ _ _ t rand => unix_timestamp t < exp ∧ match rand with Some raw => digest sha256 raw ≠ key | None => True end
  | Requested env _ => unix_timestamp (now env) < exp
  end.

(** A request leaves the registry as [validate] does, or alone. *)
Lemma respond_issuer env request :
  (respond env request).2 = issuer env ∨
  ∃ token id, (respond env request).2 = run_op sha256 (issuer env) (OpValidate (now env) token id).
Proof.
  unfold respond. destruct (match req_headers request !! "origin" with Some o => _ | None => _ end); [by left|].
  destruct (bool_decide _); [by left|]. destruct (_ && _); [by left|]. destruct (_ || _); [by left|].
  destruct (strip_prefix _ _); [|by left]. destruct (_ || _); [by left|].
  destruct (of_text _) as [id|]; [|by left]. destruct (bearer_token _) as [token|]; [|by left].
  right. exists token, id. cbn [run_op]. destruct (validate sha256 _ _ token id) as [[g|e] st]; [|done].
  cbn [snd]. by repeat case_match.
Qed.

(** An issued Grant stays in the registry. *)
Lemma serve_one_keeps s event key g :
  entries (grants s) !! key = Some g → quiet (unix_timestamp (grant_expires_at g)) key event →
  entries (grants (serve_one s event)) !! key = Some g.
Proof.
  intros Hk Hq. destruct event as [h actor id t rand|env request]; cbn [serve_one quiet] in *.
  - unfold resolve_access. destruct (resolve_document _ _ _ _) as [[document base]|]; [|done].
    set (op := OpIssue t rand (source_asset_id document) (actor_actor_id actor)
                 (document_session_id document) (document_document_id document)).
    pose proof (run_op_keeps sha256 (grants s) op key g Hk Hq) as Hkeep. cbn [run_op op] in Hkeep.
    by destruct (issue _ _ _ _ _ _ _ _) as [r st].
  - cbn [grants]. destruct (respond_issuer (with_issuer (grants s) env) request) as [->|(token & id & ->)]; [done|].
    by apply run_op_keeps.
Qed.
Lemma serve_all_keeps events s key g :
  entries (grants s) !! key = Some g → Forall (quiet (unix_timestamp (grant_expires_at g)) key) events →
  entries (grants (serve_all events s)) !! key = Some g.
Proof.
  intros Hk Hq. revert s Hk. induction Hq as [|event events Hq _ IH]; intros s Hk; [done|].
  apply IH. by apply serve_one_keeps.
Qed.

(** The whole resolution and download, with the headers of the response. *)
Lemma resolve_access_opens h actor id t raw s d s' events env asset :
  is_secret raw → resolve_access h actor id t (Some raw) s = (Ok d, s') →
  Forall (quiet (unix_timestamp (expires_at d)) (digest sha256 raw)) events →
  issuer env = grants (serve_all events s') → unix_timestamp (now env) < unix_timestamp (expires_at d) →
  is_segment (to_text (access_asset_id d)) →
  get_asset env (access_asset_id d) = Ok (Some asset) → single_line (media_type asset) = true →
  0 < byte_length asset → download_permit env = true →
  (∃ base, public_base_url s = Some base ∧
           url d = trim_end_matches "/" base +:+ target (download_request d)) ∧
  (respond env (download_request d)).1 =
    Stream 200 (base_headers (media_type asset) (byte_length asset) (to_text (content_hash asset)))
      (access_asset_id d) 0 (byte_length asset).
Proof.
  intros Hs Hr Hquiet Hissuer Hnow (Hne & Hslash & Hq & Hh) Hasset Hmedia Hlen Hpermit.
  pose proof (resolve_access_spec h actor id t (Some raw) s) as Hspec. rewrite Hr in Hspec.
  destruct Hspec as [(doc & base & a & raw' & g & _ & _ & _ & Hbase & [= <-] & Hg & [= ->] & He)|[? _]];
    [|done].
  split; [by exists base|]. cbn [expires_at access_asset_id http_bearer] in *.
  assert (grant_asset_id g = source_asset_id doc) as Hga by (by rewrite Hg).
  assert (entries (grants (serve_all events s')) !! digest sha256 raw = Some g) as Hlive
    by (apply serve_all_keeps; [by rewrite He, lookup_insert_eq|done]).
  unfold single_line in Hmedia. apply negb_true_iff, orb_false_iff in Hmedia as [Hcr Hlf].
  rewrite (respond_granted env _ (source_asset_id doc) asset (to_text (source_asset_id doc))
             (base64url raw) g (issuer env)); [|apply lookup_singleton_ne; done|done|..].
  - cbn [fst]. rewrite respond_get_whole; [by rewrite app_nil_r|apply lookup_singleton_ne; done|done|done].
  - cbn [target download_request authorization http_bearer access_asset_id].
    by rewrite str_contains_app, Hq.
  - cbn [target download_request authorization http_bearer access_asset_id].
    by rewrite str_contains_app, Hh.
  - apply strip_prefix_app.
  - done.
  - done.
  - apply of_to_text.
  - by apply bearer_token_accepts.
  - rewrite validate_token, Hissuer, Hlive by done.
    rewrite (proj2 (Z.leb_gt _ _)) by done. by rewrite bool_decide_eq_true_2 by done.
  - done.
  - done.
  - done.
Qed.

(** C23. Resolve, then download, until the expiry: the descriptor that
    [asset.access.resolve] returns opens its Asset on the HTTP listener at any
    time before its expiry, from its URL and with its token, and the whole Asset
    is streamed.  In between, the service may answer any number of further
    resolutions and requests, those with this token included, at times before the
    expiry; none of them draws a secret with the same digest.  The Asset is
    found, is not empty and has a media type of one line, its identity is a path
    segment, and a download permit is free. *)
Theorem resolved_access_opens_asset h actor id t raw s d s' events env asset :
  is_secret raw → resolve_access h actor id t (Some raw) s = (Ok d, s') →
  Forall (quiet (unix_timestamp (expires_at d)) (digest sha256 raw)) events →
  issuer env = grants (serve_all events s') → unix_timestamp (now env) < unix_timestamp (expires_at d) →
  is_segment (to_text (access_asset_id d)) →
  get_asset env (access_asset_id d) = Ok (Some asset) → single_line (media_type asset) = true →
  0 < byte_length asset → download_permit env = true →
  (∃ base, public_base_url s = Some base ∧
           url d = trim_end_matches "/" base +:+ target (download_request d)) ∧
  ∃ headers, (respond env (download_request d)).1 =
             Stream 200 headers (access_asset_id d) 0 (byte_length asset).
Proof.
  intros. edestruct resolve_access_opens as [Hb Hr]; [done..|]. split; [done|]. by eexists.
Qed.

(** A resolution succeeds: the Document and its Asset are found, the actor is
    authorized, and the registry has room for a Grant. *)
Lemma resolve_access_answers h actor id t raw s document asset base :
  a_get_document h id = Ok (Some document) →
  a_authorize h actor (document_session_id document) ASSET_ACCESS_RESOLVE_QUERY_TYPE = Ok () →
  a_get_asset h (source_asset_id document) = Ok (Some asset) → asset_asset_id asset = source_asset_id document →
  public_base_url s = Some base →
  is_Some (from_unix_timestamp (i64_saturating_add (unix_timestamp t) (ttl_seconds (grants s)))) →
  Z.of_nat (size (retain_live t (entries (grants s)))) < max_grants (grants s) →
  ∃ d s', resolve_access h actor id t (Some raw) s = (Ok d, s') ∧ access_asset_id d = source_asset_id document.
Proof.
  intros Hd Ha Hg Hid Hb [e He] Hm. unfold resolve_access, resolve_document.
  rewrite Hd. cbn. rewrite Ha. cbn. rewrite Hg. cbn. rewrite bool_decide_eq_true_2 by done. cbn. rewrite Hb. cbn.
  unfold issue. rewrite He, (proj2 (Z.leb_gt _ _)) by done. cbn. eauto.
Qed.

(** ** Locators *)

Lemma trim_end_matches_app c a b :
  str_is_empty b = false → str_contains c b = false → trim_end_matches c (a +:+ b) = a +:+ b.
Proof.
  intros Hne Hc.
  assert (trim_end_matches c b = b) as Hb.
  { clear Hne. induction b as [|x b IH]; [done|]. cbn [str_contains] in Hc.
    apply orb_false_elim in Hc as [Hx Hb]. cbn [trim_end_matches]. rewrite (IH Hb), Hx.
    by destruct b. }
  induction a as [|x a IH]; [by rewrite append_nil|]. rewrite append_cons. cbn [trim_end_matches].
  rewrite IH. destruct (a +:+ b) eqn:Hab; [|done].
  destruct a; [|done]. rewrite append_nil in Hab. by subst.
Qed.

Lemma trim_end_matches_snoc c a : trim_end_matches c (a +:+ String c EmptyString) = trim_end_matches c a.
Proof.
  induction a as [|x a IH].
  - rewrite append_nil. cbn [trim_end_matches]. by rewrite char_eqb_refl.
  - rewrite append_cons. cbn [trim_end_matches]. by rewrite IH.
Qed.

(** The trimmed form of a validated base URL. *)
Lemma base_url_trimmed value scheme authority :
  base_url_shape value scheme authority → trim_end_matches "/" value = scheme +:+ "://" +:+ authority.
Proof.
  intros [_ Hv Hhost Hslash _ _ _].
  assert (trim_end_matches "/" (scheme +:+ "://" +:+ authority) = scheme +:+ "://" +:+ authority) as Htrim
    by (rewrite <- str_app_assoc; by apply trim_end_matches_app).
  destruct Hv as [->| ->]; [done|]. rewrite <- !str_app_assoc, trim_end_matches_snoc, str_app_assoc. done.
Qed.

(** Locators are well formed: a delivery service that was created from a
    configuration with a public base URL answers [asset.access.resolve] with
    the URL [scheme://authority/assets/id], where the scheme is [http] or
    [https] and the authority is non-empty and has no slash, query or
    fragment. *)
Theorem locators_are_well_formed config service base h actor id now rand s d s' :
  service_new config = Ok service → cfg_public_base_url config = Some base →
  public_base_url s = public_base_url service →
  resolve_access h actor id now rand s = (Ok d, s') →
  ∃ scheme authority, base_url_shape base scheme authority ∧
    url d = scheme +:+ "://" +:+ authority +:+ "/assets/" +:+ to_text (access_asset_id d).
Proof.
  intros Hnew Hbase Hs Hr. unfold service_new in Hnew.
  apply bind_Ok_inv in Hnew as ([] & Hv & Hnew). injection Hnew as <-. cbn in Hs.
  unfold validate_delivery in Hv. rewrite Hbase in Hv, Hs.
  repeat (case_match; [done|]). apply validate_public_base_url_shape in Hv as (scheme & authority & Hshape).
  exists scheme, authority. split; [done|].
  pose proof (resolve_access_spec h actor id now rand s) as Hspec. rewrite Hr in Hspec.
  destruct Hspec as [(doc & base' & a & raw & g & _ & _ & _ & Hb & _ & _ & [= ->] & _)|[? _]]; [|done].
  rewrite Hs in Hb. injection Hb as <-. cbn [url http_bearer access_asset_id].
  rewrite (base_url_trimmed _ _ _ Hshape).
  by rewrite !str_app_assoc.
Qed.

(** Without a public base URL, a listener on the IPv6 loopback address is a
    valid configuration, and the locator it derives is on the IPv4 one. *)
Theorem ipv6_loopback_locator port :
  ∃ config service,
    enabled config = true ∧ listen_addr config = mkSocketAddr (V6 [0; 0; 0; 0; 0; 0; 0; 1]) port 0 ∧
    service_new config = Ok service ∧
    public_base_url (set_bound_public_base_url port service) = Some ("http://127.0.0.1:" +:+ show_u64 port).
Proof.
  exists (mkDeliveryConfig true (mkSocketAddr (V6 [0; 0; 0; 0; 0; 0; 0; 1]) port 0) None 64 8 65536 30000 600 4096 []).
  eexists. repeat split.
Qed.

End access.

Section demo.
#[local] Existing Instances Demo.demo_kernel Demo.demo_laws Demo.demo_assets Demo.demo_asset_laws
  Demo.demo_documents.

Definition demo_asset_bytes : list Z := [1; 2; 3].
Definition demo_asset : Demo.asset := Demo.mkAsset "asset" "text/plain" (Demo.mkU64 3 I) "hash" None.
Definition demo_access : AccessHandler (H := Demo.demo_kernel) (AK := Demo.demo_assets)
    (DK := Demo.demo_documents) (Actor := ()) :=
  mkAccessHandler (λ id, Ok (Some (id, "session", "asset"))) (λ _ _ _, Ok ())
    (λ _, Ok (Some demo_asset)).
Definition demo_service : AssetDeliveryService (H := Demo.demo_kernel) :=
  mkService demo_empty (Some "http://host/").
Definition demo_descriptor : AssetAccessDescriptor (H := Demo.demo_kernel) :=
  http_bearer (H := Demo.demo_kernel) "asset" "http://host/assets/asset" (base64url demo_secret) "1600".
Definition demo_served : AssetDeliveryService (H := Demo.demo_kernel) :=
  (resolve_access (H := Demo.demo_kernel) (AK := Demo.demo_assets) (DK := Demo.demo_documents)
     (λ _, "actor") demo_access () "document" "1000" (Some demo_secret) demo_service).2.
Definition demo_env : surroundings (H := Demo.demo_kernel) (AK := Demo.demo_assets) :=
  mkSurroundings [] (grants demo_served) "1599" (λ _, Ok (Some demo_asset)) true.

(** The Asset was downloaded once, and somebody else has resolved it. *)
Definition demo_traffic : list (traffic (H := Demo.demo_kernel) (AK := Demo.demo_assets)
    (DK := Demo.demo_documents) (Actor := ())) :=
  [Requested demo_env (download_request demo_descriptor);
   Resolved demo_access () "document" "1100" (Some (replicate 32 7))].
Definition demo_later : AssetDeliveryService (H := Demo.demo_kernel) :=
  serve_all (H := Demo.demo_kernel) (AK := Demo.demo_assets) (DK := Demo.demo_documents) (λ _, "actor")
    demo_traffic demo_served.
Definition demo_later_env : surroundings (H := Demo.demo_kernel) (AK := Demo.demo_assets) :=
  mkSurroundings [] (grants demo_later) "1599" (λ _, Ok (Some demo_asset)) true.

(** Witness of C23. *)
Lemma resolved_access_opens_asset_witness :
  (∃ base, public_base_url demo_service = Some base ∧
           url demo_descriptor =
             trim_end_matches "/" base +:+ target (download_request demo_descriptor)) ∧
  ∃ headers, (respond (H := Demo.demo_kernel) (AK := Demo.demo_assets) demo_later_env
                (download_request demo_descriptor)).1 = Stream 200 headers "asset" 0 3.
Proof.
  apply (resolved_access_opens_asset (H := Demo.demo_kernel) (AK := Demo.demo_assets)
           (DK := Demo.demo_documents) (λ _, "actor") demo_access () "document" "1000" demo_secret
           demo_service demo_descriptor demo_served demo_traffic demo_later_env demo_asset).
  - exact demo_secret_ok.
  - apply pair_eta. reflexivity.
  - constructor; [vm_compute; reflexivity|]. constructor; [|constructor]. split; [vm_compute; reflexivity|discriminate].
  - reflexivity.
  - vm_compute. reflexivity.
  - split; [reflexivity|]. split; [reflexivity|]. split; reflexivity.
  - reflexivity.
  - reflexivity.
  - reflexivity.
  - reflexivity.
Defined.

Definition demo_config : AssetDeliveryConfig :=
  mkDeliveryConfig true (mkSocketAddr (V4 [127; 0; 0; 1]) 8081 0) (Some "http://host/") 64 8 65536 30000 600 2 [].

(** An instance. *)
Lemma locators_are_well_formed_witness :
  ∃ scheme authority, base_url_shape "http://host/" scheme authority ∧
    url demo_descriptor = scheme +:+ "://" +:+ authority +:+ "/assets/" +:+
                            to_text (T := AssetId) (access_asset_id demo_descriptor).
Proof.
  apply (locators_are_well_formed (H := Demo.demo_kernel) (AK := Demo.demo_assets)
           (DK := Demo.demo_documents) (λ _, "actor") demo_config demo_service "http://host/"
           demo_access () "document" "1000" (Some demo_secret) demo_service demo_descriptor demo_served).
  - reflexivity.
  - reflexivity.
  - reflexivity.
  - apply pair_eta. reflexivity.
Defined.

(** Witness of C7: the download of the resolved Asset. *)
Lemma disclosure_requires_grant_witness :
  ∃ headers asset,
    (respond (H := Demo.demo_kernel) (AK := Demo.demo_assets) demo_env (download_request demo_descriptor)).1 =
      Stream 200 headers "asset" 0 3 ∧
    granted demo_env (download_request demo_descriptor) "asset" asset.
Proof.
  destruct (disclosure_requires_grant (H := Demo.demo_kernel) (AK := Demo.demo_assets) demo_env
           (download_request demo_descriptor)) as [_ Hd].
  assert ((respond (H := Demo.demo_kernel) (AK := Demo.demo_assets) demo_env (download_request demo_descriptor)).1 =
    Stream 200 (base_headers "text/plain" 3 "hash") "asset" 0 3) as Hr by reflexivity.
  rewrite Hr in Hd. destruct Hd as (asset & Hg & _). eexists _, asset. split; [exact Hr|exact Hg].
Defined.

(** An instance. *)
Lemma access_requires_authorization_witness :
  let '(r, s') := resolve_access (H := Demo.demo_kernel) (AK := Demo.demo_assets)
                    (DK := Demo.demo_documents) (λ _, "actor"%string) demo_access () "document" "1000"
                    (Some demo_secret) demo_service in
  (∃ document base asset raw grant,
     a_get_document demo_access "document" = Ok (Some document) ∧
     a_authorize demo_access () (document_session_id document) ASSET_ACCESS_RESOLVE_QUERY_TYPE = Ok () ∧
     a_get_asset demo_access (source_asset_id document) = Ok (Some asset) ∧
     public_base_url demo_service = Some base ∧ Some demo_secret = Some raw ∧
     grant = mkGrant (source_asset_id document) "actor"
               (document_session_id document) (document_document_id document)
               (grant_expires_at grant) ∧
     r = Ok (http_bearer (source_asset_id document)
               (trim_end_matches "/" base +:+ "/assets/" +:+ to_text (source_asset_id document))
               (base64url raw) (grant_expires_at grant)) ∧
     entries (grants s') = <[digest sha256 raw := grant]> (retain_live "1000" (entries (grants demo_service)))) ∨
  (is_ok r = false ∧ entries (grants s') ⊆ entries (grants demo_service)).
Proof.
  exact (access_requires_authorization (H := Demo.demo_kernel) (AK := Demo.demo_assets)
           (DK := Demo.demo_documents) (λ _, "actor"%string) demo_access () "document" "1000"
           (Some demo_secret) demo_service).
Defined.
End demo.
