(* ===== verification/Config.v ===== *)
(** * The configuration of the server

    Models [orbitrelay-server/src/config.rs]: the settings of the process with
    their defaults, builders and validation, and [ServerConfig::load], which
    reads the overrides from the environment.  An environment is a map from
    names to byte strings.  A configuration is loaded exactly when each of its
    settings is the default or the value of its own variable, and the whole is
    valid. *)

From S2P Require Import Prelude Float Net Kernel Http Lifecycle Canvas CatalogKernel CanvasHistory.
From S2P Require Import DeliveryConfig.

Definition DEFAULT_SUBSCRIPTION_QUEUE_CAPACITY : Z := 64.
(** [orbitrelay_storage_sqlite::DEFAULT_COMMAND_QUEUE_CAPACITY] *)
Definition DEFAULT_COMMAND_QUEUE_CAPACITY : Z := 256.

(** [orbitrelay-node], [orbitrelay-transport] and [orbitrelay-pdf] *)
Class ConfigKernel `{CatalogKernel} := {
  NodeId : Type;
  NodeId_id :: Identifier NodeId;
  Metadata_new : Metadata;
  WebSocketAdapterConfig : Type;
  adapter_default : WebSocketAdapterConfig;
  adapter_validate : WebSocketAdapterConfig → bool;
  max_message_bytes : WebSocketAdapterConfig → Z;
  PdfInspectionLimits : Type;
  PdfInspectionLimits_DEFAULT : PdfInspectionLimits;
  max_asset_bytes : PdfInspectionLimits → Z
}.
(** The default limits of the WebSocket adapter are valid ones. *)
Class ConfigKernelLaws `{ConfigKernel} : Prop :=
  adapter_default_valid : adapter_validate adapter_default = true.

Section config.
Context `{ConfigKernel}.

(** A [PathBuf] is its bytes. *)
Abbreviation PathBuf := string.

(** ** [DevelopmentCanvasConfig] *)

Record DevelopmentCanvasConfig := mkCanvasConfig {
  dc_session_id : option SessionId;
  dc_canvas_id : option CanvasId;
  dc_layer_id : option LayerId;
  dc_width : F64;
  dc_height : F64
}.
Definition canvas_default : DevelopmentCanvasConfig :=
  mkCanvasConfig None None None (f64_of_Z 1920) (f64_of_Z 1080).

(** [DevelopmentCanvasConfig::validate] *)
Definition validate_canvas (c : DevelopmentCanvasConfig) : result ServerError () :=
  if negb (is_finite (dc_width c)) || f64_leb (dc_width c) f64_zero
  then Err (config "development Canvas width must be finite and positive") else
  if negb (is_finite (dc_height c)) || f64_leb (dc_height c) f64_zero
  then Err (config "development Canvas height must be finite and positive") else
  Ok ().

(** The assignments of the identifiers, and the builders *)
Definition assign_session_id (value : option SessionId) (c : DevelopmentCanvasConfig) : DevelopmentCanvasConfig :=
  mkCanvasConfig value (dc_canvas_id c) (dc_layer_id c) (dc_width c) (dc_height c).
Definition assign_canvas_id (value : option CanvasId) (c : DevelopmentCanvasConfig) : DevelopmentCanvasConfig :=
  mkCanvasConfig (dc_session_id c) value (dc_layer_id c) (dc_width c) (dc_height c).
Definition assign_layer_id (value : option LayerId) (c : DevelopmentCanvasConfig) : DevelopmentCanvasConfig :=
  mkCanvasConfig (dc_session_id c) (dc_canvas_id c) value (dc_width c) (dc_height c).
Definition with_session_id (value : SessionId) : DevelopmentCanvasConfig → DevelopmentCanvasConfig :=
  assign_session_id (Some value).
Definition with_canvas_id (value : CanvasId) : DevelopmentCanvasConfig → DevelopmentCanvasConfig :=
  assign_canvas_id (Some value).
Definition with_layer_id (value : LayerId) : DevelopmentCanvasConfig → DevelopmentCanvasConfig :=
  assign_layer_id (Some value).
Definition with_size (width height : F64) (c : DevelopmentCanvasConfig) : DevelopmentCanvasConfig :=
  mkCanvasConfig (dc_session_id c) (dc_canvas_id c) (dc_layer_id c) width height.

(** ** [WebSocketListenerConfig] *)

Record WebSocketListenerConfig := mkListenerConfig {
  bind_addr : SocketAddr;
  websocket_path : string;
  ws_max_connections : Z;
  handshake_timeout_milliseconds : Z;
  shutdown_grace_period_milliseconds : Z
}.
Definition listener_default : WebSocketListenerConfig :=
  mkListenerConfig (mkSocketAddr (V4 [127; 0; 0; 1]) 8080 0) "/ws" 1024 10000 5000.

(** [WebSocketListenerConfig::validate] *)
Definition validate_listener (c : WebSocketListenerConfig) : result ServerError () :=
  if str_is_empty (websocket_path c) || negb (starts_with "/" (websocket_path c))
  then Err (config "websocket path must start with `/`") else
  if ws_max_connections c =? 0 then Err (config "max connections must be greater than zero") else
  if handshake_timeout_milliseconds c =? 0
  then Err (config "handshake timeout must be greater than zero") else
  if shutdown_grace_period_milliseconds c =? 0
  then Err (config "shutdown grace period must be greater than zero") else
  Ok ().

Definition with_bind_addr (value : SocketAddr) (c : WebSocketListenerConfig) : WebSocketListenerConfig :=
  mkListenerConfig value (websocket_path c) (ws_max_connections c)
    (handshake_timeout_milliseconds c) (shutdown_grace_period_milliseconds c).
Definition with_websocket_path (value : string) (c : WebSocketListenerConfig) : WebSocketListenerConfig :=
  mkListenerConfig (bind_addr c) value (ws_max_connections c)
    (handshake_timeout_milliseconds c) (shutdown_grace_period_milliseconds c).
Definition with_ws_max_connections (value : Z) (c : WebSocketListenerConfig) : WebSocketListenerConfig :=
  mkListenerConfig (bind_addr c) (websocket_path c) value
    (handshake_timeout_milliseconds c) (shutdown_grace_period_milliseconds c).
Definition with_handshake_timeout_milliseconds (value : Z) (c : WebSocketListenerConfig)
    : WebSocketListenerConfig :=
  mkListenerConfig (bind_addr c) (websocket_path c) (ws_max_connections c)
    value (shutdown_grace_period_milliseconds c).
Definition with_shutdown_grace_period_milliseconds (value : Z) (c : WebSocketListenerConfig)
    : WebSocketListenerConfig :=
  mkListenerConfig (bind_addr c) (websocket_path c) (ws_max_connections c)
    (handshake_timeout_milliseconds c) value.

(** ** [ServerConfig] *)

Record ServerConfig := mkServerConfig {
  node_id : option NodeId;
  node_metadata : Metadata;
  development_mode : bool;
  subscription_queue_capacity : Z;
  websocket_listener : WebSocketListenerConfig;
  websocket_adapter : WebSocketAdapterConfig;
  development_canvas : DevelopmentCanvasConfig;
  development_pdf_path : option PathBuf;
  development_pdf_inspection_limits : PdfInspectionLimits;
  asset_delivery : AssetDeliveryConfig;
  history_store_scan_limit : Z;
  event_store_path : option PathBuf;
  asset_store_root : option PathBuf;
  catalog_store_path : option PathBuf;
  sqlite_command_queue_capacity : Z
}.
(** [ServerConfig::default] *)
Definition server_default : ServerConfig := {|
  node_id := None;
  node_metadata := Metadata_new;
  development_mode := false;
  subscription_queue_capacity := DEFAULT_SUBSCRIPTION_QUEUE_CAPACITY;
  websocket_listener := listener_default;
  websocket_adapter := adapter_default;
  development_canvas := canvas_default;
  development_pdf_path := None;
  development_pdf_inspection_limits := PdfInspectionLimits_DEFAULT;
  asset_delivery := delivery_default;
  history_store_scan_limit := DEFAULT_HISTORY_STORE_SCAN_LIMIT;
  event_store_path := None;
  asset_store_root := None;
  catalog_store_path := None;
  sqlite_command_queue_capacity := DEFAULT_COMMAND_QUEUE_CAPACITY
|}.

(** [is_some_and(|path| path.as_os_str().is_empty())] *)
Definition is_empty_path (path : option PathBuf) : bool :=
  match path with Some path => str_is_empty path | None => false end.

(** [ServerConfig::validate] *)
Definition validate (c : ServerConfig) : result ServerError () :=
  if subscription_queue_capacity c =? 0
  then Err (config "subscription queue capacity must be greater than zero") else
  if (history_store_scan_limit c =? 0) || (MAX_HISTORY_STORE_SCAN_LIMIT <? history_store_scan_limit c)
  then Err (config ("history Store scan limit must be between 1 and "
                    +:+ show_u64 MAX_HISTORY_STORE_SCAN_LIMIT)) else
  validate_listener (websocket_listener c);;
  (if adapter_validate (websocket_adapter c) then Ok ()
   else Err (config "invalid WebSocket adapter configuration"));;
  validate_canvas (development_canvas c);;
  validate_delivery (asset_delivery c);;
  if is_empty_path (event_store_path c) then Err (config "event store path must not be empty") else
  if is_empty_path (asset_store_root c) then Err (config "asset store root must not be empty") else
  if is_empty_path (catalog_store_path c) then Err (config "catalog store path must not be empty") else
  if sqlite_command_queue_capacity c =? 0
  then Err (config "SQLite command queue capacity must be greater than zero") else
  Ok ().

(** *** Builders *)

Definition assign_node_id (value : option NodeId) (c : ServerConfig) : ServerConfig :=
  mkServerConfig value (node_metadata c) (development_mode c) (subscription_queue_capacity c)
    (websocket_listener c) (websocket_adapter c) (development_canvas c) (development_pdf_path c)
    (development_pdf_inspection_limits c) (asset_delivery c) (history_store_scan_limit c)
    (event_store_path c) (asset_store_root c) (catalog_store_path c) (sqlite_command_queue_capacity c).
Definition with_node_id (value : NodeId) : ServerConfig → ServerConfig := assign_node_id (Some value).
Definition with_node_metadata (value : Metadata) (c : ServerConfig) : ServerConfig :=
  mkServerConfig (node_id c) value (development_mode c) (subscription_queue_capacity c)
    (websocket_listener c) (websocket_adapter c) (development_canvas c) (development_pdf_path c)
    (development_pdf_inspection_limits c) (asset_delivery c) (history_store_scan_limit c)
    (event_store_path c) (asset_store_root c) (catalog_store_path c) (sqlite_command_queue_capacity c).
Definition with_subscription_queue_capacity (value : Z) (c : ServerConfig) : ServerConfig :=
  mkServerConfig (node_id c) (node_metadata c) (development_mode c) value (websocket_listener c)
    (websocket_adapter c) (development_canvas c) (development_pdf_path c)
    (development_pdf_inspection_limits c) (asset_delivery c) (history_store_scan_limit c)
    (event_store_path c) (asset_store_root c) (catalog_store_path c) (sqlite_command_queue_capacity c).
Definition assign_event_store_path (value : option PathBuf) (c : ServerConfig) : ServerConfig :=
  mkServerConfig (node_id c) (node_metadata c) (development_mode c) (subscription_queue_capacity c)
    (websocket_listener c) (websocket_adapter c) (development_canvas c) (development_pdf_path c)
    (development_pdf_inspection_limits c) (asset_delivery c) (history_store_scan_limit c) value
    (asset_store_root c) (catalog_store_path c) (sqlite_command_queue_capacity c).
Definition with_event_store_path (value : PathBuf) : ServerConfig → ServerConfig := assign_event_store_path (Some value).
Definition without_event_store_path : ServerConfig → ServerConfig := assign_event_store_path None.
Definition assign_asset_store_root (value : option PathBuf) (c : ServerConfig) : ServerConfig :=
  mkServerConfig (node_id c) (node_metadata c) (development_mode c) (subscription_queue_capacity c)
    (websocket_listener c) (websocket_adapter c) (development_canvas c) (development_pdf_path c)
    (development_pdf_inspection_limits c) (asset_delivery c) (history_store_scan_limit c)
    (event_store_path c) value (catalog_store_path c) (sqlite_command_queue_capacity c).
Definition with_asset_store_root (value : PathBuf) : ServerConfig → ServerConfig := assign_asset_store_root (Some value).
Definition without_asset_store_root : ServerConfig → ServerConfig := assign_asset_store_root None.
Definition assign_catalog_store_path (value : option PathBuf) (c : ServerConfig) : ServerConfig :=
  mkServerConfig (node_id c) (node_metadata c) (development_mode c) (subscription_queue_capacity c)
    (websocket_listener c) (websocket_adapter c) (development_canvas c) (development_pdf_path c)
    (development_pdf_inspection_limits c) (asset_delivery c) (history_store_scan_limit c)
    (event_store_path c) (asset_store_root c) value (sqlite_command_queue_capacity c).
Definition with_catalog_store_path (value : PathBuf) : ServerConfig → ServerConfig := assign_catalog_store_path (Some value).
Definition without_catalog_store_path : ServerConfig → ServerConfig := assign_catalog_store_path None.
Definition with_sqlite_command_queue_capacity (value : Z) (c : ServerConfig) : ServerConfig :=
  mkServerConfig (node_id c) (node_metadata c) (development_mode c) (subscription_queue_capacity c)
    (websocket_listener c) (websocket_adapter c) (development_canvas c) (development_pdf_path c)
    (development_pdf_inspection_limits c) (asset_delivery c) (history_store_scan_limit c)
    (event_store_path c) (asset_store_root c) (catalog_store_path c) value.
Definition with_history_store_scan_limit (value : Z) (c : ServerConfig) : ServerConfig :=
  mkServerConfig (node_id c) (node_metadata c) (development_mode c) (subscription_queue_capacity c)
    (websocket_listener c) (websocket_adapter c) (development_canvas c) (development_pdf_path c)
    (development_pdf_inspection_limits c) (asset_delivery c) value (event_store_path c)
    (asset_store_root c) (catalog_store_path c) (sqlite_command_queue_capacity c).
Definition with_development_mode (value : bool) (c : ServerConfig) : ServerConfig :=
  mkServerConfig (node_id c) (node_metadata c) value (subscription_queue_capacity c)
    (websocket_listener c) (websocket_adapter c) (development_canvas c) (development_pdf_path c)
    (development_pdf_inspection_limits c) (asset_delivery c) (history_store_scan_limit c)
    (event_store_path c) (asset_store_root c) (catalog_store_path c) (sqlite_command_queue_capacity c).
Definition with_development_canvas (value : DevelopmentCanvasConfig) (c : ServerConfig) : ServerConfig :=
  mkServerConfig (node_id c) (node_metadata c) (development_mode c) (subscription_queue_capacity c)
    (websocket_listener c) (websocket_adapter c) value (development_pdf_path c)
    (development_pdf_inspection_limits c) (asset_delivery c) (history_store_scan_limit c)
    (event_store_path c) (asset_store_root c) (catalog_store_path c) (sqlite_command_queue_capacity c).
Definition with_optional_development_pdf_path (value : option PathBuf) (c : ServerConfig) : ServerConfig :=
  mkServerConfig (node_id c) (node_metadata c) (development_mode c) (subscription_queue_capacity c)
    (websocket_listener c) (websocket_adapter c) (development_canvas c) value
    (development_pdf_inspection_limits c) (asset_delivery c) (history_store_scan_limit c)
    (event_store_path c) (asset_store_root c) (catalog_store_path c) (sqlite_command_queue_capacity c).
Definition with_development_pdf_path (value : PathBuf) : ServerConfig → ServerConfig :=
  with_optional_development_pdf_path (Some value).
Definition with_development_pdf_inspection_limits (value : PdfInspectionLimits) (c : ServerConfig) : ServerConfig :=
  mkServerConfig (node_id c) (node_metadata c) (development_mode c) (subscription_queue_capacity c)
    (websocket_listener c) (websocket_adapter c) (development_canvas c) (development_pdf_path c) value
    (asset_delivery c) (history_store_scan_limit c) (event_store_path c) (asset_store_root c)
    (catalog_store_path c) (sqlite_command_queue_capacity c).
Definition with_asset_delivery (value : AssetDeliveryConfig) (c : ServerConfig) : ServerConfig :=
  mkServerConfig (node_id c) (node_metadata c) (development_mode c) (subscription_queue_capacity c)
    (websocket_listener c) (websocket_adapter c) (development_canvas c) (development_pdf_path c)
    (development_pdf_inspection_limits c) value (history_store_scan_limit c) (event_store_path c)
    (asset_store_root c) (catalog_store_path c) (sqlite_command_queue_capacity c).
Definition with_websocket_listener (value : WebSocketListenerConfig) (c : ServerConfig) : ServerConfig :=
  mkServerConfig (node_id c) (node_metadata c) (development_mode c) (subscription_queue_capacity c) value
    (websocket_adapter c) (development_canvas c) (development_pdf_path c)
    (development_pdf_inspection_limits c) (asset_delivery c) (history_store_scan_limit c)
    (event_store_path c) (asset_store_root c) (catalog_store_path c) (sqlite_command_queue_capacity c).
Definition with_websocket_adapter (value : WebSocketAdapterConfig) (c : ServerConfig) : ServerConfig :=
  mkServerConfig (node_id c) (node_metadata c) (development_mode c) (subscription_queue_capacity c)
    (websocket_listener c) value (development_canvas c) (development_pdf_path c)
    (development_pdf_inspection_limits c) (asset_delivery c) (history_store_scan_limit c)
    (event_store_path c) (asset_store_root c) (catalog_store_path c) (sqlite_command_queue_capacity c).

(** ** Loading from the environment *)

(** An environment; [std::env::var_os] is its lookup. *)
Abbreviation Env := (gmap string string).

(** [read_utf8_env] *)
Definition read_utf8_env (env : Env) (name : string) : result ServerError (option string) :=
  match env !! name with
  | None => Ok None
  | Some value => if utf8_valid value then Ok (Some value)
                  else Err (config (name +:+ " is not valid UTF-8"))
  end.
(** [parse_bool_env] *)
Definition parse_bool_env (name value : string) : result ServerError bool :=
  if bool_decide (value = "true") || bool_decide (value = "1") then Ok true else
  if bool_decide (value = "false") || bool_decide (value = "0") then Ok false else
  Err (config (name +:+ " must be true, false, 1, or 0")).
(** [parse_number_env] at [usize] and [u64] *)
Definition parse_number_env (name value : string) : result ServerError Z :=
  ok_or (config (name +:+ " must be a positive integer")) (parse_u64 value).

(** One override: [if let Some(value) = read_utf8_env(name)? { ... }]. *)
Definition load_setting {A} (env : Env) (name : string) (read : string → result ServerError A)
    (set : A → ServerConfig → ServerConfig) (c : ServerConfig) : result ServerError ServerConfig :=
  value ← read_utf8_env env name;
  match value with
  | Some value => x ← read value; Ok (set x c)
  | None => Ok c
  end.

(** [value.parse()] of an identifier, with the message of its error. *)
Definition parse_id {T} `{Identifier T} (message value : string) : result ServerError (option T) :=
  Some <$> ok_or (config message) (of_text value).
(** [PathBuf::from], as a setting *)
Definition path_from (value : string) : result ServerError (option PathBuf) := Ok (Some value).
(** A text taken as it is *)
Definition text_from (value : string) : result ServerError string := Ok value.
(** The items of [ORBITRELAY_ASSET_ALLOWED_ORIGINS] *)
Definition split_origins (value : string) : result ServerError (list string) :=
  Ok (List.filter (λ origin, negb (str_is_empty origin)) (trim <$> str_split "," value)).

(** The assignments to one field of [config] or of one of its parts. *)
Definition on_canvas (f : DevelopmentCanvasConfig → DevelopmentCanvasConfig) (c : ServerConfig)
    : ServerConfig := with_development_canvas (f (development_canvas c)) c.
Definition on_listener (f : WebSocketListenerConfig → WebSocketListenerConfig) (c : ServerConfig)
    : ServerConfig := with_websocket_listener (f (websocket_listener c)) c.
Definition on_delivery (f : AssetDeliveryConfig → AssetDeliveryConfig) (c : ServerConfig)
    : ServerConfig := with_asset_delivery (f (asset_delivery c)) c.
Definition with_width (value : F64) (c : DevelopmentCanvasConfig) : DevelopmentCanvasConfig :=
  with_size value (dc_height c) c.
Definition with_height (value : F64) (c : DevelopmentCanvasConfig) : DevelopmentCanvasConfig :=
  with_size (dc_width c) value c.

(** The overrides of the Asset delivery in [ServerConfig::load] *)
Definition load_delivery (env : Env) (c : ServerConfig) : result ServerError ServerConfig :=
  c ← load_setting env "ORBITRELAY_ASSET_DELIVERY_ENABLED"
        (parse_bool_env "ORBITRELAY_ASSET_DELIVERY_ENABLED") (λ x, on_delivery (with_enabled x)) c;
  c ← load_setting env "ORBITRELAY_ASSET_LISTEN_ADDR"
        (λ v, ok_or (config "ORBITRELAY_ASSET_LISTEN_ADDR is not a valid socket address")
                (parse_socket_addr v))
        (λ x, on_delivery (with_listen_addr x)) c;
  c ← load_setting env "ORBITRELAY_ASSET_PUBLIC_BASE_URL" path_from
        (λ x, on_delivery (assign_public_base_url x)) c;
  c ← load_setting env "ORBITRELAY_ASSET_MAX_CONNECTIONS"
        (parse_number_env "ORBITRELAY_ASSET_MAX_CONNECTIONS")
        (λ x, on_delivery (with_max_connections x)) c;
  c ← load_setting env "ORBITRELAY_ASSET_MAX_ACTIVE_DOWNLOADS"
        (parse_number_env "ORBITRELAY_ASSET_MAX_ACTIVE_DOWNLOADS")
        (λ x, on_delivery (with_max_active_downloads x)) c;
  c ← load_setting env "ORBITRELAY_ASSET_CHUNK_SIZE" (parse_number_env "ORBITRELAY_ASSET_CHUNK_SIZE")
        (λ x, on_delivery (with_chunk_size x)) c;
  c ← load_setting env "ORBITRELAY_ASSET_IDLE_TIMEOUT_MILLISECONDS"
        (parse_number_env "ORBITRELAY_ASSET_IDLE_TIMEOUT_MILLISECONDS")
        (λ x, on_delivery (with_idle_timeout_milliseconds x)) c;
  c ← load_setting env "ORBITRELAY_ASSET_GRANT_TTL_SECONDS"
        (λ v, ok_or (config "ORBITRELAY_ASSET_GRANT_TTL_SECONDS must be an integer") (parse_i64 v))
        (λ x, on_delivery (with_grant_ttl_seconds x)) c;
  c ← load_setting env "ORBITRELAY_ASSET_MAX_GRANTS" (parse_number_env "ORBITRELAY_ASSET_MAX_GRANTS")
        (λ x, on_delivery (with_max_grants x)) c;
  c ← load_setting env "ORBITRELAY_ASSET_ALLOWED_ORIGINS" split_origins
        (λ x, on_delivery (with_allowed_origins x)) c;
  Ok c.

(** [ServerConfig::load] *)
Definition load (env : Env) : result ServerError ServerConfig :=
  c ← load_setting env "ORBITRELAY_NODE_ID"
        (parse_id "ORBITRELAY_NODE_ID is not a valid node ID") assign_node_id server_default;
  c ← load_setting env "ORBITRELAY_SUBSCRIPTION_QUEUE_CAPACITY"
        (parse_number_env "ORBITRELAY_SUBSCRIPTION_QUEUE_CAPACITY") with_subscription_queue_capacity c;
  c ← load_setting env "ORBITRELAY_HISTORY_STORE_SCAN_LIMIT"
        (parse_number_env "ORBITRELAY_HISTORY_STORE_SCAN_LIMIT") with_history_store_scan_limit c;
  c ← load_setting env "ORBITRELAY_EVENT_STORE_PATH" path_from assign_event_store_path c;
  c ← load_setting env "ORBITRELAY_ASSET_STORE_DIR" path_from assign_asset_store_root c;
  c ← load_setting env "ORBITRELAY_CATALOG_STORE_PATH" path_from assign_catalog_store_path c;
  c ← load_setting env "ORBITRELAY_SQLITE_COMMAND_QUEUE_CAPACITY"
        (parse_number_env "ORBITRELAY_SQLITE_COMMAND_QUEUE_CAPACITY")
        with_sqlite_command_queue_capacity c;
  c ← load_setting env "ORBITRELAY_DEVELOPMENT_MODE"
        (parse_bool_env "ORBITRELAY_DEVELOPMENT_MODE") with_development_mode c;
  c ← (if development_mode c
       then load_setting env "ORBITRELAY_DEVELOPMENT_PDF_PATH" path_from
              with_optional_development_pdf_path c
       else Ok c);
  c ← load_setting env "ORBITRELAY_DEVELOPMENT_CANVAS_SESSION_ID"
        (parse_id "ORBITRELAY_DEVELOPMENT_CANVAS_SESSION_ID is not a valid SessionId")
        (λ x, on_canvas (assign_session_id x)) c;
  c ← load_setting env "ORBITRELAY_DEVELOPMENT_CANVAS_ID"
        (parse_id "ORBITRELAY_DEVELOPMENT_CANVAS_ID is not a valid CanvasId")
        (λ x, on_canvas (assign_canvas_id x)) c;
  c ← load_setting env "ORBITRELAY_DEVELOPMENT_CANVAS_LAYER_ID"
        (parse_id "ORBITRELAY_DEVELOPMENT_CANVAS_LAYER_ID is not a valid LayerId")
        (λ x, on_canvas (assign_layer_id x)) c;
  c ← load_setting env "ORBITRELAY_DEVELOPMENT_CANVAS_WIDTH"
        (λ v, ok_or (config "ORBITRELAY_DEVELOPMENT_CANVAS_WIDTH must be a number") (parse_f64 v))
        (λ x, on_canvas (with_width x)) c;
  c ← load_setting env "ORBITRELAY_DEVELOPMENT_CANVAS_HEIGHT"
        (λ v, ok_or (config "ORBITRELAY_DEVELOPMENT_CANVAS_HEIGHT must be a number") (parse_f64 v))
        (λ x, on_canvas (with_height x)) c;
  c ← load_setting env "ORBITRELAY_BIND_ADDR"
        (λ v, ok_or (config "ORBITRELAY_BIND_ADDR is not a valid socket address") (parse_socket_addr v))
        (λ x, on_listener (with_bind_addr x)) c;
  c ← load_setting env "ORBITRELAY_WEBSOCKET_PATH" text_from (λ x, on_listener (with_websocket_path x)) c;
  c ← load_setting env "ORBITRELAY_MAX_CONNECTIONS" (parse_number_env "ORBITRELAY_MAX_CONNECTIONS")
        (λ x, on_listener (with_ws_max_connections x)) c;
  c ← load_setting env "ORBITRELAY_HANDSHAKE_TIMEOUT_MILLISECONDS"
        (parse_number_env "ORBITRELAY_HANDSHAKE_TIMEOUT_MILLISECONDS")
        (λ x, on_listener (with_handshake_timeout_milliseconds x)) c;
  c ← load_setting env "ORBITRELAY_SHUTDOWN_GRACE_PERIOD_MILLISECONDS"
        (parse_number_env "ORBITRELAY_SHUTDOWN_GRACE_PERIOD_MILLISECONDS")
        (λ x, on_listener (with_shutdown_grace_period_milliseconds x)) c;
  c ← load_delivery env c;
  validate c;;
  Ok c.

(** ** What a loaded configuration is *)

(** The variables that [load] reads. *)
Definition supported_variables : list string :=
  ["ORBITRELAY_NODE_ID";
   "ORBITRELAY_SUBSCRIPTION_QUEUE_CAPACITY";
   "ORBITRELAY_HISTORY_STORE_SCAN_LIMIT";
   "ORBITRELAY_EVENT_STORE_PATH";
   "ORBITRELAY_ASSET_STORE_DIR";
   "ORBITRELAY_CATALOG_STORE_PATH";
   "ORBITRELAY_SQLITE_COMMAND_QUEUE_CAPACITY";
   "ORBITRELAY_DEVELOPMENT_MODE";
   "ORBITRELAY_DEVELOPMENT_PDF_PATH";
   "ORBITRELAY_DEVELOPMENT_CANVAS_SESSION_ID";
   "ORBITRELAY_DEVELOPMENT_CANVAS_ID";
   "ORBITRELAY_DEVELOPMENT_CANVAS_LAYER_ID";
   "ORBITRELAY_DEVELOPMENT_CANVAS_WIDTH";
   "ORBITRELAY_DEVELOPMENT_CANVAS_HEIGHT";
   "ORBITRELAY_BIND_ADDR";
   "ORBITRELAY_WEBSOCKET_PATH";
   "ORBITRELAY_MAX_CONNECTIONS";
   "ORBITRELAY_HANDSHAKE_TIMEOUT_MILLISECONDS";
   "ORBITRELAY_SHUTDOWN_GRACE_PERIOD_MILLISECONDS";
   "ORBITRELAY_ASSET_DELIVERY_ENABLED";
   "ORBITRELAY_ASSET_LISTEN_ADDR";
   "ORBITRELAY_ASSET_PUBLIC_BASE_URL";
   "ORBITRELAY_ASSET_MAX_CONNECTIONS";
   "ORBITRELAY_ASSET_MAX_ACTIVE_DOWNLOADS";
   "ORBITRELAY_ASSET_CHUNK_SIZE";
   "ORBITRELAY_ASSET_IDLE_TIMEOUT_MILLISECONDS";
   "ORBITRELAY_ASSET_GRANT_TTL_SECONDS";
   "ORBITRELAY_ASSET_MAX_GRANTS";
   "ORBITRELAY_ASSET_ALLOWED_ORIGINS"].

(** [value] is the reading of variable [name], or [unset] without it. *)
Definition setting {A} (env : Env) (name : string) (read : string → option A) (unset value : A) : Prop :=
  match env !! name with
  | None => value = unset
  | Some text => utf8_valid text = true ∧ read text = Some value
  end.
(** An optional setting, unset by default. *)
Abbreviation opt_setting env name read := (setting env name (λ text, Some <$> read text) None).

Definition bool_text (text : string) : option bool :=
  if decide (text = "true" ∨ text = "1")%string then Some true else
  if decide (text = "false" ∨ text = "0")%string then Some false else None.
Definition origins_text (text : string) : list string :=
  List.filter (λ origin, negb (str_is_empty origin)) (trim <$> str_split "," text).

(** Each setting is that of its own variable. *)
Record canvas_loaded (env : Env) (c : DevelopmentCanvasConfig) : Prop := {
  from_session : opt_setting env "ORBITRELAY_DEVELOPMENT_CANVAS_SESSION_ID" of_text (dc_session_id c);
  from_canvas : opt_setting env "ORBITRELAY_DEVELOPMENT_CANVAS_ID" of_text (dc_canvas_id c);
  from_layer : opt_setting env "ORBITRELAY_DEVELOPMENT_CANVAS_LAYER_ID" of_text (dc_layer_id c);
  from_width : setting env "ORBITRELAY_DEVELOPMENT_CANVAS_WIDTH" parse_f64 (f64_of_Z 1920) (dc_width c);
  from_height : setting env "ORBITRELAY_DEVELOPMENT_CANVAS_HEIGHT" parse_f64 (f64_of_Z 1080) (dc_height c)
}.
Record listener_loaded (env : Env) (c : WebSocketListenerConfig) : Prop := {
  from_bind_addr : setting env "ORBITRELAY_BIND_ADDR" parse_socket_addr
                     (mkSocketAddr (V4 [127; 0; 0; 1]) 8080 0) (bind_addr c);
  from_ws_path : setting env "ORBITRELAY_WEBSOCKET_PATH" Some "/ws" (websocket_path c);
  from_ws_connections : setting env "ORBITRELAY_MAX_CONNECTIONS" parse_u64 1024 (ws_max_connections c);
  from_handshake : setting env "ORBITRELAY_HANDSHAKE_TIMEOUT_MILLISECONDS" parse_u64 10000
                     (handshake_timeout_milliseconds c);
  from_grace : setting env "ORBITRELAY_SHUTDOWN_GRACE_PERIOD_MILLISECONDS" parse_u64 5000
                 (shutdown_grace_period_milliseconds c)
}.
Record delivery_loaded (env : Env) (c : AssetDeliveryConfig) : Prop := {
  from_enabled : setting env "ORBITRELAY_ASSET_DELIVERY_ENABLED" bool_text false (enabled c);
  from_listen_addr : setting env "ORBITRELAY_ASSET_LISTEN_ADDR" parse_socket_addr
                       (mkSocketAddr (V4 [127; 0; 0; 1]) 8081 0) (listen_addr c);
  from_base_url : opt_setting env "ORBITRELAY_ASSET_PUBLIC_BASE_URL" Some (cfg_public_base_url c);
  from_connections : setting env "ORBITRELAY_ASSET_MAX_CONNECTIONS" parse_u64 64 (max_connections c);
  from_downloads : setting env "ORBITRELAY_ASSET_MAX_ACTIVE_DOWNLOADS" parse_u64 8
                     (max_active_downloads c);
  from_chunk : setting env "ORBITRELAY_ASSET_CHUNK_SIZE" parse_u64 65536 (chunk_size c);
  from_idle : setting env "ORBITRELAY_ASSET_IDLE_TIMEOUT_MILLISECONDS" parse_u64 30000
                (idle_timeout_milliseconds c);
  from_ttl : setting env "ORBITRELAY_ASSET_GRANT_TTL_SECONDS" parse_i64 600 (cfg_grant_ttl_seconds c);
  from_grants : setting env "ORBITRELAY_ASSET_MAX_GRANTS" parse_u64 4096 (cfg_max_grants c);
  from_origins : setting env "ORBITRELAY_ASSET_ALLOWED_ORIGINS" (λ text, Some (origins_text text)) []
                   (cfg_allowed_origins c)
}.
Record loaded_from (env : Env) (c : ServerConfig) : Prop := {
  from_node_id : opt_setting env "ORBITRELAY_NODE_ID" of_text (node_id c);
  from_metadata : node_metadata c = Metadata_new;
  from_mode : setting env "ORBITRELAY_DEVELOPMENT_MODE" bool_text false (development_mode c);
  from_subscriptions : setting env "ORBITRELAY_SUBSCRIPTION_QUEUE_CAPACITY" parse_u64 64
                         (subscription_queue_capacity c);
  from_listener : listener_loaded env (websocket_listener c);
  from_adapter : websocket_adapter c = adapter_default;
  from_development_canvas : canvas_loaded env (development_canvas c);
  from_pdf_path : if development_mode c
                  then opt_setting env "ORBITRELAY_DEVELOPMENT_PDF_PATH" Some (development_pdf_path c)
                  else development_pdf_path c = None;
  from_limits : development_pdf_inspection_limits c = PdfInspectionLimits_DEFAULT;
  from_delivery : delivery_loaded env (asset_delivery c);
  from_scan_limit : setting env "ORBITRELAY_HISTORY_STORE_SCAN_LIMIT" parse_u64 64
                      (history_store_scan_limit c);
  from_event_store : opt_setting env "ORBITRELAY_EVENT_STORE_PATH" Some (event_store_path c);
  from_asset_store : opt_setting env "ORBITRELAY_ASSET_STORE_DIR" Some (asset_store_root c);
  from_catalog_store : opt_setting env "ORBITRELAY_CATALOG_STORE_PATH" Some (catalog_store_path c);
  from_queue : setting env "ORBITRELAY_SQLITE_COMMAND_QUEUE_CAPACITY" parse_u64 256
                 (sqlite_command_queue_capacity c)
}.

(** The reader of the code and the one of the specification agree. *)
Class Reads {A} (read : string → result ServerError A) (text : string → option A) : Prop :=
  reads_as : ∀ v a, read v = Ok a ↔ text v = Some a.

#[local] Instance reads_number name : Reads (parse_number_env name) parse_u64.
Proof. intros v a. unfold parse_number_env. destruct (parse_u64 v); cbn; naive_solver. Qed.
#[local] Instance reads_ok_or {A} e (parse : string → option A) : Reads (λ v, ok_or e (parse v)) parse.
Proof. intros v a. destruct (parse v); cbn; naive_solver. Qed.
#[local] Instance reads_id `{Identifier T} message : Reads (parse_id message) (λ v, Some <$> of_text v).
Proof. intros v a. unfold parse_id. destruct (of_text v); cbn; naive_solver. Qed.
#[local] Instance reads_path : Reads path_from (λ v, Some <$> Some v).
Proof. intros v a. unfold path_from. cbn. naive_solver. Qed.
#[local] Instance reads_text : Reads text_from Some.
Proof. intros v a. unfold text_from. naive_solver. Qed.
#[local] Instance reads_origins : Reads split_origins (λ v, Some (origins_text v)).
Proof. intros v a. unfold split_origins, origins_text. naive_solver. Qed.
#[local] Instance reads_bool name : Reads (parse_bool_env name) bool_text.
Proof.
  intros v a. unfold parse_bool_env, bool_text.
  repeat case_bool_decide; repeat case_decide; cbn; intuition congruence.
Qed.

(** One override sets the field to the value of its variable.  [unset] is what
    the field holds before. *)
Lemma load_setting_iff {A} env name read text (set : A → ServerConfig → ServerConfig) unset c c' :
  Reads read text → set unset c = c →
  load_setting env name read set c = Ok c' ↔ ∃ x, setting env name text unset x ∧ c' = set x c.
Proof.
  intros Hreads Hunset. unfold load_setting, read_utf8_env, setting. destruct (env !! name) as [v|]; cbn.
  - destruct (utf8_valid v); cbn; [|by split; [|intros (? & [? ?] & ?)]]. split.
    + intros (x & Hx%Hreads & [= <-])%bind_Ok_inv. eauto.
    + intros (x & [_ Hx%Hreads] & ->). by rewrite Hx.
  - split; [intros [= <-]; eauto|]. intros (x & -> & ->). by rewrite Hunset.
Qed.

(** The override that is read in development mode only *)
Lemma load_pdf_iff env (mode : bool) c c' :
  with_optional_development_pdf_path None c = c →
  (if mode
   then load_setting env "ORBITRELAY_DEVELOPMENT_PDF_PATH" path_from with_optional_development_pdf_path c
   else Ok c) = Ok c' ↔
  ∃ x, (if mode then opt_setting env "ORBITRELAY_DEVELOPMENT_PDF_PATH" Some x else x = None) ∧
       c' = with_optional_development_pdf_path x c.
Proof.
  intros Hunset. destruct mode; [by apply load_setting_iff; [typeclasses eauto|]|]. split.
  - intros [= <-]. eauto.
  - intros (x & -> & ->). by rewrite Hunset.
Qed.

(** A configuration with its assignments evaluated, field by field. *)
Ltac fields_of c :=
  eval lazy -[f64_of_Z Metadata_new adapter_default PdfInspectionLimits_DEFAULT NodeId SessionId CanvasId
              LayerId] in c.
(** [load_setting_iff] at the override [r], with the value that the field has. *)
Ltac setting_iff r c' k :=
  lazymatch r with
  | load_setting ?env ?name ?read ?set ?c =>
      let Hu := fresh "Hu" in
      eassert (Hu : set _ c = c) by
        (match goal with |- ?l = _ => let l' := fields_of l in change (l' = c) end; reflexivity);
      let iff := constr:(load_setting_iff env name read _ set _ c c' _ Hu) in
      k iff; clear Hu
  end.
(** Splits off the first override of a [load] that succeeded. *)
Ltac load_step H :=
  apply bind_Ok_inv in H as (? & ? & H);
  match goal with
  | Hs : ?r = Ok ?c' |- _ =>
      is_var c'; setting_iff r c' ltac:(fun iff => pose proof (proj1 iff Hs) as (? & ? & ?)); clear Hs
  | Hs : (if _ then _ else Ok _) = Ok _ |- _ =>
      pose proof (proj1 (load_pdf_iff _ _ _ _ eq_refl) Hs) as (? & ? & ?); clear Hs
  end;
  match goal with
  | Heq : ?c = ?v |- _ => is_var c; let v' := fields_of v in change (c = v') in Heq; subst c
  end.

(** Reads the fields of a configuration that is built from its fields. *)
Ltac get_fields :=
  cbn [node_id node_metadata development_mode subscription_queue_capacity websocket_listener
       websocket_adapter development_canvas development_pdf_path development_pdf_inspection_limits
       asset_delivery history_store_scan_limit event_store_path asset_store_root catalog_store_path
       sqlite_command_queue_capacity bind_addr websocket_path ws_max_connections
       handshake_timeout_milliseconds shutdown_grace_period_milliseconds dc_session_id dc_canvas_id
       dc_layer_id dc_width dc_height enabled listen_addr cfg_public_base_url max_connections
       max_active_downloads chunk_size idle_timeout_milliseconds cfg_grant_ttl_seconds cfg_max_grants
       cfg_allowed_origins] in *.

Lemma load_sound env c : load env = Ok c → loaded_from env c ∧ validate c = Ok ().
Proof.
  unfold load. intros Hl. do 19 load_step Hl.
  apply bind_Ok_inv in Hl as (c2 & Hd & Hl). unfold load_delivery in Hd. do 10 load_step Hd. injection Hd as <-.
  apply bind_Ok_inv in Hl as ([] & Hv & [= <-]). split; [|done]. clear Hv.
  split; get_fields; first [reflexivity | assumption | split; assumption].
Qed.

(** Runs the first override of [load], whose value a hypothesis gives. *)
Ltac load_run :=
  lazymatch goal with
  | |- (?r ≫= ?k) = ?answer =>
      lazymatch r with
      | load_setting ?env ?name _ ?set ?c =>
          lazymatch goal with
          | Hx : setting env name _ _ ?x |- _ =>
              setting_iff r (set x c) ltac:(fun iff => rewrite (proj2 iff (ex_intro _ x (conj Hx eq_refl))));
              let c' := fields_of (set x c) in change (k c' = answer)
          end
      end
  end; cbv beta.

Lemma load_complete env c : loaded_from env c → validate c = Ok () → load env = Ok c.
Proof.
  destruct c as [? ? ? ? [] ? [] ? ? [] ? ? ? ? ?].
  intros [? Hm ? ? [] Ha [] Hpdf Hlim [] ? ? ? ?] Hv. get_fields. subst. unfold load.
  do 8 load_run. get_fields.
  match goal with |- (_ ≫= ?k) = ?answer =>
    rewrite (proj2 (load_pdf_iff _ _ _ _ eq_refl) (ex_intro _ _ (conj Hpdf eq_refl)));
    match goal with |- (Ok ?c ≫= _) = _ => let c' := fields_of c in change (k c' = answer) end; cbv beta
  end.
  do 10 load_run.
  match goal with |- (load_delivery ?env ?c ≫= _) = Ok ?c' => enough (load_delivery env c = Ok c') as -> end;
    [by cbn; rewrite Hv|]. unfold load_delivery. by do 10 load_run.
Qed.

(** C26. A configuration is loaded exactly when every setting of it is the value
    of its own variable, or the default without that variable, and the
    configuration passes the validation: no variable reaches another setting,
    none that is set is skipped, one that is not UTF-8 or does not parse is
    an error, and the path of the development PDF is read in development mode
    only. *)
Theorem load_iff env c : load env = Ok c ↔ loaded_from env c ∧ validate c = Ok ().
Proof. split; [apply load_sound|]. intros [Hl Hv]. by apply load_complete. Qed.

Lemma setting_empty {A} name (read : string → option A) unset : setting ∅ name read unset unset.
Proof. done. Qed.

(** Without any variable, the defaults are loaded. *)
Lemma load_empty `{!ConfigKernelLaws} : load ∅ = Ok server_default.
Proof.
  apply load_complete.
  - split; try reflexivity; split; reflexivity.
  - unfold validate. cbn [websocket_adapter server_default]. by rewrite adapter_default_valid.
Qed.

(** ** The ranges of a loaded configuration *)

(** Every field within the range of its type *)
Record config_typed (c : ServerConfig) : Prop := {
  typed_subscriptions : is_u64 (subscription_queue_capacity c);
  typed_scan_limit : is_u64 (history_store_scan_limit c);
  typed_queue : is_u64 (sqlite_command_queue_capacity c);
  typed_bind_addr : addr_typed (bind_addr (websocket_listener c));
  typed_ws_connections : is_u64 (ws_max_connections (websocket_listener c));
  typed_handshake : is_u64 (handshake_timeout_milliseconds (websocket_listener c));
  typed_grace : is_u64 (shutdown_grace_period_milliseconds (websocket_listener c));
  typed_delivery : delivery_typed (asset_delivery c)
}.

(** What the other components rely on *)
Record config_valid (c : ServerConfig) : Prop := {
  valid_subscriptions : subscription_queue_capacity c ≠ 0;
  valid_scan_limit : history_store_scan_limit c ≠ 0 ∧ history_store_scan_limit c ≤ 256;
  valid_queue : sqlite_command_queue_capacity c ≠ 0;
  valid_ws_path : ∃ rest, websocket_path (websocket_listener c) = "/" +:+ rest;
  valid_ws_connections : ws_max_connections (websocket_listener c) ≠ 0;
  valid_handshake : handshake_timeout_milliseconds (websocket_listener c) ≠ 0;
  valid_grace : shutdown_grace_period_milliseconds (websocket_listener c) ≠ 0;
  valid_adapter : adapter_validate (websocket_adapter c) = true;
  valid_width : positive_f64 (dc_width (development_canvas c)) = true;
  valid_height : positive_f64 (dc_height (development_canvas c)) = true;
  valid_delivery : delivery_valid (asset_delivery c);
  valid_event_store : event_store_path c ≠ Some EmptyString;
  valid_asset_store : asset_store_root c ≠ Some EmptyString;
  valid_catalog_store : catalog_store_path c ≠ Some EmptyString
}.

Lemma validate_canvas_iff c :
  validate_canvas c = Ok () ↔ positive_f64 (dc_width c) = true ∧ positive_f64 (dc_height c) = true.
Proof.
  unfold validate_canvas, positive_f64.
  rewrite !guard_Ok, !orb_false_iff, !andb_true_iff, !negb_false_iff, !negb_true_iff. tauto.
Qed.

Lemma starts_with_slash path : starts_with "/" path = true ↔ ∃ rest, path = "/" +:+ rest.
Proof.
  unfold starts_with. rewrite bool_decide_eq_true. split.
  - intros [rest Hr%strip_prefix_Some]. eauto.
  - intros [rest ->]. rewrite strip_prefix_app. eauto.
Qed.

Lemma validate_listener_iff c :
  validate_listener c = Ok () ↔
  (∃ rest, websocket_path c = "/" +:+ rest) ∧ ws_max_connections c ≠ 0 ∧
  handshake_timeout_milliseconds c ≠ 0 ∧ shutdown_grace_period_milliseconds c ≠ 0.
Proof.
  unfold validate_listener.
  rewrite !guard_Ok, orb_false_iff, negb_false_iff, !Z.eqb_neq, starts_with_slash. split.
  - tauto.
  - intros ([rest Hp] & ? & ? & ?). split_and!; try done; [by rewrite Hp|by exists rest].
Qed.

Lemma is_empty_path_false path : is_empty_path path = false ↔ path ≠ Some EmptyString.
Proof. destruct path as [[|a path]|]; cbn; naive_solver. Qed.

(** The validation accepts exactly the valid configurations. *)
Lemma validate_iff c : validate c = Ok () ↔ config_valid c.
Proof.
  unfold validate.
  rewrite !guard_Ok, !seq_Ok, !guard_Ok, !Z.eqb_neq, orb_false_iff, Z.eqb_neq, Z.ltb_ge,
    validate_listener_iff, validate_canvas_iff, validate_delivery_iff, !is_empty_path_false.
  change MAX_HISTORY_STORE_SCAN_LIMIT with 256.
  assert ((if adapter_validate (websocket_adapter c) then Ok ()
           else Err (config "invalid WebSocket adapter configuration")) = Ok () ↔
          adapter_validate (websocket_adapter c) = true) as ->
    by (destruct (adapter_validate _); naive_solver).
  split; [intros Hv; split; tauto|]. intros []. tauto.
Qed.

(** A property of the default and of every value that is read *)
Lemma setting_sat {A} (P : A → Prop) env name read unset value :
  setting env name read unset value → P unset → (∀ text v, read text = Some v → P v) → P value.
Proof. unfold setting. intros Hs Hu Hr. destruct (env !! name); [destruct Hs; by eapply Hr|by subst]. Qed.

Ltac solve_typed :=
  eapply setting_sat; [eassumption| |eauto using parse_u64_bounds, parse_i64_bounds, parse_socket_addr_typed];
  unfold is_u64, is_i64, u64_max, i64_min, i64_max, addr_typed, ip_typed, in_width, u32_max; cbn;
  repeat constructor; lia.

Lemma loaded_typed env c : loaded_from env c → config_typed c.
Proof.
  intros [? _ _ ? [] _ _ _ _ [] ? _ _ _ ?]. split; try solve_typed. split; solve_typed.
Qed.

(** C40. Every number of a loaded configuration is within the width of its type,
    every address has the parts and ranges of its kind, and what the other
    components rely on holds: limits, capacities, time-outs and chunk sizes are
    not zero, the history scan limit is at most 256, the Grant lifetime is
    positive, the Canvas size is finite and positive, the WebSocket path starts
    with a slash, no store path is empty, and a listener for Assets that is not
    on a loopback address has a base URL.  Only a process in development mode
    has the path of a PDF. *)
Theorem loaded_configuration_is_typed env c :
  load env = Ok c →
  config_typed c ∧ config_valid c ∧ (development_pdf_path c = None ∨ development_mode c = true).
Proof.
  intros [Hl Hv]%load_sound. split_and!; [by eapply loaded_typed|by apply validate_iff|].
  pose proof (from_pdf_path _ _ Hl) as Hp. destruct (development_mode c); [by right|by left].
Qed.

(** An override depends on its own variable only. *)
Lemma load_setting_ext {A} env env' name (read : string → result ServerError A) set c :
  env !! name = env' !! name → load_setting env name read set c = load_setting env' name read set c.
Proof. intros He. unfold load_setting, read_utf8_env. by rewrite He. Qed.

(** Follows the overrides of both environments, which agree on each variable. *)
Ltac same_overrides env env' He :=
  repeat match goal with
  | |- (load_setting env ?n ?r ?s ?c ≫= _) = _ =>
      rewrite (load_setting_ext env env' n r s c) by (apply He, (bool_decide_eq_true_1 _); vm_compute; reflexivity);
      destruct (load_setting env' n r s c); [cbn [mbind result_mbind]|reflexivity]
  | |- ((if ?mode then _ else Ok _) ≫= _) = _ => destruct mode; cbn [mbind result_mbind]
  end.
Lemma load_delivery_ext env env' c :
  (∀ name, name ∈ supported_variables → env !! name = env' !! name) → load_delivery env c = load_delivery env' c.
Proof. intros He. unfold load_delivery. same_overrides env env' He. reflexivity. Qed.

(** The answer of [load] depends only on the variables that the program
    supports: unknown variables are ignored. *)
Theorem load_ignores_unknown env env' :
  (∀ name, name ∈ supported_variables → env !! name = env' !! name) → load env = load env'.
Proof.
  intros He. unfold load. same_overrides env env' He; by rewrite (load_delivery_ext env env' _ He).
Qed.

End config.

(** ** A concrete environment *)

Module ConfigDemo.
#[local] Existing Instances Demo.demo_kernel CatalogDemo.catalog_canvas CatalogDemo.catalog_documents
  CatalogDemo.catalog_kernel Demo.text_identifier.

#[export] Instance config_kernel : ConfigKernel := {|
  NodeId := string; NodeId_id := Demo.text_identifier;
  Metadata_new := EmptyString : Metadata (Kernel := Demo.demo_kernel);
  WebSocketAdapterConfig := Z; adapter_default := 65536; adapter_validate := λ n, 0 <? n;
  max_message_bytes := id;
  PdfInspectionLimits := Z; PdfInspectionLimits_DEFAULT := 1048576; max_asset_bytes := id
|}.
#[export] Instance config_laws : ConfigKernelLaws.
Proof. reflexivity. Qed.

Definition environment : gmap string string := list_to_map
  [("ORBITRELAY_DEVELOPMENT_MODE", "1"); ("ORBITRELAY_DEVELOPMENT_PDF_PATH", "lesson.pdf");
   ("ORBITRELAY_BIND_ADDR", "[::1]:9000"); ("ORBITRELAY_ASSET_ALLOWED_ORIGINS", " http://a ,,http://b");
   ("ORBITRELAY_ASSET_GRANT_TTL_SECONDS", "+30"); ("HOME", "/root")]%string.
Definition configured : ServerConfig :=
  match load environment with Ok c => c | Err _ => server_default end.

Lemma configured_loads : load environment = Ok configured.
Proof.
  assert (is_ok (load environment) = true) as Hok by (vm_compute; reflexivity).
  unfold configured. by destruct (load environment).
Qed.

Example configured_fields :
  (development_pdf_path configured, bind_addr (websocket_listener configured),
   cfg_allowed_origins (asset_delivery configured), cfg_grant_ttl_seconds (asset_delivery configured)) =
  (Some "lesson.pdf", mkSocketAddr (V6 [0; 0; 0; 0; 0; 0; 0; 1]) 9000 0, ["http://a"; "http://b"], 30)%string.
Proof. vm_compute. reflexivity. Qed.

(** Witness of C40. *)
Lemma loaded_configuration_is_typed_witness :
  config_typed configured ∧ config_valid configured ∧
  (development_pdf_path configured = None ∨ development_mode configured = true).
Proof. exact (loaded_configuration_is_typed environment configured configured_loads). Defined.

(** An instance. *)
Lemma load_ignores_unknown_witness : load environment = load (delete "HOME" environment).
Proof.
  apply load_ignores_unknown. intros name Hn. rewrite lookup_delete_ne; [reflexivity|]. intros <-.
  apply (bool_decide_eq_true_2 _) in Hn. vm_compute in Hn. discriminate Hn.
Defined.

End ConfigDemo.
