(* ===== verification/Dependencies.v ===== *)
(** * Dependency ports and transport adapters

    Models [orbitrelay-server/src/dependencies.rs], [development.rs] and
    [adapters.rs], and the choice of the dependencies in [main.rs]: the
    authorization and identity ports with their development and rejecting
    implementations, the development echo handler, and the translation of
    Runtime and Sync errors for the transport.  A process that is not in
    development mode authorizes nobody for anything. *)

From S2P Require Import Prelude Float Net Kernel Canvas CatalogKernel CanvasHistory DeliveryConfig.
From S2P Require Import Delivery Config.

(** [DEVELOPMENT_IDENTITY_SCHEME] *)
Definition DEVELOPMENT_IDENTITY_SCHEME : string := "development".

(** [AuthorizationError] of [orbitrelay-runtime], [IdentityError] and
    [SubscriptionAuthorizationError] of [orbitrelay-transport] *)
Inductive ActionAuthorizationError := ActionRejected (detail : string).
Inductive IdentityError := CredentialsRejected (detail : string).
Inductive SubscriptionAuthorizationError := SubscriptionRejected (detail : string).

(** The Action types of [orbitrelay-canvas] *)
Class StrokeActions := {
  STROKE_BEGIN_ACTION_TYPE : string;
  STROKE_APPEND_ACTION_TYPE : string;
  STROKE_END_ACTION_TYPE : string;
  STROKE_CANCEL_ACTION_TYPE : string;
  STROKE_REMOVE_ACTION_TYPE : string
}.

Section dependencies.
Context `{ConfigKernel, StrokeActions}.

(** [Action], with the text of its [ActionType]; the ports of this file look at
    its type and its payload. *)
Record Action := mkAction {
  action_id : ActionId;
  action_session_id : SessionId;
  action_actor_id : ActorId;
  action_type : string;
  action_occurred_at : Timestamp;
  action_payload : Payload;
  action_metadata : Metadata
}.
(** [InboundCredentials] *)
Record InboundCredentials := mkCredentials { scheme : string; credential : string }.
(** [ActorBinding], with the text of its [IdentitySource] *)
Record ActorBinding := mkActorBinding { actor_id : ActorId; identity_source : string }.
(** [SubscriptionRequest] *)
Record SubscriptionRequest := mkSubscription {
  request_session_id : SessionId;
  request_event_types : list EventType
}.

(** The ports *)
Abbreviation ActionAuthorizer := (Action → result ActionAuthorizationError ()).
Abbreviation IdentityResolver := (InboundCredentials → result IdentityError ActorBinding).
Abbreviation SubscriptionAuthorizer :=
  (ActorBinding → SubscriptionRequest → result SubscriptionAuthorizationError ()).
Abbreviation DocumentReadAuthorizer :=
  (ActorId → SessionId → string → result DocumentAuthorizationError ()).

(** [ServerDependencies] *)
Record ServerDependencies := mkDependencies {
  action_authorizer : ActionAuthorizer;
  identity_resolver : IdentityResolver;
  subscription_authorizer : SubscriptionAuthorizer
}.

(** ** [development.rs] *)

(** [DevelopmentIdentityResolver] *)
Definition development_identity : IdentityResolver := λ credentials,
  if negb (bool_decide (scheme credentials = DEVELOPMENT_IDENTITY_SCHEME))
  then Err (CredentialsRejected "unsupported development credential scheme") else
  actor ← ok_or (CredentialsRejected "development credential is not a valid actor ID")
            (of_text (credential credentials));
  Ok (mkActorBinding actor DEVELOPMENT_IDENTITY_SCHEME).

(** [DevelopmentActionAuthorizer] *)
Definition development_action : ActionAuthorizer := λ action,
  if bool_decide (action_type action ∈
       ["dev.echo"%string; STROKE_BEGIN_ACTION_TYPE; STROKE_APPEND_ACTION_TYPE; STROKE_END_ACTION_TYPE;
        STROKE_CANCEL_ACTION_TYPE; STROKE_REMOVE_ACTION_TYPE])
  then Ok () else Err (ActionRejected "development action type is not enabled").

(** [DevelopmentSubscriptionAuthorizer] *)
Definition development_subscription : SubscriptionAuthorizer := λ _ _, Ok ().

(** [DevelopmentDocumentReadAuthorizer] *)
Definition development_document_read (session_id : SessionId) : DocumentReadAuthorizer := λ _ session _,
  if bool_decide (session = session_id) then Ok () else Err DocUnauthorized.

(** [EventDraft], and [DevelopmentEchoHandler]: its [validate] accepts
    everything. *)
Record EventDraft := mkDraft {
  draft_type : EventType;
  draft_payload : Payload;
  draft_metadata : Metadata
}.
Definition echo_handle (action : Action) : list EventDraft :=
  [mkDraft (EventType_new "dev.echoed") (action_payload action) Metadata_new].

(** ** [dependencies.rs] *)

Definition reject_all_action : ActionAuthorizer := λ _,
  Err (ActionRejected "action authorization is not configured").
Definition reject_all_identity : IdentityResolver := λ _,
  Err (CredentialsRejected "identity resolution is not configured").
Definition reject_all_subscription : SubscriptionAuthorizer := λ _ _,
  Err (SubscriptionRejected "subscription authorization is not configured").
Definition reject_all_document_read : DocumentReadAuthorizer := λ _ _ _, Err DocUnauthorized.

(** ** [main.rs] *)

(** The [let dependencies = ...] of [main] *)
Definition main_dependencies (c : ServerConfig) : ServerDependencies :=
  if development_mode c
  then mkDependencies development_action development_identity development_subscription
  else mkDependencies reject_all_action reject_all_identity reject_all_subscription.

(** ** [adapters.rs] *)

(** [RuntimeError] of [orbitrelay-runtime], without the fields that the adapter
    drops; the enum is non-exhaustive. *)
Inductive RuntimeError :=
| HandlerNotFound | ValidationFailed | AuthorizationFailed | HandlerFailed | PipelineFailed
| CoordinationFailed | CoordinationUnavailable | RuntimeOther.
Inductive TransportExecutionError :=
| TransportRejected (detail : string)
| TransportUnavailable (detail : string)
| TransportFailed (detail : string).
(** [map_runtime_error] *)
Definition map_runtime_error (e : RuntimeError) : TransportExecutionError :=
  match e with
  | HandlerNotFound | ValidationFailed | AuthorizationFailed =>
      TransportRejected "action was rejected by the runtime"
  | HandlerFailed => TransportRejected "action was rejected by the action handler"
  | PipelineFailed | CoordinationFailed => TransportUnavailable "event pipeline is unavailable"
  | CoordinationUnavailable => TransportUnavailable "execution coordination is unavailable"
  | RuntimeOther => TransportFailed "runtime execution failed"
  end.
(** [RuntimeActionExecutor::execute]; [answer] is the answer of
    [Runtime::execute]. *)
Definition executor_execute (answer : result RuntimeError (list Event))
    : result TransportExecutionError (list Event) := map_err map_runtime_error answer.

(** [SyncError] of [orbitrelay-sync] and [EventSourceError] of
    [orbitrelay-transport] *)
Inductive SyncError :=
| SubscriberLagged | SubscriptionClosedSync | InvalidFilter | InvalidQueueCapacitySync | SyncOther.
Inductive EventSourceError :=
| SubscriptionLagged | SubscriptionClosed | SourceUnavailable (detail : string)
| SourceFailed (detail : string).
(** [map_sync_error] *)
Definition map_sync_error (e : SyncError) : EventSourceError :=
  match e with
  | SubscriberLagged => SubscriptionLagged
  | SubscriptionClosedSync => SubscriptionClosed
  | InvalidFilter | InvalidQueueCapacitySync =>
      SourceUnavailable "event source rejected the subscription"
  | SyncOther => SourceFailed "event source failed"
  end.

(** The [EventBus] port with its filters and subscriptions *)
Class EventBus (Bus : Type) := {
  EventFilter : Type;
  filter_for_session : SessionId → EventFilter;
  filter_with_event_type : EventType → EventFilter → EventFilter;
  filter_matches : EventFilter → Event → bool;
  Subscription : Type;
  bus_subscribe : EventFilter → Bus → result SyncError Subscription * Bus;
  sub_next_event : Subscription → result SyncError (option Event) * Subscription;
  sub_close : Subscription → result SyncError () * Subscription
}.
(** A filter has a Session and the event types that were added to it; it accepts
    the events of its Session, and with event types those of one of them. *)
Class EventBusLaws (Bus : Type) `{EventBus Bus} := {
  filter_session_id : EventFilter → SessionId;
  filter_event_types : EventFilter → list EventType;
  filter_new_session : ∀ s, filter_session_id (filter_for_session s) = s;
  filter_new_types : ∀ s, filter_event_types (filter_for_session s) = [];
  filter_add_session : ∀ t f, filter_session_id (filter_with_event_type t f) = filter_session_id f;
  filter_add_types : ∀ t f,
    filter_event_types (filter_with_event_type t f) = filter_event_types f ++ [t];
  filter_matches_iff : ∀ f e, filter_matches f e = true ↔
    event_session_id e = filter_session_id f ∧
    (filter_event_types f = [] ∨ event_type e ∈ filter_event_types f)
}.

Section adapters.
Context {Bus : Type} `{EventBus Bus}.

(** The filter that [subscribe] builds *)
Definition subscription_filter (request : SubscriptionRequest) : EventFilter :=
  fold_left (λ filter t, filter_with_event_type t filter) (request_event_types request)
    (filter_for_session (request_session_id request)).
(** [SyncEventSourceFactory::subscribe] *)
Definition source_subscribe (request : SubscriptionRequest) (bus : Bus)
    : result EventSourceError Subscription * Bus :=
  let '(r, bus') := bus_subscribe (subscription_filter request) bus in (map_err map_sync_error r, bus').
(** [SyncEventSource::next_event] and [close] *)
Definition source_next_event (s : Subscription) : result EventSourceError (option Event) * Subscription :=
  let '(r, s') := sub_next_event s in (map_err map_sync_error r, s').
Definition source_close (s : Subscription) : result EventSourceError () * Subscription :=
  let '(r, s') := sub_close s in (map_err map_sync_error r, s').

(** ** Properties *)

Lemma fold_filter_types `{!EventBusLaws Bus} ts : ∀ f,
  let g := fold_left (λ filter t, filter_with_event_type t filter) ts f in
  filter_session_id g = filter_session_id f ∧ filter_event_types g = filter_event_types f ++ ts.
Proof.
  induction ts as [|t ts IH]; intros f; cbn; [by rewrite app_nil_r|].
  destruct (IH (filter_with_event_type t f)) as [-> ->].
  by rewrite filter_add_session, filter_add_types, <- app_assoc.
Qed.

(** A subscription receives exactly the events it asked for: the filter of
    a request accepts an event exactly when it belongs to the Session of the
    request and has one of the requested types, or no type was requested. *)
Theorem subscription_sees_its_session `{!EventBusLaws Bus} request e :
  filter_matches (subscription_filter request) e = true ↔
  event_session_id e = request_session_id request ∧
  (request_event_types request = [] ∨ event_type e ∈ request_event_types request).
Proof.
  unfold subscription_filter.
  destruct (fold_filter_types (request_event_types request) (filter_for_session (request_session_id request)))
    as [Hs Ht].
  by rewrite filter_matches_iff, Hs, Ht, filter_new_session, filter_new_types, app_nil_l.
Qed.

End adapters.

(** What a process authorizes *)
Record authorizes_nothing (d : ServerDependencies) : Prop := {
  no_action : ∀ action, is_ok (action_authorizer d action) = false;
  no_identity : ∀ credentials, is_ok (identity_resolver d credentials) = false;
  no_subscription : ∀ binding request, is_ok (subscription_authorizer d binding request) = false
}.

(** Nothing is authorized by default: the dependencies of a process accept
    any action, identity or subscription only when the environment enables the
    development mode with [true] or [1]; and then an identity is exactly the
    actor named by a credential of the development scheme. *)
Theorem only_development_authorizes env c :
  load env = Ok c →
  let d := main_dependencies c in
  (authorizes_nothing d ∨
   env !! "ORBITRELAY_DEVELOPMENT_MODE" = Some "true"%string ∨
   env !! "ORBITRELAY_DEVELOPMENT_MODE" = Some "1"%string) ∧
  ∀ credentials binding, identity_resolver d credentials = Ok binding →
    scheme credentials = "development"%string ∧ of_text (credential credentials) = Some (actor_id binding).
Proof.
  intros [Hl _]%load_sound d. pose proof (from_mode _ _ Hl) as Hm. subst d. unfold main_dependencies.
  unfold setting in Hm. destruct (development_mode c); (split; [|intros cr b; cbn]).
  - right. destruct (env !! _) as [text|]; [|done]. destruct Hm as [_ Hm]. unfold bool_text in Hm.
    case_decide as Ht; [|by case_decide]. by destruct Ht as [-> | ->]; auto.
  - unfold development_identity. case_bool_decide as Hs; [|done]. cbn [negb].
    intros (actor & Ha%ok_or_Ok_inv & [= <-])%bind_Ok_inv. done.
  - left. by split.
  - done.
Qed.

End dependencies.

(** ** A concrete process *)

Module DependenciesDemo.
#[local] Existing Instances Demo.demo_kernel CatalogDemo.catalog_canvas CatalogDemo.catalog_documents
  CatalogDemo.catalog_kernel ConfigDemo.config_kernel.

#[export] Instance stroke_actions : StrokeActions := {|
  STROKE_BEGIN_ACTION_TYPE := "begin"; STROKE_APPEND_ACTION_TYPE := "append";
  STROKE_END_ACTION_TYPE := "end"; STROKE_CANCEL_ACTION_TYPE := "cancel";
  STROKE_REMOVE_ACTION_TYPE := "remove"
|}.

(** A bus without events, whose filters are a Session and event types *)
#[export] Instance demo_bus : EventBus () := {|
  EventFilter := SessionId * list EventType;
  filter_for_session s := (s, []);
  filter_with_event_type t f := (f.1, f.2 ++ [t]);
  filter_matches f e := bool_decide (event_session_id e = f.1) &&
                        (bool_decide (f.2 = []) || bool_decide (event_type e ∈ f.2));
  Subscription := ();
  bus_subscribe _ b := (Ok (), b);
  sub_next_event s := (Ok None, s);
  sub_close s := (Ok (), s)
|}.
#[export] Instance demo_bus_laws : EventBusLaws ().
Proof.
  refine {| filter_session_id := fst : EventFilter (Bus := ()) → SessionId;
            filter_event_types := snd : EventFilter (Bus := ()) → list EventType |}; try done.
  intros f e. cbn. rewrite andb_true_iff, orb_true_iff, !bool_decide_eq_true. done.
Defined.

(** An instance. *)
Lemma only_development_authorizes_witness :
  let d := main_dependencies ConfigDemo.configured in
  authorizes_nothing d ∨
  ConfigDemo.environment !! "ORBITRELAY_DEVELOPMENT_MODE" = Some "true"%string ∨
  ConfigDemo.environment !! "ORBITRELAY_DEVELOPMENT_MODE" = Some "1"%string.
Proof.
  exact (proj1 (only_development_authorizes ConfigDemo.environment ConfigDemo.configured
                  ConfigDemo.configured_loads)).
Defined.

(** An instance. *)
Lemma subscription_sees_its_session_witness :
  let request := mkSubscription "s"%string ["stroke"%string] in
  let e := Demo.mkEvent "e" "s" "a" "x" "stroke" "t" "p" "m" in
  filter_matches (subscription_filter request) e = true ↔
  event_session_id e = request_session_id request ∧
  (request_event_types request = [] ∨ event_type e ∈ request_event_types request).
Proof. exact (subscription_sees_its_session (Bus := ()) _ _). Defined.

End DependenciesDemo.
