(* ===== verification/Listener.v ===== *)
(** * The WebSocket listener

    Models [orbitrelay-server/src/listener.rs]: the supervisor that owns the
    connection tasks and their permits, the accept loop as a step relation over
    the events that can wake it, the drain at shutdown with its deadline and
    abort, and the answer to a handshake.  The loop never runs more connections
    than configured, and the drain always ends with no task left. *)

From stdpp Require Import relations.
From S2P Require Import Prelude Float Net Kernel Canvas CatalogKernel Lifecycle DeliveryConfig Config.

(** [WebSocketAdapterError] of [orbitrelay-transport], with the variants that
    are constructed or matched here; the enum is non-exhaustive. *)
Inductive WebSocketAdapterError :=
| Frame (detail : string)
| Task (detail : string)
| WriteTimeout (operation : string) (timeout_milliseconds : Z)
| AdapterOther.

(** What [join_next] answers for a task: its value, or a [JoinError]. *)
Inductive task_outcome :=
| Returned (r : result WebSocketAdapterError ())
| JoinFailed.

(** A task of the [JoinSet], which has returned or not. *)
Inductive task := Running | Completed (o : task_outcome).
Definition is_running (t : task) : bool := match t with Running => true | Completed _ => false end.

(** [Semaphore::MAX_PERMITS] of [tokio]: [usize::MAX >> 3] *)
Definition MAX_PERMITS : Z := Z.shiftr usize_max 3.

(** ** [ConnectionSupervisor] *)

Record ConnectionSupervisor := mkSupervisor { tasks : list task; permits : Z }.

(** [ConnectionSupervisor::new]; [Semaphore::new] panics above [MAX_PERMITS]. *)
Definition supervisor_new (max_connections : Z) : result failure ConnectionSupervisor :=
  if max_connections =? 0
  then Err (FailedWith (config "max connections must be greater than zero")) else
  if MAX_PERMITS <? max_connections then Err Panicked else
  Ok (mkSupervisor [] max_connections).

Definition task_count (s : ConnectionSupervisor) : nat := length (tasks s).
Definition has_tasks (s : ConnectionSupervisor) : bool := negb (bool_decide (tasks s = [])).

(** [try_spawn]: the task holds a permit until it has returned. *)
Definition try_spawn (s : ConnectionSupervisor) : bool * ConnectionSupervisor :=
  if permits s =? 0 then (false, s)
  else (true, mkSupervisor (tasks s ++ [Running]) (permits s - 1)).

(** A task returns: its permit is dropped, and its outcome waits to be joined. *)
Definition complete (i : nat) (o : task_outcome) (s : ConnectionSupervisor)
    : option ConnectionSupervisor :=
  match tasks s !! i with
  | Some Running => Some (mkSupervisor (<[i := Completed o]> (tasks s)) (permits s + 1))
  | _ => None
  end.
(** [join_next]: some task that has returned is removed. *)
Definition join_next (i : nat) (s : ConnectionSupervisor)
    : option (task_outcome * ConnectionSupervisor) :=
  match tasks s !! i with
  | Some (Completed o) => Some (o, mkSupervisor (delete i (tasks s)) (permits s))
  | _ => None
  end.

(** Tasks that have not returned. *)
Definition running : list task → nat := count_if is_running.

(** ** The accept loop *)

(** The listener while [run] loops, or the answer of [run]. *)
Record LoopState := mkLoop {
  supervisor : ConnectionSupervisor;
  answer : option (result ServerError ())
}.

(** What wakes the [select!] of [run], or happens in between: the return of
    a task. *)
Inductive loop_event :=
| Cancelled
| Joined (i : nat)
| Accepted
| AcceptFailed
| TaskReturned (i : nat) (o : task_outcome).

(** One round of [run]; [None] when the event is not possible.  The result of
    a joined task and of [try_spawn] is only logged. *)
Definition loop_step (ev : loop_event) (l : LoopState) : option LoopState :=
  match answer l, ev with
  | _, TaskReturned i o => s ← complete i o (supervisor l); Some (mkLoop s (answer l))
  | Some _, _ => None
  | None, Cancelled => Some (mkLoop (supervisor l) (Some (Ok ())))
  | None, Joined i => '(_, s) ← join_next i (supervisor l); Some (mkLoop s None)
  | None, Accepted => Some (mkLoop (try_spawn (supervisor l)).2 None)
  | None, AcceptFailed => Some (mkLoop (supervisor l) (Some (Err (Listener "accept failed"))))
  end.

(** The states that [run] reaches from the supervisor [s0] of a bound listener. *)
Inductive reaches (s0 : ConnectionSupervisor) : LoopState → Prop :=
| reaches_bound : reaches s0 (mkLoop s0 None)
| reaches_step l l' ev : reaches s0 l → loop_step ev l = Some l' → reaches s0 l'.

(** ** The drain at shutdown *)

Inductive drain_phase := Waiting | Aborting | Drained.
Record DrainState := mkDrain { drained : ConnectionSupervisor; phase : drain_phase }.

(** [drain]: tasks return and are joined until none is left; at the deadline
    [abort_all] aborts the others, which then return, and joins them too. *)
Inductive drain_step : DrainState → DrainState → Prop :=
| drain_returns s ph i o s' : ph ≠ Drained → complete i o s = Some s' →
    drain_step (mkDrain s ph) (mkDrain s' ph)
| drain_joins s ph i o s' : ph ≠ Drained → join_next i s = Some (o, s') →
    drain_step (mkDrain s ph) (mkDrain s' ph)
| drain_deadline s : tasks s ≠ [] → drain_step (mkDrain s Waiting) (mkDrain s Aborting)
| drain_ends s ph : ph ≠ Drained → tasks s = [] → drain_step (mkDrain s ph) (mkDrain s Drained).

(** ** Handshakes *)

(** An HTTP response of the handshake *)
Record handshake_response := mkHandshake {
  hs_status : Z;
  hs_headers : list (string * string);
  hs_body : option string
}.
(** [HeaderMap::insert]: replaces a header of that name *)
Definition header_insert (name value : string) (headers : list (string * string))
    : list (string * string) :=
  List.filter (λ h, negb (bool_decide (to_ascii_lowercase h.1 = to_ascii_lowercase name))) headers
  ++ [(name, value)].

(** The callback of [accept_hdr_async] in [run_connection] *)
Definition handshake_callback (expected_path path : string) (response : handshake_response)
    : result handshake_response handshake_response :=
  if bool_decide (path = expected_path) then Ok response else
  Err (mkHandshake 404
         (header_insert "Content-Length" "23"
            (header_insert "Connection" "close" (hs_headers response)))
         (Some "WebSocket path not found")).

(** How a session ends: by itself, or by the cancellation, after which it has
    two seconds to stop. *)
Inductive session_end :=
| SessionEnded (r : result WebSocketAdapterError ())
| SessionCancelled (stopped : option (result WebSocketAdapterError ())).
(** How the handshake ends *)
Inductive handshake_end := HandshakeTimedOut | HandshakeRejected | HandshakeDone (session : session_end).

(** [run_connection], by the answers of the calls that it makes *)
Definition run_connection (into_std try_clone from_std : bool) (handshake : handshake_end)
    : result WebSocketAdapterError () :=
  if negb into_std then Err (Frame "could not prepare accepted TCP stream") else
  if negb try_clone then Err (Frame "could not create TCP shutdown handle") else
  if negb from_std then Err (Frame "could not restore accepted TCP stream") else
  match handshake with
  | HandshakeTimedOut => Err (Frame "WebSocket handshake timed out")
  | HandshakeRejected => Err (Frame "WebSocket handshake rejected")
  | HandshakeDone (SessionEnded r) => r
  | HandshakeDone (SessionCancelled (Some r)) => r
  | HandshakeDone (SessionCancelled None) =>
      Err (Task "WebSocket session did not stop after TCP shutdown")
  end.

(** ** Binding *)

(** [WebSocketListener::bind]; [bound] and [addressed] tell whether the calls
    of the operating system succeed. *)
Definition listener_bind `{ConfigKernel} (c : WebSocketListenerConfig) (adapter : WebSocketAdapterConfig)
    (bound addressed : bool) : result failure ConnectionSupervisor :=
  map_err FailedWith (validate_listener c);;
  (if adapter_validate adapter then Ok ()
   else Err (FailedWith (config "invalid WebSocket adapter configuration")));;
  (if bound then Ok () else Err (FailedWith (Listener "failed to bind configured listener")));;
  s ← supervisor_new (ws_max_connections c);
  (if addressed then Ok () else Err (FailedWith (Listener "listener address unavailable")));;
  Ok s.

(** ** Permits *)

Lemma running_complete ts i o :
  ts !! i = Some Running → running ts = S (running (<[i := Completed o]> ts)).
Proof. intros Hi. pose proof (count_if_insert is_running _ _ _ (Completed o) Hi) as Hc. cbn in Hc. unfold running. lia. Qed.
Lemma running_delete ts i o : ts !! i = Some (Completed o) → running (delete i ts) = running ts.
Proof. intros Hi. pose proof (count_if_delete is_running _ _ _ Hi) as Hc. cbn in Hc. unfold running. lia. Qed.

(** Every permit is free or held by a task that has not returned. *)
Definition permits_ok (max : Z) (s : ConnectionSupervisor) : Prop :=
  0 ≤ permits s ∧ permits s + Z.of_nat (running (tasks s)) = max.

Lemma complete_inv i o s s' : complete i o s = Some s' →
  tasks s !! i = Some Running ∧ s' = mkSupervisor (<[i := Completed o]> (tasks s)) (permits s + 1).
Proof. unfold complete. destruct (tasks s !! i) as [[]|]; by intros [= <-]. Qed.
Lemma join_next_inv i o s s' : join_next i s = Some (o, s') →
  tasks s !! i = Some (Completed o) ∧ s' = mkSupervisor (delete i (tasks s)) (permits s).
Proof. unfold join_next. destruct (tasks s !! i) as [[]|]; by intros [= <- <-]. Qed.

Lemma complete_permits max i o s s' : complete i o s = Some s' → permits_ok max s → permits_ok max s'.
Proof.
  intros [Hi ->]%complete_inv [Hp Hm]. pose proof (running_complete _ _ o Hi).
  split; cbn [permits tasks]; lia.
Qed.
Lemma join_next_permits max i o s s' : join_next i s = Some (o, s') → permits_ok max s → permits_ok max s'.
Proof. intros [Hi ->]%join_next_inv [Hp Hm]. split; cbn [permits tasks]; [done|]. by rewrite (running_delete _ _ o). Qed.
Lemma try_spawn_permits max s : permits_ok max s → permits_ok max (try_spawn s).2.
Proof.
  intros [Hp Hm]. unfold try_spawn. destruct (Z.eqb_spec (permits s) 0); [by split|].
  split; cbn [permits tasks snd]; [lia|]. unfold running. rewrite count_if_app. cbn. fold running. lia.
Qed.

Lemma reaches_permits max s0 l : permits_ok max s0 → reaches s0 l → permits_ok max (supervisor l).
Proof.
  intros Hmax. induction 1 as [|l l' ev _ IH Hs]; [done|].
  unfold loop_step in Hs. destruct (answer l), ev; try done;
    try (injection Hs as <-; done || by apply try_spawn_permits).
  all: apply bind_Some in Hs as (x & Hx & Hs).
  - injection Hs as <-. by eapply complete_permits.
  - destruct x as [o s]. injection Hs as <-. by eapply join_next_permits.
  - injection Hs as <-. by eapply complete_permits.
Qed.

(** [bind] on a valid configuration: an error comes from the operating system, and
    a panic from the limit. *)
Lemma listener_bind_valid `{ConfigKernel} c adapter bound addressed :
  validate_listener c = Ok () → adapter_validate adapter = true →
  match listener_bind c adapter bound addressed with
  | Ok _ => bound && addressed = true
  | Err (FailedWith _) => bound && addressed = false
  | Err Panicked => MAX_PERMITS < ws_max_connections c
  end.
Proof.
  intros Hv Ha. unfold listener_bind. rewrite Hv, Ha. destruct bound; [|done]. cbn. unfold supervisor_new.
  unfold validate_listener in Hv. destruct (_ || _); [done|].
  destruct (ws_max_connections c =? 0); [done|]. destruct (Z.ltb_spec MAX_PERMITS (ws_max_connections c)); [done|].
  by destruct addressed.
Qed.

(** A bound listener starts with the permits of its configuration. *)
Lemma listener_bind_permits `{ConfigKernel} c adapter bound addressed s0 :
  0 ≤ ws_max_connections c → listener_bind c adapter bound addressed = Ok s0 → permits_ok (ws_max_connections c) s0.
Proof.
  intros Hc Hb. apply bind_Ok_inv in Hb as (? & _ & Hb). do 2 apply bind_Ok_inv in Hb as (? & _ & Hb).
  apply bind_Ok_inv in Hb as (s & Hs & Hb). apply bind_Ok_inv in Hb as (? & _ & [= <-]).
  unfold supervisor_new in Hs. repeat case_match; simplify_eq. split; cbn; lia.
Qed.

(** C37. The listener enforces the configured limit exactly.  In every state that
    the accept loop reaches from the supervisor that [bind] makes of the
    configuration, at most [max_connections] connections have not returned, a
    new connection is refused exactly when that many are open, and the return
    of one makes room for the next, before it is joined. *)
Theorem connections_are_bounded `{ConfigKernel} c adapter bound addressed s0 l :
  0 ≤ ws_max_connections c → listener_bind c adapter bound addressed = Ok s0 → reaches s0 l →
  let max := ws_max_connections c in
  let s := supervisor l in
  Z.of_nat (running (tasks s)) ≤ max ∧
  ((try_spawn s).1 = false ↔ Z.of_nat (running (tasks s)) = max) ∧
  ∀ i o s', complete i o s = Some s' → (try_spawn s').1 = true.
Proof.
  intros Hmax Hb Hr max s.
  pose proof (reaches_permits max s0 l (listener_bind_permits _ _ _ _ _ Hmax Hb) Hr) as Hok. fold s in Hok.
  destruct Hok as [Hp Hm]. unfold try_spawn. split_and!; [lia| |].
  - destruct (Z.eqb_spec (permits s) 0); cbn; split; (done || lia).
  - intros i o s' [_ ->]%complete_inv. cbn [permits]. by rewrite (proj2 (Z.eqb_neq _ _)) by lia.
Qed.

(** ** Termination of the drain *)

Definition phase_weight (ph : drain_phase) : nat :=
  match ph with Waiting => 2 | Aborting => 1 | Drained => 0 end.
(** Every step of the drain makes this smaller. *)
Definition drain_measure (d : DrainState) : nat :=
  length (tasks (drained d)) + running (tasks (drained d)) + phase_weight (phase d).

Lemma drain_step_decreases d d' : drain_step d d' → (drain_measure d' < drain_measure d)%nat.
Proof.
  unfold drain_measure.
  destruct 1 as [s ph i o s' Hph [Hi ->]%complete_inv|s ph i o s' Hph [Hi ->]%join_next_inv|s Hs|s ph Hph Hs];
    cbn [drained phase tasks].
  - rewrite length_insert. pose proof (running_complete _ _ o Hi). lia.
  - rewrite (running_delete _ _ o), length_delete by eauto. pose proof (lookup_lt_Some _ _ _ Hi). lia.
  - cbn. lia.
  - destruct ph; cbn; (done || lia).
Qed.

Lemma drain_run_bounded n d d' : nsteps drain_step n d d' → (n + drain_measure d' ≤ drain_measure d)%nat.
Proof. induction 1 as [|n x y z Hxy _ IH]; [lia|]. apply drain_step_decreases in Hxy. lia. Qed.

(** A drained state has no task. *)
Definition drain_ok (max : Z) (d : DrainState) : Prop :=
  permits_ok max (drained d) ∧ (phase d = Drained → tasks (drained d) = []).

Lemma drain_step_ok max d d' : drain_step d d' → drain_ok max d → drain_ok max d'.
Proof.
  destruct 1 as [s ph i o s' Hph Hc|s ph i o s' Hph Hj|s Hs|s ph Hph Hs]; intros [Hp Hd]; split; cbn; try done.
  - by eapply complete_permits.
  - by eapply join_next_permits.
Qed.

(** Until it is drained, some step is possible. *)
Lemma drain_progress d : phase d ≠ Drained → ∃ d', drain_step d d'.
Proof.
  destruct d as [[ts n] ph]. cbn. intros Hph. destruct ts as [|[|o] ts].
  - eexists. by apply drain_ends.
  - eexists. eapply (drain_returns _ _ 0%nat JoinFailed); [done|reflexivity].
  - eexists. eapply (drain_joins _ _ 0%nat o); [done|reflexivity].
Qed.

(** Draining ends, whatever the tasks do: every run of the drain takes at most
    two steps per task and two more, a run that is stuck has finished, and then
    no task is left and every permit is free. *)
Theorem drain_terminates max s :
  permits_ok max s →
  (∀ n d, nsteps drain_step n (mkDrain s Waiting) d → (n ≤ 2 * length (tasks s) + 2)%nat) ∧
  ∀ d, rtc drain_step (mkDrain s Waiting) d → (¬ ∃ d', drain_step d d') →
    phase d = Drained ∧ drained d = mkSupervisor [] max.
Proof.
  intros Hok. split.
  - intros n d Hn%drain_run_bounded. unfold drain_measure in Hn at 2. cbn in Hn.
    pose proof (count_if_le is_running (tasks s)). unfold running in Hn. lia.
  - intros d Hr Hstuck. assert (drain_ok max d) as [[Hp Hm] Hd].
    { assert (drain_ok max (mkDrain s Waiting)) as Hi by by split.
      clear Hstuck. revert Hi. induction Hr as [|x y z Hxy _ IH]; [done|].
      intros Hi. apply IH. by eapply drain_step_ok. }
    assert (phase d = Drained) as Hph.
    { destruct (phase d) eqn:Hph; [| |done]; destruct Hstuck; apply drain_progress; by rewrite Hph. }
    split; [done|]. specialize (Hd Hph). destruct (drained d) as [ts n]. cbn in *. subst ts.
    f_equal. rewrite <- Hm. cbn. lia.
Qed.

(** ** Findings *)

(** The rejection of a handshake announces one byte less than it carries. *)
Theorem rejected_handshake_length path expected response :
  path ≠ expected →
  ∃ rejected body, handshake_callback expected path response = Err rejected ∧
    hs_body rejected = Some body ∧ str_len body = 24%nat ∧
    ("Content-Length", "23")%string ∈ hs_headers rejected.
Proof.
  intros Hne. unfold handshake_callback. rewrite bool_decide_eq_false_2 by done.
  do 2 eexists. split_and!; [done|done|done|]. cbn. apply elem_of_app. right. by left.
Qed.

(** A limit that the configuration accepts can make the listener panic. *)
Theorem large_limit_panics `{ConfigKernel} adapter :
  adapter_validate adapter = true →
  ∃ c, validate_listener c = Ok () ∧ is_u64 (ws_max_connections c) ∧
       listener_bind c adapter true true = Err Panicked.
Proof.
  intros Ha. exists (with_ws_max_connections (2 ^ 61) listener_default).
  split_and!; [done|unfold is_u64, u64_max; cbn; lia|].
  unfold listener_bind. by rewrite Ha.
Qed.

(** ** Concrete listeners *)

(** Two permits: two connections are open, the first has returned. *)
Definition sample_loop : LoopState :=
  mkLoop (mkSupervisor [Completed (Returned (Ok ())); Running] 1) None.
Lemma sample_reached : reaches (mkSupervisor [] 2) sample_loop.
Proof.
  refine (reaches_step _ (mkLoop (mkSupervisor [Running; Running] 0) None) _
            (TaskReturned 0 (Returned (Ok ()))) _ eq_refl).
  refine (reaches_step _ (mkLoop (mkSupervisor [Running] 1) None) _ Accepted _ eq_refl).
  exact (reaches_step _ _ _ Accepted (reaches_bound _) eq_refl).
Qed.

#[local] Existing Instances Demo.demo_kernel CatalogDemo.catalog_canvas CatalogDemo.catalog_documents
  CatalogDemo.catalog_kernel ConfigDemo.config_kernel.

(** Witness of C37: a configuration with two connections. *)
Lemma connections_are_bounded_witness :
  Z.of_nat (running (tasks (supervisor sample_loop))) ≤ 2 ∧
  ((try_spawn (supervisor sample_loop)).1 = false ↔
   Z.of_nat (running (tasks (supervisor sample_loop))) = 2).
Proof.
  destruct (connections_are_bounded (with_ws_max_connections 2 listener_default)
    adapter_default true true (mkSupervisor [] 2) sample_loop) as (H1 & H2 & _);
    [cbn; lia|reflexivity|apply sample_reached|].
  exact (conj H1 H2).
Defined.

(** Its drain: the joined task, the return of the other one, its join. *)
Definition sample_end : DrainState := mkDrain (mkSupervisor [] 2) Drained.
Lemma sample_drains : rtc drain_step (mkDrain (supervisor sample_loop) Waiting) sample_end.
Proof.
  eapply rtc_l; [by eapply (drain_joins _ _ 0%nat (Returned (Ok ())))|].
  eapply rtc_l; [by eapply (drain_returns _ _ 0%nat JoinFailed)|].
  eapply rtc_l; [by eapply (drain_joins _ _ 0%nat JoinFailed)|].
  eapply rtc_once. by apply drain_ends.
Qed.
Lemma sample_end_stuck : ¬ ∃ d', drain_step sample_end d'.
Proof. intros [d' Hd]. by inversion Hd. Qed.

(** An instance. *)
Lemma drain_terminates_witness : phase sample_end = Drained ∧ drained sample_end = mkSupervisor [] 2.
Proof.
  destruct (drain_terminates 2 (supervisor sample_loop)) as [_ H]; [split; cbn; lia|].
  exact (H sample_end sample_drains sample_end_stuck).
Defined.
