(* ===== verification/Client.v ===== *)
(** * The example client

    Models [orbitrelay-server/examples/ws_client.rs]: the command line, the
    exchange with a server over one WebSocket and the exit of the process.  The
    exchange is a program over a [Client]: the frames that will arrive, the
    outcomes of the sends, and what was sent and printed so far. *)

From Equations Require Import Equations.
From S2P Require Import Prelude Float Net Kernel Canvas CatalogKernel CanvasHistory DeliveryConfig.
From S2P Require Import Delivery Config Dependencies.

(** Keeps the equation of a scrutinee for a termination argument. *)
Definition inspect {A} (a : A) : {b : A | a = b} := exist _ a eq_refl.

(** The value of a future under [tokio::time::timeout]. *)
Inductive Poll (A : Type) := Elapsed | Ready (a : A).
Arguments Elapsed {A}.
Arguments Ready {A} a.

(** [within] *)
Definition within {A} (future : Poll A) : result string A :=
  match future with Elapsed => Err "operation timed out" | Ready a => Ok a end.

(** [tungstenite::Message]; only a text is looked at. *)
Inductive Frame := Text (text : string) | Binary | PingFrame | PongFrame | CloseFrame | RawFrame.

(** What [socket.next()] gives: an error carries its [Display] text. *)
Abbreviation Arrival := (Poll (option (result string Frame))).

(** [orbitrelay-transport]: the messages, with the constructors the client
    builds or matches.  The enum of outbound messages is non-exhaustive. *)
Class TransportKernel `{ConfigKernel} := {
  MessageId : Type;
  CURRENT_PROTOCOL_VERSION : Z;
  TransportErrorCode : Type;
  debug_code : TransportErrorCode → string;
  OtherOutbound : Type
}.

Section messages.
Context `{TransportKernel}.

(** [MessageEnvelope] *)
Record MessageEnvelope (T : Type) := mkEnvelope {
  protocol_version : Z;
  message_id : MessageId;
  message_type : string;
  envelope_payload : T
}.

Inductive InboundMessage :=
| Hello (versions : list Z) (encodings : list string)
| Authenticate (id : MessageId) (credentials : InboundCredentials)
| Subscribe (id : MessageId) (request : SubscriptionRequest)
| Ping (nonce : Z)
| ActionMessage (envelope : MessageEnvelope Action)
| Close (reason : option string).

Inductive OutboundMessage :=
| HelloAccepted
| SubscriptionAccepted
| ActionAcknowledgement (action : ActionId) (generated_event_ids : list EventId)
| EventMessage (envelope : MessageEnvelope Event)
| Pong (nonce : Z)
| TransportError (code : TransportErrorCode) (message : string)
| OutboundOther (other : OtherOutbound).
End messages.
Arguments mkEnvelope {_ _ _ _ _ _ T} _ _ _ _.
Arguments envelope_payload {_ _ _ _ _ _ T} _.

(** Their [serde] forms and the [Debug] text of an outbound message. *)
Class TransportCodec `{TransportKernel} := {
  Inbound_json :: JsonText InboundMessage;
  Outbound_json :: JsonText OutboundMessage;
  debug_message : OutboundMessage → string
}.

Section client.
Context `{TransportCodec}.

(** ** The command line *)

(** [ClientOptions]; an [ActionType] is its text. *)
Record ClientOptions := mkOptions {
  o_url : string;
  o_actor_id : ActorId;
  o_session_id : SessionId;
  o_action_type : string;
  o_event_types : list EventType;
  o_payload : Payload;
  o_send_action : bool;
  o_receive_events : Z;
  o_ping : bool
}.

(** The local variables of [ClientOptions::parse] *)
Record Locals := mkLocals {
  l_url : string;
  l_actor_id : option ActorId;
  l_session_id : option SessionId;
  l_action_type : string;
  l_event_types : list EventType;
  l_payload : Payload;
  l_send_action : bool;
  l_receive_events : Z;
  l_ping : bool
}.

(** How [run] stops early: with a message, or by [process::exit(0)] after the
    help text. *)
Inductive Stop := Failed (message : string) | HelpExit.

(** [next_value] *)
Definition next_value (arguments : list string) (name : string) : result Stop (string * list string) :=
  match arguments with
  | [] => Err (Failed (name +:+ " requires a value"))
  | value :: rest => Ok (value, rest)
  end.

(** One round of the loop of [parse]: the new locals and the arguments left *)
Definition parse_argument (argument : string) (arguments : list string) (l : Locals)
    : result Stop (Locals * list string) :=
  let '(mkLocals url actor_id session_id action_type event_types payload send_action receive_events ping) := l in
  if String.eqb argument "--url" then
    '(value, rest) ← next_value arguments "--url";
    Ok (mkLocals value actor_id session_id action_type event_types payload send_action receive_events ping, rest)
  else if String.eqb argument "--actor-id" then
    '(value, rest) ← next_value arguments "--actor-id";
    actor ← ok_or (Failed "--actor-id must be a valid ActorId") (of_text value);
    Ok (mkLocals url (Some actor) session_id action_type event_types payload send_action receive_events ping, rest)
  else if String.eqb argument "--session-id" then
    '(value, rest) ← next_value arguments "--session-id";
    session ← ok_or (Failed "--session-id must be a valid SessionId") (of_text value);
    Ok (mkLocals url actor_id (Some session) action_type event_types payload send_action receive_events ping, rest)
  else if String.eqb argument "--action-type" then
    '(value, rest) ← next_value arguments "--action-type";
    Ok (mkLocals url actor_id session_id value event_types payload send_action receive_events ping, rest)
  else if String.eqb argument "--event-type" then
    '(value, rest) ← next_value arguments "--event-type";
    Ok (mkLocals url actor_id session_id action_type (event_types ++ [EventType_new value]) payload
          send_action receive_events ping, rest)
  else if String.eqb argument "--payload-json" then
    '(value, rest) ← next_value arguments "--payload-json";
    object ← ok_or (Failed "--payload-json must be a JSON object") (of_json value);
    Ok (mkLocals url actor_id session_id action_type event_types object send_action receive_events ping, rest)
  else if String.eqb argument "--send-action" then
    Ok (mkLocals url actor_id session_id action_type event_types payload true receive_events ping, arguments)
  else if String.eqb argument "--receive-events" then
    '(value, rest) ← next_value arguments "--receive-events";
    count ← ok_or (Failed "--receive-events must be a non-negative integer") (parse_unsigned usize_max value);
    Ok (mkLocals url actor_id session_id action_type event_types payload send_action count ping, rest)
  else if String.eqb argument "--ping" then
    Ok (mkLocals url actor_id session_id action_type event_types payload send_action receive_events true, arguments)
  else if String.eqb argument "--help" || String.eqb argument "-h" then Err HelpExit
  else Err (Failed ("unknown argument `" +:+ argument +:+ "`")).

Lemma next_value_consumes arguments name value rest :
  next_value arguments name = Ok (value, rest) → (length rest < length arguments)%nat.
Proof. destruct arguments; intros [= <- <-]. cbn. lia. Qed.

(** Every argument consumes itself and at most one value. *)
Lemma parse_argument_consumes argument arguments l l' rest :
  parse_argument argument arguments l = Ok (l', rest) → (length rest ≤ length arguments)%nat.
Proof.
  destruct l; cbn [parse_argument]; intros Hp.
  repeat case_match; inv_result; try done; destruct a as [value rest']; cbn in Hp; inv_result;
    match goal with Hv : next_value _ _ = _ |- _ => apply next_value_consumes in Hv end; lia.
Qed.

(** The loop of [parse] *)
Equations? parse_loop (arguments : list string) (l : Locals) : result Stop Locals
  by wf (length arguments) lt :=
  parse_loop [] l := Ok l;
  parse_loop (argument :: arguments) l with inspect (parse_argument argument arguments l) => {
    | exist _ (Err e) _ := Err e;
    | exist _ (Ok (l', rest)) Hp := parse_loop rest l' }.
Proof. apply parse_argument_consumes in Hp. cbn. lia. Defined.

(** What [parse] makes up: [ActorId::new] and [SessionId::new]; and the other
    fresh values of a run. *)
Record Fresh := mkFresh {
  new_actor_id : ActorId;
  new_session_id : SessionId;
  authenticate_message_id : MessageId;
  subscribe_message_id : MessageId;
  new_action_id : ActionId;
  action_message_id : MessageId;
  now_utc : Timestamp
}.

Definition quote : string := String (ascii_of_N 34) EmptyString.
Definition default_payload_text : string :=
  "{" +:+ quote +:+ "message" +:+ quote +:+ ":" +:+ quote +:+ "hello from ws_client" +:+ quote +:+ "}".
Definition default_locals (payload : Payload) : Locals :=
  mkLocals "ws://127.0.0.1:8080/ws" None None "dev.echo" [] payload false 0 false.

(** [ClientOptions::parse], on the arguments after the program name *)
Definition parse (f : Fresh) (arguments : list string) : result Stop ClientOptions :=
  payload ← ok_or (Failed "default payload is invalid") (of_json default_payload_text);
  l ← parse_loop arguments (default_locals payload);
  Ok (mkOptions (l_url l) (default (new_actor_id f) (l_actor_id l)) (default (new_session_id f) (l_session_id l))
        (l_action_type l)
        (if decide (l_event_types l = []) then [EventType_new "dev.echoed"] else l_event_types l)
        (l_payload l) (l_send_action l) (l_receive_events l) (l_ping l)).

(** ** The exchange *)

(** One open WebSocket: the arrivals and the outcomes of the sends still to
    come, the texts sent, the lines printed, and whether it was closed.  When
    the arrivals are over the stream has ended; when the outcomes are over every
    send succeeds. *)
Record Client := mkClient {
  incoming : list Arrival;
  outcomes : list (Poll (result string ()));
  sent : list string;
  printed : list string;
  closed : bool
}.

Definition client (A : Type) : Type := Client → result string A * Client.
#[global] Instance client_mret : MRet client := λ A a s, (Ok a, s).
#[global] Instance client_mbind : MBind client := λ A B k m s,
  match m s with (Ok a, s') => k a s' | (Err e, s') => (Err e, s') end.

(** [println!] *)
Definition println (line : string) : client () := λ s,
  (Ok (), mkClient (incoming s) (outcomes s) (sent s) (printed s ++ [line]) (closed s)).

(** [send] *)
Definition send (message : InboundMessage) : client () := λ s,
  match ok_or "JSON encoding failed" (to_json message) with
  | Err e => (Err e, s)
  | Ok encoded =>
      let outcome := default (Ready (Ok ())) (head (outcomes s)) in
      let answer := within outcome ≫= map_err (λ error, "WebSocket send failed: " +:+ error) in
      (answer, mkClient (incoming s) (tail (outcomes s))
                 (if is_ok answer then sent s ++ [encoded] else sent s) (printed s) (closed s))
  end.

(** The loop of [next_outbound]: the message, and the arrivals left *)
Fixpoint next_message (arrivals : list Arrival) : result string OutboundMessage * list Arrival :=
  match arrivals with
  | [] => (Err "WebSocket closed", [])
  | arrival :: rest =>
      match (next ← within arrival;
             item ← ok_or "WebSocket closed" next;
             map_err (λ error, "WebSocket receive failed: " +:+ error) item) with
      | Err e => (Err e, rest)
      | Ok (Text text) => (ok_or "server returned invalid transport JSON" (of_json text), rest)
      | Ok _ => next_message rest
      end
  end.

(** [next_outbound] *)
Definition next_outbound : client OutboundMessage := λ s,
  let '(answer, rest) := next_message (incoming s) in
  (answer, mkClient rest (outcomes s) (sent s) (printed s) (closed s)).

(** [expect_hello] and [expect_subscription] *)
Definition fail {A} (e : string) : client A := λ s, (Err e, s).
Definition expect_hello : client () :=
  message ← next_outbound;
  match message with
  | HelloAccepted => mret ()
  | _ => fail ("expected hello_accepted, received " +:+ debug_message message)
  end.
Definition expect_subscription : client () :=
  message ← next_outbound;
  match message with
  | SubscriptionAccepted => mret ()
  | TransportError code _ => fail ("subscription failed: " +:+ debug_code code)
  | _ => fail ("expected subscription_accepted, received " +:+ debug_message message)
  end.

(** The locals of the receive loop; the count of events stays below [2 ^ 64]
    in every run that a machine can make. *)
Record Progress := mkProgress {
  received_events : Z;
  acknowledgement_received : bool;
  pong_received : bool
}.
(** The condition of the loop *)
Definition pending (o : ClientOptions) (p : Progress) : bool :=
  (received_events p <? o_receive_events o) || negb (acknowledgement_received p) || negb (pong_received p).

(** The lines of the report *)
Definition ready_line (o : ClientOptions) : string :=
  "READY actor_id=" +:+ to_text (o_actor_id o) +:+ " session_id=" +:+ to_text (o_session_id o).
Definition ack_line (action : ActionId) (events : list EventId) : string :=
  "ACK action_id=" +:+ to_text action +:+ " event_ids=" +:+ String.concat "," (to_text <$> events).
Definition event_line (event : Event) : string :=
  "EVENT event_id=" +:+ to_text (event_id event) +:+ " action_id=" +:+ to_text (event_action_id event) +:+
  " actor_id=" +:+ to_text (event_actor_id event) +:+ " session_id=" +:+ to_text (event_session_id event) +:+
  " event_type=" +:+ EventType_as_str (event_type event).
Definition pong_line (nonce : Z) : string := "PONG nonce=" +:+ show_u64 nonce.

(** The body of the loop *)
Definition receive (expected_action_id : option ActionId) (p : Progress) (message : OutboundMessage)
    : client Progress :=
  match message with
  | ActionAcknowledgement action events =>
      println (ack_line action events);;
      mret (mkProgress (received_events p)
              (if decide (expected_action_id = Some action) then true else acknowledgement_received p)
              (pong_received p))
  | EventMessage envelope =>
      println (event_line (envelope_payload envelope));;
      mret (mkProgress (received_events p + 1) (acknowledgement_received p) (pong_received p))
  | Pong nonce =>
      println (pong_line nonce);;
      mret (mkProgress (received_events p) (acknowledgement_received p) true)
  | TransportError code message =>
      fail ("server error code=" +:+ debug_code code +:+ " message=" +:+ message)
  | _ => mret p
  end.

Lemma next_message_consumes arrivals m rest :
  next_message arrivals = (Ok m, rest) → (length rest < length arrivals)%nat.
Proof.
  revert rest. induction arrivals as [|arrival arrivals IH]; intros rest Hn; [done|].
  cbn [next_message] in Hn. case_match; simplify_eq. case_match; simplify_eq; cbn; try lia.
  all: specialize (IH _ Hn); lia.
Qed.

Lemma receive_incoming expected p m s r s' : receive expected p m s = (r, s') → incoming s' = incoming s.
Proof. destruct m; cbn; unfold fail; intros [= _ <-]; done. Qed.

(** One round: the next message, and the body on it *)
Definition receive_next (expected_action_id : option ActionId) (p : Progress) : client Progress :=
  message ← next_outbound; receive expected_action_id p message.

Lemma receive_next_consumes expected p s p' s' :
  receive_next expected p s = (Ok p', s') → (length (incoming s') < length (incoming s))%nat.
Proof.
  unfold receive_next, mbind, client_mbind, next_outbound.
  destruct (next_message (incoming s)) as [[m|e] rest] eqn:Hn; [|done].
  intros ->%receive_incoming. by apply next_message_consumes in Hn.
Qed.

(** The receive loop *)
Equations? receive_loop (o : ClientOptions) (expected_action_id : option ActionId) (p : Progress) (s : Client)
    : result string () * Client by wf (length (incoming s)) lt :=
  receive_loop o expected_action_id p s with pending o p => {
    | false := (Ok (), s);
    | true with inspect (receive_next expected_action_id p s) => {
        | exist _ (Err e, s') _ := (Err e, s');
        | exist _ (Ok p', s') Hn := receive_loop o expected_action_id p' s' } }.
Proof. by apply receive_next_consumes in Hn. Defined.

(** The messages of a run *)
Definition hello_message : InboundMessage := Hello [CURRENT_PROTOCOL_VERSION] ["json"].
Definition authenticate_message (o : ClientOptions) (f : Fresh) : InboundMessage :=
  Authenticate (authenticate_message_id f) (mkCredentials "development" (to_text (o_actor_id o))).
Definition subscribe_message (o : ClientOptions) (f : Fresh) : InboundMessage :=
  Subscribe (subscribe_message_id f) (mkSubscription (o_session_id o) (o_event_types o)).
Definition client_action (o : ClientOptions) (f : Fresh) : Action :=
  mkAction (new_action_id f) (o_session_id o) (o_actor_id o) (o_action_type o) (now_utc f) (o_payload o) Metadata_new.
Definition action_message (o : ClientOptions) (f : Fresh) : InboundMessage :=
  ActionMessage (mkEnvelope CURRENT_PROTOCOL_VERSION (action_message_id f) "action" (client_action o f)).

(** [let _ = within(socket.close(None)).await] *)
Definition close_socket : client () := λ s,
  (Ok (), mkClient (incoming s) (outcomes s) (sent s) (printed s) true).

(** [run] from the open socket on *)
Definition exchange (o : ClientOptions) (f : Fresh) : client () :=
  send hello_message;;
  expect_hello;;
  send (authenticate_message o f);;
  send (subscribe_message o f);;
  expect_subscription;;
  println (ready_line o);;
  (if o_ping o then send (Ping 1) else mret ());;
  (if o_send_action o then send (action_message o f) else mret ());;
  receive_loop o (if o_send_action o then Some (action_id (client_action o f)) else None)
    (mkProgress 0 (negb (o_send_action o)) (negb (o_ping o)));;
  send (Close (Some "client complete"));;
  close_socket.

(** [run]: its answer, and the socket when one was opened.  [connect] is
    [connect_async]. *)
Definition run (f : Fresh) (connect : string → Poll (result string Client)) (arguments : list string)
    : result Stop () * option Client :=
  match parse f arguments with
  | Err stop => (Err stop, None)
  | Ok o =>
      match within (connect (o_url o)) ≫= map_err (λ error, "connect failed: " +:+ error) with
      | Err e => (Err (Failed e), None)
      | Ok socket => let '(answer, socket') := exchange o f socket in (map_err Failed answer, Some socket')
      end
  end.

(** [print_help], and [main]: the exit code and what was written *)
Definition help_lines : list string :=
  [ "OrbitRelay development WebSocket client"; "--url <ws-url>"; "--actor-id <uuid>"; "--session-id <uuid>";
    "--action-type <type>       default: dev.echo"; "--event-type <type>        repeatable; default: dev.echoed";
    "--payload-json <object>"; "--send-action"; "--receive-events <count>"; "--ping" ].
Record ExitStatus := mkExit { exit_code : Z; stdout : list string; stderr : list string }.
Definition client_main (f : Fresh) (connect : string → Poll (result string Client)) (arguments : list string)
    : ExitStatus :=
  let '(answer, socket) := run f connect arguments in
  let lines := default [] (printed <$> socket) in
  match answer with
  | Ok () => mkExit 0 lines []
  | Err HelpExit => mkExit 0 help_lines []
  | Err (Failed error) => mkExit 1 lines ["ws_client failed: " +:+ error]
  end.

(** ** The command line round trips *)

Lemma parse_loop_cons argument arguments l :
  parse_loop (argument :: arguments) l =
  ('(l', rest) ← parse_argument argument arguments l; parse_loop rest l').
Proof.
  rewrite parse_loop_equation_2. unfold parse_loop_unfold_clause_2.
  by destruct (parse_argument argument arguments l) as [[l' rest]|e].
Qed.

(** The arguments that ask for some options; [payload] is the JSON text of the
    payload. *)
Definition render_options (o : ClientOptions) (payload : string) : list string :=
  ["--url"; o_url o; "--actor-id"; to_text (o_actor_id o); "--session-id"; to_text (o_session_id o);
   "--action-type"; o_action_type o] ++
  (o_event_types o ≫= λ t, ["--event-type"; EventType_as_str t]) ++
  ["--payload-json"; payload; "--receive-events"; show_u64 (o_receive_events o)] ++
  (if o_send_action o then ["--send-action"] else []) ++ (if o_ping o then ["--ping"] else []).

Context `{!KernelLaws}.

Lemma parse_loop_event_types ts rest u a s t es p sa r pg :
  parse_loop ((ts ≫= λ t, ["--event-type"; EventType_as_str t]) ++ rest) (mkLocals u a s t es p sa r pg) =
  parse_loop rest (mkLocals u a s t (es ++ ts) p sa r pg).
Proof.
  revert es. induction ts as [|e ts IH]; intros es; [by rewrite app_nil_r|].
  rewrite bind_cons, <- (assoc_L app). specialize (IH (es ++ [e])). revert IH.
  generalize ((ts ≫= λ t, ["--event-type"; EventType_as_str t]) ++ rest). intros arguments IH.
  cbn [app]. rewrite parse_loop_cons. cbn. rewrite EventType_new_as_str, IH. by rewrite <- (assoc_L app).
Qed.

(** Any options with an event type can be asked for on the command line: the
    parser reads back exactly the options that the arguments were written for. *)
Theorem options_roundtrip f (o : ClientOptions) payload :
  is_Some (of_json (T := Payload) default_payload_text) → to_json (o_payload o) = Some payload →
  o_event_types o ≠ [] → is_u64 (o_receive_events o) →
  parse f (render_options o payload) = Ok o.
Proof.
  intros [d Hd] Hp Hts Hn. destruct o as [u a s t ts p sa n pg]; cbn in Hp, Hts, Hn. unfold parse, render_options.
  rewrite Hd. cbn [ok_or mbind result_mbind app o_url o_actor_id o_session_id o_action_type].
  unfold default_locals.
  match goal with |- context [(?l ≫= ?g) ++ ?r] => remember ((l ≫= g) ++ r) as rest eqn:Hrest end.
  do 4 (rewrite parse_loop_cons; cbn; rewrite ?of_to_text; cbn). rewrite Hrest, parse_loop_event_types.
  rewrite parse_loop_cons. cbn -[show_u64]. rewrite (of_to_json _ _ Hp). cbn -[show_u64].
  rewrite parse_loop_cons. cbn -[show_u64 parse_unsigned].
  rewrite parse_show_unsigned by (unfold is_u64, usize_max in *; lia). cbn.
  destruct sa, pg; cbn; rewrite ?parse_loop_cons; cbn; rewrite ?parse_loop_cons; cbn;
    rewrite parse_loop_equation_1; cbn; by rewrite decide_False.
Qed.

(** ** What a complete exchange is

    The contract of a run, without its loops: which messages arrive, when they
    are enough, what was sent and what was printed. *)

(** Frames that are not text are passed over. *)
Definition ignored (a : Arrival) : Prop := ∃ frame, a = Ready (Some (Ok frame)) ∧ ∀ text, frame ≠ Text text.

(** The messages [ms] are the texts of the arrivals [l], up to [l']. *)
Inductive delivers : list OutboundMessage → list Arrival → list Arrival → Prop :=
| delivers_nil l : delivers [] l l
| delivers_cons skipped text m ms l l' :
    Forall ignored skipped → of_json text = Some m → delivers ms l l' →
    delivers (m :: ms) (skipped ++ Ready (Some (Ok (Text text))) :: l) l'.

Definition is_error (m : OutboundMessage) : bool := match m with TransportError _ _ => true | _ => false end.
Definition is_event (m : OutboundMessage) : bool := match m with EventMessage _ => true | _ => false end.
Definition is_pong (m : OutboundMessage) : bool := match m with Pong _ => true | _ => false end.
Definition acknowledges (expected : option ActionId) (m : OutboundMessage) : bool :=
  match m with ActionAcknowledgement action _ => bool_decide (expected = Some action) | _ => false end.

(** What the client waits for: so many events, the acknowledgement of its own
    Action if it sent one, and a pong if it asked for one. *)
Definition expected_action (o : ClientOptions) (f : Fresh) : option ActionId :=
  if o_send_action o then Some (new_action_id f) else None.
Definition satisfied (o : ClientOptions) (f : Fresh) (ms : list OutboundMessage) : bool :=
  (o_receive_events o <=? Z.of_nat (length (filter is_event ms))) &&
  (negb (o_send_action o) || existsb (acknowledges (expected_action o f)) ms) &&
  (negb (o_ping o) || existsb is_pong ms).
(** ... and stops waiting as soon as it has it. *)
Definition just_satisfied (o : ClientOptions) (f : Fresh) (ms : list OutboundMessage) : Prop :=
  satisfied o f ms = true ∧ ∀ ms' m, ms' ++ [m] `prefix_of` ms → satisfied o f ms' = false.

(** The messages of a run, and its lines *)
Definition script (o : ClientOptions) (f : Fresh) : list InboundMessage :=
  [hello_message; authenticate_message o f; subscribe_message o f] ++
  (if o_ping o then [Ping 1] else []) ++ (if o_send_action o then [action_message o f] else []) ++
  [Close (Some "client complete")].
Definition report_line (m : OutboundMessage) : list string :=
  match m with
  | ActionAcknowledgement action events => [ack_line action events]
  | EventMessage envelope => [event_line (envelope_payload envelope)]
  | Pong nonce => [pong_line nonce]
  | _ => []
  end.

(** The next [n] sends go through. *)
Definition goes_through (n : nat) (outcomes : list (Poll (result string ()))) : Prop :=
  Forall (λ outcome, outcome = Ready (Ok ())) (take n outcomes).

Lemma next_message_Ok arrivals m rest :
  next_message arrivals = (Ok m, rest) ↔
  ∃ skipped text, arrivals = skipped ++ Ready (Some (Ok (Text text))) :: rest ∧
                  Forall ignored skipped ∧ of_json text = Some m.
Proof.
  split.
  - induction arrivals as [|arrival arrivals IH]; intros Hn; [done|]. cbn [next_message] in Hn.
    destruct arrival as [|[[frame|e]|]]; [done| |done|done]. cbn in Hn.
    destruct frame as [text| | | | |].
    { apply pair_eq in Hn as [Hm%ok_or_Ok_inv ->]. by exists [], text. }
    all: apply IH in Hn as (skipped & text & -> & Hs & Hm); eexists (_ :: skipped), text;
      split_and!; [done| |done]; constructor; [|done]; by eexists.
  - intros (skipped & text & -> & Hs & Hm). induction Hs as [|a skipped [frame [-> Hf]] Hs IH].
    + cbn. by rewrite Hm.
    + cbn [app next_message]. cbn. destruct frame as [t| | | | |]; [by destruct (Hf t)|done..].
Qed.

Lemma delivers_cons_iff m ms l l' :
  delivers (m :: ms) l l' ↔ ∃ l1, next_message l = (Ok m, l1) ∧ delivers ms l1 l'.
Proof.
  split.
  - inversion 1; subst. eexists. split; [|done]. apply next_message_Ok. eauto.
  - intros (l1 & (skipped & text & -> & Hs & Hm)%next_message_Ok & Hd). by constructor.
Qed.

(** The effect of one message on the progress, and of several. *)
Definition advance (expected : option ActionId) (p : Progress) (m : OutboundMessage) : Progress :=
  mkProgress (received_events p + if is_event m then 1 else 0)
    (acknowledges expected m || acknowledgement_received p) (is_pong m || pong_received p).

Lemma foldl_advance expected p ms :
  foldl (advance expected) p ms =
  mkProgress (received_events p + Z.of_nat (length (filter is_event ms)))
    (existsb (acknowledges expected) ms || acknowledgement_received p) (existsb is_pong ms || pong_received p).
Proof.
  revert p. induction ms as [|m ms IH]; intros p; [destruct p; cbn; f_equal; lia|].
  cbn [foldl]. rewrite IH, filter_cons. cbn [existsb received_events acknowledgement_received pong_received advance].
  f_equal; [|rewrite orb_assoc; f_equal; apply orb_comm..].
  destruct (is_event m); case_decide; cbn [length]; (lia || done).
Qed.

Lemma pending_satisfied o f ms :
  pending o (foldl (advance (expected_action o f)) (mkProgress 0 (negb (o_send_action o)) (negb (o_ping o))) ms) =
  negb (satisfied o f ms).
Proof.
  rewrite foldl_advance. unfold pending, satisfied. cbn [received_events acknowledgement_received pong_received].
  rewrite Z.add_0_l, !negb_andb, Z.leb_antisym, negb_involutive.
  f_equal; [f_equal|]; f_equal; apply orb_comm.
Qed.

(** The client after the arrivals up to [l'] brought [ms]. *)
Definition after (s : Client) (ms : list OutboundMessage) (l' : list Arrival) : Client :=
  mkClient l' (outcomes s) (sent s) (printed s ++ (ms ≫= report_line)) (closed s).

Lemma receive_Ok expected p m s p' s' :
  receive expected p m s = (Ok p', s') ↔
  is_error m = false ∧ p' = advance expected p m ∧ s' = after s [m] (incoming s).
Proof.
  destruct s as [inc out snt prt cl], p as [n a g]. unfold after, advance. cbn.
  destruct m as [| |act evs|env|nonce|code msg|other]; cbn; rewrite ?app_nil_r, ?Z.add_0_r;
    try case_bool_decide; try case_decide; try done;
    (split; [by intros [= <- <-] | by intros (? & -> & ->)]).
Qed.

Lemma receive_next_Ok expected p s p' s' :
  receive_next expected p s = (Ok p', s') ↔
  ∃ m l', next_message (incoming s) = (Ok m, l') ∧ is_error m = false ∧
          p' = advance expected p m ∧ s' = after s [m] l'.
Proof.
  unfold receive_next, mbind, client_mbind, next_outbound.
  destruct (next_message (incoming s)) as [[m|e] l1].
  - rewrite receive_Ok. unfold after. cbn. split.
    + intros (? & -> & ->). by exists m, l1.
    + by intros (m' & l' & [= <- <-] & Hrest).
  - split; [done|]. by intros (m' & l' & ? & _).
Qed.

Lemma receive_loop_eq o expected p s :
  receive_loop o expected p s =
  if pending o p then
    match receive_next expected p s with
    | (Ok p', s') => receive_loop o expected p' s'
    | (Err e, s') => (Err e, s')
    end
  else (Ok (), s).
Proof.
  rewrite receive_loop_equation_1. unfold receive_loop_unfold_clause_1.
  destruct (pending o p); [|done]. cbn. by destruct (receive_next expected p s) as [[p'|e] s'].
Qed.

Lemma after_cons s m ms l1 l' : after (after s [m] l1) ms l' = after s (m :: ms) l'.
Proof. unfold after. cbn. by rewrite app_nil_r, <- (assoc_L app). Qed.

(** The messages on which the loop ends, from the progress [p]. *)
Definition settles (o : ClientOptions) (expected : option ActionId) (p : Progress) (ms : list OutboundMessage)
    : Prop :=
  Forall (λ m, is_error m = false) ms ∧ pending o (foldl (advance expected) p ms) = false ∧
  ∀ ms' m, ms' ++ [m] `prefix_of` ms → pending o (foldl (advance expected) p ms') = true.

Lemma settles_nil o expected p : settles o expected p [] ↔ pending o p = false.
Proof.
  unfold settles. cbn. split; [tauto|]. intros Hp. split_and!; [done..|].
  intros ms' m Hpre%prefix_nil_inv. by apply app_eq_nil in Hpre as [_ ?].
Qed.
Lemma settles_cons o expected p m ms :
  settles o expected p (m :: ms) ↔
  pending o p = true ∧ is_error m = false ∧ settles o expected (advance expected p m) ms.
Proof.
  unfold settles. rewrite Forall_cons. split.
  - intros ([He Hes] & Hp & Hpre). split_and!; [|done..|].
    + apply (Hpre [] m). by exists ms.
    + intros ms' m' Hm. apply (Hpre (m :: ms') m'). by apply prefix_cons.
  - intros (Hp & He & Hes & Hd & Hpre). split_and!; [done..|].
    intros [|m1 ms'] m' Hm; [done|]. cbn in Hm. pose proof (prefix_cons_inv_1 _ _ _ _ Hm) as ->.
    apply (Hpre ms' m'). by eapply prefix_cons_inv_2.
Qed.

Lemma receive_loop_Ok o expected p s s' :
  receive_loop o expected p s = (Ok (), s') ↔
  ∃ ms l', delivers ms (incoming s) l' ∧ settles o expected p ms ∧ s' = after s ms l'.
Proof.
  split.
  - remember (length (incoming s)) as n eqn:Hlen. revert p s Hlen.
    induction n as [n IH] using lt_wf_ind. intros p s Hlen. rewrite receive_loop_eq.
    destruct (pending o p) eqn:Hp.
    + destruct (receive_next expected p s) as [[p1|e] s1] eqn:Hn; [|done]. intros Hl.
      pose proof (receive_next_consumes _ _ _ _ _ Hn) as Hlt.
      apply (IH _ ltac:(rewrite Hlen; exact Hlt) p1 s1 eq_refl) in Hl as (ms & l' & Hd & Hs & ->).
      apply receive_next_Ok in Hn as (m & l1 & Hm & He & -> & ->).
      exists (m :: ms), l'. rewrite delivers_cons_iff, settles_cons, after_cons.
      split_and!; [by exists l1|done..].
    + intros [= <-]. exists [], (incoming s). rewrite settles_nil. split_and!; [constructor|done|].
      unfold after. cbn. rewrite app_nil_r. by destruct s.
  - intros (ms & l' & Hd & Hs & ->). revert p s Hd Hs.
    induction ms as [|m ms IH]; intros p s Hd Hs; rewrite receive_loop_eq.
    + apply settles_nil in Hs as ->. inversion Hd; subst. unfold after. cbn. rewrite app_nil_r. by destruct s.
    + apply settles_cons in Hs as (-> & He & Hs). apply delivers_cons_iff in Hd as (l1 & Hm & Hd).
      rewrite (proj2 (receive_next_Ok expected p s _ _) (ex_intro _ m (ex_intro _ l1 (conj Hm (conj He (conj eq_refl eq_refl)))))).
      rewrite <- (after_cons s m ms l1). by apply IH.
Qed.

(** ** The steps of the exchange *)

Lemma client_bind_Ok {A B} (m : client A) (k : A → client B) s b s'' :
  (m ≫= k) s = (Ok b, s'') ↔ ∃ a s', m s = (Ok a, s') ∧ k a s' = (Ok b, s'').
Proof.
  unfold mbind, client_mbind. destruct (m s) as [[a|e] s'].
  - split; [eauto|]. by intros (? & ? & [= <- <-] & ?).
  - split; [done|]. by intros (? & ? & ? & _).
Qed.

Definition send_done (s : Client) (text : string) : Client :=
  mkClient (incoming s) (tail (outcomes s)) (sent s ++ [text]) (printed s) (closed s).

Lemma send_Ok m s s' :
  send m s = (Ok (), s') ↔
  ∃ text, to_json m = Some text ∧ default (Ready (Ok ())) (head (outcomes s)) = Ready (Ok ()) ∧
          s' = send_done s text.
Proof.
  unfold send, send_done. destruct (to_json m) as [text|]; cbn.
  - destruct (default _ _) as [|[[]|e]]; cbn; split; try done; try by intros (? & ? & ? & _).
    + intros [= <-]. by exists text.
    + by intros (? & [= <-] & _ & ->).
  - split; [done|]. by intros (? & ? & _).
Qed.

(** A step that waits for one message. *)
Lemma expect_Ok (k : OutboundMessage → client ()) expected s s' :
  (∀ m s s', k m s = (Ok (), s') ↔ m = expected ∧ s' = s) →
  (next_outbound ≫= k) s = (Ok (), s') ↔
  ∃ l, next_message (incoming s) = (Ok expected, l) ∧ s' = after s [] l.
Proof.
  intros Hk. rewrite client_bind_Ok. unfold next_outbound, after. cbn. rewrite app_nil_r.
  destruct (next_message (incoming s)) as [[m|e] l]; split.
  - intros (? & ? & [= <- <-] & [-> ->]%Hk). by exists l.
  - intros (? & [= -> ->] & ->). eexists _, _. split; [done|]. by apply Hk.
  - by intros (? & ? & ? & _).
  - by intros (? & ? & _).
Qed.
Lemma expect_hello_Ok s s' :
  expect_hello s = (Ok (), s') ↔
  ∃ l, next_message (incoming s) = (Ok HelloAccepted, l) ∧ s' = after s [] l.
Proof.
  apply expect_Ok. intros m t t'; split; [|by intros [-> ->]]. destruct m; try discriminate. by intros [= <-].
Qed.
Lemma expect_subscription_Ok s s' :
  expect_subscription s = (Ok (), s') ↔
  ∃ l, next_message (incoming s) = (Ok SubscriptionAccepted, l) ∧ s' = after s [] l.
Proof.
  apply expect_Ok. intros m t t'; split; [|by intros [-> ->]]. destruct m; try discriminate. by intros [= <-].
Qed.

Lemma goes_through_add n m l :
  goes_through (n + m) l ↔ goes_through n l ∧ goes_through m (drop n l).
Proof. unfold goes_through. rewrite <- take_take_drop, Forall_app. done. Qed.
Lemma goes_through_1 l : goes_through 1 l ↔ default (Ready (Ok ())) (head l) = Ready (Ok ()).
Proof. unfold goes_through. destruct l as [|x l]; cbn; [done|]. rewrite take_0, Forall_singleton. done. Qed.

(** The client after some texts were sent *)
Definition sent_all (s : Client) (texts : list string) : Client :=
  mkClient (incoming s) (drop (length texts) (outcomes s)) (sent s ++ texts) (printed s) (closed s).

(** The texts of some messages *)
Abbreviation encode := (Forall2 (λ m text, to_json m = Some text)).

Lemma sent_all_1 s text : sent_all s [text] = send_done s text.
Proof. unfold sent_all, send_done. cbn. f_equal; by destruct (outcomes s). Qed.

Lemma send_1_Ok m s s' :
  send m s = (Ok (), s') ↔ ∃ texts, encode [m] texts ∧ goes_through (length texts) (outcomes s) ∧ s' = sent_all s texts.
Proof.
  rewrite send_Ok. split.
  - intros (text & Hm & Ho & ->). exists [text]. rewrite sent_all_1. cbn. rewrite goes_through_1.
    split_and!; [by repeat constructor|done..].
  - intros (texts & (text & l & Hm & Hl%Forall2_nil_inv_l & ->)%Forall2_cons_inv_l & Hg & ->). subst.
    exists text. by rewrite sent_all_1, <- goes_through_1.
Qed.

Lemma send_if_Ok (b : bool) m s s' :
  (if b then send m else mret ()) s = (Ok (), s') ↔
  ∃ texts, encode (if b then [m] else []) texts ∧ goes_through (length texts) (outcomes s) ∧ s' = sent_all s texts.
Proof.
  destruct b; [apply send_1_Ok|]. unfold sent_all. split.
  - intros [= <-]. exists []. rewrite app_nil_r. split_and!; [done|by constructor|by destruct s].
  - intros (texts & ->%Forall2_nil_inv_l & _ & ->). rewrite app_nil_r. by destruct s.
Qed.

Lemma settles_just_satisfied o f ms :
  settles o (expected_action o f) (mkProgress 0 (negb (o_send_action o)) (negb (o_ping o))) ms ↔
  Forall (λ m, is_error m = false) ms ∧ just_satisfied o f ms.
Proof.
  unfold settles, just_satisfied. rewrite pending_satisfied, negb_false_iff.
  setoid_rewrite pending_satisfied. by setoid_rewrite negb_true_iff.
Qed.

Lemma script_split o f :
  script o f = [hello_message] ++ [authenticate_message o f] ++ [subscribe_message o f] ++
    (if o_ping o then [Ping 1] else []) ++ (if o_send_action o then [action_message o f] else []) ++
    [Close (Some "client complete")].
Proof. done. Qed.

(** A complete run from [s] to [s']: the messages of the script could be encoded
    and sent, the texts of the server are a hello, a subscription and then
    messages without an error that bring what the client waits for, up to the
    first message with which they do. *)
Definition completes (o : ClientOptions) (f : Fresh) (s s' : Client) : Prop :=
  ∃ texts ms rest,
    encode (script o f) texts ∧ goes_through (length texts) (outcomes s) ∧
    delivers (HelloAccepted :: SubscriptionAccepted :: ms) (incoming s) rest ∧
    Forall (λ m, is_error m = false) ms ∧ just_satisfied o f ms ∧
    s' = mkClient rest (drop (length texts) (outcomes s)) (sent s ++ texts)
           (printed s ++ ready_line o :: (ms ≫= report_line)) true.

Lemma exchange_completes o f s s' : exchange o f s = (Ok (), s') → completes o f s s'.
Proof.
  unfold exchange, completes. rewrite script_split.
  intros ([] & ? & (t1 & E1 & G1 & ->)%send_1_Ok & Hr)%client_bind_Ok.
  apply client_bind_Ok in Hr as ([] & ? & (l1 & D1 & ->)%expect_hello_Ok & Hr).
  apply client_bind_Ok in Hr as ([] & ? & (t2 & E2 & G2 & ->)%send_1_Ok & Hr).
  apply client_bind_Ok in Hr as ([] & ? & (t3 & E3 & G3 & ->)%send_1_Ok & Hr).
  apply client_bind_Ok in Hr as ([] & ? & (l2 & D2 & ->)%expect_subscription_Ok & Hr).
  apply client_bind_Ok in Hr as ([] & ? & [= <-] & Hr).
  apply client_bind_Ok in Hr as ([] & ? & (t4 & E4 & G4 & ->)%send_if_Ok & Hr).
  apply client_bind_Ok in Hr as ([] & ? & (t5 & E5 & G5 & ->)%send_if_Ok & Hr).
  apply client_bind_Ok in Hr as ([] & ? & (ms & rest & D3 & [He Hs]%settles_just_satisfied & ->)%receive_loop_Ok & Hr).
  apply client_bind_Ok in Hr as ([] & ? & (t6 & E6 & G6 & ->)%send_1_Ok & [= <-]).
  cbn [sent_all after incoming outcomes sent printed closed] in *.
  exists (t1 ++ t2 ++ t3 ++ t4 ++ t5 ++ t6), ms, rest.
  rewrite !delivers_cons_iff, !length_app, !goes_through_add, <- !drop_drop, <- !(assoc_L app).
  split_and!; try done; [by repeat apply Forall2_app|].
  exists l1. split; [done|]. apply delivers_cons_iff. by exists l2.
Qed.

Lemma completes_exchange o f s s' : completes o f s s' → exchange o f s = (Ok (), s').
Proof.
  unfold exchange, completes. rewrite script_split.
  intros (texts & ms & rest & E & G & D & He & Hs & ->).
  apply Forall2_app_inv_l in E as (t1 & ? & E1 & (t2 & ? & E2 & E & ->)%Forall2_app_inv_l & ->).
  apply Forall2_app_inv_l in E as (t3 & ? & E3 & (t4 & ? & E4 & E & ->)%Forall2_app_inv_l & ->).
  apply Forall2_app_inv_l in E as (t5 & t6 & E5 & E6 & ->).
  rewrite !length_app, !goes_through_add in G. destruct G as (G1 & G2 & G3 & G4 & G5 & G6).
  apply delivers_cons_iff in D as (l1 & D1 & (l2 & D2 & D3)%delivers_cons_iff).
  apply client_bind_Ok. exists (), (sent_all s t1). split; [apply send_1_Ok; by exists t1|].
  apply client_bind_Ok. eexists (), _. split; [apply expect_hello_Ok; by exists l1|].
  apply client_bind_Ok. eexists (), _. split; [apply send_1_Ok; by exists t2|].
  apply client_bind_Ok. eexists (), _. split; [apply send_1_Ok; by exists t3|].
  apply client_bind_Ok. eexists (), _. split; [apply expect_subscription_Ok; by exists l2|].
  apply client_bind_Ok. eexists (), _. split; [done|].
  apply client_bind_Ok. eexists (), _. split; [apply send_if_Ok; by exists t4|].
  apply client_bind_Ok. eexists (), _. split; [apply send_if_Ok; by exists t5|].
  apply client_bind_Ok. eexists (), _. split; [apply receive_loop_Ok; exists ms, rest|].
  { split_and!; [done|by apply settles_just_satisfied|done]. }
  apply client_bind_Ok. eexists (), _. split; [apply send_1_Ok; by exists t6|].
  unfold close_socket. cbn. rewrite !length_app, <- !drop_drop, !app_nil_r, <- !(assoc_L app). done.
Qed.

(** C22. A run of the client succeeds exactly on a complete exchange: every message
    of its script could be encoded and sent, and the server's texts are a hello,
    a subscription and then messages without an error up to the one that brings
    the last awaited event, acknowledgement or pong.  It has then sent exactly
    its script and printed exactly one line per relevant message. *)
Theorem exchange_succeeds_iff o f s s' : exchange o f s = (Ok (), s') ↔ completes o f s s'.
Proof. split; [apply exchange_completes|apply completes_exchange]. Qed.

(** ** The client and the development dependencies *)

Lemma parse_argument_suffix argument arguments l l' rest :
  parse_argument argument arguments l = Ok (l', rest) → rest `suffix_of` arguments.
Proof.
  destruct l; cbn [parse_argument]; intros Hp.
  repeat case_match; inv_result; try done; destruct a as [value rest']; cbn in Hp; inv_result;
    match goal with Hv : next_value ?args _ = _ |- _ =>
      destruct args; simplify_eq Hv; intros -> ->; by apply suffix_cons_r end.
Qed.

Lemma parse_argument_types argument arguments l l' rest :
  parse_argument argument arguments l = Ok (l', rest) → argument ≠ "--action-type" → argument ≠ "--event-type" →
  l_action_type l' = l_action_type l ∧ l_event_types l' = l_event_types l.
Proof.
  destruct l; cbn [parse_argument]; intros Hp Ha He.
  rewrite (proj2 (String.eqb_neq _ _) Ha), (proj2 (String.eqb_neq _ _) He) in Hp.
  repeat case_match; inv_result; try done; destruct a as [value rest']; cbn in Hp; inv_result; done.
Qed.

Lemma parse_loop_types arguments l l' :
  parse_loop arguments l = Ok l' → "--action-type" ∉ arguments → "--event-type" ∉ arguments →
  l_action_type l' = l_action_type l ∧ l_event_types l' = l_event_types l.
Proof.
  remember (length arguments) as n eqn:Hn. revert arguments l Hn.
  induction n as [n IH] using lt_wf_ind. intros [|argument arguments] l Hn Hl Ha He.
  - rewrite parse_loop_equation_1 in Hl. by inv_result.
  - rewrite parse_loop_cons in Hl. apply bind_Ok_inv in Hl as ([l1 rest] & Hp & Hl).
    apply not_elem_of_cons in Ha as [Ha Has]. apply not_elem_of_cons in He as [He Hes].
    pose proof (parse_argument_suffix _ _ _ _ _ Hp) as Hsuf.
    pose proof (parse_argument_consumes _ _ _ _ _ Hp) as Hlen. cbn in Hn.
    destruct (parse_argument_types _ _ _ _ _ Hp) as [<- <-]; [congruence..|].
    apply (IH (length rest) ltac:(lia) rest l1); [done..| |];
      intros Hin; destruct Hsuf as [k ->]; [apply Has|apply Hes]; apply elem_of_app; by right.
Qed.

Context `{!StrokeActions}.

(** A client whose arguments choose no Action type and no event type is
    served by a process in development mode: its credentials bind it to its own
    actor, its subscription and its Action are authorized, and the events of the
    echo handler are of a type it has subscribed to and carry its payload. *)
Theorem development_serves_client f arguments o (c : ServerConfig) :
  parse f arguments = Ok o → "--action-type" ∉ arguments → "--event-type" ∉ arguments →
  development_mode c = true →
  let d := main_dependencies c in
  ∃ credentials request envelope binding,
    script o f !! 1%nat = Some (Authenticate (authenticate_message_id f) credentials) ∧
    script o f !! 2%nat = Some (Subscribe (subscribe_message_id f) request) ∧
    (o_send_action o = true → ActionMessage envelope ∈ script o f) ∧
    identity_resolver d credentials = Ok binding ∧ actor_id binding = o_actor_id o ∧
    subscription_authorizer d binding request = Ok () ∧
    action_authorizer d (envelope_payload envelope) = Ok () ∧
    ∀ draft, draft ∈ echo_handle (envelope_payload envelope) →
      draft_type draft ∈ request_event_types request ∧ draft_payload draft = o_payload o.
Proof.
  intros Hp Ha He Hd. cbv zeta. unfold main_dependencies. rewrite Hd.
  unfold parse in Hp. apply bind_Ok_inv in Hp as (payload & _ & (l & Hl & [= <-])%bind_Ok_inv).
  destruct (parse_loop_types _ _ _ Hl Ha He) as [Hat Het]. cbn in Hat, Het.
  rewrite Hat, Het, decide_True by done.
  eexists _, _, (mkEnvelope CURRENT_PROTOCOL_VERSION (action_message_id f) "action" (client_action _ f)), _.
  split_and!; [done|done| | | | | |].
  - intros Hs. unfold script. rewrite Hs. apply elem_of_app. right. apply elem_of_app. right. left.
  - cbn. unfold development_identity. cbn. rewrite of_to_text. done.
  - done.
  - done.
  - cbn. unfold development_action. cbn. by rewrite bool_decide_true by left.
  - intros draft ->%list_elem_of_singleton. split; [left|done].
Qed.

End client.

(** ** A concrete exchange *)

Module ClientDemo.
#[local] Existing Instances Demo.demo_kernel Demo.demo_laws CatalogDemo.catalog_canvas CatalogDemo.catalog_documents
  CatalogDemo.catalog_kernel ConfigDemo.config_kernel DependenciesDemo.stroke_actions.

#[export] Instance transport_kernel : TransportKernel := {|
  MessageId := string; CURRENT_PROTOCOL_VERSION := 1;
  TransportErrorCode := string; debug_code := id; OtherOutbound := string
|}.

Definition show_inbound (m : InboundMessage) : option string :=
  match m with
  | Hello _ _ => Some "hello" | Authenticate id c => Some ("authenticate " +:+ credential c)
  | Subscribe id r => Some ("subscribe " +:+ request_session_id r) | Ping n => Some ("ping " +:+ show_u64 n)
  | ActionMessage e => Some ("action " +:+ action_id (envelope_payload e)) | Close _ => Some "close"
  end.
Definition read_outbound (s : string) : option OutboundMessage :=
  if String.eqb s "hello" then Some HelloAccepted else
  if String.eqb s "subscribed" then Some SubscriptionAccepted else
  if String.eqb s "ack" then Some (ActionAcknowledgement ("action-1" : ActionId) ["e1"; "e2"]) else
  if String.eqb s "event" then
    Some (EventMessage (mkEnvelope 1 "m" "event" (Demo.mkEvent "e1" "s" "a" "action-1" "dev.echoed" "t" "p" "m"))) else
  if String.eqb s "pong" then Some (Pong 1) else
  if String.eqb s "other" then Some (OutboundOther "other") else None.
#[export] Instance transport_codec : TransportCodec := {|
  Inbound_json := {| to_json := show_inbound; of_json := λ _, None |};
  Outbound_json := {| to_json := λ _, None; of_json := read_outbound |};
  debug_message := λ _, "message"%string
|}.

Definition fresh : Fresh := mkFresh ("actor" : ActorId) ("session" : SessionId) "m1" "m2" ("action-1" : ActionId) "m3" "now".
Definition arguments : list string := ["--send-action"; "--ping"; "--receive-events"; "2"].
Definition text (s : string) : Arrival := Ready (Some (Ok (Text s))).
Definition socket : Client :=
  mkClient [text "hello"; Ready (Some (Ok PingFrame)); text "subscribed"; text "event"; text "other"; text "ack";
            text "event"; text "pong"; text "event"] [] [] [] false.

(** The client sends its six messages, reports the four relevant ones of the
    server in their order and leaves the last event unread. *)
Example client_run :
  client_main fresh (λ _, Ready (Ok socket)) arguments =
  mkExit 0 [ "READY actor_id=actor session_id=session";
             "EVENT event_id=e1 action_id=action-1 actor_id=a session_id=s event_type=dev.echoed";
             "ACK action_id=action-1 event_ids=e1,e2";
             "EVENT event_id=e1 action_id=action-1 actor_id=a session_id=s event_type=dev.echoed";
             "PONG nonce=1" ] [] ∧
  option_map sent (run fresh (λ _, Ready (Ok socket)) arguments).2 =
    Some ["hello"; "authenticate actor"; "subscribe session"; "ping 1"; "action action-1"; "close"].
Proof. vm_compute. done. Qed.

(** A server that closes too early, one that does not answer, an argument
    without its value, and the help. *)
Example client_failures :
  stderr (client_main fresh (λ _, Ready (Ok (mkClient [text "hello"] [] [] [] false))) arguments) =
    ["ws_client failed: WebSocket closed"] ∧
  stderr (client_main fresh (λ _, Ready (Ok (mkClient [text "hello"; Elapsed] [] [] [] false))) arguments) =
    ["ws_client failed: operation timed out"] ∧
  stderr (client_main fresh (λ _, Elapsed) ["--url"]) = ["ws_client failed: --url requires a value"] ∧
  exit_code (client_main fresh (λ _, Elapsed) ["--ping"; "-h"; "--bogus"]) = 0.
Proof. vm_compute. done. Qed.

Definition options : ClientOptions :=
  mkOptions "ws://h/ws" ("actor" : ActorId) ("session" : SessionId) "begin" ["stroke"] "{}" true 3 false.

(** An instance. *)
Lemma options_roundtrip_witness : parse fresh (render_options options "{}") = Ok options.
Proof.
  apply (options_roundtrip fresh options "{}"); [by eexists|done|done|unfold is_u64, u64_max; cbn; lia].
Defined.

Definition parsed : ClientOptions :=
  mkOptions "ws://127.0.0.1:8080/ws" ("actor" : ActorId) ("session" : SessionId) "dev.echo" ["dev.echoed"]
    default_payload_text true 2 true.

Definition development : ServerConfig := with_development_mode true server_default.

(** An instance. *)
Lemma development_serves_client_witness :
  let d := main_dependencies development in
  ∃ credentials request envelope binding,
    script parsed fresh !! 1%nat = Some (Authenticate (authenticate_message_id fresh) credentials) ∧
    script parsed fresh !! 2%nat = Some (Subscribe (subscribe_message_id fresh) request) ∧
    (o_send_action parsed = true → ActionMessage envelope ∈ script parsed fresh) ∧
    identity_resolver d credentials = Ok binding ∧ actor_id binding = o_actor_id parsed ∧
    subscription_authorizer d binding request = Ok () ∧
    action_authorizer d (envelope_payload envelope) = Ok () ∧
    ∀ draft, draft ∈ echo_handle (envelope_payload envelope) →
      draft_type draft ∈ request_event_types request ∧ draft_payload draft = o_payload parsed.
Proof.
  assert (parse fresh arguments = Ok parsed) as Hp by exact eq_refl.
  assert ("--action-type" ∉ arguments) as Ha by (apply (bool_decide_eq_true_1 _); reflexivity).
  assert ("--event-type" ∉ arguments) as He by (apply (bool_decide_eq_true_1 _); reflexivity).
  exact (development_serves_client fresh arguments parsed development Hp Ha He eq_refl).
Defined.

End ClientDemo.
