(* ===== verification/AssetListener.v ===== *)
(** * The Asset HTTP listener

    Models [AssetHttpListener] of [orbitrelay-server/src/asset_delivery/http.rs]:
    binding, the accept loop with its connection permits, the download permits
    that the connection tasks take, and the shutdown with its deadline.  The
    answers on one connection are in [Http.v].  The connection tasks and their
    permits are those of the supervisor of [Listener.v], by the simulation
    [supervisor_of], so that its invariant and its drain are reused. *)

From stdpp Require Import relations.
From S2P Require Import Prelude Float Net Kernel Grant Http Canvas CatalogKernel Lifecycle DeliveryConfig.
From S2P Require Import Delivery Config Listener.

(** What [join_next] answers for a connection task *)
Inductive http_outcome := HttpReturned (r : result HttpTaskError ()) | HttpJoinFailed.

(** A connection task: it has not asked for a download permit, was refused one
    and answers 503, holds one until it returns, or has returned. *)
Inductive http_task := Handling | Refused | Downloading | Closed (o : http_outcome).
Definition is_downloading (t : http_task) : bool := match t with Downloading => true | _ => false end.
Definition is_handling (t : http_task) : bool := match t with Handling => true | _ => false end.
Definition is_open (t : http_task) : bool := match t with Closed _ => false | _ => true end.

(** [AssetHttpListener]: the [JoinSet] and the two semaphores *)
Record AssetHttpListener := mkHttp {
  http_tasks : list http_task;
  connections : Z;
  downloads : Z
}.

(** [Semaphore::new] *)
Definition semaphore_new (permits : Z) : result failure Z :=
  if MAX_PERMITS <? permits then Err Panicked else Ok permits.

Section bind.
Context `{Kernel}.

(** [AssetHttpListener::bind]; [bound] and [address] are the answers of the
    operating system. *)
Definition http_bind (c : AssetDeliveryConfig) (delivery : AssetDeliveryService) (bound : bool)
    (address : option SocketAddr) : result failure (AssetDeliveryService * AssetHttpListener) :=
  map_err FailedWith (validate_delivery c);;
  (if bound then Ok () else Err (FailedWith (Listener "failed to bind Asset HTTP listener")));;
  address ← ok_or (FailedWith (Listener "Asset HTTP listener address unavailable")) address;
  let delivery := set_bound_public_base_url (port address) delivery in
  connections ← semaphore_new (max_connections c);
  downloads ← semaphore_new (max_active_downloads c);
  Ok (delivery, mkHttp [] connections downloads).
End bind.

(** ** Connections *)

(** [reject_connection] *)
Definition reject_connection (write_ok : nat → bool) (status : Z) (message : string)
    : result HttpTaskError () * list Z := write_simple_response write_ok status message [].

(** A connection is accepted: without a free permit it is dropped after
    [reject_connection], whose answer is ignored. *)
Definition http_accept (l : AssetHttpListener) : bool * AssetHttpListener :=
  if connections l =? 0 then (false, l)
  else (true, mkHttp (http_tasks l ++ [Handling]) (connections l - 1) (downloads l)).

(** [downloads.try_acquire_owned()] of [handle_connection] in task [i] *)
Definition http_download (i : nat) (l : AssetHttpListener) : option (bool * AssetHttpListener) :=
  match http_tasks l !! i with
  | Some Handling =>
      if downloads l =? 0
      then Some (false, mkHttp (<[i := Refused]> (http_tasks l)) (connections l) (downloads l))
      else Some (true, mkHttp (<[i := Downloading]> (http_tasks l)) (connections l) (downloads l - 1))
  | _ => None
  end.

(** Task [i] returns and drops its permits. *)
Definition http_return (i : nat) (o : http_outcome) (l : AssetHttpListener) : option AssetHttpListener :=
  t ← http_tasks l !! i;
  if is_open t
  then Some (mkHttp (<[i := Closed o]> (http_tasks l)) (connections l + 1)
               (if is_downloading t then downloads l + 1 else downloads l))
  else None.

(** [self.tasks.join_next()] *)
Definition http_join (i : nat) (l : AssetHttpListener) : option (http_outcome * AssetHttpListener) :=
  match http_tasks l !! i with
  | Some (Closed o) => Some (o, mkHttp (delete i (http_tasks l)) (connections l) (downloads l))
  | _ => None
  end.

(** ** The accept loop *)

Record HttpLoop := mkHttpLoop { http : AssetHttpListener; http_answer : option (result ServerError ()) }.

(** What wakes the [select!] of [run], or what a task does in between *)
Inductive http_event :=
| HttpCancelled
| HttpJoined (i : nat)
| HttpAccepted
| HttpAcceptFailed
| HttpDownload (i : nat)
| HttpReturns (i : nat) (o : http_outcome).

(** One step of [run] or of a task; [None] when it is not possible. *)
Definition http_step (ev : http_event) (l : HttpLoop) : option HttpLoop :=
  match http_answer l, ev with
  | _, HttpDownload i => '(_, h) ← http_download i (http l); Some (mkHttpLoop h (http_answer l))
  | _, HttpReturns i o => h ← http_return i o (http l); Some (mkHttpLoop h (http_answer l))
  | Some _, _ => None
  | None, HttpCancelled => Some (mkHttpLoop (http l) (Some (Ok ())))
  | None, HttpJoined i => '(_, h) ← http_join i (http l); Some (mkHttpLoop h None)
  | None, HttpAccepted => Some (mkHttpLoop (http_accept (http l)).2 None)
  | None, HttpAcceptFailed => Some (mkHttpLoop (http l) (Some (Err (Listener "Asset HTTP accept failed"))))
  end.

(** The states that a bound listener reaches. *)
Inductive http_reaches (h : AssetHttpListener) : HttpLoop → Prop :=
| http_bound : http_reaches h (mkHttpLoop h None)
| http_steps l l' ev : http_reaches h l → http_step ev l = Some l' → http_reaches h l'.

(** ** The shutdown *)

Record HttpDrain := mkHttpDrain { http_drained : AssetHttpListener; http_phase : drain_phase }.

(** [shutdown]: the tasks go on, return and are joined until none is left; at
    the deadline the others are aborted, return and are joined too. *)
Inductive http_drain_step : HttpDrain → HttpDrain → Prop :=
| http_drain_downloads l ph i b l' : ph ≠ Drained → http_download i l = Some (b, l') →
    http_drain_step (mkHttpDrain l ph) (mkHttpDrain l' ph)
| http_drain_returns l ph i o l' : ph ≠ Drained → http_return i o l = Some l' →
    http_drain_step (mkHttpDrain l ph) (mkHttpDrain l' ph)
| http_drain_joins l ph i o l' : ph ≠ Drained → http_join i l = Some (o, l') →
    http_drain_step (mkHttpDrain l ph) (mkHttpDrain l' ph)
| http_drain_deadline l : http_tasks l ≠ [] →
    http_drain_step (mkHttpDrain l Waiting) (mkHttpDrain l Aborting)
| http_drain_ends l ph : ph ≠ Drained → http_tasks l = [] →
    http_drain_step (mkHttpDrain l ph) (mkHttpDrain l Drained).

(** ** The connection tasks as supervised tasks *)

(** A connection task for the supervisor, which does not look at outcomes *)
Definition task_of (t : http_task) : task := if is_open t then Running else Completed JoinFailed.
Definition supervisor_of (l : AssetHttpListener) : ConnectionSupervisor :=
  mkSupervisor (task_of <$> http_tasks l) (connections l).

Lemma http_accept_sim l :
  (http_accept l).1 = (try_spawn (supervisor_of l)).1 ∧
  supervisor_of (http_accept l).2 = (try_spawn (supervisor_of l)).2.
Proof.
  unfold http_accept, try_spawn, supervisor_of. cbn. destruct (connections l =? 0); [done|]. cbn.
  by rewrite fmap_app.
Qed.

Lemma task_insert (ts : list http_task) (i : nat) t : task_of <$> <[i := t]> ts = <[i := task_of t]> (task_of <$> ts).
Proof. apply list_fmap_insert. Qed.

Lemma http_download_inv i b l l' : http_download i l = Some (b, l') →
  http_tasks l !! i = Some Handling ∧
  l' = if downloads l =? 0 then mkHttp (<[i := Refused]> (http_tasks l)) (connections l) (downloads l)
       else mkHttp (<[i := Downloading]> (http_tasks l)) (connections l) (downloads l - 1).
Proof.
  unfold http_download. destruct (http_tasks l !! i) as [[]|]; try done.
  destruct (downloads l =? 0); by intros [= <- <-].
Qed.
Lemma http_return_inv i o l l' : http_return i o l = Some l' →
  ∃ t, http_tasks l !! i = Some t ∧ is_open t = true ∧
    l' = mkHttp (<[i := Closed o]> (http_tasks l)) (connections l + 1)
           (if is_downloading t then downloads l + 1 else downloads l).
Proof.
  unfold http_return. intros (t & Ht & Hr)%bind_Some. exists t.
  destruct (is_open t) eqn:Ho; [|done]. by injection Hr as <-.
Qed.
Lemma http_join_inv i o l l' : http_join i l = Some (o, l') →
  http_tasks l !! i = Some (Closed o) ∧ l' = mkHttp (delete i (http_tasks l)) (connections l) (downloads l).
Proof. unfold http_join. destruct (http_tasks l !! i) as [[]|]; try done. by intros [= <- <-]. Qed.

(** A download permit does not matter to the supervisor. *)
Lemma http_download_sim i b l l' : http_download i l = Some (b, l') → supervisor_of l' = supervisor_of l.
Proof.
  intros [Hi ->]%http_download_inv. unfold supervisor_of.
  destruct (downloads l =? 0); cbn [http_tasks connections]; f_equal;
    rewrite task_insert; apply list_insert_id; by rewrite list_lookup_fmap, Hi.
Qed.
Lemma http_return_sim i o l l' : http_return i o l = Some l' →
  complete i JoinFailed (supervisor_of l) = Some (supervisor_of l').
Proof.
  intros (t & Hi & Ho & ->)%http_return_inv. unfold complete, supervisor_of. cbn.
  rewrite list_lookup_fmap, Hi, task_insert. cbn. unfold task_of at 1. by rewrite Ho.
Qed.
Lemma http_join_sim i o l l' : http_join i l = Some (o, l') →
  join_next i (supervisor_of l) = Some (JoinFailed, supervisor_of l').
Proof.
  intros [Hi ->]%http_join_inv. unfold join_next, supervisor_of. cbn.
  rewrite list_lookup_fmap, Hi. cbn. by rewrite list_fmap_delete.
Qed.

(** ** The limits *)

(** Every permit of both semaphores is free or held by one task. *)
Definition limits_ok (maxc maxd : Z) (l : AssetHttpListener) : Prop :=
  permits_ok maxc (supervisor_of l) ∧
  0 ≤ downloads l ∧ downloads l + Z.of_nat (count_if is_downloading (http_tasks l)) = maxd.

Lemma http_accept_ok maxc maxd l : limits_ok maxc maxd l → limits_ok maxc maxd (http_accept l).2.
Proof.
  intros (Hp & Hd & Hm). split; [rewrite (proj2 (http_accept_sim l)); by apply try_spawn_permits|].
  unfold http_accept. destruct (connections l =? 0); [done|]. cbn [snd http_tasks downloads].
  rewrite count_if_app, count_if_cons. change (count_if is_downloading []) with 0%nat. cbn [is_downloading]. lia.
Qed.
Lemma http_download_ok maxc maxd i b l l' :
  http_download i l = Some (b, l') → limits_ok maxc maxd l → limits_ok maxc maxd l'.
Proof.
  intros Hs (Hp & Hd & Hm). split; [by rewrite (http_download_sim _ _ _ _ Hs)|].
  apply http_download_inv in Hs as [Hi ->].
  pose proof (count_if_insert is_downloading _ _ _ Refused Hi) as H1.
  pose proof (count_if_insert is_downloading _ _ _ Downloading Hi) as H2. cbn in H1, H2.
  destruct (Z.eqb_spec (downloads l) 0); cbn [downloads http_tasks]; lia.
Qed.
Lemma http_return_ok maxc maxd i o l l' :
  http_return i o l = Some l' → limits_ok maxc maxd l → limits_ok maxc maxd l'.
Proof.
  intros Hs (Hp & Hd & Hm). split; [by eapply complete_permits; [apply (http_return_sim _ _ _ _ Hs)|]|].
  apply http_return_inv in Hs as (t & Hi & _ & ->).
  pose proof (count_if_insert is_downloading _ _ _ (Closed o) Hi) as H1. cbn in H1.
  destruct (is_downloading t); cbn [downloads http_tasks]; lia.
Qed.
Lemma http_join_ok maxc maxd i o l l' :
  http_join i l = Some (o, l') → limits_ok maxc maxd l → limits_ok maxc maxd l'.
Proof.
  intros Hs (Hp & Hd & Hm). split; [by eapply join_next_permits; [apply (http_join_sim _ _ _ _ Hs)|]|].
  apply http_join_inv in Hs as [Hi ->].
  pose proof (count_if_delete is_downloading _ _ _ Hi) as H1. cbn in H1. cbn [downloads http_tasks]. lia.
Qed.
Create HintDb limits.
#[local] Hint Resolve http_accept_ok http_download_ok http_return_ok http_join_ok : limits.

Lemma http_step_ok maxc maxd ev l l' :
  http_step ev l = Some l' → limits_ok maxc maxd (http l) → limits_ok maxc maxd (http l').
Proof.
  unfold http_step. intros Hs Hok.
  destruct (http_answer l), ev; try done; try (injection Hs as <-; by eauto with limits);
    apply bind_Some in Hs as (x & Hx & Hs); try destruct x; injection Hs as <-; by eauto with limits.
Qed.

Lemma http_reaches_ok maxc maxd h l :
  limits_ok maxc maxd h → http_reaches h l → limits_ok maxc maxd (http l).
Proof. intros Hok. induction 1 as [|l l' ev _ IH Hs]; [done|by eapply http_step_ok]. Qed.

Lemma running_open ts : running (task_of <$> ts) = count_if is_open ts.
Proof.
  unfold running. induction ts as [|t ts IH]; [done|]. rewrite fmap_cons, !count_if_cons, IH.
  unfold task_of. by destruct (is_open t).
Qed.

Section limits.
Context `{Kernel}.

(** A bound listener has its limits free, and its service a base URL. *)
Lemma http_bind_inv c delivery bound address delivery' h :
  http_bind c delivery bound address = Ok (delivery', h) →
  validate_delivery c = Ok () ∧ h = mkHttp [] (max_connections c) (max_active_downloads c) ∧
  is_Some (public_base_url delivery').
Proof.
  unfold http_bind. intros ([] & Hv & Hb)%bind_Ok_inv. apply bind_Ok_inv in Hb as ([] & _ & Hb).
  apply bind_Ok_inv in Hb as (a & _ & Hb). apply bind_Ok_inv in Hb as (n & Hn & Hb).
  apply bind_Ok_inv in Hb as (m & Hm & [= <- <-]). unfold semaphore_new in Hn, Hm.
  destruct (MAX_PERMITS <? max_connections c); [done|]. destruct (MAX_PERMITS <? max_active_downloads c); [done|].
  injection Hn as <-. injection Hm as <-. split_and!; [by destruct (validate_delivery c) as [[]|]|done|].
  unfold set_bound_public_base_url. destruct (public_base_url delivery) eqn:Hu; cbn; by rewrite ?Hu.
Qed.

(** [bind] on a valid configuration: an error comes from the operating system, and
    a panic from one of the limits. *)
Lemma http_bind_valid c delivery bound address :
  validate_delivery c = Ok () →
  match http_bind c delivery bound address with
  | Ok _ => bound = true ∧ is_Some address
  | Err (FailedWith _) => bound = false ∨ address = None
  | Err Panicked => MAX_PERMITS < max_connections c ∨ MAX_PERMITS < max_active_downloads c
  end.
Proof.
  intros Hv. unfold http_bind. rewrite Hv. destruct bound; [|by left]. cbn.
  destruct address as [a|]; [|by right]. cbn. unfold semaphore_new.
  destruct (Z.ltb_spec MAX_PERMITS (max_connections c)); [by left|]. cbn.
  by destruct (Z.ltb_spec MAX_PERMITS (max_active_downloads c)); [right|].
Qed.

(** C38. The Asset listener enforces both of its limits exactly: in every state
    that the accept loop of a bound listener reaches, at most the configured
    number of connections is open and at most the configured number of them
    downloads; a connection, or a download of a connection, is refused exactly
    when that many are there; and the return of a connection makes room for
    the next. *)
Theorem asset_limits_hold c delivery bound address delivery' h l :
  delivery_typed c → http_bind c delivery bound address = Ok (delivery', h) → http_reaches h l →
  let opened := Z.of_nat (count_if is_open (http_tasks (http l))) in
  let active := Z.of_nat (count_if is_downloading (http_tasks (http l))) in
  opened ≤ max_connections c ∧ active ≤ max_active_downloads c ∧
  ((http_accept (http l)).1 = false ↔ opened = max_connections c) ∧
  (∀ i b h', http_download i (http l) = Some (b, h') → b = false ↔ active = max_active_downloads c) ∧
  (∀ i o h', http_return i o (http l) = Some h' → (http_accept h').1 = true).
Proof.
  intros Ht (_ & -> & _)%http_bind_inv Hr.
  assert (limits_ok (max_connections c) (max_active_downloads c) (http l)) as ([Hp Hm] & Hd & Hn).
  { eapply http_reaches_ok; [|done]. destruct Ht as [_ Hc Hd]. unfold is_u64 in Hc, Hd.
    unfold limits_ok, permits_ok. cbn. lia. }
  unfold supervisor_of in Hp, Hm. cbn [permits tasks] in Hp, Hm. rewrite running_open in Hm. cbn zeta. split_and!; [lia|lia| | |].
  - unfold http_accept. destruct (Z.eqb_spec (connections (http l)) 0); cbn; split; (done || lia).
  - intros i b h' Hs. unfold http_download in Hs. destruct (http_tasks (http l) !! i) as [[]|]; try done.
    destruct (Z.eqb_spec (downloads (http l)) 0); injection Hs as <- _; split; (done || lia).
  - intros i o h' (t & _ & _ & ->)%http_return_inv. unfold http_accept. cbn [connections].
    by rewrite (proj2 (Z.eqb_neq _ _)) by lia.
Qed.
End limits.

(** ** The shutdown ends *)

(** Every step of the shutdown makes this smaller. *)
Definition http_measure (d : HttpDrain) : nat :=
  let ts := http_tasks (http_drained d) in
  length ts + count_if is_open ts + count_if is_handling ts + phase_weight (http_phase d).

Lemma http_drain_decreases d d' : http_drain_step d d' → (http_measure d' < http_measure d)%nat.
Proof.
  unfold http_measure.
  destruct 1 as [l ph i b l' _ [Hi ->]%http_download_inv|l ph i o l' _ (t & Hi & Ho & ->)%http_return_inv
    |l ph i o l' _ [Hi ->]%http_join_inv|l _|l ph Hph _]; cbn [http_drained http_phase].
  - pose proof (λ t, count_if_insert is_open _ _ _ t Hi) as H1.
    pose proof (λ t, count_if_insert is_handling _ _ _ t Hi) as H2.
    destruct (downloads l =? 0); cbn [http_tasks]; rewrite length_insert;
      [specialize (H1 Refused); specialize (H2 Refused)|specialize (H1 Downloading); specialize (H2 Downloading)];
      cbn in H1, H2; lia.
  - pose proof (count_if_insert is_open _ _ _ (Closed o) Hi) as H1.
    pose proof (count_if_insert is_handling _ _ _ (Closed o) Hi) as H2. rewrite Ho in H1. cbn in H1, H2.
    cbn [http_tasks]. rewrite length_insert. lia.
  - pose proof (count_if_delete is_open _ _ _ Hi) as H1. pose proof (count_if_delete is_handling _ _ _ Hi) as H2.
    cbn in H1, H2. cbn [http_tasks]. rewrite length_delete by eauto. pose proof (lookup_lt_Some _ _ _ Hi). lia.
  - cbn [phase_weight]. lia.
  - destruct ph; cbn [phase_weight]; (done || lia).
Qed.

Lemma http_drain_bounded n d d' :
  nsteps http_drain_step n d d' → (n + http_measure d' ≤ http_measure d)%nat.
Proof. induction 1 as [|n x y z Hxy _ IH]; [lia|]. apply http_drain_decreases in Hxy. lia. Qed.

Definition http_drain_ok (maxc maxd : Z) (d : HttpDrain) : Prop :=
  limits_ok maxc maxd (http_drained d) ∧ (http_phase d = Drained → http_tasks (http_drained d) = []).

Lemma http_drain_step_ok maxc maxd d d' :
  http_drain_step d d' → http_drain_ok maxc maxd d → http_drain_ok maxc maxd d'.
Proof. destruct 1; intros [Hl Hd]; split; cbn in *; by eauto with limits. Qed.

(** Until it is drained, some step is possible. *)
Lemma http_drain_progress d : http_phase d ≠ Drained → ∃ d', http_drain_step d d'.
Proof.
  destruct d as [[ts n m] ph]. cbn. intros Hph. destruct ts as [|t ts].
  - eexists. by apply http_drain_ends.
  - destruct (is_open t) eqn:Ho.
    + eexists. eapply (http_drain_returns _ _ 0%nat HttpJoinFailed); [done|]. unfold http_return. cbn. by rewrite Ho.
    + destruct t as [| | |o]; try done. eexists. eapply (http_drain_joins _ _ 0%nat o); [done|reflexivity].
Qed.

(** The shutdown of the Asset listener ends, whatever the tasks do: every run
    takes at most three steps per task and two more, a run that is stuck has
    finished, and then no task is left and every permit of both semaphores is
    free. *)
Theorem asset_shutdown_terminates maxc maxd l :
  limits_ok maxc maxd l →
  (∀ n d, nsteps http_drain_step n (mkHttpDrain l Waiting) d → (n ≤ 3 * length (http_tasks l) + 2)%nat) ∧
  ∀ d, rtc http_drain_step (mkHttpDrain l Waiting) d → (¬ ∃ d', http_drain_step d d') →
    http_phase d = Drained ∧ http_drained d = mkHttp [] maxc maxd.
Proof.
  intros Hok. split.
  - intros n d Hn%http_drain_bounded. unfold http_measure in Hn at 2. cbn [http_drained http_phase phase_weight] in Hn.
    pose proof (count_if_le is_open (http_tasks l)). pose proof (count_if_le is_handling (http_tasks l)). lia.
  - intros d Hr Hstuck. assert (http_drain_ok maxc maxd d) as [([Hp Hm] & Hd & Hn) He].
    { assert (http_drain_ok maxc maxd (mkHttpDrain l Waiting)) as Hi by by split.
      clear Hstuck. revert Hi. induction Hr as [|x y z Hxy _ IH]; [done|].
      intros Hi. apply IH. by eapply http_drain_step_ok. }
    assert (http_phase d = Drained) as Hph.
    { destruct (http_phase d) eqn:Hph; [| |done]; destruct Hstuck; apply http_drain_progress; by rewrite Hph. }
    split; [done|]. specialize (He Hph). destruct (http_drained d) as [ts n m]. cbn in *. subst ts.
    cbn in *. f_equal; lia.
Qed.

(** ** A concrete listener *)

Module AssetListenerDemo.
#[export] Existing Instances Demo.demo_kernel.

Definition demo_address : SocketAddr := mkSocketAddr (V4 [127; 0; 0; 1]) 8081 0.
Definition demo_service : AssetDeliveryService := mkService (issuer_new 600 4096) None.
(** One download at a time *)
Definition demo_config : AssetDeliveryConfig := with_max_active_downloads 1 delivery_default.
Definition demo_bound : AssetHttpListener := mkHttp [] 64 1.
(** Two connections, of which the first downloads *)
Definition demo_loop : HttpLoop := mkHttpLoop (mkHttp [Downloading; Handling] 62 0) None.

Lemma demo_reached : http_reaches demo_bound demo_loop.
Proof.
  refine (http_steps _ (mkHttpLoop (mkHttp [Handling; Handling] 62 1) None) _ (HttpDownload 0) _ eq_refl).
  refine (http_steps _ (mkHttpLoop (mkHttp [Handling] 63 1) None) _ HttpAccepted _ eq_refl).
  exact (http_steps _ _ _ HttpAccepted (http_bound demo_bound) eq_refl).
Qed.
Lemma demo_typed : delivery_typed demo_config.
Proof.
  split; unfold addr_typed, ip_typed, in_width, is_u64, is_i64, u64_max, i64_min, i64_max, u32_max; cbn;
    repeat constructor; lia.
Qed.

(** Witness of C38. *)
Lemma asset_limits_hold_witness :
  Z.of_nat (count_if is_open (http_tasks (http demo_loop))) ≤ 64 ∧
  ∃ h', http_download 1 (http demo_loop) = Some (false, h').
Proof.
  destruct (asset_limits_hold demo_config demo_service true (Some demo_address)
              (set_bound_public_base_url 8081 demo_service) demo_bound demo_loop demo_typed
              eq_refl demo_reached) as (H1 & _ & _ & H2 & _).
  split; [exact H1|]. destruct (http_download 1 (http demo_loop)) as [[b h']|] eqn:Hd; [|vm_compute in Hd; done].
  exists h'. by rewrite (proj2 (H2 1%nat b h' Hd) eq_refl).
Defined.
End AssetListenerDemo.
