(* ===== verification/AssetStore.v ===== *)
(** * The local Asset store

    Models [crates/orbitrelay-asset-local-store/src/lib.rs]: the metadata
    table, the blob directories, ingest, publication, range reads, and the
    recovery scan at opening.  Metadata and files form one [AssetWorld]; the
    monad of [Sql.v] runs over it, so that every call into SQLite, the
    filesystem or the worker queue can fail, and can also be the point where
    the process stops ([Crash]): a stopped computation runs none of the
    cleanup that follows an error.  A [Crash] is a stop before the effect of a
    call, which is after the effect of the call before it; [stopped_late] is the
    stop after the last call and before the return. *)

From S2P Require Import Prelude Kernel Sql.

(** What can go wrong with a command for the metadata worker. *)
Inductive queue_fault := StoreIsClosed | SenderGone | QueueIsFull | QueueIsClosed | ReplyLost.

(** What can happen to a call instead of its effect: an SQLite error, an I/O error
    (with the kinds the source distinguishes), a command that is not served, or
    the end of the process. *)
Inductive afault :=
| SqlFault (e : SqliteError)
| IoAlreadyExists | IoNotFound | IoOther
| QueueFault (q : queue_fault)
| Crash.

(** A directory entry: a regular file with its bytes, or something else. *)
Inductive file := Regular (bytes : list Z) | NotRegular.

(** A row of the [assets] table. *)
Record RawAssetRow := mkRawRow {
  raw_media_type : string;
  raw_byte_length : Z;
  raw_content_hash : string;
  raw_original_filename : option string;
  raw_blob_key : string;
  raw_publication_state : string
}.

(** The tables (the [assets] table by its primary key) and the directories. *)
Record AssetWorld := mkWorld {
  asset_metadata : gmap string string;
  assets : gmap string RawAssetRow;
  blobs : gmap string file;
  staging : gmap string file;
  quarantine : gmap string file
}.
Definition set_assets (f : gmap string RawAssetRow → gmap string RawAssetRow) (w : AssetWorld)
    : AssetWorld := mkWorld (asset_metadata w) (f (assets w)) (blobs w) (staging w) (quarantine w).
Definition set_staging (f : gmap string file → gmap string file) (w : AssetWorld) : AssetWorld :=
  mkWorld (asset_metadata w) (assets w) (blobs w) (f (staging w)) (quarantine w).

Definition STAGED : string := "staged".
Definition PUBLISHED : string := "published".
Definition BLOB_SUFFIX : string := ".blob".
Definition SUPPORTED_SCHEMA_VERSION : Z := 1.

Section asset_store.
Context `{Kernel, !KernelLaws} {AK : AssetKernel} {AL : AssetKernelLaws}.

(** [LocalAssetStoreError] *)
Inductive AssetStoreError :=
| InvalidQueueCapacity
| LengthOverflow (asset_id : AssetId) (length : Z)
| LengthMismatch (asset_id : AssetId) (expected actual : Z)
| HashMismatch (asset_id : AssetId) (expected actual : ContentHash)
| AssetConflict (asset_id : AssetId)
| AssetInProgress (asset_id : AssetId)
| AssetBackendUnavailable (detail : string)
| AssetBackendFailure (detail : string)
| Filesystem (detail : string)
| Corruption (detail : string).

(** How a computation ends early: with an error, or with the process. *)
Inductive stop := Failed (e : AssetStoreError) | Crashed.

Abbreviation M := (sql AssetWorld afault stop).

Definition unavailable (detail : string) : stop := Failed (AssetBackendUnavailable detail).
Definition filesystem (detail : string) : stop := Failed (Filesystem detail).
Definition corruption (detail : string) : stop := Failed (Corruption detail).

(** [map_sqlite_error] *)
Definition map_sqlite_error (message : string) (f : afault) : stop :=
  match f with
  | SqlFault e => if is_busy e then unavailable "Asset metadata SQLite backend is busy"
                  else Failed (AssetBackendFailure message)
  | Crash => Crashed
  | _ => Failed (AssetBackendFailure message)
  end.
(** [map_err(|_| e)] *)
Definition any_fault (e : stop) (f : afault) : stop :=
  match f with Crash => Crashed | _ => e end.
(** [map_filesystem_error] *)
Definition map_filesystem_error (f : afault) : stop :=
  match f with
  | IoAlreadyExists => filesystem "Asset blob destination already exists"
  | Crash => Crashed
  | _ => filesystem "Asset blob rename failed"
  end.

(** Runs [m] and hands its error to [handler]; a crash is no error. *)
Definition on_error {A} (m : M A) (handler : stop → M A) : M A := λ c,
  match m c with
  | (Err Crashed, c') => (Err Crashed, c')
  | (Err e, c') => handler e c'
  | r => r
  end.
(** [let _ = m] *)
Definition ignore {A} (m : M A) : M () :=
  on_error (m;; mret ()) (λ _, mret ()).

(** ** Rows *)

Inductive PublicationState := Staged | Published.
#[global] Instance PublicationState_eq_dec : EqDecision PublicationState.
Proof. solve_decision. Defined.
(** [PublicationState::parse] *)
Definition parse_state (value : string) : result stop PublicationState :=
  if bool_decide (value = STAGED) then Ok Staged
  else if bool_decide (value = PUBLISHED) then Ok Published
  else Err (corruption "unknown Asset publication state").

(** [AssetRecord] *)
Record AssetRecord := mkRecord {
  descriptor : SourceAssetDescriptor;
  rec_blob_key : string;
  state : PublicationState
}.

(** [blob_key] *)
Definition blob_key (asset_id : AssetId) : string := to_text asset_id +:+ BLOB_SUFFIX.

(** [decode_row], on a row and its primary key. *)
Definition decode_row (key : string) (row : RawAssetRow) : result stop AssetRecord :=
  asset_id ← ok_or (corruption "Asset metadata identity is invalid") (of_text key);
  byte_length ← ok_or (corruption "Asset metadata byte length is invalid")
                  (u64_of_i64 (raw_byte_length row));
  content_hash ← ok_or (corruption "Asset metadata content hash is invalid")
                   (of_text (raw_content_hash row));
  descriptor ← ok_or (corruption "Asset metadata descriptor is invalid")
                 (SourceAssetDescriptor_new asset_id (raw_media_type row) byte_length content_hash
                    (raw_original_filename row));
  if negb (bool_decide (raw_blob_key row = blob_key asset_id))
  then Err (corruption "Asset metadata blob key is invalid") else
  state ← parse_state (raw_publication_state row);
  Ok (mkRecord descriptor (raw_blob_key row) state).

(** The row that the [INSERT] of [stage_asset] writes. *)
Definition row_of_descriptor (d : SourceAssetDescriptor) (length : Z) (blob_key state : string)
    : RawAssetRow :=
  mkRawRow (media_type d) length (to_text (content_hash d)) (original_filename d) blob_key state.

(** [SELECT ... FROM assets WHERE asset_id = ?1] with [decode_row] *)
Definition select_asset (message : string) (id : AssetId) : M (option AssetRecord) :=
  row ← sql_query (map_sqlite_error message) (λ w, assets w !! to_text id);
  match row with
  | None => mret None
  | Some row => record ← sql_lift (decode_row (to_text id) row); mret (Some record)
  end.

(** [DELETE FROM assets WHERE asset_id = ?1 AND publication_state = 'staged'] *)
Definition delete_staged_row (key : string) (rows : gmap string RawAssetRow)
    : gmap string RawAssetRow :=
  match rows !! key with
  | Some row => if bool_decide (raw_publication_state row = STAGED) then delete key rows else rows
  | None => rows
  end.

(** ** The commands of the worker *)

(** [lookup_asset] *)
Definition lookup_asset (id : AssetId) : M (option AssetRecord) :=
  select_asset "Asset metadata lookup failed" id.

Inductive AssetInsertOutcome := Inserted | Existing.

(** [stage_asset] *)
Definition stage_asset (d : SourceAssetDescriptor) (key : string) : M AssetInsertOutcome :=
  transaction (map_sqlite_error "Asset stage transaction could not start") (
    existing ← select_asset "Asset stage lookup failed" (asset_asset_id d);
    match existing with
    | Some record =>
        match state record with
        | Published =>
            if decide (descriptor record = d) then
              sql_commit (map_sqlite_error "Asset idempotent stage commit failed");;
              mret Existing
            else sql_fail (Failed (AssetConflict (asset_asset_id d)))
        | Staged => sql_fail (Failed (AssetInProgress (asset_asset_id d)))
        end
    | None =>
        length ← sql_lift (ok_or (Failed (LengthOverflow (asset_asset_id d) (byte_length d)))
                             (i64_of_u64 (byte_length d)));
        sql_exec (map_sqlite_error "Asset staged metadata insert failed")
          (λ w, match assets w !! to_text (asset_asset_id d) with
                | Some _ => Err (map_sqlite_error "Asset staged metadata insert failed"
                                   (SqlFault (SqliteFailure ConstraintViolation)))
                | None => Ok (set_assets <[to_text (asset_asset_id d) :=
                                             row_of_descriptor d length key STAGED]> w)
                end);;
        sql_commit (map_sqlite_error "Asset staged metadata commit failed");;
        mret Inserted
    end).

(** [publish_asset] *)
Definition publish_asset (d : SourceAssetDescriptor) (key : string) : M () :=
  transaction (map_sqlite_error "Asset publish transaction could not start") (
    found ← select_asset "Asset publish lookup failed" (asset_asset_id d);
    record ← sql_lift (ok_or (corruption "Asset staged metadata disappeared before publish") found);
    if negb (bool_decide (state record = Staged)) || negb (bool_decide (descriptor record = d))
       || negb (bool_decide (rec_blob_key record = key))
    then sql_fail (corruption "Asset publication metadata changed before publish") else
    sql_exec (map_sqlite_error "Asset publication update failed")
      (λ w, Ok (set_assets (λ rows,
         match rows !! to_text (asset_asset_id d) with
         | Some row =>
             if bool_decide (raw_publication_state row = STAGED)
             then <[to_text (asset_asset_id d) :=
                      mkRawRow (raw_media_type row) (raw_byte_length row) (raw_content_hash row)
                        (raw_original_filename row) (raw_blob_key row) PUBLISHED]> rows
             else rows
         | None => rows
         end) w));;
    sql_commit (map_sqlite_error "Asset publication commit failed")).

(** [remove_staged] *)
Definition remove_staged (id : AssetId) : M () :=
  sql_exec (map_sqlite_error "staged Asset metadata cleanup failed")
    (λ w, Ok (set_assets (delete_staged_row (to_text id)) w)).

(** [WorkerHandle::sender], [map_send_error] and the receive of the reply *)
Definition map_queue_fault (lost : string) (f : afault) : stop :=
  match f with
  | Crash => Crashed
  | QueueFault StoreIsClosed => unavailable "local Asset store is closed"
  | QueueFault SenderGone => unavailable "local Asset metadata worker is unavailable"
  | QueueFault QueueIsFull => unavailable "Asset metadata command queue is full"
  | QueueFault QueueIsClosed => unavailable "Asset metadata worker is unavailable"
  | _ => unavailable lost
  end.
(** [lookup] and the [dispatch_*] functions: the queue can refuse the command, or
    drop it before it runs. *)
Definition dispatch {A} (lost : string) (m : M A) : M A :=
  sql_touch (map_queue_fault lost);; m.
Definition lookup_record (id : AssetId) : M (option AssetRecord) :=
  dispatch "local Asset metadata response was lost" (lookup_asset id).
Definition dispatch_stage (d : SourceAssetDescriptor) (key : string) : M AssetInsertOutcome :=
  dispatch "local Asset stage response was lost" (stage_asset d key).
Definition dispatch_publish (d : SourceAssetDescriptor) (key : string) : M () :=
  dispatch "local Asset publish response was lost" (publish_asset d key).
Definition dispatch_remove_staged (id : AssetId) : M () :=
  dispatch "local Asset cleanup response was lost" (remove_staged id).

(** ** Files *)

(** [remove_file_if_present] on a staging file *)
Definition remove_file_if_present (path : string) : M () := λ c,
  match pop_fault c with
  | (Some Crash, c') => (Err Crashed, c')
  | (Some IoNotFound, c') => (Ok (), c')
  | (Some _, c') => (Err (filesystem "temporary Asset blob cleanup failed"), c')
  | (None, c') => (Ok (), set_current c' (set_staging (delete path) (current c')))
  end.

(** [fs::rename] from [staging] to [blobs]; an existing file is replaced. *)
Definition rename_to_blobs (path key : string) (w : AssetWorld) : result stop AssetWorld :=
  match staging w !! path with
  | Some f => Ok (mkWorld (asset_metadata w) (assets w) (<[key := f]> (blobs w))
                    (delete path (staging w)) (quarantine w))
  | None => Err (map_filesystem_error IoNotFound)
  end.

(** A read of the source: some bytes (none at its end), or an error. *)
Inductive source_read := SourceBytes (b : list Z) | SourceError.

(** The loop of [write_staging]: the bytes that were written. *)
Fixpoint write_chunks (path : string) (d : SourceAssetDescriptor) (source : list source_read)
    (length : Z) (written : list Z) : M (Z * list Z) :=
  match source with
  | SourceBytes (b :: bs) :: rest =>
      let chunk := b :: bs in
      next ← sql_lift (ok_or (Failed (LengthOverflow (asset_asset_id d) u64_max))
                         (u64_checked_add length (Z.of_nat (List.length chunk))));
      if byte_length d <? next
      then sql_fail (Failed (LengthMismatch (asset_asset_id d) (byte_length d) next)) else
      sql_exec (any_fault (filesystem "staging blob could not be written"))
        (λ w, Ok (set_staging <[path := Regular (written ++ chunk)]> w));;
      write_chunks path d rest next (written ++ chunk)
  | SourceError :: _ => sql_fail (filesystem "Asset source could not be read")
  | SourceBytes [] :: _ | [] => mret (length, written)
  end.

(** [write_staging]: the length and the hash of what was written. *)
Definition write_staging (path : string) (source : list source_read) (d : SourceAssetDescriptor)
    : M (Z * ContentHash) :=
  sql_exec (any_fault (filesystem "staging blob could not be created"))
    (λ w, match staging w !! path with
          | Some _ => Err (filesystem "staging blob could not be created")
          | None => Ok (set_staging <[path := Regular []]> w)
          end);;
  '(length, written) ← write_chunks path d source 0 [];
  sql_touch (any_fault (filesystem "staging blob could not be synchronized"));;
  mret (length, ContentHash_from_bytes (sha256 written)).

(** The attempts of [quarantine_async] to move a blob away. *)
Fixpoint quarantine_blob (names : list string) (key : string) : M () :=
  match names with
  | [] => sql_fail (filesystem "Asset quarantine name allocation failed")
  | name :: rest => λ c,
      match pop_fault c with
      | (Some Crash, c') => (Err Crashed, c')
      | (Some IoAlreadyExists, c') => quarantine_blob rest key c'
      | (Some _, c') => (Err (filesystem "Asset blob could not be quarantined"), c')
      | (None, c') =>
          let w := current c' in
          match blobs w !! key with
          | Some f => (Ok (), set_current c' (mkWorld (asset_metadata w) (assets w)
                                 (delete key (blobs w)) (staging w) (<[name := f]> (quarantine w))))
          | None => (Err (filesystem "Asset blob could not be quarantined"), c')
          end
      end
  end.
(** [quarantine_async]: eight attempts, each with a fresh name. *)
Definition quarantine_async (names : nat → string) (key : string) : M () :=
  quarantine_blob (names <$> seq 0 8) key.

(** ** Ingest *)

(** The failure arms of [ingest]: the staging file is removed first. *)
Definition discard {A} (path : string) (e : stop) : M A :=
  remove_file_if_present path;; sql_fail e.

(** [ingest] from the verified staging file on. *)
Definition publish_staged (d : SourceAssetDescriptor) (path key : string) (names : nat → string)
    : M AssetInsertOutcome :=
  outcome ← on_error (dispatch_stage d key) (discard path);
  match outcome with
  | Existing => remove_file_if_present path;; mret Existing
  | Inserted =>
      on_error (sql_exec map_filesystem_error (rename_to_blobs path key))
        (λ e, ignore (dispatch_remove_staged (asset_asset_id d));; discard path e);;
      on_error (dispatch_publish d key)
        (λ e, ignore (quarantine_async names key);;
              ignore (dispatch_remove_staged (asset_asset_id d));;
              sql_fail e);;
      mret Inserted
  end.

(** [ingest]: [fresh] is the text of [AssetId::new()] in the staging name, and
    [names] gives the quarantine names that would be tried. *)
Definition ingest (d : SourceAssetDescriptor) (source : list source_read) (fresh : string)
    (names : nat → string) : M AssetInsertOutcome :=
  let id := asset_asset_id d in
  if i64_max <? byte_length d then sql_fail (Failed (LengthOverflow id (byte_length d))) else
  existing ← lookup_record id;
  match existing with
  | Some record =>
      match state record with
      | Published => if decide (descriptor record = d) then mret Existing
                     else sql_fail (Failed (AssetConflict id))
      | Staged => sql_fail (Failed (AssetInProgress id))
      end
  | None =>
      let key := blob_key id in
      let path := to_text id +:+ "-" +:+ fresh +:+ ".part" in
      '(length, hash) ← on_error (write_staging path source d) (discard path);
      if negb (length =? byte_length d)
      then discard path (Failed (LengthMismatch id (byte_length d) length)) else
      if negb (bool_decide (hash = content_hash d))
      then discard path (Failed (HashMismatch id (content_hash d) hash)) else
      publish_staged d path key names
  end.

(** The process stops after the last call of [m], when [late], before the caller
    has its answer: what [m] did is done. *)
Definition stopped_late {A} (late : bool) (m : M A) : M A := λ c,
  let '(r, c') := m c in (if late then Err Crashed else r, c').

(** [ingest] in a process that may stop at any point: at a call, by the plan, or
    after the last one *)
Definition ingest_until (late : bool) (d : SourceAssetDescriptor) (source : list source_read) (fresh : string)
    (names : nat → string) : M AssetInsertOutcome := stopped_late late (ingest d source fresh names).

(** ** Reading *)

(** [AssetReadError] *)
Inductive AssetReadError :=
| ReadNotFound (asset_id : AssetId)
| RangeOutOfBounds (asset_id : AssetId) (offset total_length : Z)
| AssetReadUnavailable (detail : string).

(** [safe_detail] *)
Definition safe_detail (e : AssetStoreError) : string :=
  match e with
  | InvalidQueueCapacity => "invalid Asset metadata configuration"
  | LengthOverflow _ _ => "Asset length overflow"
  | LengthMismatch _ _ _ => "Asset length mismatch"
  | HashMismatch _ _ _ => "Asset content hash mismatch"
  | AssetConflict _ => "Asset identity conflict"
  | AssetInProgress _ => "Asset ingest is in progress"
  | AssetBackendUnavailable detail | AssetBackendFailure detail
  | Filesystem detail | Corruption detail => detail
  end.

(** [AssetCatalogError] *)
Inductive AssetCatalogError := CatalogUnavailable (detail : string).

(** [AssetCatalog::get_asset]; [None] is a stopped process. *)
Definition get_asset (id : AssetId)
    : sql AssetWorld afault (option AssetCatalogError) (option SourceAssetDescriptor) := λ c,
  match lookup_record id c with
  | (Ok (Some record), c') =>
      (Ok (if bool_decide (state record = Published) then Some (descriptor record) else None), c')
  | (Ok None, c') => (Ok None, c')
  | (Err (Failed e), c') => (Err (Some (CatalogUnavailable (safe_detail e))), c')
  | (Err Crashed, c') => (Err None, c')
  end.

Inductive read_stop := ReadFailed (e : AssetReadError) | ReadCrashed.
Abbreviation R := (sql AssetWorld afault read_stop).
Definition read_unavailable (detail : string) : read_stop := ReadFailed (AssetReadUnavailable detail).
Definition read_fault (detail : string) (f : afault) : read_stop :=
  match f with Crash => ReadCrashed | _ => read_unavailable detail end.
(** The lookup of a reader: an error becomes [Unavailable]. *)
Definition reading {A} (m : M A) : R A := λ c,
  let '(r, c') := m c in
  (map_err (λ e, match e with Failed e => read_unavailable (safe_detail e) | Crashed => ReadCrashed end) r,
   c').

(** [AssetReader::read_range] *)
Definition read_range (id : AssetId) (range : AssetByteRange) : R AssetByteChunk :=
  found ← reading (lookup_record id);
  record ← sql_lift (ok_or (ReadFailed (ReadNotFound id)) found);
  if negb (bool_decide (state record = Published)) then sql_fail (ReadFailed (ReadNotFound id)) else
  let total := byte_length (descriptor record) in
  let offset := byte_range_offset range in
  if total <? offset then sql_fail (ReadFailed (RangeOutOfBounds id offset total)) else
  entry ← sql_query (read_fault "published Asset blob could not be inspected")
            (λ w, blobs w !! rec_blob_key record);
  content ← sql_lift match entry with
                     | None => Err (read_unavailable "published Asset blob could not be inspected")
                     | Some NotRegular => Err (read_unavailable "published Asset blob is not a regular file")
                     | Some (Regular content) => Ok content
                     end;
  sql_touch (read_fault "published Asset blob could not be opened");;
  if offset =? total then
    sql_lift (ok_or (read_unavailable "published Asset produced an invalid EOF chunk")
                (AssetByteChunk_new offset [] total))
  else
    requested_end ← sql_lift (ok_or (read_unavailable "Asset range overflowed unexpectedly")
                                (byte_range_end_offset range));
    let length := Z.min requested_end total - offset in
    sql_touch (read_fault "published Asset seek failed");;
    sql_touch (read_fault "published Asset read was truncated");;
    let bytes := take (Z.to_nat length) (drop (Z.to_nat offset) content) in
    if Z.of_nat (List.length bytes) <? length
    then sql_fail (read_unavailable "published Asset read was truncated") else
    sql_lift (ok_or (read_unavailable "published Asset produced an invalid range chunk")
                (AssetByteChunk_new offset bytes total)).

(** ** Opening and recovery *)

(** [metadata_value] *)
Definition metadata_value (key : string) : M (option string) :=
  sql_query (map_sqlite_error "Asset storage metadata lookup failed") (λ w, asset_metadata w !! key).
(** [INSERT INTO storage_metadata] *)
Definition insert_asset_metadata (message key value : string) : M () :=
  sql_exec (map_sqlite_error message)
    (λ w, match asset_metadata w !! key with
          | Some _ => Err (Failed (AssetBackendFailure message))
          | None => Ok (mkWorld (<[key := value]> (asset_metadata w)) (assets w) (blobs w)
                          (staging w) (quarantine w))
          end).

(** [load_all_records]: the rows in the order of their primary key. *)
Fixpoint decode_rows (rows : list (string * RawAssetRow)) : M (list AssetRecord) :=
  match rows with
  | [] => mret []
  | (key, row) :: rest =>
      sql_touch (any_fault (corruption "Asset metadata row could not be read"));;
      record ← sql_lift (decode_row key row);
      records ← decode_rows rest;
      mret (record :: records)
  end.
Definition load_all_records : M (list AssetRecord) :=
  sql_touch (map_sqlite_error "Asset metadata scan failed");;
  rows ← sql_query (map_sqlite_error "Asset metadata scan failed")
           (λ w, order_by (λ a b, String.leb a.1 b.1) (map_to_list (assets w)));
  decode_rows rows.

(** [verify_blob]: what it finds at the blob path. *)
Definition verify_blob (record : AssetRecord) : M () :=
  let d := descriptor record in
  entry ← sql_query (any_fault (corruption "published Asset blob is missing"))
            (λ w, blobs w !! rec_blob_key record);
  content ← sql_lift match entry with
                     | None => Err (corruption "published Asset blob is missing")
                     | Some NotRegular => Err (corruption "published Asset blob is not a regular file")
                     | Some (Regular content) => Ok content
                     end;
  if negb (Z.of_nat (length content) =? byte_length d)
  then sql_fail (corruption "published Asset blob length does not match metadata") else
  sql_touch (any_fault (corruption "published Asset blob could not be opened"));;
  sql_touch (any_fault (corruption "published Asset blob could not be read"));;
  if negb (bool_decide (ContentHash_from_bytes (sha256 content) = content_hash d))
  then sql_fail (corruption "published Asset blob hash does not match metadata")
  else mret ().

(** The first loop of [recover_storage]: verifies what is published and
    collects the published keys and the staged identities. *)
Fixpoint recover_records (records : list AssetRecord) (keys : gset string) (ids : list AssetId)
    : M (gset string * list AssetId) :=
  match records with
  | [] => mret (keys, ids)
  | record :: rest =>
      match state record with
      | Published =>
          verify_blob record;;
          recover_records rest ({[rec_blob_key record]} ∪ keys) ids
      | Staged => recover_records rest keys (ids ++ [asset_asset_id (descriptor record)])
      end
  end.

(** The deletions of [recover_storage], in one transaction. *)
Fixpoint delete_staged (ids : list AssetId) : M () :=
  match ids with
  | [] => mret ()
  | id :: rest =>
      sql_exec (map_sqlite_error "staged Asset recovery failed")
        (λ w, Ok (set_assets (delete_staged_row (to_text id)) w));;
      delete_staged rest
  end.

(** [quarantine_entry]: the attempts of its loop, for an entry of a directory. *)
Fixpoint quarantine_entry (names : list string) (take_entry : AssetWorld → AssetWorld * option file)
    : M () :=
  match names with
  | [] => sql_fail (filesystem "Asset quarantine name allocation failed")
  | name :: rest => λ c,
      match pop_fault c with
      | (Some Crash, c') => (Err Crashed, c')
      | (Some IoAlreadyExists, c') => quarantine_entry rest take_entry c'
      | (Some _, c') => (Err (filesystem "Asset orphan could not be quarantined"), c')
      | (None, c') =>
          match take_entry (current c') with
          | (w, Some f) =>
              (Ok (), set_current c' (mkWorld (asset_metadata w) (assets w) (blobs w) (staging w)
                                        (<[name := f]> (quarantine w))))
          | (_, None) => (Err (filesystem "Asset orphan could not be quarantined"), c')
          end
      end
  end.
Definition take_staging (path : string) (w : AssetWorld) : AssetWorld * option file :=
  (set_staging (delete path) w, staging w !! path).
Definition take_blob (key : string) (w : AssetWorld) : AssetWorld * option file :=
  (mkWorld (asset_metadata w) (assets w) (delete key (blobs w)) (staging w) (quarantine w),
   blobs w !! key).

(** [quarantine_directory_entries] on [staging], and the last loop of
    [recover_storage] on [blobs].  Each entry has
    eight attempts, with a fresh name each. *)
Fixpoint quarantine_staging (names : string → nat → string) (paths : list string) : M () :=
  match paths with
  | [] => mret ()
  | path :: rest =>
      sql_touch (any_fault (filesystem "Asset recovery entry could not be read"));;
      quarantine_entry (names path <$> seq 0 8) (take_staging path);;
      quarantine_staging names rest
  end.
Fixpoint quarantine_orphans (names : string → nat → string) (keys : gset string)
    (entries : list string) : M () :=
  match entries with
  | [] => mret ()
  | name :: rest =>
      sql_touch (any_fault (filesystem "Asset blob entry could not be read"));;
      (if bool_decide (name ∈ keys) then mret ()
       else quarantine_entry (names name <$> seq 0 8) (take_blob name));;
      quarantine_orphans names keys rest
  end.

(** [recover_storage] *)
Definition recover_storage (names : string → nat → string) : M () :=
  records ← load_all_records;
  '(keys, ids) ← recover_records records ∅ [];
  (if bool_decide (ids = []) then mret () else
   transaction (map_sqlite_error "staged Asset recovery transaction failed") (
     delete_staged ids;;
     sql_commit (map_sqlite_error "staged Asset recovery commit failed")));;
  paths ← sql_query (any_fault (filesystem "Asset recovery directory could not be read"))
            (λ w, (map_to_list (staging w)).*1);
  quarantine_staging names paths;;
  entries ← sql_query (any_fault (filesystem "Asset blob directory could not be read"))
              (λ w, (map_to_list (blobs w)).*1);
  quarantine_orphans names keys entries.

(** [initialize_storage]; [fresh] is the value of [EntityId::new()]. *)
Definition initialize_storage (quick_check : string) (fresh : EntityId)
    (names : string → nat → string) : M EntityId :=
  sql_touch (any_fault (filesystem "Asset data root could not be created"));;
  sql_touch (any_fault (filesystem "Asset data directory could not be created"));;
  sql_touch (any_fault (filesystem "Asset data directory could not be created"));;
  sql_touch (any_fault (filesystem "Asset data directory could not be created"));;
  sql_touch (map_sqlite_error "Asset metadata database could not be opened");;
  sql_touch (map_sqlite_error "Asset foreign key configuration failed");;
  sql_touch (map_sqlite_error "Asset WAL configuration failed");;
  sql_touch (map_sqlite_error "Asset synchronous configuration failed");;
  sql_touch (map_sqlite_error "Asset busy timeout configuration failed");;
  sql_touch (map_sqlite_error "Asset metadata schema creation failed");;
  version ← metadata_value "schema_version";
  match version with
  | None => insert_asset_metadata "Asset schema metadata creation failed" "schema_version"
              (show_u64 SUPPORTED_SCHEMA_VERSION)
  | Some value =>
      parsed ← sql_lift (ok_or (corruption "Asset metadata schema version is malformed")
                           (parse_i64 value));
      if negb (parsed =? SUPPORTED_SCHEMA_VERSION)
      then sql_fail (corruption (if SUPPORTED_SCHEMA_VERSION <? parsed
                                 then "Asset metadata schema is newer than this adapter"
                                 else "Asset metadata schema migration is required"))
      else mret ()
  end;;
  stored ← metadata_value "physical_store_id";
  physical ← match stored with
             | Some value => sql_lift (ok_or (corruption "Asset physical store identity is malformed")
                                         (of_text value))
             | None => insert_asset_metadata "Asset physical store identity creation failed"
                         "physical_store_id" (to_text fresh);; mret fresh
             end;
  sql_touch (any_fault (corruption "Asset SQLite physical integrity check failed"));;
  (if negb (bool_decide (quick_check = "ok"))
   then sql_fail (corruption "Asset SQLite physical integrity check failed") else mret ());;
  recover_storage names;;
  mret physical.

(** [open_with_queue_capacity]: the physical identity of the opened store. *)
Definition open_with_queue_capacity (queue_capacity : Z) (quick_check : string) (fresh : EntityId)
    (names : string → nat → string) : M EntityId :=
  if queue_capacity =? 0 then sql_fail (Failed InvalidQueueCapacity) else
  sql_touch (any_fault (unavailable "could not start local Asset metadata worker"));;
  initialize_storage quick_check fresh names.
End asset_store.
