(* ===== verification/AssetSafety.v ===== *)
(** * Safety of the local Asset store

    The invariant of the store: every row decodes under its own identity, and
    every published row has a regular blob of the stated length and hash.
    [ingest] keeps it under every plan of faults and with a crash at any call,
    never changes what is published, and adds at most the given Asset; the
    recovery at opening restores a clean store from whatever an interrupted
    ingest has left. *)

From S2P Require Import Prelude Kernel Sql AssetStore.

Lemma str_app_inj_r a b t : a +:+ t = b +:+ t → a = b.
Proof.
  revert b. induction a as [|x a IH]; intros [|y b]; rewrite ?append_nil, ?append_cons; try done.
  - intros Heq. apply (f_equal str_len) in Heq. cbn in Heq.
    assert (∀ s, str_len t ≤ str_len (s +:+ t))%nat as Hl
      by (induction s as [|c s IHs]; [done|rewrite append_cons; cbn; lia]).
    specialize (Hl b). lia.
  - intros Heq. apply (f_equal str_len) in Heq. cbn in Heq.
    assert (∀ s, str_len t ≤ str_len (s +:+ t))%nat as Hl
      by (induction s as [|c s IHs]; [done|rewrite append_cons; cbn; lia]).
    specialize (Hl a). lia.
  - intros [= -> Heq]. f_equal. by apply IH.
Qed.

Section safety.
Context `{Kernel, !KernelLaws} {AK : AssetKernel} {AL : AssetKernelLaws}.

Abbreviation C := (conn AssetWorld afault).

(** ** The invariant *)

(** The blob of a published record is the described content. *)
Definition blob_ok (w : AssetWorld) (record : AssetRecord) : Prop :=
  ∃ content, blobs w !! rec_blob_key record = Some (Regular content) ∧
    Z.of_nat (length content) = byte_length (descriptor record) ∧
    ContentHash_from_bytes (sha256 content) = content_hash (descriptor record).

Definition row_ok (w : AssetWorld) (key : string) (row : RawAssetRow) : Prop :=
  ∃ record, decode_row key row = Ok record ∧
    key = to_text (asset_asset_id (descriptor record)) ∧
    (state record = Published → blob_ok w record).

Definition asset_inv (w : AssetWorld) : Prop :=
  ∀ key row, assets w !! key = Some row → row_ok w key row.

(** The Asset [d] is published, with the bytes [content]. *)
Definition published (w : AssetWorld) (d : SourceAssetDescriptor) (content : list Z) : Prop :=
  ∃ row record, assets w !! to_text (asset_asset_id d) = Some row ∧
    decode_row (to_text (asset_asset_id d)) row = Ok record ∧ state record = Published ∧
    descriptor record = d ∧ blobs w !! blob_key (asset_asset_id d) = Some (Regular content).

Lemma blob_key_inj a b : blob_key a = blob_key b → a = b.
Proof. intros Heq%str_app_inj_r. by apply to_text_inj. Qed.

Lemma decode_row_key key row record :
  decode_row key row = Ok record →
  rec_blob_key record = blob_key (asset_asset_id (descriptor record)) ∧
  of_text key = Some (asset_asset_id (descriptor record)).
Proof.
  unfold decode_row. intros Hd.
  apply bind_Ok_inv in Hd as (id & Hid%ok_or_Ok_inv & Hd).
  apply bind_Ok_inv in Hd as (len & _ & Hd). apply bind_Ok_inv in Hd as (hash & _ & Hd).
  apply bind_Ok_inv in Hd as (d & Hnew%ok_or_Ok_inv & Hd).
  apply descriptor_new_id in Hnew.
  destruct (bool_decide_reflect (raw_blob_key row = blob_key id)) as [Hk|]; [|done]. cbn in Hd.
  apply bind_Ok_inv in Hd as (st & _ & Hd). injection Hd as <-. cbn. by rewrite Hnew.
Qed.

(** The row of a descriptor decodes to it. *)
Lemma decode_row_descriptor d s st :
  byte_length d ≤ i64_max → parse_state s = Ok st →
  decode_row (to_text (asset_asset_id d))
    (row_of_descriptor d (byte_length d) (blob_key (asset_asset_id d)) s)
  = Ok (mkRecord d (blob_key (asset_asset_id d)) st).
Proof.
  intros Hlen Hs. unfold decode_row. cbn -[parse_state].
  rewrite of_to_text. cbn -[parse_state].
  rewrite u64_of_i64_nonneg by apply byte_length_u64. cbn -[parse_state].
  rewrite of_to_text. cbn -[parse_state]. rewrite descriptor_eta. cbn -[parse_state].
  rewrite bool_decide_eq_true_2 by done. cbn -[parse_state]. by rewrite Hs.
Qed.

(** ** Changes that keep the invariant

    Around an ingest of [d]: the rows and blobs of all other Assets stay. *)

Section around.
Context (d : SourceAssetDescriptor).
Abbreviation id := (asset_asset_id d).
Abbreviation key := (to_text (asset_asset_id d)).
Abbreviation bk := (blob_key (asset_asset_id d)).

Definition blobs_agree (w0 w : AssetWorld) : Prop :=
  ∀ k, k ≠ bk → blobs w !! k = blobs w0 !! k.

(** What holds of the world after any part of an ingest of [d]. *)
Record grown (w0 w : AssetWorld) : Prop := {
  grown_inv : asset_inv w;
  grown_keeps : ∀ d' content, published w0 d' content → published w d' content;
  grown_adds : ∀ d' content, published w d' content → published w0 d' content ∨ d' = d
}.

Lemma published_other_blob w0 d' content :
  assets w0 !! key = None → published w0 d' content → asset_asset_id d' ≠ id.
Proof. intros Hnone (row & record & Hrow & _) Heq. rewrite Heq in Hrow. congruence. Qed.

Lemma published_frame w0 w d' content :
  asset_asset_id d' ≠ id → blobs_agree w0 w →
  (∀ k, k ≠ key → assets w !! k = assets w0 !! k) →
  published w0 d' content ↔ published w d' content.
Proof.
  intros Hne Hb Ha. unfold published.
  rewrite Ha by (intros Heq%to_text_inj; done). rewrite Hb by (intros Heq%blob_key_inj; done). done.
Qed.

(** The row of [d] is absent, staged, or published with good content. *)
Inductive phase (w : AssetWorld) : Prop :=
| phase_absent : assets w !! key = None → phase w
| phase_staged : assets w !! key = Some (row_of_descriptor d (byte_length d) bk STAGED) → phase w
| phase_published content :
    assets w !! key = Some (row_of_descriptor d (byte_length d) bk PUBLISHED) →
    blobs w !! bk = Some (Regular content) → Z.of_nat (length content) = byte_length d →
    ContentHash_from_bytes (sha256 content) = content_hash d → phase w.

Lemma phase_grown w0 w :
  asset_inv w0 → assets w0 !! key = None → byte_length d ≤ i64_max → blobs_agree w0 w →
  (∀ k, k ≠ key → assets w !! k = assets w0 !! k) → phase w → grown w0 w.
Proof.
  intros Hinv Hnone Hlen Hb Ha Hphase. split.
  - intros k row Hk. destruct (decide (k = key)) as [->|Hne].
    + destruct Hphase as [Hp|Hp|content Hp Hblob Hl Hh]; rewrite Hp in Hk; [done|..]; injection Hk as <-.
      * exists (mkRecord d bk Staged). split; [by apply decode_row_descriptor|done].
      * exists (mkRecord d bk Published). split; [by apply decode_row_descriptor|]. split; [done|].
        intros _. by exists content.
    + rewrite Ha in Hk by done. destruct (Hinv k row Hk) as (record & Hd & Hkey & Hblob).
      exists record. split; [done|]. split; [done|]. intros Hs.
      destruct (Hblob Hs) as (content & Hc & Hrest). exists content. split; [|done].
      rewrite Hb; [done|]. destruct (decode_row_key _ _ _ Hd) as [-> _].
      intros Heq%blob_key_inj. congruence.
  - intros d' content Hp. pose proof (published_other_blob _ _ _ Hnone Hp).
    by apply (published_frame w0 w).
  - intros d' content Hp. destruct (decide (asset_asset_id d' = id)) as [Heq|Hne].
    + right. destruct Hp as (row & record & Hrow & Hdec & Hst & <- & _). rewrite Heq in *.
      destruct Hphase as [Hx|Hx|? Hx]; rewrite Hx in Hrow; [done|..]; injection Hrow as <-.
      * rewrite (decode_row_descriptor d STAGED Staged Hlen eq_refl) in Hdec. by injection Hdec as <-.
      * rewrite (decode_row_descriptor d PUBLISHED Published Hlen eq_refl) in Hdec. by injection Hdec as <-.
    + left. by apply (published_frame w0 w).
Qed.
End around.
(** ** The steps of an ingest *)

Lemma sql_wp_on_error {A} (m : sql AssetWorld afault stop A) handler (Q : result stop A → C → Prop) c :
  sql_wp m (λ r c', match r with
                    | Ok a => Q (Ok a) c'
                    | Err Crashed => Q (Err Crashed) c'
                    | Err (Failed e) => sql_wp (handler (Failed e)) Q c'
                    end) c →
  sql_wp (on_error m handler) Q c.
Proof. unfold sql_wp, on_error. by destruct (m c) as [[a|[e|]] c']. Qed.

(** Only staging and quarantine differ. *)
Definition same_assets (w w' : AssetWorld) : Prop :=
  assets w' = assets w ∧ blobs w' = blobs w.

Section steps.
Context (fault : Prop).
(** The plan can only fail if [fault]. *)
Abbreviation quiet p := (faulty p → fault).

Lemma remove_file_wp {w p} path (Q : result stop () → C → Prop) :
  quiet p →
  (∀ w' p', same_assets w w' → quiet p' → Q (Ok ()) (mkConn w' None p')) →
  (∀ e w' p', same_assets w w' → quiet p' → fault → Q (Err e) (mkConn w' None p')) →
  sql_wp (remove_file_if_present path) Q (mkConn w None p).
Proof.
  intros Hp Hk He. unfold sql_wp, remove_file_if_present, pop_fault.
  destruct p as [|[[]|] p]; cbn; try (apply Hk; [done|]; intros; apply Hp; by apply faulty_tail);
    try (apply He; [done| |]; [intros|]; apply Hp; (apply faulty_head || by apply faulty_tail)).
  apply Hk; [done|]. by intros ?%not_faulty_nil.
Qed.

Lemma discard_wp {A w p} path e (Q : result stop A → C → Prop) :
  quiet p → (∀ e' w' p', same_assets w w' → quiet p' → Q (Err e') (mkConn w' None p')) →
  sql_wp (discard path e) Q (mkConn w None p).
Proof.
  intros Hp He. unfold discard. sql_step. apply remove_file_wp; [done| |].
  - intros w' p' Hw Hp'. sql_step. by apply He.
  - intros e' w' p' Hw Hp' _. by apply He.
Qed.

(** The bytes of a source up to its end, and whether it ends without error. *)
Fixpoint source_bytes (source : list source_read) : list Z :=
  match source with
  | SourceBytes (b :: bs) :: rest => (b :: bs) ++ source_bytes rest
  | _ => []
  end.
Fixpoint source_ends (source : list source_read) : bool :=
  match source with
  | SourceBytes (b :: bs) :: rest => source_ends rest
  | SourceError :: _ => false
  | SourceBytes [] :: _ | [] => true
  end.
Definition source_good (d : SourceAssetDescriptor) (source : list source_read) : Prop :=
  source_ends source = true ∧ Z.of_nat (length (source_bytes source)) = byte_length d ∧
  ContentHash_from_bytes (sha256 (source_bytes source)) = content_hash d.

Lemma write_chunks_wp d path source (Q : result stop (Z * list Z) → C → Prop) w0 : ∀ w p written,
  same_assets w0 w → quiet p → staging w !! path = Some (Regular written) →
  (∀ e w' p', same_assets w0 w' → quiet p' →
     fault ∨ source_ends source = false ∨
       byte_length d < Z.of_nat (length (written ++ source_bytes source)) →
     Q (Err e) (mkConn w' None p')) →
  (∀ w' p', same_assets w0 w' → quiet p' →
     staging w' !! path = Some (Regular (written ++ source_bytes source)) →
     source_ends source = true →
     Q (Ok (Z.of_nat (length (written ++ source_bytes source)), written ++ source_bytes source))
       (mkConn w' None p')) →
  sql_wp (write_chunks path d source (Z.of_nat (length written)) written) Q (mkConn w None p).
Proof.
  induction source as [|[[|b bs]|] source IH]; intros w p written Hw Hp Hst He Hk;
    cbn [write_chunks source_bytes source_ends] in *.
  - rewrite app_nil_r in *. sql_step. by apply Hk.
  - rewrite app_nil_r in *. sql_step. by apply Hk.
  - set (chunk := b :: bs) in *. pose proof (byte_length_u64 d) as Hu64. unfold is_u64 in Hu64.
    assert (Z.of_nat (length (written ++ chunk)) ≤ Z.of_nat (length (written ++ chunk ++ source_bytes source)))
      as Hmono by (rewrite !length_app; lia).
    rewrite length_app, Nat2Z.inj_add in Hmono.
    sql_step; sql_step. unfold u64_checked_add. destruct (Z.leb_spec (Z.of_nat (length written) + Z.of_nat (length chunk)) u64_max);
      cbn [ok_or]; [|apply He; [done|done|]; right; right; lia].
    destruct (Z.ltb_spec (byte_length d) (Z.of_nat (length written) + Z.of_nat (length chunk)));
      [sql_step; apply He; [done|done|]; right; right; lia|].
    sql_step; sql_step.
    { apply He; [done| |]; auto. }
    cbn [from_option Datatypes.id].
    replace (Z.of_nat (length written) + Z.of_nat (length chunk)) with (Z.of_nat (length (written ++ chunk)))
      by (rewrite length_app; lia).
    rewrite app_assoc in He, Hk. apply IH; [by destruct Hw|auto|cbn; apply lookup_insert_eq|done|done].
  - sql_step. apply He; [done|done|auto].
Qed.

Lemma write_staging_wp d path source w p (Q : result stop (Z * ContentHash) → C → Prop) :
  quiet p →
  (∀ e w' p', same_assets w w' → quiet p' →
     fault ∨ staging w !! path ≠ None ∨ source_ends source = false ∨
       byte_length d < Z.of_nat (length (source_bytes source)) →
     Q (Err e) (mkConn w' None p')) →
  (∀ w' p', same_assets w w' → quiet p' →
     staging w' !! path = Some (Regular (source_bytes source)) → source_ends source = true →
     Q (Ok (Z.of_nat (length (source_bytes source)),
            ContentHash_from_bytes (sha256 (source_bytes source)))) (mkConn w' None p')) →
  sql_wp (write_staging path source d) Q (mkConn w None p).
Proof.
  intros Hp He Hk. unfold write_staging. sql_step; sql_step; [apply He; [done| |]; auto|].
  cbn [from_option Datatypes.id]. destruct (staging w !! path) eqn:Hst.
  { apply He; [done|auto|]. right. left. done. }
  cbn [set_current working committed plan]. sql_step.
  apply (write_chunks_wp d path source _ w _ _ []); [done|auto|apply lookup_insert_eq| |]; cbn [app].
  - intros e w' p'' Hw Hp' Hr. apply He; [done|done|]. tauto.
  - intros w' p'' Hw Hp' Hs Hends. sql_step; sql_step; [apply He; [done| |]; auto|].
    sql_step. apply Hk; auto.
Qed.
Lemma select_asset_wp message i w0 w p (Q : result stop (option AssetRecord) → C → Prop) wk :
  quiet p → default w0 wk = w →
  (∀ e p', quiet p' → fault → Q (Err e) (mkConn w0 wk p')) →
  (∀ p', quiet p' →
     match assets w !! to_text i with
     | None => Q (Ok None) (mkConn w0 wk p')
     | Some row => match decode_row (to_text i) row with
                   | Ok record => Q (Ok (Some record)) (mkConn w0 wk p')
                   | Err e => Q (Err e) (mkConn w0 wk p')
                   end
     end) →
  sql_wp (select_asset message i) Q (mkConn w0 wk p).
Proof.
  intros Hp Hw He Hk. unfold select_asset. sql_step; sql_step; [apply He; auto|].
  rewrite Hw. specialize (Hk p' ltac:(auto)). destruct (assets w !! to_text i) as [row|].
  - sql_step; sql_step. destruct (decode_row (to_text i) row); [by sql_step|done].
  - by sql_step.
Qed.

Section commands.
Context (d : SourceAssetDescriptor).
Hypothesis length_fits : byte_length d ≤ i64_max.
Abbreviation id := (asset_asset_id d).
Abbreviation key := (to_text (asset_asset_id d)).
Abbreviation bk := (blob_key (asset_asset_id d)).
Abbreviation row_in s := (row_of_descriptor d (byte_length d) bk s).

Lemma stage_asset_wp w p (Q : result stop AssetInsertOutcome → C → Prop) :
  quiet p → assets w !! key = None →
  (∀ e p', quiet p' → fault → Q (Err e) (mkConn w None p')) →
  (∀ p', quiet p' → Q (Ok Inserted) (mkConn (set_assets <[key := row_in STAGED]> w) None p')) →
  sql_wp (dispatch_stage d bk) Q (mkConn w None p).
Proof.
  intros Hp Hnone He Hk. unfold dispatch_stage, dispatch, stage_asset. sql_step; sql_step; [apply He; auto|].
  sql_step; [apply He; auto|]. sql_step. eapply select_asset_wp; [|done|..].
  { intros Hf. apply Hp. auto. }
  { intros e p2 Hp2 Hf. by apply He. }
  intros p2 Hp2. cbn [from_option Datatypes.id]. rewrite Hnone.
  sql_step; sql_step. rewrite i64_of_u64_small by done. cbn [ok_or].
  sql_step; sql_step; [apply He; auto|]. cbn [from_option Datatypes.id]. rewrite Hnone.
  cbn [set_current working committed plan]. sql_step; sql_step; [apply He; auto|].
  cbn [from_option Datatypes.id]. sql_step. apply Hk. auto.
Qed.

Lemma publish_asset_wp w p (Q : result stop () → C → Prop) :
  quiet p → assets w !! key = Some (row_in STAGED) →
  (∀ e p', quiet p' → fault → Q (Err e) (mkConn w None p')) →
  (∀ p', quiet p' → Q (Ok ()) (mkConn (set_assets <[key := row_in PUBLISHED]> w) None p')) →
  sql_wp (dispatch_publish d bk) Q (mkConn w None p).
Proof.
  intros Hp Hrow He Hk. unfold dispatch_publish, dispatch, publish_asset. sql_step; sql_step; [apply He; auto|].
  sql_step; [apply He; auto|]. sql_step. eapply select_asset_wp; [|done|..].
  { intros Hf. apply Hp. auto. }
  { intros e p2 Hp2 Hf. by apply He. }
  intros p2 Hp2. cbn [from_option Datatypes.id].
  rewrite Hrow, (decode_row_descriptor d STAGED Staged length_fits eq_refl).
  sql_step; sql_step. cbn [ok_or state descriptor rec_blob_key].
  rewrite !bool_decide_eq_true_2 by done. cbn [negb orb].
  sql_step; sql_step; [apply He; auto|]. cbn [from_option Datatypes.id set_current working committed plan].
  sql_step; [apply He; auto|]. cbn [from_option Datatypes.id].
  unfold set_assets. rewrite Hrow. cbn. apply Hk. auto.
Qed.

Lemma delete_staged_row_staged rows :
  rows !! key = Some (row_in STAGED) → delete_staged_row key rows = delete key rows.
Proof. intros Hr. unfold delete_staged_row. rewrite Hr. done. Qed.

(** The cleanup [let _ = dispatch_remove_staged(..)]: the row is gone, or
    still staged. *)
Lemma remove_staged_wp w p (Q : result stop () → C → Prop) :
  quiet p → assets w !! key = Some (row_in STAGED) →
  (∀ p', quiet p' → fault → Q (Ok ()) (mkConn w None p')) →
  (∀ p', quiet p' → fault → Q (Err Crashed) (mkConn w None p')) →
  (∀ p', quiet p' → Q (Ok ()) (mkConn (set_assets (delete key) w) None p')) →
  sql_wp (ignore (dispatch_remove_staged id)) Q (mkConn w None p).
Proof.
  intros Hp Hrow Hf Hc Hk. unfold ignore, dispatch_remove_staged, dispatch, remove_staged. apply sql_wp_on_error.
  sql_step; sql_step; sql_step.
  { destruct e; cbn; try case_match; try (by sql_step; apply Hf; auto); by apply Hc; auto. }
  sql_step.
  { destruct e; cbn; try case_match; try (by sql_step; apply Hf; auto); by apply Hc; auto. }
  cbn [from_option Datatypes.id set_current working committed plan]. sql_step.
  unfold set_assets. rewrite delete_staged_row_staged by done. apply Hk. auto.
Qed.

(** The cleanup [let _ = quarantine_async(..)]: at most the blob is moved. *)
Lemma quarantine_blob_wp names w : ∀ p (Q : result stop () → C → Prop),
  quiet p →
  (∀ e p', quiet p' → Q (Err e) (mkConn w None p')) →
  (∀ w' p', quiet p' → assets w' = assets w → blobs_agree d w w' → Q (Ok ()) (mkConn w' None p')) →
  sql_wp (quarantine_blob names bk) Q (mkConn w None p).
Proof.
  induction names as [|name names IH]; intros p Q Hp He Hk; cbn [quarantine_blob].
  { sql_step. by apply He. }
  assert (∀ (f : option afault) p', quiet (f :: p') → quiet p') as Htail by (intros f p' Hq Hf; apply Hq; by apply faulty_tail).
  unfold sql_wp, pop_fault. cbn [plan].
  assert (∀ p' : list (option afault), quiet p' →
    match blobs w !! bk with
    | Some f => Q (Ok ()) (mkConn (mkWorld (asset_metadata w) (assets w) (delete bk (blobs w)) (staging w)
                                     (<[name := f]> (quarantine w))) None p')
    | None => Q (Err (filesystem "Asset blob could not be quarantined")) (mkConn w None p')
    end) as Hmove.
  { intros p' Hp'. destruct (blobs w !! bk); [|by apply He]. apply Hk; [done|done|].
    intros k Hk'. cbn. by rewrite lookup_delete_ne. }
  destruct p as [|[f|] p]; cbn [current working committed default set_current plan from_option Datatypes.id fst snd].
  - specialize (Hmove [] Hp). by destruct (blobs w !! bk).
  - destruct f; cbn [fst snd]; try (apply He; eauto). apply IH; eauto.
  - specialize (Hmove p (Htail _ _ Hp)). by destruct (blobs w !! bk).
Qed.
End commands.

End steps.

(** ** Ingest as a whole *)

Section ingest.
Context (d : SourceAssetDescriptor) (w0 : AssetWorld).
Hypothesis length_fits : byte_length d ≤ i64_max.
Hypothesis inv0 : asset_inv w0.
Hypothesis absent0 : assets w0 !! to_text (asset_asset_id d) = None.
Abbreviation key := (to_text (asset_asset_id d)).
Abbreviation bk := (blob_key (asset_asset_id d)).

(** Nothing but the Asset [d] has changed. *)
Definition near (w : AssetWorld) : Prop :=
  blobs_agree d w0 w ∧ (∀ k, k ≠ key → assets w !! k = assets w0 !! k).

Lemma near_grown w : near w → phase d w → grown d w0 w.
Proof. intros [Hb Ha] Hp. by apply phase_grown. Qed.

Lemma near_same w w' : near w → same_assets w w' → near w'.
Proof.
  intros [Hb Ha] [Ha' Hb']. split; [intros k Hk; rewrite Hb'; by apply Hb|].
  intros k Hk. rewrite Ha'. by apply Ha.
Qed.

Lemma near_set_assets w f :
  near w → (∀ k, k ≠ key → f (assets w) !! k = assets w !! k) → near (set_assets f w).
Proof. intros [Hb Ha] Hf. split; [done|]. intros k Hk. cbn. rewrite Hf by done. by apply Ha. Qed.

(** What an ingest promises about the world and the answer. *)
Definition ingested (reason : Prop) (bytes : list Z) (r : result stop AssetInsertOutcome) (c : C)
    : Prop :=
  working c = None ∧ grown d w0 (committed c) ∧
  match r with
  | Ok Inserted => published (committed c) d bytes
  | Ok Existing => ∃ content, published w0 d content
  | Err _ => reason ∧ ∀ d' content, published (committed c) d' content → published w0 d' content
  end.

(** Before the last commit, the row of [d] is absent or staged. *)
Definition pending (w : AssetWorld) : Prop :=
  assets w !! key = None ∨
  assets w !! key = Some (row_of_descriptor d (byte_length d) bk STAGED).

Lemma pending_phase w : pending w → phase d w.
Proof. intros []; [by apply phase_absent|by apply phase_staged]. Qed.

Lemma pending_unpublished w d' content :
  pending w → published w d' content → asset_asset_id d' ≠ asset_asset_id d.
Proof.
  intros Hpend (row & record & Hrow & Hdec & Hst & _) Heq. rewrite Heq in Hrow, Hdec.
  destruct Hpend as [Hx|Hx]; rewrite Hx in Hrow; [done|]. injection Hrow as <-.
  rewrite (decode_row_descriptor d STAGED Staged length_fits eq_refl) in Hdec.
  injection Hdec as <-. done.
Qed.

Lemma ingested_err reason bytes e w p :
  near w → pending w → reason → ingested reason bytes (Err e) (mkConn w None p).
Proof.
  intros Hn Hp Hr. split; [done|]. split; [apply near_grown; [done|by apply pending_phase]|].
  split; [done|]. intros d' content Hpub. pose proof (pending_unpublished _ _ _ Hp Hpub).
  destruct Hn. by apply (published_frame d w0 w).
Qed.

Lemma pending_same w w' : pending w → same_assets w w' → pending w'.
Proof. intros Hp [Hsa _]. unfold pending. by rewrite Hsa. Qed.

(** The error arms: whatever the cleanup does, the Asset is absent or staged. *)
Section arms.
Context (reason : Prop) {A : Type} (Q : result stop A → C → Prop).
Hypothesis HQ : ∀ e w p, near w → pending w → Q (Err e) (mkConn w None p).

Lemma discard_arm path e w p :
  near w → pending w → (faulty p → reason) → sql_wp (discard path e) Q (mkConn w None p).
Proof.
  intros Hn Hph Hp. apply (discard_wp reason); [done|]. intros e' w' p' Hs _.
  apply HQ; [by eapply near_same|by eapply pending_same].
Qed.

Lemma remove_arm (k : sql AssetWorld afault stop A) w p :
  near w → assets w !! key = Some (row_of_descriptor d (byte_length d) bk STAGED) →
  (faulty p → reason) →
  (∀ w' p', near w' → pending w' → (faulty p' → reason) → sql_wp k Q (mkConn w' None p')) →
  sql_wp (ignore (dispatch_remove_staged (asset_asset_id d));; k) Q (mkConn w None p).
Proof.
  intros Hn Hrow Hp Hk. sql_step. apply (remove_staged_wp reason d); [done|done|..]; intros.
  - apply Hk; [done|by right|done].
  - apply HQ; [done|by right].
  - apply Hk; [|left; apply lookup_delete_eq|done].
    apply near_set_assets; [done|]. intros k' Hk'. by apply lookup_delete_ne.
Qed.

Lemma quarantine_arm names e w p :
  near w → assets w !! key = Some (row_of_descriptor d (byte_length d) bk STAGED) →
  (faulty p → reason) →
  sql_wp (ignore (quarantine_async names bk);;
          ignore (dispatch_remove_staged (asset_asset_id d));; sql_fail e) Q (mkConn w None p).
Proof.
  intros Hn Hrow Hp.
  assert (∀ w' p', (faulty p' → reason) → assets w' = assets w → blobs_agree d w w' →
    sql_wp (ignore (dispatch_remove_staged (asset_asset_id d));; sql_fail e) Q (mkConn w' None p'))
    as Hrest.
  { intros w' p' Hp' Ha' Hb'. rewrite <- Ha' in Hrow.
    apply remove_arm; [|done|done|intros; sql_step; by apply HQ].
    destruct Hn as [Hb Ha]. split; [intros k Hk; rewrite Hb' by done; by apply Hb|].
    intros k Hk. rewrite Ha'. by apply Ha. }
  sql_step. unfold ignore at 1. apply sql_wp_on_error. sql_step.
  unfold quarantine_async. apply (quarantine_blob_wp reason d); [done| |].
  - intros [e'|] p2 Hp2; [sql_step; by apply Hrest|]. apply HQ; [done|by right].
  - intros w' p2 Hp2 Ha' Hb'. sql_step. by apply Hrest.
Qed.

Lemma rename_arm path e w p :
  near w → assets w !! key = Some (row_of_descriptor d (byte_length d) bk STAGED) →
  (faulty p → reason) →
  sql_wp (ignore (dispatch_remove_staged (asset_asset_id d));; discard path e) Q (mkConn w None p).
Proof. intros Hn Hrow Hp. apply remove_arm; [done|done|done|]. intros. by apply discard_arm. Qed.
End arms.

(** After the row is staged and the file is in place. *)
Lemma finish_publish_wp (reason : Prop) names bytes w p :
  near w → assets w !! key = Some (row_of_descriptor d (byte_length d) bk STAGED) →
  blobs w !! bk = Some (Regular bytes) → Z.of_nat (length bytes) = byte_length d →
  ContentHash_from_bytes (sha256 bytes) = content_hash d → (faulty p → reason) →
  sql_wp (on_error (dispatch_publish d bk)
            (λ e, ignore (quarantine_async names bk);;
                  ignore (dispatch_remove_staged (asset_asset_id d));; sql_fail e);;
          mret Inserted)
    (ingested reason bytes) (mkConn w None p).
Proof.
  intros Hn Hrow Hblob Hl Hh Hp. sql_step. apply sql_wp_on_error.
  apply (publish_asset_wp reason d length_fits); [done|done| |].
  - intros [e|] p1 Hp1 Hf; [|apply ingested_err; [done|by right|done]].
    apply (quarantine_arm reason); [|done|done|done]. intros e' w' p' Hn' Hph. by apply ingested_err.
  - intros p1 Hp1. sql_step. split; [done|].
    set (w' := set_assets <[key := row_of_descriptor d (byte_length d) bk PUBLISHED]> w).
    assert (near w') as Hn' by (apply near_set_assets; [done|]; intros k Hk; by apply lookup_insert_ne).
    assert (assets w' !! key = Some (row_of_descriptor d (byte_length d) bk PUBLISHED)) as Hrow'
      by apply lookup_insert_eq.
    split; [apply near_grown; [done|]; by apply (phase_published d _ bytes)|].
    eexists _, (mkRecord d bk Published). split; [exact Hrow'|].
    by rewrite (decode_row_descriptor d PUBLISHED Published length_fits eq_refl).
Qed.

(** From the verified staging file on. *)
Lemma publish_staged_wp (reason : Prop) path names bytes w p :
  same_assets w0 w → staging w !! path = Some (Regular bytes) →
  Z.of_nat (length bytes) = byte_length d → ContentHash_from_bytes (sha256 bytes) = content_hash d →
  (faulty p → reason) →
  sql_wp (publish_staged d path bk names) (ingested reason bytes) (mkConn w None p).
Proof.
  intros Hw Hst Hl Hh Hp.
  assert (near w) as Hn by (apply (near_same w0); [done|done]).
  assert (assets w !! key = None) as Hnone by (destruct Hw as [-> _]; done).
  unfold publish_staged. sql_step. apply sql_wp_on_error.
  apply (stage_asset_wp reason d length_fits); [done|done| |].
  { intros [e|] p1 Hp1 Hf; [|apply ingested_err; [done|by left|done]].
    apply (discard_arm reason); [|done|by left|done].
    intros e' w' p' Hn' Hph. by apply ingested_err. }
  intros p1 Hp1. set (w1 := set_assets <[key := row_of_descriptor d (byte_length d) bk STAGED]> w).
  assert (near w1) as Hn1 by (apply near_set_assets; [done|]; intros k Hk; by apply lookup_insert_ne).
  assert (assets w1 !! key = Some (row_of_descriptor d (byte_length d) bk STAGED)) as Hrow1
    by apply lookup_insert_eq.
  sql_step. apply sql_wp_on_error. sql_step.
  { assert reason as Hr by auto.
    destruct e; cbn;
      try (apply (rename_arm reason); [intros; by apply ingested_err|done|done|done]).
    apply ingested_err; [done|by right|done]. }
  cbn [from_option Datatypes.id set_current working committed plan].
  assert (rename_to_blobs path bk w1 =
          Ok (mkWorld (asset_metadata w1) (assets w1) (<[bk := Regular bytes]> (blobs w1))
                (delete path (staging w1)) (quarantine w1))) as Hren
    by (unfold rename_to_blobs; change (staging w1) with (staging w); by rewrite Hst).
  rewrite Hren. apply finish_publish_wp; [|done|apply lookup_insert_eq|done|done|auto].
  destruct Hn1 as [Hb Ha]. split; [|done]. intros k Hk. cbn. rewrite lookup_insert_ne by done. by apply Hb.
Qed.
End ingest.

Lemma grown_refl d w : asset_inv w → grown d w w.
Proof. intros Hinv. split; auto. Qed.

Lemma same_assets_trans w w' w'' : same_assets w w' → same_assets w' w'' → same_assets w w''.
Proof. intros [] []. split; congruence. Qed.

Lemma same_assets_published w0 w d content :
  same_assets w0 w → published w d content ↔ published w0 d content.
Proof. intros [Ha Hb]. unfold published. by rewrite Ha, Hb. Qed.

Lemma same_assets_grown d w0 w : asset_inv w0 → same_assets w0 w → grown d w0 w.
Proof.
  intros Hinv Hw. pose proof (λ d' content, same_assets_published w0 w d' content Hw) as Hp.
  destruct Hw as [Ha Hb].
  split; [|intros; by apply Hp|intros; left; by apply Hp].
  intros k row Hk. rewrite Ha in Hk. destruct (Hinv k row Hk) as (record & ? & ? & Hblob).
  exists record. split_and!; [done|done|]. unfold blob_ok. by rewrite Hb.
Qed.

(** The arms of [ingest] for an identity that is not in the table. *)
Lemma ingest_new_wp d w0 source path names p (reason : Prop) :
  asset_inv w0 → byte_length d ≤ i64_max → assets w0 !! to_text (asset_asset_id d) = None →
  (faulty p → reason) → (staging w0 !! path ≠ None → reason) → (¬ source_good d source → reason) →
  sql_wp ('(length, hash) ← on_error (write_staging path source d) (discard path);
          if negb (length =? byte_length d)
          then discard path (Failed (LengthMismatch (asset_asset_id d) (byte_length d) length)) else
          if negb (bool_decide (hash = content_hash d))
          then discard path (Failed (HashMismatch (asset_asset_id d) (content_hash d) hash)) else
          publish_staged d path (blob_key (asset_asset_id d)) names)
    (ingested d w0 reason (source_bytes source)) (mkConn w0 None p).
Proof.
  intros Hinv Hlen Habsent Hp Hpath Hsource.
  assert (∀ e w p', same_assets w0 w → reason →
    ingested d w0 reason (source_bytes source) (Err e) (mkConn w None p')) as Herr
    by (intros e w p' Hw ?; pose proof (same_assets_grown d w0 w Hinv Hw) as Hg; split; [done|];
        split; [done|]; split; [done|]; intros d' content; by apply (same_assets_published w0 w)).
  sql_step. apply sql_wp_on_error. apply (write_staging_wp reason); [done| |].
  { intros e w p2 Hw Hp2 Hr. assert reason as Hreason.
    { destruct Hr as [|[|[Hends|Hbig]]]; [done|auto| |]; apply Hsource;
        intros (He & Hl & _); [congruence|lia]. }
    destruct e as [e|]; [|by apply Herr].
    apply (discard_wp reason); [done|]. intros e' w' p3 Hw' _. apply Herr; [|done].
    by eapply same_assets_trans. }
  intros w p2 Hw Hp2 Hst Hends.
  assert (∀ e, (¬ source_good d source) →
    sql_wp (discard path e) (ingested d w0 reason (source_bytes source)) (mkConn w None p2)) as Hdiscard.
  { intros e Hbad. apply (discard_wp reason); [done|]. intros e' w' p3 Hw' _.
    apply Herr; [by eapply same_assets_trans|auto]. }
  destruct (Z.eqb_spec (Z.of_nat (length (source_bytes source))) (byte_length d)) as [Hl|Hl]; cbn [negb];
    [|apply Hdiscard; by intros (_ & ? & _)].
  destruct (bool_decide_reflect (ContentHash_from_bytes (sha256 (source_bytes source)) = content_hash d))
    as [Hh|Hh]; cbn [negb]; [|apply Hdiscard; by intros (_ & _ & ?)].
  by apply publish_staged_wp.
Qed.

(** Why an ingest can fail, apart from a failing call. *)
Definition ingest_excuse (d : SourceAssetDescriptor) (w0 : AssetWorld) (source : list source_read)
    (fresh : string) : Prop :=
  i64_max < byte_length d ∨ assets w0 !! to_text (asset_asset_id d) ≠ None ∨
  staging w0 !! (to_text (asset_asset_id d) +:+ "-" +:+ fresh +:+ ".part") ≠ None ∨
  ¬ source_good d source.

Lemma ingest_wp d w0 source fresh names p :
  asset_inv w0 →
  sql_wp (ingest d source fresh names)
    (ingested d w0 (faulty p ∨ ingest_excuse d w0 source fresh) (source_bytes source))
    (mkConn w0 None p).
Proof.
  intros Hinv. set (reason := faulty p ∨ ingest_excuse d w0 source fresh).
  assert (∀ e p', reason → ingested d w0 reason (source_bytes source) (Err e) (mkConn w0 None p'))
    as Herr by (intros; split; [done|]; split; [by apply grown_refl|by split; auto]).
  assert (faulty p → reason) as Hf by (by left).
  assert (ingest_excuse d w0 source fresh → reason) as Hx by (by right).
  unfold ingest_excuse in Hx. unfold ingest. destruct (Z.ltb_spec i64_max (byte_length d)) as [|Hlen];
    [sql_step; apply Herr; auto|].
  sql_step. unfold lookup_record, dispatch. sql_step; sql_step; [apply Herr; auto|].
  eapply (select_asset_wp reason); [auto|done|intros; by apply Herr|].
  intros p1 Hp1. cbn [from_option Datatypes.id].
  destruct (assets w0 !! to_text (asset_asset_id d)) as [row|] eqn:Hrow; [|apply ingest_new_wp; auto].
  assert reason as Hr by (apply Hx; right; by left).
  destruct (Hinv _ _ Hrow) as (record & Hdec & Hkey & Hblob). rewrite Hdec.
  destruct (state record) eqn:Hst; [sql_step; by apply Herr|].
  destruct (decide (descriptor record = d)) as [Heq|Hne]; [|sql_step; by apply Herr].
  sql_step. split; [done|]. split; [by apply grown_refl|].
  destruct (Hblob eq_refl) as (content & Hc & _). exists content, row, record.
  destruct (decode_row_key _ _ _ Hdec) as [Hk _]. subst d. by rewrite <- Hk.
Qed.

(** ** The metadata table is not touched *)

Section metadata.
Context (metadata : gmap string string).

Definition metadata_is (c : C) : Prop :=
  asset_metadata (committed c) = metadata ∧
  ∀ w, working c = Some w → asset_metadata w = metadata.
Definition keeps {A} (m : sql AssetWorld afault stop A) : Prop :=
  ∀ c, metadata_is c → metadata_is (m c).2.

Lemma metadata_current c : metadata_is c → asset_metadata (current c) = metadata.
Proof. intros [Hc Hw]. unfold current. destruct (working c); [by apply Hw|done]. Qed.
Lemma metadata_set_current c w :
  metadata_is c → asset_metadata w = metadata → metadata_is (set_current c w).
Proof.
  intros [Hc Hw] Hm. unfold set_current. destruct (working c); split; cbn; try done. by intros ? [= <-].
Qed.
Lemma metadata_pop c : metadata_is c → metadata_is (pop_fault c).2.
Proof. unfold pop_fault. by destruct (plan c). Qed.

Lemma keeps_bind {A B} (m : sql AssetWorld afault stop A) (k : A → sql AssetWorld afault stop B) :
  keeps m → (∀ a, keeps (k a)) → keeps (m ≫= k).
Proof.
  intros Hm Hk c Hc. unfold mbind, sql_mbind. specialize (Hm c Hc). destruct (m c) as [[a|e] c']; [|done].
  by apply Hk.
Qed.
Lemma keeps_on_error {A} (m : sql AssetWorld afault stop A) handler :
  keeps m → (∀ e, keeps (handler e)) → keeps (on_error m handler).
Proof.
  intros Hm Hk c Hc. unfold on_error. specialize (Hm c Hc). destruct (m c) as [[a|[e|]] c']; try done.
  by apply Hk.
Qed.
Lemma keeps_lift {A} (r : result stop A) : keeps (sql_lift r).
Proof. by intros c. Qed.
Lemma keeps_ret {A} (a : A) : keeps (mret a).
Proof. by intros c. Qed.
Lemma keeps_query {A} h (f : AssetWorld → A) : keeps (sql_query h f).
Proof.
  intros c Hc%metadata_pop. unfold sql_query, sql_call. destruct (pop_fault c) as [[e|] c']; [done|].
  cbn. apply metadata_set_current; [done|]. by apply metadata_current.
Qed.
Lemma keeps_exec h (f : AssetWorld → result stop AssetWorld) :
  (∀ w w', f w = Ok w' → asset_metadata w' = asset_metadata w) → keeps (sql_exec h f).
Proof.
  intros Hf c Hc%metadata_pop. unfold sql_exec, sql_call. destruct (pop_fault c) as [[e|] c']; [done|].
  pose proof (metadata_current _ Hc) as Hm.
  destruct (f (current c')) as [w'|e] eqn:Hw; cbn; apply metadata_set_current; try done.
  by rewrite (Hf _ _ Hw).
Qed.
Lemma keeps_commit h : keeps (sql_commit h).
Proof.
  intros c Hc%metadata_pop. unfold sql_commit, sql_commit_checked.
  destruct (pop_fault c) as [[e|] c']; [done|]. split; [by apply metadata_current|done].
Qed.
Lemma keeps_transaction {A} h (body : sql AssetWorld afault stop A) :
  keeps body → keeps (transaction h body).
Proof.
  intros Hb c Hc%metadata_pop. unfold transaction, sql_begin.
  destruct (pop_fault c) as [[e|] c']; [done|].
  assert (metadata_is (mkConn (committed c') (Some (committed c')) (plan c'))) as Hc'.
  { destruct Hc as [Hc _]. split; cbn; [done|]. by intros ? [= <-]. }
  specialize (Hb _ Hc'). destruct (body _) as [r c'']. destruct Hb as [Hb _]. by split.
Qed.
Lemma keeps_remove_file path : keeps (remove_file_if_present path).
Proof.
  intros c Hc. pose proof (metadata_pop _ Hc) as Hp. unfold remove_file_if_present.
  destruct (pop_fault c) as [[[]|] c']; try done. apply metadata_set_current; [done|].
  by apply metadata_current.
Qed.
Lemma keeps_quarantine names key : keeps (quarantine_blob names key).
Proof.
  induction names as [|name names IH]; [apply keeps_lift|]. intros c Hc.
  pose proof (metadata_pop _ Hc) as Hp. cbn [quarantine_blob].
  destruct (pop_fault c) as [[[]|] c']; try done; [by apply IH|].
  destruct (blobs (current c') !! key); [|done]. apply metadata_set_current; [done|].
  by apply metadata_current.
Qed.

Create HintDb keeps.
#[local] Hint Resolve keeps_ret keeps_lift keeps_query keeps_commit keeps_remove_file keeps_quarantine : keeps.
Ltac solve_keeps :=
  repeat first
    [ lazymatch goal with
      | |- ∀ _, _ => intro
      | |- keeps (_ ≫= _) => apply keeps_bind
      | |- keeps (on_error _ _) => apply keeps_on_error
      | |- keeps (ignore _) => unfold ignore
      | |- keeps (transaction _ _) => apply keeps_transaction
      | |- keeps (sql_touch _) => apply keeps_query
      | |- keeps (sql_fail _) => apply keeps_lift
      | |- keeps (match ?x with _ => _ end) => destruct x
      | |- keeps (let (_, _) := ?x in _) => destruct x
      end
    | solve [auto with keeps] ].

Lemma keeps_dispatch {A} lost (m : sql AssetWorld afault stop A) : keeps m → keeps (dispatch lost m).
Proof. intros Hm. unfold dispatch. solve_keeps. Qed.
Lemma keeps_select message id : keeps (select_asset message id).
Proof. unfold select_asset. solve_keeps. Qed.
Lemma keeps_stage d key : keeps (stage_asset d key).
Proof.
  unfold stage_asset. solve_keeps; try apply keeps_select. apply keeps_exec. intros w w'.
  case_match; [done|]. by intros [= <-].
Qed.
Lemma keeps_publish d key : keeps (publish_asset d key).
Proof.
  unfold publish_asset. solve_keeps; try apply keeps_select. apply keeps_exec. by intros w w' [= <-].
Qed.
Lemma keeps_remove_staged id : keeps (remove_staged id).
Proof. apply keeps_exec. by intros w w' [= <-]. Qed.
Lemma keeps_write_chunks path d source : ∀ n written, keeps (write_chunks path d source n written).
Proof.
  induction source as [|[[|b bs]|] source IH]; intros n written; cbn [write_chunks]; solve_keeps.
  apply keeps_exec. by intros w w' [= <-].
Qed.
Lemma keeps_ingest d source fresh names : keeps (ingest d source fresh names).
Proof.
  unfold ingest, publish_staged, discard, write_staging, lookup_record, lookup_asset, dispatch_stage,
    dispatch_publish, dispatch_remove_staged, quarantine_async.
  solve_keeps; try apply keeps_dispatch; try apply keeps_select; try apply keeps_stage;
    try apply keeps_publish; try apply keeps_remove_staged; try apply keeps_write_chunks.
  - apply keeps_exec. intros w w'. case_match; [done|]. by intros [= <-].
  - apply keeps_exec. intros w w'. unfold rename_to_blobs. case_match; [|done]. by intros [= <-].
Qed.
End metadata.

Lemma ingest_metadata d source fresh names w p :
  asset_metadata (committed (ingest d source fresh names (mkConn w None p)).2) = asset_metadata w.
Proof. by apply (keeps_ingest (asset_metadata w)). Qed.

(** C19. Ingest is safe whatever fails: from a sound store, with any plan of
    failing calls and with the process stopping at any call, the store stays
    sound; every published Asset is still published with the same bytes; the
    only Asset that can be added is the given one.  [Inserted] means that the
    Asset is published with exactly the bytes of the source; [Existing] that it
    already was; and an error, which needs a failing call or a reason in the
    request, publishes nothing. *)
Theorem ingest_is_safe d w0 source fresh names p :
  asset_inv w0 →
  let '(r, c) := ingest d source fresh names (mkConn w0 None p) in
  working c = None ∧ asset_inv (committed c) ∧
  (∀ d' content, published w0 d' content → published (committed c) d' content) ∧
  (∀ d' content, published (committed c) d' content → published w0 d' content ∨ d' = d) ∧
  match r with
  | Ok Inserted => published (committed c) d (source_bytes source)
  | Ok Existing => ∃ content, published w0 d content
  | Err _ => (faulty p ∨ ingest_excuse d w0 source fresh) ∧
             ∀ d' content, published (committed c) d' content → published w0 d' content
  end.
Proof.
  intros Hinv. pose proof (ingest_wp d w0 source fresh names p Hinv) as Hw. unfold sql_wp in Hw.
  destruct (ingest _ _ _ _ _) as [r c]. destruct Hw as (Hwk & [Hi Hkeeps Hadds] & Hr).
  split_and!; try done.
Qed.

End safety.

Section demo.
#[local] Existing Instances Demo.demo_kernel Demo.demo_laws Demo.demo_assets Demo.demo_asset_laws.

(** An Asset of two bytes with its row and its blob, and one that is new. *)
Definition demo_bytes : list Z := [104; 105].
Definition demo_asset (name : string) : SourceAssetDescriptor (AssetKernel := Demo.demo_assets) :=
  Demo.mkAsset name "text/plain" (Demo.mkU64 2 I) (Demo.hash_text (2 :: demo_bytes)) None.
Definition demo_world : AssetWorld :=
  mkWorld ∅
    {[ to_text (asset_asset_id (demo_asset "a")) :=
         row_of_descriptor (demo_asset "a") 2 (blob_key (asset_asset_id (demo_asset "a"))) PUBLISHED ]}
    {[ blob_key (asset_asset_id (demo_asset "a")) := Regular demo_bytes ]} ∅ ∅.

Lemma demo_decode :
  decode_row (H := Demo.demo_kernel) (AK := Demo.demo_assets)
    (to_text (asset_asset_id (demo_asset "a")))
    (row_of_descriptor (demo_asset "a") 2 (blob_key (asset_asset_id (demo_asset "a"))) PUBLISHED)
  = Ok (mkRecord (demo_asset "a") (blob_key (asset_asset_id (demo_asset "a"))) Published).
Proof.
  apply (decode_row_descriptor (H := Demo.demo_kernel) (AK := Demo.demo_assets) (demo_asset "a") PUBLISHED Published);
    [done|reflexivity].
Qed.

Lemma demo_inv : asset_inv (H := Demo.demo_kernel) (AK := Demo.demo_assets) demo_world.
Proof.
  intros key row Hrow. unfold demo_world in Hrow. cbn [assets] in Hrow.
  apply lookup_singleton_Some in Hrow as [<- <-].
  eexists. split; [apply demo_decode|]. split; [done|]. intros _. exists demo_bytes. split; [|done].
  apply lookup_singleton_eq.
Qed.

Lemma demo_published :
  published (H := Demo.demo_kernel) (AK := Demo.demo_assets) demo_world (demo_asset "a") demo_bytes.
Proof.
  eexists _, _. split; [apply lookup_singleton_eq|]. split; [apply demo_decode|].
  split; [done|]. split; [done|]. apply lookup_singleton_eq.
Qed.

(** Witness of C19. *)
Lemma ingest_is_safe_witness :
  let '(r, c) := ingest (H := Demo.demo_kernel) (AK := Demo.demo_assets) (demo_asset "b")
                   [SourceBytes [104]; SourceBytes [105]] "1" (λ _, "orphan"%string)
                   (mkConn demo_world None [None; None; Some IoOther]) in
  working c = None ∧ asset_inv (committed c) ∧
  (∀ d' content, published demo_world d' content → published (committed c) d' content) ∧
  (∀ d' content, published (committed c) d' content →
     published demo_world d' content ∨ d' = demo_asset "b") ∧
  match r with
  | Ok Inserted => published (committed c) (demo_asset "b") demo_bytes
  | Ok Existing => ∃ content, published demo_world (demo_asset "b") content
  | Err _ => (faulty [None; None; Some IoOther] ∨
              ingest_excuse (demo_asset "b") demo_world [SourceBytes [104]; SourceBytes [105]] "1") ∧
             ∀ d' content, published (committed c) d' content → published demo_world d' content
  end.
Proof.
  exact (ingest_is_safe (H := Demo.demo_kernel) (AK := Demo.demo_assets) (demo_asset "b") demo_world
           [SourceBytes [104]; SourceBytes [105]] "1" (λ _, "orphan"%string)
           [None; None; Some IoOther] demo_inv).
Defined.
End demo.
