(* ===== verification/AssetRecovery.v ===== *)
(** * Reading and recovery of the local Asset store

    Range reads return exact slices of what is published and nothing of what is
    not; the scan at opening accepts a store only when every published blob is
    verified, and leaves exactly the published Assets, with empty staging and no
    orphan blobs. *)

From S2P Require Import Prelude Kernel Sql AssetStore AssetSafety.

Section recovery.
Context `{Kernel, !KernelLaws} {AK : AssetKernel} {AL : AssetKernelLaws}.

Abbreviation C := (conn AssetWorld afault).

(** ** Rows *)

Lemma decode_row_state key row record :
  decode_row key row = Ok record →
  state record = Staged ↔ raw_publication_state row = STAGED.
Proof.
  unfold decode_row. intros Hd.
  apply bind_Ok_inv in Hd as (id & _ & Hd). apply bind_Ok_inv in Hd as (len & _ & Hd).
  apply bind_Ok_inv in Hd as (hash & _ & Hd). apply bind_Ok_inv in Hd as (d & _ & Hd).
  destruct (negb _); [done|]. apply bind_Ok_inv in Hd as (st & Hst & Hd). injection Hd as <-. cbn.
  unfold parse_state in Hst. case_bool_decide; [by injection Hst as <-|].
  case_bool_decide; [|done]. by injection Hst as <-.
Qed.

(** Every row decodes, and every published blob is what its row describes. *)
Definition verified (w : AssetWorld) : Prop :=
  ∀ key row, assets w !! key = Some row →
    ∃ record, decode_row key row = Ok record ∧ (state record = Published → blob_ok w record).

Lemma asset_inv_verified w : asset_inv w → verified w.
Proof. intros Hinv key row (record & Hd & _ & Hb)%Hinv. by exists record. Qed.

(** ** Reading *)

Section reading.
Context (fault : Prop).
Abbreviation quiet p := (faulty p → fault).

(** The lookup of a row in a sound store. *)
Lemma lookup_record_wp i w p (Q : result stop (option AssetRecord) → C → Prop) :
  asset_inv w → quiet p →
  (∀ e p', quiet p' → fault → Q (Err e) (mkConn w None p')) →
  (∀ p', quiet p' → assets w !! to_text i = None → Q (Ok None) (mkConn w None p')) →
  (∀ p' row record, quiet p' → assets w !! to_text i = Some row →
     decode_row (to_text i) row = Ok record → Q (Ok (Some record)) (mkConn w None p')) →
  sql_wp (lookup_record i) Q (mkConn w None p).
Proof.
  intros Hinv Hp He Hn Hs. unfold lookup_record, dispatch, lookup_asset.
  sql_step; sql_step; [by apply He; auto|].
  eapply (select_asset_wp fault); [auto|done|intros; by apply He|]. intros p2 Hp2. cbn [from_option Datatypes.id].
  destruct (assets w !! to_text i) as [row|] eqn:Hrow; [|by apply Hn].
  destruct (Hinv _ _ Hrow) as (record & Hd & _). rewrite Hd. by apply (Hs _ row).
Qed.

Lemma published_record w i row record :
  asset_inv w → assets w !! to_text i = Some row → decode_row (to_text i) row = Ok record →
  state record = Published →
  asset_asset_id (descriptor record) = i ∧
  ∃ content, blobs w !! rec_blob_key record = Some (Regular content) ∧
    published w (descriptor record) content ∧
    Z.of_nat (length content) = byte_length (descriptor record).
Proof.
  intros Hinv Hrow Hd Hst. destruct (Hinv _ _ Hrow) as (record' & Hd' & Hkey & Hblob).
  rewrite Hd in Hd'. injection Hd' as <-. apply to_text_inj in Hkey as Hid. split; [done|].
  destruct (Hblob Hst) as (content & Hc & Hl & _). exists content. split_and!; [done| |done].
  exists row, record. rewrite <- Hkey. split_and!; try done.
  by destruct (decode_row_key _ _ _ Hd) as [<- _].
Qed.

Lemma published_unique w d d' content content' :
  published w d content → published w d' content' → asset_asset_id d = asset_asset_id d' →
  d = d' ∧ content = content'.
Proof.
  intros (row & record & Hrow & Hd & _ & <- & Hb) (row' & record' & Hrow' & Hd' & _ & <- & Hb') Heq.
  rewrite Heq in *. split; congruence.
Qed.

Lemma sql_wp_reading {A} (m : sql AssetWorld afault stop A) (Q : result read_stop A → C → Prop) c :
  sql_wp m (λ r c', Q (map_err (λ e, match e with
                                     | Failed e => read_unavailable (safe_detail e)
                                     | Crashed => ReadCrashed
                                     end) r) c') c →
  sql_wp (reading m) Q c.
Proof. unfold sql_wp, reading. by destruct (m c). Qed.

(** What a range read of the Asset [d] with the bytes [content] answers. *)
Definition read_answer (d : SourceAssetDescriptor) (content : list Z) (o l : Z)
    (r : result read_stop AssetByteChunk) : Prop :=
  if byte_length d <? o then r = Err (ReadFailed (RangeOutOfBounds (asset_asset_id d) o (byte_length d)))
  else ∃ chunk, r = Ok chunk ∧ chunk_offset chunk = o ∧
         chunk_bytes chunk = take (Z.to_nat l) (drop (Z.to_nat o) content).

Lemma read_range_wp d content o l range w p (Q : result read_stop AssetByteChunk → C → Prop) :
  asset_inv w → published w d content → AssetByteRange_new o l = Some range → 0 ≤ o → 0 < l →
  quiet p →
  (∀ e p', fault → Q (Err e) (mkConn w None p')) →
  (∀ r p', read_answer d content o l r → Q r (mkConn w None p')) →
  sql_wp (read_range (asset_asset_id d) range) Q (mkConn w None p).
Proof.
  intros Hinv Hpub Hr Ho Hl Hp He Hk. apply byte_range_fields in Hr as [Hoff Hend].
  unfold read_range. sql_step. apply sql_wp_reading. apply lookup_record_wp; [done|done|..].
  { intros e p' _ Hf. by apply He. }
  { intros p' _ Hnone. destruct Hpub as (row & record & Hrow & _). congruence. }
  intros p1 row record Hp1 Hrow Hd.
  destruct Hpub as (row' & record' & Hrow' & Hd' & Hst & <- & Hblob).
  rewrite Hrow in Hrow'. injection Hrow' as <-. rewrite Hd in Hd'. injection Hd' as <-.
  destruct (published_record _ _ _ _ Hinv Hrow Hd Hst) as (_ & content' & Hc & _ & Hlen).
  destruct (decode_row_key _ _ _ Hd) as [Hkey _]. rewrite Hkey, Hblob in Hc. injection Hc as <-.
  cbn [map_err]. sql_step; sql_step. cbn [ok_or]. rewrite bool_decide_eq_true_2 by done. cbn [negb].
  rewrite Hoff. unfold read_answer in Hk.
  destruct (Z.ltb_spec (byte_length (descriptor record)) o) as [Hlt|Hle].
  { sql_step. by apply Hk. }
  sql_step; sql_step; [apply He; auto|]. cbn [from_option Datatypes.id]. rewrite Hkey, Hblob.
  sql_step; sql_step. sql_step; sql_step; [apply He; auto|].
  assert (∀ bytes p', bytes = take (Z.to_nat l) (drop (Z.to_nat o) content) →
    Q (ok_or (read_unavailable "published Asset produced an invalid range chunk")
         (AssetByteChunk_new o bytes (byte_length (descriptor record)))) (mkConn w None p')) as Hchunk.
  { intros bytes p3 ->. destruct (chunk_new o (take (Z.to_nat l) (drop (Z.to_nat o) content))
      (byte_length (descriptor record)) Ho) as [chunk Hchunk].
    { rewrite length_take, length_drop. lia. }
    rewrite Hchunk. apply Hk. exists chunk. split; [done|]. by apply chunk_fields in Hchunk. }
  destruct (Z.eqb_spec o (byte_length (descriptor record))) as [Heq|Hne].
  { sql_step. destruct (chunk_new o [] (byte_length (descriptor record)) Ho) as [chunk Hnew];
      [cbn; lia|]. rewrite Hnew. apply Hk. exists chunk. split; [done|].
    apply chunk_fields in Hnew as [? ->]. split; [done|]. rewrite drop_ge by lia. by rewrite take_nil. }
  rewrite Hend. sql_step; sql_step. cbn [ok_or].
  sql_step; sql_step; [apply He; auto|]. sql_step; sql_step; [apply He; auto|].
  set (n := Z.min (o + l) (byte_length (descriptor record)) - o).
  assert (take (Z.to_nat n) (drop (Z.to_nat o) content) = take (Z.to_nat l) (drop (Z.to_nat o) content))
    as Htake.
  { destruct (Z.le_gt_cases l n) as [Hln|Hln]; [by replace n with l by lia|].
    rewrite !take_ge; [done|rewrite length_drop; lia..]. }
  destruct (Z.ltb_spec (Z.of_nat (length (take (Z.to_nat n) (drop (Z.to_nat o) content)))) n) as [Hbad|_].
  { rewrite length_take, length_drop in Hbad. lia. }
  sql_step. by apply Hchunk.
Qed.
End reading.
(** ** The scan of the rows *)

Section scan.
Context (fault : Prop).
Abbreviation quiet p := (faulty p → fault).

Definition decodes (entry : string * RawAssetRow) (record : AssetRecord) : Prop :=
  decode_row entry.1 entry.2 = Ok record.

Lemma decode_rows_wp rows w : ∀ p (Q : result stop (list AssetRecord) → C → Prop),
  quiet p →
  (∀ e p', quiet p' → fault ∨ ¬ (∃ records, Forall2 decodes rows records) →
     Q (Err e) (mkConn w None p')) →
  (∀ records p', quiet p' → Forall2 decodes rows records → Q (Ok records) (mkConn w None p')) →
  sql_wp (decode_rows rows) Q (mkConn w None p).
Proof.
  induction rows as [|[key row] rows IH]; intros p Q Hp He Hk; cbn [decode_rows].
  { sql_step. by apply Hk. }
  sql_step; sql_step; [apply He; auto|]. sql_step; sql_step.
  destruct (decode_row key row) as [record|e] eqn:Hd.
  2:{ apply He; [auto|]. right. intros (records & Hall). apply Forall2_cons_inv_l in Hall as (r & ? & Hr & _).
      unfold decodes in Hr. cbn in Hr. congruence. }
  sql_step. apply IH; [auto| |].
  - intros e p2 Hp2 [Hf|Hn]; apply He; auto. right. intros (records & Hall). apply Hn.
    apply Forall2_cons_inv_l in Hall as (r & records' & _ & Hall & ->). by exists records'.
  - intros records p2 Hp2 Hall. sql_step. apply Hk; [done|]. by constructor.
Qed.

(** What the rows of a world decode to. *)
Definition scanned (w : AssetWorld) (records : list AssetRecord) : Prop :=
  (∀ key row, assets w !! key = Some row → ∃ record, record ∈ records ∧ decode_row key row = Ok record) ∧
  (∀ record, record ∈ records → ∃ key row, assets w !! key = Some row ∧ decode_row key row = Ok record).

Lemma load_all_records_wp w p (Q : result stop (list AssetRecord) → C → Prop) :
  quiet p →
  (∀ e p', quiet p' → fault ∨ ¬ verified w → Q (Err e) (mkConn w None p')) →
  (∀ records p', quiet p' → scanned w records → Q (Ok records) (mkConn w None p')) →
  sql_wp load_all_records Q (mkConn w None p).
Proof.
  intros Hp He Hk. unfold load_all_records. sql_step; sql_step; [apply He; auto|].
  sql_step; sql_step; [apply He; auto|]. cbn [from_option Datatypes.id].
  pose proof (order_by_perm (λ a b : string * RawAssetRow, String.leb a.1 b.1) (map_to_list (assets w))) as Hperm.
  set (rows := order_by _ _) in *.
  assert (∀ key row, assets w !! key = Some row ↔ (key, row) ∈ rows) as Hin.
  { intros key row. rewrite Hperm. symmetry. apply elem_of_map_to_list. }
  apply decode_rows_wp; [auto| |].
  - intros e p2 Hp2 [Hf|Hn]; apply He; auto. right. intros Hv. apply Hn.
    clear -Hv Hin. assert (∀ e, e ∈ rows → ∃ r, decodes e r) as Hall.
    { intros [key row] (record & Hd & _)%Hin%Hv. by exists record. }
    clear Hin. induction rows as [|e rows IH]; [by exists []|].
    destruct (Hall e) as [r Hr]; [left|]. destruct IH as [rs Hrs]; [intros; apply Hall; by right|].
    exists (r :: rs). by constructor.
  - intros records p2 Hp2 Hall. apply Hk; [done|]. split.
    + intros key row Hrow%Hin. apply list_elem_of_lookup_1 in Hrow as [i Hi].
      destruct (Forall2_lookup_l _ _ _ _ _ Hall Hi) as (record & Hr & Hd).
      exists record. split; [by eapply list_elem_of_lookup_2|done].
    + intros record Hr. apply list_elem_of_lookup_1 in Hr as [i Hi].
      destruct (Forall2_lookup_r _ _ _ _ _ Hall Hi) as ([key row] & Hr & Hd).
      exists key, row. split; [|done]. apply Hin. by eapply list_elem_of_lookup_2.
Qed.

Lemma verify_blob_wp record w p (Q : result stop () → C → Prop) :
  quiet p →
  (∀ e p', quiet p' → fault ∨ ¬ blob_ok w record → Q (Err e) (mkConn w None p')) →
  (∀ p', quiet p' → blob_ok w record → Q (Ok ()) (mkConn w None p')) →
  sql_wp (verify_blob record) Q (mkConn w None p).
Proof.
  intros Hp He Hk. unfold verify_blob. sql_step; sql_step; [apply He; auto|].
  cbn [from_option Datatypes.id]. sql_step; sql_step.
  destruct (blobs w !! rec_blob_key record) as [[content|]|] eqn:Hb;
    [|apply He; [auto|]; right; intros (c & Hc & _); congruence..].
  assert (∀ P : Prop, ¬ P → (blob_ok w record → P) → fault ∨ ¬ blob_ok w record) as Hbad
    by (intros P HP Himp; right; auto).
  destruct (Z.eqb_spec (Z.of_nat (length content)) (byte_length (descriptor record))) as [Hl|Hl]; cbn [negb].
  2:{ sql_step. apply He; [auto|]. apply (Hbad _ Hl). intros (c & Hc & ? & _). congruence. }
  sql_step; sql_step; [apply He; auto|]. sql_step; sql_step; [apply He; auto|].
  destruct (bool_decide_reflect (ContentHash_from_bytes (sha256 content) = content_hash (descriptor record)))
    as [Hh|Hh]; cbn [negb].
  - sql_step. apply Hk; [auto|]. by exists content.
  - sql_step. apply He; [auto|]. apply (Hbad _ Hh). intros (c & Hc & _ & ?). congruence.
Qed.

Definition published_keys (records : list AssetRecord) : list string :=
  rec_blob_key <$> filter (λ r, state r = Published) records.
Definition staged_ids (records : list AssetRecord) : list AssetId :=
  (λ r, asset_asset_id (descriptor r)) <$> filter (λ r, state r = Staged) records.
Definition all_ok (w : AssetWorld) (records : list AssetRecord) : Prop :=
  ∀ record, record ∈ records → state record = Published → blob_ok w record.

Lemma recover_records_wp w records : ∀ keys ids p (Q : result stop (gset string * list AssetId) → C → Prop),
  quiet p →
  (∀ e p', quiet p' → fault ∨ ¬ all_ok w records → Q (Err e) (mkConn w None p')) →
  (∀ keys' p', quiet p' → all_ok w records →
     (∀ k, k ∈ keys' ↔ k ∈ keys ∨ k ∈ published_keys records) →
     Q (Ok (keys', ids ++ staged_ids records)) (mkConn w None p')) →
  sql_wp (recover_records records keys ids) Q (mkConn w None p).
Proof.
  induction records as [|record records IH]; intros keys ids p Q Hp He Hk; cbn [recover_records].
  { sql_step. specialize (Hk keys p Hp). cbn in Hk. rewrite app_nil_r in Hk. apply Hk.
    - intros r Hr. by apply elem_of_nil in Hr.
    - intros k. rewrite elem_of_nil. tauto. }
  assert (all_ok w (record :: records) → all_ok w records) as Htail
    by (intros Hall r Hr; apply Hall; by right).
  destruct (state record) eqn:Hst.
  - apply IH; [auto| |].
    { intros e p2 Hp2 Hr. apply He; [done|]. tauto. }
    intros keys' p2 Hp2 Hall Hkeys. rewrite <- app_assoc. specialize (Hk keys' p2 Hp2).
    unfold published_keys, staged_ids in *. rewrite !filter_cons, !Hst in Hk.
    rewrite (decide_True (P := Staged = Staged)), (decide_False (P := Staged = Published)) in Hk by done.
    apply Hk; [|done].
    intros r Hr Hs. apply elem_of_cons in Hr as [->|Hr]; [congruence|by apply Hall].
  - sql_step. apply verify_blob_wp; [auto| |].
    { intros e p2 Hp2 Hr. apply He; [done|]. destruct Hr as [|Hr]; [by left|right]. intros Hall. apply Hr.
      apply Hall; [left|done]. }
    intros p1 Hp1 Hok. apply IH; [auto| |].
    { intros e p2 Hp2 Hr. apply He; [done|]. tauto. }
    intros keys' p2 Hp2 Hall Hkeys. specialize (Hk keys' p2 Hp2).
    unfold published_keys, staged_ids in *. rewrite !filter_cons, !Hst in Hk.
    rewrite decide_True in Hk by done. rewrite decide_False in Hk by done. apply Hk.
    + intros r Hr Hs. apply elem_of_cons in Hr as [->|Hr]; [done|by apply Hall].
    + intros k. rewrite Hkeys, fmap_cons, elem_of_cons, elem_of_union, elem_of_singleton. tauto.
Qed.
End scan.

(** ** Deletions and the quarantine *)

Lemma delete_staged_row_lookup key rows k :
  delete_staged_row key rows !! k =
  match rows !! k with
  | Some row => if bool_decide (k = key ∧ raw_publication_state row = STAGED) then None else Some row
  | None => None
  end.
Proof.
  unfold delete_staged_row. destruct (decide (k = key)) as [->|Hne].
  - destruct (rows !! key) as [row|] eqn:Hr; [|done].
    destruct (decide (raw_publication_state row = STAGED)) as [Hs|Hs].
    + rewrite !bool_decide_eq_true_2 by done. apply lookup_delete_eq.
    + rewrite !bool_decide_eq_false_2 by tauto. done.
  - assert (∀ row, bool_decide (k = key ∧ raw_publication_state row = STAGED) = false) as Hb
      by (intros row; apply bool_decide_eq_false_2; tauto).
    destruct (rows !! key) as [row|] eqn:Hr.
    + case_match; [rewrite lookup_delete_ne by done|]; destruct (rows !! k); by rewrite ?Hb.
    + destruct (rows !! k); by rewrite ?Hb.
Qed.

Definition delete_rows (ids : list AssetId) (rows : gmap string RawAssetRow) : gmap string RawAssetRow :=
  foldl (λ rows id, delete_staged_row (to_text id) rows) rows ids.

Lemma delete_rows_lookup ids : ∀ rows k,
  delete_rows ids rows !! k =
  match rows !! k with
  | Some row => if bool_decide (k ∈ to_text <$> ids ∧ raw_publication_state row = STAGED) then None
                else Some row
  | None => None
  end.
Proof.
  induction ids as [|id ids IH]; intros rows k; cbn.
  - destruct (rows !! k); [|done]. rewrite bool_decide_eq_false_2; [done|]. intros [Hk _].
    by apply elem_of_nil in Hk.
  - change (foldl _ _ ids) with (delete_rows ids (delete_staged_row (to_text id) rows)). rewrite IH, delete_staged_row_lookup. destruct (rows !! k) as [row|]; [|done].
    destruct (decide (raw_publication_state row = STAGED)) as [Hs|Hs];
      [|rewrite !bool_decide_eq_false_2 by tauto; done].
    destruct (decide (k = to_text id)) as [->|Hne].
    + rewrite !bool_decide_eq_true_2; [done| |done]. split; [left|done].
    + rewrite bool_decide_eq_false_2 by tauto.
      apply (f_equal (λ b : bool, if b then None else Some row)). apply bool_decide_ext.
      rewrite elem_of_cons. tauto.
Qed.

Section cleanup.
Context (fault : Prop).
Abbreviation quiet p := (faulty p → fault).

Lemma delete_staged_wp ids w0 : ∀ w p (Q : result stop () → C → Prop),
  quiet p →
  (∀ e w' p', quiet p' → fault → Q (Err e) (mkConn w0 (Some w') p')) →
  (∀ p', quiet p' → Q (Ok ()) (mkConn w0 (Some (set_assets (delete_rows ids) w)) p')) →
  sql_wp (delete_staged ids) Q (mkConn w0 (Some w) p).
Proof.
  induction ids as [|id ids IH]; intros w p Q Hp He Hk; cbn [delete_staged].
  { sql_step. specialize (Hk p Hp). destruct w. by apply Hk. }
  sql_step; sql_step; [apply He; auto|]. cbn [from_option Datatypes.id set_current working committed plan].
  apply IH; auto.
Qed.

Lemma quarantine_entry_wp take_entry w w' f names : ∀ p (Q : result stop () → C → Prop),
  quiet p → (names = [] → fault) → take_entry w = (w', Some f) →
  (∀ e p', quiet p' → fault → Q (Err e) (mkConn w None p')) →
  (∀ name p', quiet p' →
     Q (Ok ()) (mkConn (mkWorld (asset_metadata w') (assets w') (blobs w') (staging w')
                          (<[name := f]> (quarantine w'))) None p')) →
  sql_wp (quarantine_entry names take_entry) Q (mkConn w None p).
Proof.
  induction names as [|name names IH]; intros p Q Hp Hn Htake He Hk; cbn [quarantine_entry].
  { sql_step. apply He; auto. }
  assert (∀ (o : option afault) p', quiet (o :: p') → quiet p') as Htail
    by (intros o p' Hq Hf; apply Hq; by apply faulty_tail).
  assert (∀ (o : afault) p', quiet (Some o :: p') → fault) as Hhead by (intros o p' Hq; apply Hq, faulty_head).
  unfold sql_wp, pop_fault. cbn [plan].
  destruct p as [|[o|] p]; cbn [current working committed default set_current plan from_option Datatypes.id fst snd].
  - rewrite Htake. by apply Hk.
  - pose proof (Htail _ _ Hp) as Hp'. pose proof (Hhead _ _ Hp) as Hf.
    destruct o; cbn [fst snd]; try (by apply He). by apply IH.
  - rewrite Htake. apply Hk. by apply (Htail _ _ Hp).
Qed.

Lemma quarantine_staging_wp names paths : ∀ w p (Q : result stop () → C → Prop),
  NoDup paths → (∀ x, x ∈ paths → is_Some (staging w !! x)) → quiet p →
  (∀ e w' p', same_assets w w' → quiet p' → fault → Q (Err e) (mkConn w' None p')) →
  (∀ w' p', same_assets w w' → quiet p' →
     (∀ x, is_Some (staging w' !! x) → is_Some (staging w !! x) ∧ x ∉ paths) →
     Q (Ok ()) (mkConn w' None p')) →
  sql_wp (quarantine_staging names paths) Q (mkConn w None p).
Proof.
  induction paths as [|path paths IH]; intros w p Q Hnd Hin Hp He Hk; cbn [quarantine_staging].
  { sql_step. apply Hk; [done|done|]. intros x Hx. split; [done|apply not_elem_of_nil]. }
  apply NoDup_cons in Hnd as [Hnew Hnd]. destruct (Hin path ltac:(left)) as [f Hf].
  sql_step; sql_step; [apply He; auto; done|].
  sql_step. apply (quarantine_entry_wp _ _ (set_staging (delete path) w) f); [auto|done|..].
  { unfold take_staging. by rewrite Hf. }
  { intros e p2 Hp2 Hfault. by apply He. }
  intros name p2 Hp2. apply IH; [done| |done| |].
  - intros x Hx. cbn. rewrite lookup_delete_ne by (intros <-; done). apply Hin. by right.
  - intros e w' p3 Hs Hp3 Hfault. apply He; [|done|done]. exact Hs.
  - intros w' p3 Hs Hp3 Hgone. apply Hk; [exact Hs|done|]. intros x Hx.
    destruct (Hgone x Hx) as [[y Hy] Hnot]. cbn in Hy. apply lookup_delete_Some in Hy as [Hne Hy].
    split; [by exists y|]. rewrite elem_of_cons. by intros [->|].
Qed.

(** Only blobs outside [keys] are moved away. *)
Definition pruned (keys : gset string) (w w' : AssetWorld) : Prop :=
  assets w' = assets w ∧ staging w' = staging w ∧
  (∀ k, k ∈ keys → blobs w' !! k = blobs w !! k) ∧
  (∀ k, is_Some (blobs w' !! k) → is_Some (blobs w !! k)).

Lemma quarantine_orphans_wp names keys entries : ∀ w p (Q : result stop () → C → Prop),
  NoDup entries → (∀ x, x ∈ entries → is_Some (blobs w !! x)) → quiet p →
  (∀ e w' p', pruned keys w w' → quiet p' → fault → Q (Err e) (mkConn w' None p')) →
  (∀ w' p', pruned keys w w' → quiet p' →
     (∀ x, x ∈ entries → is_Some (blobs w' !! x) → x ∈ keys) → Q (Ok ()) (mkConn w' None p')) →
  sql_wp (quarantine_orphans names keys entries) Q (mkConn w None p).
Proof.
  induction entries as [|name entries IH]; intros w p Q Hnd Hin Hp He Hk; cbn [quarantine_orphans].
  { sql_step. apply Hk; [done|done|]. intros x Hx. by apply elem_of_nil in Hx. }
  apply NoDup_cons in Hnd as [Hnew Hnd]. destruct (Hin name ltac:(left)) as [f Hf].
  sql_step; sql_step; [apply He; auto; done|]. sql_step.
  destruct (bool_decide_reflect (name ∈ keys)) as [Hkey|Hkey].
  { sql_step. apply IH; [done|intros; apply Hin; by right|auto|done|].
    intros w' p2 Hpr Hp2 Hrest. apply Hk; [done|done|]. intros x [->|Hx]%elem_of_cons Hs; [done|by apply Hrest]. }
  set (w1 := mkWorld (asset_metadata w) (assets w) (delete name (blobs w)) (staging w) (quarantine w)).
  apply (quarantine_entry_wp _ _ w1 f); [auto|done|unfold take_blob; by rewrite Hf| |].
  { intros e p2 Hp2 Hfault. by apply He. }
  intros new p2 Hp2.
  assert (∀ w', pruned keys (mkWorld (asset_metadata w1) (assets w1) (blobs w1) (staging w1)
                               (<[new := f]> (quarantine w1))) w' →
    pruned keys w w' ∧ blobs w' !! name = None) as Hw.
  { intros w' (Ha & Hst & Hb & Hd). cbn in *. split; [split_and!|]; try done.
    - intros k Hk'. rewrite Hb by done. by rewrite lookup_delete_ne by (intros <-; done).
    - intros k [y Hy]. destruct (Hd k ltac:(by exists y)) as [z Hz].
      apply lookup_delete_Some in Hz as [_ Hz]. by exists z.
    - destruct (blobs w' !! name) eqn:Hn; [|done]. destruct (Hd name ltac:(by eexists)) as [z Hz].
      by rewrite lookup_delete_eq in Hz. }
  apply IH; [done| |done| |].
  - intros x Hx. cbn. rewrite lookup_delete_ne by (intros <-; done). apply Hin. by right.
  - intros e w' p3 [Hpr _]%Hw Hp3 Hfault. by apply He.
  - intros w' p3 [Hpr Hgone]%Hw Hp3 Hrest. apply Hk; [done|done|].
    intros x [->|Hx]%elem_of_cons [y Hy]; [congruence|]. apply Hrest; [done|by exists y].
Qed.
End cleanup.

(** ** Recovery as a whole *)

(** Rows in flight may go, and blobs outside [keys]; everything else stays. *)
Record kept (keys : gset string) (w w' : AssetWorld) : Prop := {
  kept_old : ∀ k row, assets w' !! k = Some row → assets w !! k = Some row;
  kept_rows : ∀ k row, assets w !! k = Some row → raw_publication_state row ≠ STAGED →
                       assets w' !! k = Some row;
  kept_blobs : ∀ k, k ∈ keys → blobs w' !! k = blobs w !! k
}.

Definition covers (keys : gset string) (w : AssetWorld) : Prop :=
  ∀ key row record, assets w !! key = Some row → decode_row key row = Ok record →
    state record = Published → rec_blob_key record ∈ keys.

Lemma kept_inv keys w w' : covers keys w → kept keys w w' → asset_inv w → asset_inv w'.
Proof.
  intros Hc Hk Hinv key row Hrow%(kept_old _ _ _ Hk).
  destruct (Hinv _ _ Hrow) as (record & Hd & Hkey & Hb). exists record. split_and!; [done|done|].
  intros Hst. destruct (Hb Hst) as (content & Hcontent & Hrest). exists content. split; [|done].
  rewrite (kept_blobs _ _ _ Hk); [done|]. by eapply Hc.
Qed.

Lemma kept_published keys w w' d content :
  covers keys w → kept keys w w' → published w' d content ↔ published w d content.
Proof.
  intros Hc Hk. split; intros (row & record & Hrow & Hd & Hst & <- & Hb);
    pose proof (proj1 (decode_row_key _ _ _ Hd)) as Hkey.
  - apply (kept_old _ _ _ Hk) in Hrow. exists row, record. split_and!; try done.
    rewrite <- (kept_blobs _ _ _ Hk); [done|]. rewrite <- Hkey. by eapply Hc.
  - exists row, record. split_and!; try done.
    + apply (kept_rows _ _ _ Hk); [done|]. rewrite <- (decode_row_state _ _ _ Hd). by rewrite Hst.
    + rewrite (kept_blobs _ _ _ Hk); [done|]. rewrite <- Hkey. by eapply Hc.
Qed.

(** A store with nothing in flight and nothing left over. *)
Record clean (w : AssetWorld) : Prop := {
  clean_rows : ∀ key row, assets w !! key = Some row → raw_publication_state row ≠ STAGED;
  clean_staging : ∀ path, staging w !! path = None;
  clean_blobs : ∀ key, is_Some (blobs w !! key) →
    ∃ d content, published w d content ∧ key = blob_key (asset_asset_id d)
}.

(** What the recovery of [w] promises. *)
Definition recovered {A} (reason : Prop) (w : AssetWorld) (r : result stop A) (c : C) : Prop :=
  working c = None ∧
  (∀ a, r = Ok a → verified w) ∧
  (asset_inv w →
     asset_inv (committed c) ∧
     (∀ d content, published (committed c) d content ↔ published w d content) ∧
     match r with Ok _ => clean (committed c) | Err _ => reason end).

Lemma kept_trans keys w w' w'' : kept keys w w' → kept keys w' w'' → kept keys w w''.
Proof.
  intros Hk Hk'. split.
  - intros k row Hr. by apply (kept_old _ _ _ Hk), (kept_old _ _ _ Hk').
  - intros k row Hr Hs. apply (kept_rows _ _ _ Hk'); [|done]. by apply (kept_rows _ _ _ Hk).
  - intros k Hin. by rewrite (kept_blobs _ _ _ Hk'), (kept_blobs _ _ _ Hk).
Qed.
Lemma same_assets_kept keys w w' : same_assets w w' → kept keys w w'.
Proof. intros [Ha Hb]. split; intros; congruence. Qed.
Lemma pruned_kept keys w w' : pruned keys w w' → kept keys w w'.
Proof. intros (Ha & _ & Hb & _). split; try congruence. done. Qed.
Lemma delete_rows_kept keys ids w : kept keys w (set_assets (delete_rows ids) w).
Proof.
  split; cbn; [| |done]; intros k row; rewrite delete_rows_lookup.
  - destruct (assets w !! k); [|done]. by case_match.
  - intros -> Hs. rewrite bool_decide_eq_false_2 by tauto. done.
Qed.

Section whole.
Context (reason : Prop) (w0 : AssetWorld) (records : list AssetRecord) (keys : gset string).
Hypothesis scan0 : scanned w0 records.
Hypothesis ok0 : all_ok w0 records.
Hypothesis keys0 : ∀ k, k ∈ keys ↔ k ∈ published_keys records.

Lemma scan_verified : verified w0.
Proof.
  intros key row (record & Hin & Hd)%(proj1 scan0). exists record. split; [done|]. by apply ok0.
Qed.
Lemma scan_covers : covers keys w0.
Proof.
  intros key row record Hrow Hd Hst. apply keys0, list_elem_of_fmap. exists record. split; [done|].
  apply list_elem_of_filter. split; [done|].
  destruct (proj1 scan0 _ _ Hrow) as (record' & Hin & Hd'). rewrite Hd in Hd'. by injection Hd' as <-.
Qed.

Lemma recovered_err {A} e w p : kept keys w0 w → reason → recovered (A := A) reason w0 (Err e) (mkConn w None p).
Proof.
  intros Hk Hr. split; [done|]. split; [done|]. intros Hinv. pose proof scan_covers.
  split_and!; [by eapply kept_inv|intros; by eapply kept_published|done].
Qed.

Lemma recovered_ok w p :
  kept keys w0 w → (∀ k row, assets w !! k = Some row → asset_inv w0 → raw_publication_state row ≠ STAGED) →
  (∀ path, staging w !! path = None) → (∀ k, is_Some (blobs w !! k) → k ∈ keys) →
  recovered reason w0 (Ok ()) (mkConn w None p).
Proof.
  intros Hk Hrows Hst Hblobs. split; [done|]. split; [intros _ _; exact scan_verified|]. intros Hinv.
  pose proof scan_covers as Hc.
  split_and!; [by eapply kept_inv|intros; by eapply kept_published|]. split; [eauto|done|].
  intros k Hs%Hblobs. apply keys0, list_elem_of_fmap in Hs as (record & -> & Hf).
  apply list_elem_of_filter in Hf as [Hpub Hin].
  destruct (proj2 scan0 _ Hin) as (key & row & Hrow & Hd).
  destruct (Hinv _ _ Hrow) as (record' & Hd' & -> & _). rewrite Hd in Hd'. injection Hd' as <-.
  destruct (published_record _ _ _ _ Hinv Hrow Hd Hpub) as (_ & content & _ & Hp & _).
  exists (descriptor record), content. split; [by apply (kept_published keys w0)|].
  by destruct (decode_row_key _ _ _ Hd).
Qed.

(** After the deletions, no row is staged. *)
Lemma delete_rows_clean k row :
  delete_rows (staged_ids records) (assets w0) !! k = Some row → asset_inv w0 →
  raw_publication_state row ≠ STAGED.
Proof.
  rewrite delete_rows_lookup. intros Hr Hinv Hs. destruct (assets w0 !! k) as [row'|] eqn:Hrow; [|done].
  case_bool_decide as Hb; [done|]. injection Hr as ->. apply Hb. split; [|done].
  destruct (proj1 scan0 _ _ Hrow) as (record & Hin & Hd).
  destruct (Hinv _ _ Hrow) as (record' & Hd' & -> & _). rewrite Hd in Hd'. injection Hd' as <-.
  apply list_elem_of_fmap. eexists. split; [reflexivity|]. apply list_elem_of_fmap.
  exists record. split; [done|]. apply list_elem_of_filter. split; [|done].
  by apply (decode_row_state _ _ _ Hd).
Qed.

(** From the emptied table on: both directories are swept. *)
Lemma sweep_wp names w p :
  kept keys w0 w → (∀ k row, assets w !! k = Some row → asset_inv w0 → raw_publication_state row ≠ STAGED) →
  (faulty p → reason) →
  sql_wp (paths ← sql_query (any_fault (filesystem "Asset recovery directory could not be read"))
                    (λ w, (map_to_list (staging w)).*1);
          quarantine_staging names paths;;
          entries ← sql_query (any_fault (filesystem "Asset blob directory could not be read"))
                      (λ w, (map_to_list (blobs w)).*1);
          quarantine_orphans names keys entries)
    (recovered reason w0) (mkConn w None p).
Proof.
  intros Hk Hrows Hp. sql_step; sql_step; [apply recovered_err; auto|]. cbn [from_option Datatypes.id].
  assert (∀ (m : gmap string file) x, x ∈ (map_to_list m).*1 ↔ is_Some (m !! x)) as Hkeys.
  { intros m x. rewrite list_elem_of_fmap. split.
    - intros ([k f] & -> & Hin%elem_of_map_to_list). by exists f.
    - intros [f Hf%elem_of_map_to_list]. by exists (x, f). }
  sql_step. apply (quarantine_staging_wp reason);
    [apply NoDup_fst_map_to_list|intros x; apply Hkeys|auto| |].
  { intros e w' p2 Hs _ Hr. apply recovered_err; [|done]. eapply kept_trans; [done|by apply same_assets_kept]. }
  intros w1 p2 Hs Hp2 Hgone.
  assert (kept keys w0 w1) as Hk1 by (eapply kept_trans; [done|by apply same_assets_kept]).
  assert (∀ path, staging w1 !! path = None) as Hempty.
  { intros path. destruct (staging w1 !! path) eqn:Hx; [|done].
    destruct (Hgone path ltac:(by eexists)) as [Hin Hnot]. by apply Hkeys in Hin. }
  sql_step; sql_step; [apply recovered_err; auto|]. cbn [from_option Datatypes.id].
  apply (quarantine_orphans_wp reason); [apply NoDup_fst_map_to_list|intros x; apply Hkeys|auto| |].
  { intros e w' p4 Hpr _ Hr. apply recovered_err; [|done]. eapply kept_trans; [done|by apply pruned_kept]. }
  intros w2 p4 Hpr Hp4 Hin. apply recovered_ok.
  - eapply kept_trans; [done|by apply pruned_kept].
  - destruct Hpr as (-> & _). destruct Hs as [-> _]. done.
  - intros path. destruct Hpr as (_ & -> & _). apply Hempty.
  - intros k Hb. apply Hin; [|done]. apply Hkeys. destruct Hpr as (_ & _ & _ & Hpr). by apply Hpr.
Qed.
End whole.

Lemma recover_storage_wp names w p :
  sql_wp (recover_storage names) (recovered (faulty p) w) (mkConn w None p).
Proof.
  assert (∀ e p', faulty p ∨ ¬ verified w → recovered (A := ()) (faulty p) w (Err e) (mkConn w None p')) as Herr.
  { intros e p' Hr. split; [done|]. split; [done|]. intros Hinv. split_and!; [done|done|].
    destruct Hr as [|Hr]; [done|]. destruct Hr. by apply asset_inv_verified. }
  unfold recover_storage. sql_step. apply (load_all_records_wp (faulty p)); [auto|auto|].
  intros records p1 Hp1 Hscan. sql_step. apply (recover_records_wp (faulty p)); [auto| |].
  { intros e p2 _ Hr. apply Herr. destruct Hr as [|Hr]; [by left|right]. intros Hv. apply Hr.
    intros record (key & row & Hrow & Hd)%(proj2 Hscan) Hst.
    destruct (Hv _ _ Hrow) as (record' & Hd' & Hok). rewrite Hd in Hd'. injection Hd' as <-. auto. }
  intros keys p2 Hp2 Hok Hkeys. cbn [app].
  assert (∀ k, k ∈ keys ↔ k ∈ published_keys records) as Hkeys'
    by (intros k; rewrite Hkeys, elem_of_empty; tauto).
  pose proof (delete_rows_clean w records Hscan) as Hclean.
  sql_step. case_bool_decide as Hids.
  { rewrite Hids in Hclean. sql_step. eapply sweep_wp; [done|done|done|done|done|done]. }
  sql_step; [eapply recovered_err; [done|done|done|auto]|]. sql_step.
  apply (delete_staged_wp (faulty p)); [auto| |].
  { intros e w' p4 _ Hf. eapply recovered_err; [done|done|done|done]. }
  intros p4 Hp4. sql_step; [eapply recovered_err; [done|done|done|auto]|].
  cbn [from_option Datatypes.id drop_transaction committed plan].
  eapply sweep_wp; [done|done|done|apply delete_rows_kept|exact Hclean|auto].
Qed.

(** ** Opening *)

(** The stored schema version and identity are absent or usable. *)
Definition metadata_usable (w : AssetWorld) : Prop :=
  (∀ v, asset_metadata w !! "schema_version" = Some v → parse_i64 v = Some SUPPORTED_SCHEMA_VERSION) ∧
  (∀ v, asset_metadata w !! "physical_store_id" = Some v → is_Some (of_text (T := EntityId) v)).

Lemma recovered_mono {A B} (P P' : Prop) w w' (r : result stop A) (r' : result stop B) c :
  same_assets w w' → (P' → P) → (∀ b, r' = Ok b → ∃ a, r = Ok a) → (∀ e, r' = Err e → ∃ e', r = Err e') →
  recovered P' w' r c → recovered P w r' c.
Proof.
  intros Hs HP Hr Hre (Hw & Hv & Hk).
  assert (same_assets w' w) as Hs' by (destruct Hs as [? ?]; by split).
  split; [done|]. split.
  - intros b Hb key row Hrow. destruct (Hr b Hb) as [a Ha]. destruct Hs as [Ha' Hb'].
    rewrite <- Ha' in Hrow. destruct (Hv a Ha _ _ Hrow) as (record & Hd & Hok). exists record.
    split; [done|]. intros Hst. specialize (Hok Hst). unfold blob_ok in *. by rewrite <- Hb'.
  - intros Hinv. destruct Hk as (Hi & Hp & Hm).
    { intros key row. destruct Hs as [Ha Hb]. rewrite Ha. intros Hrow.
      destruct (Hinv _ _ Hrow) as (record & ? & ? & Hok). exists record. split_and!; [done|done|].
      unfold blob_ok. by rewrite Hb. }
    split; [done|]. split; [intros d content; by rewrite Hp, (same_assets_published w w')|].
    destruct r' as [b|e]; [destruct (Hr b eq_refl) as [a ->]|destruct (Hre e eq_refl) as [a ->]]; auto.
Qed.

Definition opening_reason (p : list (option afault)) (quick_check : string) (w : AssetWorld) : Prop :=
  faulty p ∨ quick_check ≠ "ok"%string ∨ ¬ metadata_usable w.

Lemma recovered_stay {A} (reason : Prop) w w' e p :
  same_assets w w' → reason → recovered (A := A) reason w (Err e) (mkConn w' None p).
Proof.
  intros Hs Hr. apply (recovered_mono (A := A) reason reason w w' (Err e)); [done|done|done|eauto|].
  split; [done|]. split; [done|]. by intros Hinv.
Qed.

Lemma insert_metadata_wp message key value w p (reason : Prop) (Q : result stop () → C → Prop) :
  asset_metadata w !! key = None → (faulty p → reason) →
  (∀ e p', reason → Q (Err e) (mkConn w None p')) →
  (∀ p', (faulty p' → reason) →
     Q (Ok ()) (mkConn (mkWorld (<[key := value]> (asset_metadata w)) (assets w) (blobs w) (staging w)
                          (quarantine w)) None p')) →
  sql_wp (insert_asset_metadata message key value) Q (mkConn w None p).
Proof.
  intros Hnone Hp He Hk. unfold insert_asset_metadata. sql_step; [apply He; auto|].
  cbn [from_option Datatypes.id]. rewrite Hnone. apply Hk. auto.
Qed.

(** From the identity of the store on. *)
Lemma identify_wp quick_check (fresh : EntityId) names w w1 p (reason : Prop) :
  same_assets w w1 → (faulty p → reason) → (quick_check ≠ "ok"%string → reason) →
  ((∃ v, asset_metadata w1 !! "physical_store_id" = Some v ∧ of_text (T := EntityId) v = None) → reason) →
  sql_wp (E := stop) (A := EntityId) (stored ← metadata_value "physical_store_id";
          physical ← match stored with
                     | Some value => sql_lift (ok_or (corruption "Asset physical store identity is malformed")
                                                 (of_text value))
                     | None => insert_asset_metadata "Asset physical store identity creation failed"
                                 "physical_store_id" (to_text fresh);; mret fresh
                     end;
          sql_touch (any_fault (corruption "Asset SQLite physical integrity check failed"));;
          (if negb (bool_decide (quick_check = "ok"%string))
           then sql_fail (corruption "Asset SQLite physical integrity check failed") else mret ());;
          recover_storage names;;
          mret physical)
    (recovered reason w) (mkConn w1 None p).
Proof.
  intros Hs Hp Hq Hid.
  assert (∀ (physical : EntityId) w2 p2, same_assets w w2 → (faulty p2 → reason) →
    sql_wp (sql_touch (any_fault (corruption "Asset SQLite physical integrity check failed"));;
          (if negb (bool_decide (quick_check = "ok"%string))
           then sql_fail (corruption "Asset SQLite physical integrity check failed") else mret ());;
          recover_storage names;; mret physical) (recovered reason w) (mkConn w2 None p2)) as Hrest.
  { intros physical w2 p2 Hs2 Hp2. sql_step; sql_step; [apply recovered_stay; auto|]. sql_step.
    case_bool_decide as Hok; cbn [negb]; [|sql_step; apply recovered_stay; auto]. sql_step. sql_step.
    eapply sql_wp_mono; [apply recover_storage_wp|]. intros r c Hr.
    destruct r as [[]|e]; [sql_step|]; eapply (recovered_mono _ _ w w2); try exact Hr; eauto; done. }
  sql_step. unfold metadata_value. sql_step; [apply recovered_stay; auto|]. cbn [from_option Datatypes.id].
  destruct (asset_metadata w1 !! "physical_store_id") as [v|] eqn:Hv.
  - sql_step; sql_step. destruct (of_text v) eqn:Ht; cbn [ok_or]; [apply Hrest; auto|].
    apply recovered_stay; [done|]. apply Hid. by exists v.
  - sql_step. sql_step. apply (insert_metadata_wp _ _ _ _ _ reason); [done|auto|intros; by apply recovered_stay|].
    intros p3 Hp3. sql_step. apply Hrest; auto.
Qed.

Lemma initialize_storage_wp quick_check fresh names w p :
  sql_wp (initialize_storage quick_check fresh names)
    (recovered (opening_reason p quick_check w) w) (mkConn w None p).
Proof.
  set (reason := opening_reason p quick_check w).
  assert (faulty p → reason) as Hf by (by left).
  assert (quick_check ≠ "ok"%string → reason) as Hq by (intros; right; by left).
  assert (¬ metadata_usable w → reason) as Hm by (intros; right; by right).
  assert (∀ (e : stop) p', reason → recovered (A := EntityId) reason w (Err e) (mkConn w None p')) as Herr
    by (intros; by apply recovered_stay).
  unfold initialize_storage. do 10 (sql_step; sql_step; [apply Herr; auto 20|]).
  sql_step. unfold metadata_value at 1. sql_step; [apply Herr; auto 20|]. cbn [from_option Datatypes.id].
  destruct (asset_metadata w !! "schema_version") as [v|] eqn:Hv.
  - sql_step. sql_step; sql_step. destruct (parse_i64 v) as [parsed|] eqn:Hparse; cbn [ok_or].
    2:{ apply Herr. apply Hm. intros [Hs _]. specialize (Hs v Hv). congruence. }
    destruct (Z.eqb_spec parsed SUPPORTED_SCHEMA_VERSION) as [->|Hne]; cbn [negb].
    2:{ sql_step. apply Herr. apply Hm. intros [Hs _]. specialize (Hs v Hv). congruence. }
    sql_step. apply identify_wp; [done|auto 20|done|].
    intros (x & Hx & Ht). apply Hm. intros [_ Hs]. specialize (Hs x Hx). rewrite Ht in Hs. by destruct Hs.
  - sql_step. apply (insert_metadata_wp _ _ _ _ _ reason); [done|auto 20|intros; by apply Herr|].
    intros p2 Hp2. apply identify_wp; [done|auto 20|done|].
    intros (x & Hx & Ht). apply Hm. intros [_ Hs]. cbn in Hx. rewrite lookup_insert_ne in Hx by done.
    specialize (Hs x Hx). rewrite Ht in Hs. by destruct Hs.
Qed.

(** ** The properties *)

(** The Assets after an ingest and a regular opening *)
Lemma ingest_then_open d w0 source fresh names p fresh_id orphans :
  asset_inv w0 → metadata_usable w0 →
  let '(r, c) := ingest d source fresh names (mkConn w0 None p) in
  let '(r', c') := initialize_storage "ok" fresh_id orphans (mkConn (committed c) None []) in
  (∃ id, r' = Ok id) ∧ clean (committed c') ∧ asset_inv (committed c') ∧
  ∀ d' content, published (committed c') d' content ↔
    published w0 d' content ∨ (r = Ok Inserted ∧ d' = d ∧ content = source_bytes source).
Proof.
  intros Hinv Hm. pose proof (ingest_wp d w0 source fresh names p Hinv) as Hw. unfold sql_wp in Hw.
  pose proof (ingest_metadata d source fresh names w0 p) as Hmeta.
  destruct (ingest _ _ _ _ _) as [r c]. cbn in Hw, Hmeta. destruct Hw as (_ & [Hi Hkeeps Hadds] & Hr).
  pose proof (initialize_storage_wp "ok" fresh_id orphans (committed c) []) as Ho. unfold sql_wp in Ho.
  destruct (initialize_storage _ _ _ _) as [r' c']. cbn in Ho. destruct Ho as (_ & _ & Ho).
  destruct (Ho Hi) as (Hi' & Hp & Hclean).
  assert (¬ opening_reason [] "ok" (committed c)) as Hno.
  { intros [Hf|[Hq|Hu]]; [by apply not_faulty_nil in Hf|done|]. apply Hu. unfold metadata_usable.
    by rewrite Hmeta. }
  destruct r' as [id|e]; [|done]. split; [by exists id|]. split; [done|]. split; [done|].
  intros d' content. rewrite Hp. split.
  - intros Hpub. destruct r as [[]|e].
    + destruct (Hadds _ _ Hpub) as [Hold|Heq]; [by left|]. subst. right. split; [done|]. split; [done|].
      by destruct (published_unique _ _ _ _ _ Hpub Hr eq_refl).
    + left. destruct (Hadds _ _ Hpub) as [Hold|Heq]; [done|]. subst. destruct Hr as [content' Hc].
      destruct (published_unique _ _ _ _ _ Hpub (Hkeeps _ _ Hc) eq_refl) as [_ ->]. done.
    + left. by apply Hr.
  - intros [Hpub|(-> & -> & ->)]; [by apply Hkeeps|done].
Qed.

(** C6. Crash safety: a process ingests an Asset; calls fail, and the process
    stops, at any point: at a call, or after the last one with the answer not
    given.  Then a regular opening succeeds and gives a clean store: no row is
    staged, staging is empty, every blob belongs to a published Asset.  The
    published Assets are those from before, and the new one or not: with exactly
    the bytes of the source when the ingest has answered [Inserted], not when it
    has answered anything else, and when the process has stopped, all of it or
    nothing. *)
Theorem ingest_crash_recover late d w0 source fresh names p fresh_id orphans :
  asset_inv w0 → metadata_usable w0 →
  let '(r, c) := ingest_until late d source fresh names (mkConn w0 None p) in
  let '(r', c') := initialize_storage "ok" fresh_id orphans (mkConn (committed c) None []) in
  (∃ id, r' = Ok id) ∧ clean (committed c') ∧ asset_inv (committed c') ∧
  ∃ added : bool,
    (r = Ok Inserted → added = true) ∧ (added = true → r = Ok Inserted ∨ r = Err Crashed) ∧
    ∀ d' content, published (committed c') d' content ↔
      published w0 d' content ∨ (added = true ∧ d' = d ∧ content = source_bytes source).
Proof.
  intros Hinv Hm. pose proof (ingest_then_open d w0 source fresh names p fresh_id orphans Hinv Hm) as Hi.
  unfold ingest_until, stopped_late. destruct (ingest _ _ _ _ _) as [r c].
  destruct (initialize_storage _ _ _ _) as [r' c']. destruct Hi as (Hopen & Hclean & Hinv' & Hpub).
  split_and!; [done..|]. exists (match r with Ok Inserted => true | _ => false end).
  split_and!; [destruct late; [done|by intros ->]|by destruct r as [[]|]; destruct late; auto|].
  intros d' content. rewrite Hpub. apply or_iff_compat_l, and_iff_compat_r.
  by destruct r as [[]|]; split; intros [=].
Qed.

(** Opening keeps the published Assets: from a sound store and with any
    plan of failing calls, the store stays sound, exactly the same Assets are
    published with the same bytes, a success leaves a clean store, and a failure
    has a failing call, a failed integrity check or unusable metadata. *)
Theorem opening_keeps_assets quick_check fresh names w p :
  asset_inv w →
  let '(r, c) := initialize_storage quick_check fresh names (mkConn w None p) in
  working c = None ∧ asset_inv (committed c) ∧
  (∀ d content, published (committed c) d content ↔ published w d content) ∧
  match r with Ok _ => clean (committed c) | Err _ => opening_reason p quick_check w end.
Proof.
  intros Hinv. pose proof (initialize_storage_wp quick_check fresh names w p) as Ho. unfold sql_wp in Ho.
  destruct (initialize_storage _ _ _ _) as [r c]. destruct Ho as (Hw & _ & Ho). split; [done|by apply Ho].
Qed.

(** Opening verifies the blobs: whatever is in the tables and directories,
    when opening succeeds every row decodes and every published row had a
    regular blob of its length and hash. *)
Theorem opening_verifies_blobs quick_check fresh names w p id :
  (initialize_storage quick_check fresh names (mkConn w None p)).1 = Ok id → verified w.
Proof.
  intros Hr. pose proof (initialize_storage_wp quick_check fresh names w p) as Ho. unfold sql_wp in Ho.
  destruct Ho as (_ & Hv & _). by eapply Hv.
Qed.

(** A range read is exact: for a published Asset it answers the requested
    slice of its bytes, cut at the end of the Asset, or [RangeOutOfBounds] past
    the end, unless a call fails; it changes nothing. *)
Theorem read_range_exact d content o l range w p :
  asset_inv w → published w d content → AssetByteRange_new o l = Some range → 0 ≤ o → 0 < l →
  let '(r, c) := read_range (asset_asset_id d) range (mkConn w None p) in
  committed c = w ∧ working c = None ∧
  (read_answer d content o l r ∨ (faulty p ∧ ∃ e, r = Err e)).
Proof.
  intros Hinv Hpub Hr Ho Hl.
  pose proof (read_range_wp (faulty p) d content o l range w p
    (λ r c, committed c = w ∧ working c = None ∧ (read_answer d content o l r ∨ (faulty p ∧ ∃ e, r = Err e))))
    as Hw. unfold sql_wp in Hw.
  destruct (read_range _ _ _) as [r c]. apply Hw; try done.
  - intros e p' Hf. split_and!; [done|done|]. right. by eauto.
  - intros r' p' Hr'. split_and!; [done|done|]. by left.
Qed.

(** What is not published is hidden: an identity without a published Asset
    (unknown, staged, or left by a crash) has no descriptor and no bytes; only
    a failing call can give another answer. *)
Theorem unpublished_is_hidden id range w p :
  asset_inv w → (∀ d content, published w d content → asset_asset_id d ≠ id) →
  ((get_asset id (mkConn w None p)).1 = Ok None ∧
   (read_range id range (mkConn w None p)).1 = Err (ReadFailed (ReadNotFound id))) ∨
  (faulty p ∧ ∃ e e', (get_asset id (mkConn w None p)).1 = Err e ∧
                      (read_range id range (mkConn w None p)).1 = Err e').
Proof.
  intros Hinv Hnot.
  assert (∃ r c, lookup_record id (mkConn w None p) = (r, c) ∧
    ((faulty p ∧ ∃ e, r = Err e) ∨ r = Ok None ∨ ∃ record, r = Ok (Some record) ∧ state record = Staged))
    as (r & c & Hl & Hcases).
  { pose proof (lookup_record_wp (faulty p) id w p (λ r c,
      (faulty p ∧ ∃ e, r = Err e) ∨ r = Ok None ∨ ∃ record, r = Ok (Some record) ∧ state record = Staged)) as Hw.
    unfold sql_wp in Hw. exists (lookup_record id (mkConn w None p)).1, (lookup_record id (mkConn w None p)).2.
    split; [by destruct (lookup_record _ _)|]. apply Hw; [done|done|eauto|eauto|].
    intros p' row record Hp' Hrow Hd. right. right. exists record. split; [done|].
    destruct (state record) eqn:Hst; [done|].
    destruct (published_record _ _ _ _ Hinv Hrow Hd Hst) as (Hid & content & _ & Hpub & _).
    by destruct (Hnot _ _ Hpub). }
  unfold get_asset, read_range, reading, mbind, sql_mbind. rewrite Hl.
  destruct Hcases as [[Hf [[e|] ->]]|[->|(record & -> & Hst)]].
  - right. split; [done|]. by eexists _, _.
  - right. split; [done|]. by eexists _, _.
  - by left.
  - left. cbn. by rewrite Hst.
Qed.

End recovery.

Section demo.
#[local] Existing Instances Demo.demo_kernel Demo.demo_laws Demo.demo_assets Demo.demo_asset_laws.

Abbreviation demo_conn p := (mkConn demo_world None p).

Lemma demo_metadata : metadata_usable (H := Demo.demo_kernel) demo_world.
Proof. split; intros v Hv; cbn in Hv; by rewrite lookup_empty in Hv. Qed.

(** Witness of C6: the process stops after the new Asset was published, before the
    caller has the answer. *)
Lemma ingest_crash_recover_witness :
  let '(r, c) := ingest_until (H := Demo.demo_kernel) (AK := Demo.demo_assets) true (demo_asset "b")
                   [SourceBytes demo_bytes] "1" (λ _, "orphan"%string) (demo_conn []) in
  let '(r', c') := initialize_storage (H := Demo.demo_kernel) (AK := Demo.demo_assets) "ok" "store"
                     (λ _ _, "orphan"%string) (mkConn (committed c) None []) in
  r = Err Crashed ∧ (∃ id, r' = Ok id) ∧ clean (committed c') ∧ asset_inv (committed c') ∧
  ∃ added : bool,
    (r = Ok Inserted → added = true) ∧ (added = true → r = Ok Inserted ∨ r = Err Crashed) ∧
    ∀ d' content, published (committed c') d' content ↔
      published demo_world d' content ∨
      (added = true ∧ d' = demo_asset "b" ∧ content = source_bytes [SourceBytes demo_bytes]).
Proof.
  pose proof (ingest_crash_recover (H := Demo.demo_kernel) (AK := Demo.demo_assets) true (demo_asset "b") demo_world
           [SourceBytes demo_bytes] "1" (λ _, "orphan"%string) []
           "store"%string (λ _ _, "orphan"%string) demo_inv demo_metadata) as Hc.
  unfold ingest_until, stopped_late in *. destruct (ingest _ _ _ _ _) as [r c].
  destruct (initialize_storage _ _ _ _) as [r' c']. split; [reflexivity|exact Hc].
Defined.
(** And the Asset is there. *)
Example late_stop_publishes :
  match (get_asset (H := Demo.demo_kernel) (AK := Demo.demo_assets) "b"
     (mkConn (committed (ingest_until (H := Demo.demo_kernel) (AK := Demo.demo_assets) true (demo_asset "b")
        [SourceBytes demo_bytes] "1" (λ _, "orphan"%string) (demo_conn [])).2) None [])).1 with
  | Ok (Some _) => true
  | _ => false
  end = true.
Proof. vm_compute. reflexivity. Qed.

(** An instance. *)
Lemma opening_keeps_assets_witness :
  let '(r, c) := initialize_storage (H := Demo.demo_kernel) (AK := Demo.demo_assets) "ok" "store"
                   (λ _ _, "orphan"%string) (demo_conn []) in
  working c = None ∧ asset_inv (committed c) ∧
  (∀ d content, published (committed c) d content ↔ published demo_world d content) ∧
  match r with Ok _ => clean (committed c) | Err _ => opening_reason [] "ok" demo_world end.
Proof.
  exact (opening_keeps_assets (H := Demo.demo_kernel) (AK := Demo.demo_assets) "ok" "store"%string
           (λ _ _, "orphan"%string) demo_world [] demo_inv).
Defined.

(** An empty store opens. *)
Definition demo_empty : AssetWorld := mkWorld ∅ ∅ ∅ ∅ ∅.

(** An instance. *)
Lemma opening_verifies_blobs_witness :
  verified (H := Demo.demo_kernel) (AK := Demo.demo_assets) demo_empty.
Proof.
  apply (opening_verifies_blobs (H := Demo.demo_kernel) (AK := Demo.demo_assets) "ok" "store"%string
           (λ _ _, "orphan"%string) demo_empty [] "store"%string).
  reflexivity.
Defined.

(** An instance. *)
Lemma read_range_exact_witness :
  let '(r, c) := read_range (H := Demo.demo_kernel) (AK := Demo.demo_assets)
                   (asset_asset_id (demo_asset "a")) (1, 5) (demo_conn []) in
  committed c = demo_world ∧ working c = None ∧
  (read_answer (H := Demo.demo_kernel) (AK := Demo.demo_assets) (demo_asset "a") demo_bytes 1 5 r ∨
   (faulty (F := afault) [] ∧ ∃ e, r = Err e)).
Proof.
  apply (read_range_exact (H := Demo.demo_kernel) (AK := Demo.demo_assets) (demo_asset "a") demo_bytes
           1 5 (1, 5) demo_world []); [exact demo_inv|exact demo_published|reflexivity|lia|lia].
Defined.

(** An instance. *)
Lemma unpublished_is_hidden_witness :
  ((get_asset (H := Demo.demo_kernel) (AK := Demo.demo_assets) "c" (demo_conn [])).1 = Ok None ∧
   (read_range (H := Demo.demo_kernel) (AK := Demo.demo_assets) "c" (0, 5) (demo_conn [])).1
   = Err (ReadFailed (ReadNotFound "c"))) ∨
  (faulty (F := afault) [] ∧ ∃ e e',
     (get_asset (H := Demo.demo_kernel) (AK := Demo.demo_assets) "c" (demo_conn [])).1 = Err e ∧
     (read_range (H := Demo.demo_kernel) (AK := Demo.demo_assets) "c" (0, 5) (demo_conn [])).1 = Err e').
Proof.
  apply (unpublished_is_hidden (H := Demo.demo_kernel) (AK := Demo.demo_assets)); [exact demo_inv|].
  intros d content (row & record & Hrow & _) Heq. rewrite Heq in Hrow.
  unfold demo_world in Hrow. cbn [assets] in Hrow. by apply lookup_singleton_Some in Hrow as [? _].
Defined.
End demo.
