(* ===== verification/AssetWorker.v ===== *)
(** * The metadata worker of the Asset store

    The [Command] enum of [asset-local-store] and its dispatch in
    [run_worker], as the [exec] of the generic worker of [Worker.v].  A
    published row is immutable: no interleaving of clients, and no failing
    call, changes or removes it. *)

From S2P Require Import Prelude Kernel Sql AssetStore AssetSafety Worker.

Section asset_worker.
Context `{Kernel} {AK : AssetKernel}.

Abbreviation C := (conn AssetWorld afault).

(** [Command], without the reply channel and [Shutdown]. *)
Inductive AssetCommand :=
| Lookup (asset_id : AssetId)
| Stage (descriptor : SourceAssetDescriptor) (blob_key : string)
| Publish (descriptor : SourceAssetDescriptor) (blob_key : string)
| RemoveStaged (asset_id : AssetId).

Inductive AssetReply :=
| LookupReply (r : result stop (option AssetRecord))
| StageReply (r : result stop AssetInsertOutcome)
| PublishReply (r : result stop ())
| RemoveReply (r : result stop ()).

(** The arms of [run_worker]. *)
Definition exec_command (cmd : AssetCommand) (c : C) : AssetReply * C :=
  match cmd with
  | Lookup id => let '(r, c') := lookup_asset id c in (LookupReply r, c')
  | Stage d key => let '(r, c') := stage_asset d key c in (StageReply r, c')
  | Publish d key => let '(r, c') := publish_asset d key c in (PublishReply r, c')
  | RemoveStaged id => let '(r, c') := remove_staged id c in (RemoveReply r, c')
  end.

(** ** Published rows are immutable *)

(** Every row of [rows] that is not staged is still there. *)
Definition settled (rows rows' : gmap string RawAssetRow) : Prop :=
  ∀ key row, rows !! key = Some row → raw_publication_state row ≠ STAGED → rows' !! key = Some row.

#[local] Instance settled_preorder : PreOrder settled.
Proof.
  split; [by intros rows key row|]. intros a b c Hab Hbc key row Hrow Hst. by apply Hbc; [apply Hab|].
Qed.

Definition settled_by {A} (m : sql AssetWorld afault stop A) : Prop :=
  ∀ w p, sql_wp m (λ _ c', working c' = None ∧ settled (assets w) (assets (committed c')))
           (mkConn w None p).

Lemma select_asset_stays message id w wk p (Q : result stop (option AssetRecord) → C → Prop) :
  (∀ r p', Q r (mkConn w wk p')) → sql_wp (select_asset message id) Q (mkConn w wk p).
Proof.
  intros HQ. unfold select_asset. sql_step; sql_step; [apply HQ|]. case_match; [|sql_step; apply HQ].
  sql_step; sql_step. case_match; [sql_step|]; apply HQ.
Qed.

Lemma lookup_settled id : settled_by (lookup_asset id).
Proof. intros w p. apply select_asset_stays. by intros r p'. Qed.

Lemma stage_settled d key : settled_by (stage_asset d key).
Proof.
  intros w p. unfold stage_asset. sql_step; [done|]. sql_step. apply select_asset_stays.
  intros [[record|]|e] p1; [| |done].
  - destruct (state record); [by sql_step|]. destruct (decide _); [|by sql_step].
    sql_step; sql_step; [done|]. by sql_step.
  - sql_step; sql_step. destruct (ok_or _ _); [|done]. sql_step; sql_step; [done|].
    cbn [from_option Datatypes.id].
    destruct (assets w !! to_text (asset_asset_id d)) eqn:Hnone; [done|].
    cbn [set_current working committed plan]. sql_step; sql_step; [done|]. sql_step. split; [done|].
    intros key' row Hrow Hst. cbn. rewrite lookup_insert_ne; [done|]. intros <-. congruence.
Qed.

Lemma publish_settled d key : settled_by (publish_asset d key).
Proof.
  intros w p. unfold publish_asset. sql_step; [done|]. sql_step. apply select_asset_stays.
  intros [found|e] p1; [|done]. sql_step; sql_step. destruct (ok_or _ found); [|done].
  destruct (_ || _ || _); [by sql_step|]. sql_step; sql_step; [done|].
  cbn [from_option Datatypes.id set_current working committed plan]. sql_step; [done|].
  split; [done|]. intros key' row Hrow Hst. cbn.
  destruct (assets w !! to_text (asset_asset_id d)) as [row'|] eqn:Hr; [|done].
  case_bool_decide as Hs; [|done]. rewrite lookup_insert_ne; [done|]. intros <-. congruence.
Qed.

Lemma remove_settled id : settled_by (remove_staged id).
Proof.
  intros w p. unfold remove_staged. sql_step; [done|]. split; [done|].
  intros key row Hrow Hst. cbn. unfold delete_staged_row.
  destruct (assets w !! to_text id) as [row'|] eqn:Hr; [|done].
  case_bool_decide as Hs; [|done]. rewrite lookup_delete_ne; [done|]. intros <-. congruence.
Qed.

Lemma exec_settled cmd w p :
  working (exec_command cmd (mkConn w None p)).2 = None ∧
  settled (assets w) (assets (committed (exec_command cmd (mkConn w None p)).2)).
Proof.
  destruct cmd; cbn [exec_command].
  - pose proof (lookup_settled asset_id w p) as Hw. unfold sql_wp in Hw. by destruct (lookup_asset _ _).
  - pose proof (stage_settled descriptor blob_key w p) as Hw. unfold sql_wp in Hw. by destruct (stage_asset _ _ _).
  - pose proof (publish_settled descriptor blob_key w p) as Hw. unfold sql_wp in Hw. by destruct (publish_asset _ _ _).
  - pose proof (remove_settled asset_id w p) as Hw. unfold sql_wp in Hw. by destruct (remove_staged _ _).
Qed.

Lemma run_all_settled cmds : ∀ w p,
  working (run_all exec_command cmds (mkConn w None p)) = None ∧
  settled (assets w) (assets (committed (run_all exec_command cmds (mkConn w None p)))).
Proof.
  induction cmds as [|[t cmd] cmds IH]; intros w p; cbn; [done|].
  destruct (exec_settled cmd w p) as [Hn Hs].
  destruct (exec_command cmd (mkConn w None p)).2 as [w' wk p'] eqn:Hc. cbn in Hn, Hs. subst wk.
  destruct (IH w' p') as [Hn' Hs']. split; [done|]. by etrans.
Qed.

(** A published row is immutable: after any interleaving of clients,
    closers and the metadata worker, with any plan of failing calls, every row
    that was published at the start is still in the table, unchanged. *)
Theorem published_rows_immutable capacity w0 p ls w key row :
  wsteps exec_command capacity ls (start (mkConn w0 None p)) = Some w →
  assets w0 !! key = Some row → raw_publication_state row = PUBLISHED →
  assets (committed (store w)) !! key = Some row ∧ working (store w) = None.
Proof.
  intros Hw%(winv_steps _ _ (mkConn w0 None p)) Hrow Hst; [|apply winv_start].
  rewrite (inv_store _ _ _ _ Hw). destruct (run_all_settled (executed w) w0 p) as [Hn Hs].
  split; [|done]. apply Hs; [done|]. by rewrite Hst.
Qed.
End asset_worker.

Section demo.
#[local] Existing Instances Demo.demo_kernel Demo.demo_laws Demo.demo_assets Demo.demo_asset_laws.

(** A client asks to remove the published Asset as if it were staged. *)
Definition asset_labels : list (label (Cmd := AssetCommand (H := Demo.demo_kernel) (AK := Demo.demo_assets))) :=
  [CheckClosed 0; CloneSender 0; TrySend 0 (RemoveStaged (asset_asset_id (demo_asset "a"))); Worker.Worker].

Definition asset_worker_after
    : option (worker (Cmd := AssetCommand (H := Demo.demo_kernel) (AK := Demo.demo_assets))
                (R := AssetReply (H := Demo.demo_kernel) (AK := Demo.demo_assets))
                (S := conn AssetWorld afault)) :=
  wsteps (exec_command (H := Demo.demo_kernel) (AK := Demo.demo_assets)) 4 asset_labels
    (start (mkConn demo_world None [])).

(** An instance. *)
Lemma published_rows_immutable_witness :
  match asset_worker_after with
  | Some w =>
      assets (committed (store w)) !! to_text (T := AssetId) (asset_asset_id (demo_asset "a")) =
        Some (row_of_descriptor (H := Demo.demo_kernel) (demo_asset "a") 2
                (blob_key (asset_asset_id (demo_asset "a"))) PUBLISHED) ∧
      working (store w) = None
  | None => False
  end.
Proof.
  destruct asset_worker_after as [w|] eqn:Hw; [|discriminate].
  apply (published_rows_immutable (H := Demo.demo_kernel) (AK := Demo.demo_assets) 4 demo_world []
           asset_labels w _ _ Hw); [apply lookup_singleton_eq|reflexivity].
Defined.
End demo.
