(* ===== verification/Serving.v ===== *)
(** * From the Asset store to the HTTP stream

    The range reader that [handle_connection] is given is the local Asset
    store: what was ingested is what a client downloads. *)

From S2P Require Import Prelude Kernel Sql AssetStore AssetSafety AssetRecovery Http.

Section serving.
Context `{Kernel, !KernelLaws} {AK : AssetKernel} {AL : AssetKernelLaws}.

(** The store as the reader of the HTTP handler: the [n]-th read consults the
    plan of faults [faults n]. *)
Definition store_reader (w : AssetWorld) (faults : nat → list (option afault)) (id : AssetId) (n : nat)
    (range : AssetByteRange) : result () AssetByteChunk :=
  match (read_range id range (mkConn w None (faults n))).1 with
  | Ok chunk => Ok chunk
  | Err _ => Err ()
  end.

Lemma published_length w d content :
  asset_inv w → published w d content → Z.of_nat (length content) = byte_length d.
Proof.
  intros Hinv (row & record & Hrow & Hd & Hst & <- & Hb).
  destruct (published_record _ _ _ _ Hinv Hrow Hd Hst) as (_ & content' & Hc & _ & Hlen').
  rewrite (proj1 (decode_row_key _ _ _ Hd)), Hb in Hc. by injection Hc as <-.
Qed.

Lemma store_reader_content w faults d content :
  asset_inv w → published w d content → (∀ n, ¬ faulty (faults n)) →
  reads_content (store_reader w faults (asset_asset_id d)) content.
Proof.
  intros Hinv Hpub Hcalm n range o l Hrange Ho Hl Hlen.
  pose proof (published_length _ _ _ Hinv Hpub) as Hlength.
  pose proof (read_range_wp (faulty (faults n)) d content o l range w (faults n)
    (λ r _, read_answer d content o l r)) as Hw. unfold sql_wp in Hw.
  specialize (Hw Hinv Hpub Hrange Ho Hl id). unfold read_answer in Hw.
  rewrite (proj2 (Z.ltb_ge (byte_length d) o)) in Hw by lia.
  destruct Hw as (chunk & Hr & Hoff & Hbytes); [intros e p' Hf; by destruct (Hcalm n)|done|].
  unfold store_reader. rewrite Hr. exists chunk, l. split; [done|]. split; [lia|]. by split.
Qed.

(** C25. What was ingested is what is downloaded: after an ingest that answered
    [Inserted] (under any plan of failing calls), streaming any slice of the
    Asset from the store, without failing reads or writes and without
    cancellation, sends exactly that slice of the bytes of the source, whatever
    the chunk size. *)
Theorem ingested_asset_is_served d w0 source fresh names p c faults cancelled write_ok
    offset remaining chunk_size :
  asset_inv w0 →
  ingest d source fresh names (mkConn w0 None p) = (Ok Inserted, c) →
  (∀ n, ¬ faulty (faults n)) → (∀ n, cancelled n = false) → (∀ n, write_ok n = true) →
  0 < chunk_size → 0 ≤ offset → 0 ≤ remaining → offset + remaining ≤ byte_length d →
  stream_asset (store_reader (committed c) faults (asset_asset_id d)) cancelled write_ok
    offset remaining chunk_size =
  (Ok (), take (Z.to_nat remaining) (drop (Z.to_nat offset) (source_bytes source))).
Proof.
  intros Hinv Hingest Hcalm Hno Hwrite Hcs Ho Hr Hlen.
  pose proof (ingest_wp d w0 source fresh names p Hinv) as Hw. unfold sql_wp in Hw. rewrite Hingest in Hw.
  destruct Hw as (_ & [Hi _ _] & Hpub). cbn in Hpub, Hi.
  pose proof (published_length _ _ _ Hi Hpub) as Hl. pose proof (byte_length_u64 d) as Hu. unfold is_u64 in Hu.
  unfold stream_asset. apply stream_loop_exact; try done; try lia. by apply store_reader_content.
Qed.
End serving.

Section demo.
#[local] Existing Instances Demo.demo_kernel Demo.demo_laws Demo.demo_assets Demo.demo_asset_laws.

(** A second Asset is ingested in two reads. *)
Definition demo_ingest : result stop AssetInsertOutcome * conn AssetWorld afault :=
  ingest (H := Demo.demo_kernel) (AK := Demo.demo_assets) (demo_asset "b")
    [SourceBytes [104]; SourceBytes [105]] "1" (λ _, "orphan"%string) (mkConn demo_world None []).

(** Witness of C25. *)
Lemma ingested_asset_is_served_witness :
  stream_asset (H := Demo.demo_kernel) (AK := Demo.demo_assets)
    (store_reader (H := Demo.demo_kernel) (AK := Demo.demo_assets) (committed demo_ingest.2) (λ _, [])
       (asset_asset_id (demo_asset "b"))) (λ _, false) (λ _, true) 1 1 1 = (Ok (), [105]).
Proof.
  apply (ingested_asset_is_served (H := Demo.demo_kernel) (AK := Demo.demo_assets) (demo_asset "b")
           demo_world [SourceBytes [104]; SourceBytes [105]] "1" (λ _, "orphan"%string) [] demo_ingest.2
           (λ _, []) (λ _, false) (λ _, true) 1 1 1 demo_inv).
  - apply injective_projections; reflexivity.
  - intros _. apply not_faulty_nil.
  - done.
  - done.
  - lia.
  - lia.
  - lia.
  - cbn. lia.
Defined.
End demo.
