(* ===== verification/Ports.v ===== *)
(** * The stores as the bootstrap uses them

    The bootstrap opens and calls the stores through typed ports and turns each
    of their errors into a message of its own, so that an error carries no data
    here.  [CatalogStore] and [AssetPort] are those ports, with the laws that
    their clients rely on; the SQLite Catalog of [Catalog.v] and the local Asset
    store of [AssetStore.v] are instances, by their own refinement theorems. *)

From S2P Require Import Prelude Float Kernel Sql Canvas CatalogKernel Catalog CatalogSpec CatalogRefine.
From S2P Require Import CatalogOpen CatalogWorker.

(** The answer of a port whose error is dropped. *)
Definition forget {E A S} (x : result E A * S) : result () A * S := (map_err (λ _, ()) x.1, x.2).

(** ** The persistent Catalog *)

Section catalog_port.
Context `{CatalogKernel}.

(** The operations of [SQLiteCatalogStore] that [Bootstrap] calls *)
Class CatalogStore (S : Type) := {
  cs_open : string → Z → S → result () () * S;
  cs_get_binding : string → S → result () (option BootstrapBinding) * S;
  cs_get_canvas : CanvasId → S → result () (option CanvasDescriptor) * S;
  cs_list_all : S → result () (list DocumentDescriptor) * S;
  cs_publish_with_binding : string → CanvasDescriptor → BootstrapBinding → S →
                            result () CatalogPublishOutcome * S;
  cs_publish_document : DocumentComposition → S → result () CatalogPublishOutcome * S
}.

(** A publication that the contract accepts is done, a failed one changes
    nothing. *)
Definition publishes {S} (holds : S → Catalog → Prop) (cat : Catalog)
    (spec : result CatalogStoreError CatalogPublishOutcome * Catalog)
    (x : result () CatalogPublishOutcome * S) : Prop :=
  match x.1 with
  | Ok o => spec.1 = Ok o ∧ holds x.2 spec.2
  | Err _ => holds x.2 cat
  end.
(** A read answers what is stored, or fails, and changes nothing. *)
Definition answers {A S} (holds : S → Catalog → Prop) (cat : Catalog) (a : A) (x : result () A * S)
    : Prop :=
  holds x.2 cat ∧ match x.1 with Ok a' => a' = a | Err _ => True end.

(** [holds s cat]: the store [s] holds the catalog [cat]. *)
Class CatalogStoreLaws (S : Type) `{CatalogStore S} (holds : S → Catalog → Prop) : Prop := {
  cs_open_law : ∀ path capacity s cat, holds s cat →
    match cs_open path capacity s with (Ok _, s') => holds s' cat | (Err _, _) => True end;
  cs_get_binding_law : ∀ key s cat, holds s cat →
    answers holds cat (find_binding key cat) (cs_get_binding key s);
  cs_get_canvas_law : ∀ id s cat, holds s cat →
    answers holds cat (find_canvas id cat) (cs_get_canvas id s);
  cs_list_all_law : ∀ s cat, holds s cat → answers holds cat (c_documents cat) (cs_list_all s);
  cs_publish_with_binding_law : ∀ key d b s cat, holds s cat →
    publishes holds cat (spec_publish_with_binding key d b cat) (cs_publish_with_binding key d b s);
  cs_publish_document_law : ∀ c s cat, holds s cat →
    publishes holds cat (spec_publish_document c cat) (cs_publish_document c s)
}.

(** *** The SQLite Catalog is such a store *)

Abbreviation C := (conn CatalogDb SqliteError).

(** The environment of an opening: whether the path has a parent directory, the
    answer of [PRAGMA quick_check], and the identity for a new file *)
Context (has_parent : string → bool) (quick_check : string) (fresh : EntityId).

#[global] Instance sqlite_catalog_store : CatalogStore C := {|
  cs_open path capacity c :=
    let '(r, c') := open_with_queue_capacity capacity (has_parent path) quick_check fresh c in
    (match r with Ok _ => Ok () | Err _ => Err () end, c');
  cs_get_binding key c := forget (load_binding key c);
  cs_get_canvas id c := forget (load_canvas id c);
  cs_list_all c := forget (list_all_documents c);
  cs_publish_with_binding key d b c := forget (publish_standalone_with_binding key d b c);
  cs_publish_document composition c := forget (publish_document composition c)
|}.

(** A well-formed catalog is stored and no transaction is open. *)
Definition sqlite_holds (c : C) (cat : Catalog) : Prop := catalog_ok cat ∧ ∃ meta, holds meta c cat.
End catalog_port.

Section sqlite_laws.
Context `{CatalogKernelLaws}.
Context {KL : KernelLaws}.
Context (has_parent : string → bool) (quick_check : string) (fresh : EntityId).

Lemma forget_reads {A} (m : sql CatalogDb SqliteError CatalogStoreError A) meta cat (a : A) c :
  catalog_ok cat → holds meta c cat → reads m (tables meta cat) (Ok a) →
  answers sqlite_holds cat a (forget (m c)).
Proof.
  intros Hok [Hc Hw] Hm. destruct c as [db w p]. cbn in Hc, Hw. subst.
  apply (Hm (λ r c, answers sqlite_holds cat a (forget (r, c))) (tables meta cat) None p).
  - done.
  - intros e p' _. split; [|done]. split; [done|by exists meta].
  - intros p' _. split; [|done]. split; [done|by exists meta].
Qed.

Lemma forget_follows meta cat (spec : result CatalogStoreError CatalogPublishOutcome * Catalog) reason x :
  (∀ e, spec.1 = Err e → spec.2 = cat) → catalog_ok cat → catalog_ok spec.2 →
  catalog_follows meta cat spec reason x.1 x.2 → publishes sqlite_holds cat spec (forget x).
Proof.
  intros Herr Hok Hok' Hf. unfold publishes, forget. cbn.
  destruct Hf as [[Hr Hh]|(_ & [e ->] & Hh)]; [|by split; [|exists meta]].
  rewrite Hr. destruct spec as [[o|e] cat']; cbn in *; [by split; [|split; [|exists meta]]|].
  rewrite (Herr e) in Hh by done. by split; [|exists meta].
Qed.

Lemma spec_publish_with_binding_err key d b cat e :
  (spec_publish_with_binding key d b cat).1 = Err e → (spec_publish_with_binding key d b cat).2 = cat.
Proof.
  unfold spec_publish_with_binding. case_decide; [|done]. destruct (find_binding key cat); [done|].
  by destruct (find_canvas _ cat); case_decide.
Qed.
Lemma spec_publish_document_err c cat e :
  (spec_publish_document c cat).1 = Err e → (spec_publish_document c cat).2 = cat.
Proof. unfold spec_publish_document. destruct (find_document _ cat); [done|]. by repeat case_decide. Qed.

#[global] Instance sqlite_catalog_laws :
  CatalogStoreLaws (conn CatalogDb SqliteError) (H1 := sqlite_catalog_store has_parent quick_check fresh) sqlite_holds.
Proof.
  split.
  - intros path capacity [db w p] cat [Hok [meta [Hc Hw]]]. cbn in Hc, Hw. subst. cbn.
    unfold CatalogWorker.open_with_queue_capacity. destruct (capacity =? 0); [done|].
    destruct (pop_fault (mkConn (tables meta cat) None p)) as [o c1] eqn:Hpop.
    destruct o; [done|]. assert (∃ p', c1 = mkConn (tables meta cat) None p') as [p' ->].
    { unfold pop_fault in Hpop. destruct p as [|o p]; cbn in Hpop; [injection Hpop as <-|injection Hpop as -> <-]; eauto. }
    pose proof (initialize_storage_intact (has_parent path) quick_check fresh (tables meta cat) p') as Hi.
    unfold sql_wp in Hi. destruct (initialize_storage _ _ _ _) as [[id|e] c2]; cbn; [|done].
    destruct (Hi eq_refl) as (Hn & _ & meta' & Hm). split; [done|]. by exists meta'.
  - intros key s cat [Hok [meta Hh]]. by eapply forget_reads, load_binding_reads.
  - intros id s cat [Hok [meta Hh]]. by eapply forget_reads, load_canvas_reads.
  - intros s cat [Hok [meta Hh]]. by eapply forget_reads, list_all_documents_reads.
  - intros key d b [db w p] cat [Hok [meta [Hc Hw]]]. cbn in Hc, Hw. subst.
    eapply forget_follows; [apply spec_publish_with_binding_err|done|by apply spec_publish_with_binding_ok|].
    by apply (publish_with_binding_wp meta cat key d b p).
  - intros c [db w p] cat [Hok [meta [Hc Hw]]]. cbn in Hc, Hw. subst.
    eapply forget_follows; [apply spec_publish_document_err|done|by apply spec_publish_document_ok|].
    by apply (publish_document_wp meta cat c p).
Qed.
End sqlite_laws.

(** ** Asset stores *)

Section asset_port.
Context `{Kernel} {AK : AssetKernel}.

(** The operations of an Asset store that [Bootstrap] calls *)
Class AssetPort (A : Type) := {
  ap_insert : SourceAssetDescriptor → list Z → A → result () () * A;
  ap_get : AssetId → A → result () (option SourceAssetDescriptor) * A
}.
(** [LocalAssetStore] can also be opened. *)
Class AssetOpening (A : Type) := ap_open : string → Z → A → result () () * A.

(** [a'] is well-formed and still has every Asset of [a]. *)
Definition keeps_assets {A} (ok : A → Prop) (has : A → AssetId → Prop) (a a' : A) : Prop :=
  ok a' ∧ ∀ id, has a id → has a' id.

(** [has a id]: Asset [id] is published in the well-formed store [a]. *)
Class AssetPortLaws (A : Type) `{AssetPort A} (ok : A → Prop) (has : A → AssetId → Prop) : Prop := {
  ap_insert_law : ∀ d bytes a, ok a → keeps_assets ok has a (ap_insert d bytes a).2;
  ap_get_law : ∀ id a, ok a →
    keeps_assets ok has a (ap_get id a).2 ∧
    match (ap_get id a).1 with Ok (Some _) => has (ap_get id a).2 id | _ => True end
}.
Class AssetOpeningLaws (A : Type) `{AssetOpening A} (ok : A → Prop) (has : A → AssetId → Prop) : Prop :=
  ap_open_law : ∀ path capacity a, ok a → keeps_assets ok has a (ap_open path capacity a).2.

Lemma keeps_assets_refl {A} (ok : A → Prop) (has : A → AssetId → Prop) a : ok a → keeps_assets ok has a a.
Proof. by split. Qed.
Lemma keeps_assets_trans {A} (ok : A → Prop) (has : A → AssetId → Prop) a b c :
  keeps_assets ok has a b → keeps_assets ok has b c → keeps_assets ok has a c.
Proof. intros [_ Hab] [Hc Hbc]. split; [done|]. auto. Qed.
End asset_port.
