(* ===== verification/LocalAssets.v ===== *)
(** * The local Asset store as a port

    [LocalAssetStore] of [AssetStore.v] is an [AssetPort]: its theorems on
    ingestion and recovery give the laws that the bootstrap relies on.  A crash
    in the middle of a call is here a failed call. *)

From S2P Require Import Prelude Kernel Sql AssetStore AssetSafety AssetRecovery Ports.

Section local_assets.
Context `{Kernel, !KernelLaws} {AK : AssetKernel} {AL : AssetKernelLaws}.

Abbreviation C := (conn AssetWorld afault).

(** The names of the staging and quarantine files, the answer of
    [PRAGMA quick_check], and the identity of a new store *)
Context (staging_name : SourceAssetDescriptor → string) (names : nat → string)
        (orphan_names : string → nat → string) (quick_check : string) (fresh : EntityId).

(** [insert_verified] reads its bytes from a cursor. *)
Definition insert_verified (d : SourceAssetDescriptor) (bytes : list Z)
    : sql AssetWorld afault stop AssetInsertOutcome :=
  ingest d [SourceBytes bytes] (staging_name d) names.

#[global] Instance local_asset_port : AssetPort C := {|
  ap_insert d bytes c :=
    let '(r, c') := insert_verified d bytes c in (match r with Ok _ => Ok () | Err _ => Err () end, c');
  ap_get id c := forget (get_asset id c)
|}.
#[global] Instance local_asset_opening : AssetOpening C := λ _ capacity c,
  let '(r, c') := open_with_queue_capacity capacity quick_check fresh orphan_names c in
  (match r with Ok _ => Ok () | Err _ => Err () end, c').

Definition local_ok (c : C) : Prop := working c = None ∧ asset_inv (committed c).
Definition local_has (c : C) (id : AssetId) : Prop :=
  ∃ d content, published (committed c) d content ∧ asset_asset_id d = id.

Lemma local_keeps w c :
  working c = None → asset_inv (committed c) →
  (∀ d content, published w d content → published (committed c) d content) → ∀ p,
  keeps_assets local_ok local_has (mkConn w None p) c.
Proof.
  intros Hw Hi Hk p. split; [by split|]. intros id (d & content & Hp & Hid).
  exists d, content. split; [by apply Hk|done].
Qed.

#[global] Instance local_asset_laws : AssetPortLaws C local_ok local_has.
Proof.
  split.
  - intros d bytes [w [t|] p] [Hw Hi]; [done|]. cbn in Hi. cbn [ap_insert local_asset_port].
    pose proof (ingest_wp d w [SourceBytes bytes] (staging_name d) names p Hi) as Hs.
    unfold sql_wp in Hs. unfold insert_verified. destruct (ingest _ _ _ _ _) as [r c]. cbn.
    destruct Hs as (Hn & [Hi' Hk _] & _). by apply local_keeps.
  - intros id [w [t|] p] [Hw Hi]; [done|]. cbn in Hi. cbn [ap_get local_asset_port].
    pose proof (lookup_record_wp True id w p (λ r c, c = mkConn w None (plan c) ∧
      match r with
      | Ok (Some record) => state record = Published →
          ∃ content, published w (descriptor record) content ∧ asset_asset_id (descriptor record) = id
      | _ => True
      end)) as Hl. unfold sql_wp in Hl. unfold get_asset.
    destruct (lookup_record id (mkConn w None p)) as [r c]. cbn in Hl.
    destruct Hl as [Hc Hr]; try done.
    { intros p' row record _ Hrow Hd. split; [done|]. intros Hst.
      destruct (published_record w id row record Hi Hrow Hd Hst) as (Hid & content & _ & Hp & _). eauto. }
    destruct c as [w' t p']. injection Hc as -> ->.
    destruct r as [[record|]|[e|]]; cbn; (split; [by apply local_keeps|]); try done.
    case_bool_decide as Hst; [|done]. destruct (Hr Hst) as (content & Hp & Hid). by exists (descriptor record), content.
Qed.

#[global] Instance local_opening_laws : AssetOpeningLaws C local_ok local_has.
Proof.
  intros path capacity [w [t|] p] [Hw Hi]; [done|]. cbn in Hi.
  unfold ap_open, local_asset_opening.
  assert (sql_wp (open_with_queue_capacity capacity quick_check fresh orphan_names)
            (λ _, keeps_assets local_ok local_has (mkConn w None p)) (mkConn w None p)) as Ha.
  { unfold open_with_queue_capacity. destruct (capacity =? 0); [sql_step; by apply local_keeps|].
    sql_step. sql_step; [by apply local_keeps|]. cbn [from_option Datatypes.id set_current working committed plan].
    match goal with |- sql_wp _ _ (mkConn _ _ ?p') =>
      pose proof (initialize_storage_wp quick_check fresh orphan_names w p') as Ho end.
    unfold sql_wp in *. destruct (initialize_storage _ _ _ _) as [r c]. cbn in *.
    destruct Ho as (Hn & _ & Hr). destruct (Hr Hi) as (Hi' & Hiff & _). apply local_keeps; [done|done|].
    intros d content. apply Hiff. }
  unfold sql_wp in Ha. by destruct (open_with_queue_capacity _ _ _ _ _).
Qed.
End local_assets.
