(* ===== verification/Bootstrap.v ===== *)
(** * The composition root

    Models [orbitrelay-server/src/bootstrap.rs]: [Bootstrap::initialize], the
    composition in [initialize_with], and [bootstrap_development_pdf].  The
    persistent stores are the ports of [Ports.v]; the in-memory stores, the PDF
    inspector, the Document read service and the registries of the kernel are
    parameters.  The composition runs in a small state and error monad over the
    [World] of those stores. *)

From S2P Require Import Prelude Float Net Kernel Sql Http Lifecycle Canvas CatalogKernel Catalog.
From S2P Require Import CatalogSpec CatalogRefine CatalogWorker CanvasHistory DeliveryConfig Delivery.
From S2P Require Import Config Dependencies Listener AssetListener Ports.

(** [Path::file_name] *)
Definition file_name (path : string) : option string :=
  match last (List.filter (λ c, negb (str_is_empty c) && negb (bool_decide (c = "."%string)))
                (str_split "/" path)) with
  | Some name => if bool_decide (name = ".."%string) then None else Some name
  | None => None
  end.

(** [DocumentInsertOutcome] of [orbitrelay-document-runtime] *)
Inductive DocumentInsertOutcome := DocumentInserted | DocumentExisting | DocumentConflict.

(** The kernel as the bootstrap uses it *)
Class BootstrapKernel `{ConfigKernel} {AK : AssetKernel} := {
  (** [orbitrelay-pdf]: a page is its index and its display geometry *)
  PdfDocument : Type;
  pdf_asset_id : PdfDocument → AssetId;
  pdf_title : PdfDocument → option string;
  pdf_pages : PdfDocument → list (Z * PageDisplayGeometry);
  (** [orbitrelay-document-runtime] *)
  DocumentComposeInput : Type;
  DocumentComposeInput_new : SessionId → DocumentType → SourceAssetDescriptor → option string →
                             list (Z * PageDisplayGeometry) → option DocumentComposeInput;
  MemoryDocumentCatalog : Type;
  memory_documents_new : MemoryDocumentCatalog;
  memory_documents_insert : DocumentDescriptor → MemoryDocumentCatalog →
                            DocumentInsertOutcome * MemoryDocumentCatalog;
  memory_documents_list : SessionId → MemoryDocumentCatalog → result () (list DocumentSummary);
  (** [orbitrelay-runtime], [orbitrelay-canvas-runtime], [orbitrelay-query] and
      [orbitrelay-sync]; a registration fails with [None] *)
  HandlerRegistry : Type;
  handlers_new : HandlerRegistry;
  handler_register : string → HandlerRegistry → option HandlerRegistry;
  register_canvas_handlers : HandlerRegistry → option HandlerRegistry;
  QueryRegistry : Type;
  queries_new : QueryRegistry;
  register_document_query_handlers : QueryRegistry → option QueryRegistry;
  query_register : string → QueryRegistry → option QueryRegistry;
  event_bus_accepts : Z → bool
}.

Section bootstrap.
Context `{BootstrapKernel}.
(** The SQLite EventStore, the persistent Catalog and Asset store, the memory
    Asset store, and the node registry *)
Context {Events Store Assets Memory Reg : Type} `{!CatalogStore Store} `{!AssetPort Assets}
        `{!AssetOpening Assets} `{!AssetPort Memory} `{!NodeRegistry Reg}.
Context (open_events : string → Z → Events → result () () * Events) (memory_new : Memory).

Record World := mkWorld {
  w_events : Events;
  w_registry : Reg;
  w_catalog : Store;
  w_assets : Assets;
  w_memory : Memory;
  w_documents : MemoryDocumentCatalog
}.
Definition set_events (x : Events) (w : World) : World :=
  mkWorld x (w_registry w) (w_catalog w) (w_assets w) (w_memory w) (w_documents w).
Definition set_registry (x : Reg) (w : World) : World :=
  mkWorld (w_events w) x (w_catalog w) (w_assets w) (w_memory w) (w_documents w).
Definition set_catalog (x : Store) (w : World) : World :=
  mkWorld (w_events w) (w_registry w) x (w_assets w) (w_memory w) (w_documents w).
Definition set_local (x : Assets) (w : World) : World :=
  mkWorld (w_events w) (w_registry w) (w_catalog w) x (w_memory w) (w_documents w).
Definition set_memory (x : Memory) (w : World) : World :=
  mkWorld (w_events w) (w_registry w) (w_catalog w) (w_assets w) x (w_documents w).
Definition set_documents (x : MemoryDocumentCatalog) (w : World) : World :=
  mkWorld (w_events w) (w_registry w) (w_catalog w) (w_assets w) (w_memory w) x.

(** ** The monad *)

Definition boot (A : Type) : Type := World → result ServerError A * World.
#[global] Instance boot_mret : MRet boot := λ A a w, (Ok a, w).
#[global] Instance boot_mbind : MBind boot := λ A B k m w,
  match m w with (Ok a, w') => k a w' | (Err e, w') => (Err e, w') end.
Definition boot_lift {A} (r : result ServerError A) : boot A := λ w, (r, w).
Definition boot_fail {A} (message : string) : boot A := boot_lift (Err (Bootstrap message)).
Definition boot_get {A} (f : World → A) : boot A := λ w, (Ok (f w), w).

(** A call into a store, with the message for its error *)
Definition call {A X} (get : World → X) (set : X → World → World) (message : string)
    (f : X → result () A * X) : boot A := λ w,
  let '(r, x) := f (get w) in (map_err (λ _, Bootstrap message) r, set x w).
Definition on_catalog {A} := call (A := A) w_catalog set_catalog.

(** The Asset store that was selected *)
Definition asset_insert (persistent : bool) (message : string) (d : SourceAssetDescriptor)
    (bytes : list Z) : boot () :=
  if persistent then call w_assets set_local message (ap_insert d bytes)
  else call w_memory set_memory message (ap_insert d bytes).
Definition asset_get (persistent : bool) (message : string) (id : AssetId)
    : boot (option SourceAssetDescriptor) :=
  if persistent then call w_assets set_local message (ap_get id)
  else call w_memory set_memory message (ap_get id).

(** ** Inputs *)

(** The [new()] of the identifiers, the answers of the filesystem for the PDF
    (the length in its metadata, and its bytes unless the read fails), and of
    [DocumentComposer::compose]. *)
Record Inputs := mkInputs {
  in_session : SessionId;
  in_canvas : CanvasId;
  in_layer : LayerId;
  in_asset : AssetId;
  in_node : NodeId;
  in_file : string → option (Z * option (list Z));
  in_compose : DocumentComposeInput → option DocumentComposition
}.
Context (inputs : Inputs).

(** The Canvas catalog port: the persistent store, or the development catalog *)
Inductive CanvasPort := PersistentCanvases | MemoryCanvases (m : gmap CanvasId CanvasDescriptor).

(** [PdfInspector::inspect] over the selected Asset store, and
    [DocumentReadService::get_document_view] over the selected ports *)
Context (inspect : bool → PdfInspectionLimits → AssetId → World → result () PdfDocument * World).
Context (get_document_view : CanvasPort → ServerConfig → DocumentId → World → result () () * World).
(** The Canvas lookups of the persistent store while it serves *)
Context (persistent_canvas : CanvasId → result CanvasCatalogError (option CanvasDescriptor)).

Definition run_port {A} (message : string) (f : World → result () A * World) : boot A := λ w,
  let '(r, w') := f w in (map_err (λ _, Bootstrap message) r, w').

(** ** [bootstrap_development_pdf] *)

Definition bootstrap_development_pdf (path : string) (session_id : SessionId)
    (limits : PdfInspectionLimits) (memory_asset_store persistent_asset_store : bool)
    : boot DocumentComposition :=
  '(length, contents) ← boot_lift (ok_or (Bootstrap "development PDF metadata could not be read")
                                     (in_file inputs path));
  if max_asset_bytes limits <? length
  then boot_fail "development PDF exceeds the inspection size limit" else
  bytes ← boot_lift (ok_or (Bootstrap "development PDF bytes could not be read") contents);
  let digest := ContentHash_from_bytes (sha256 bytes) in
  let filename := name ← file_name path; if utf8_valid name then Some name else None in
  asset ← boot_lift (ok_or (Bootstrap "development PDF asset metadata is invalid")
                       (SourceAssetDescriptor_new (in_asset inputs) "application/pdf" length digest filename));
  (if persistent_asset_store then
     asset_insert true "development PDF asset verification failed" asset bytes
   else if memory_asset_store then
     asset_insert false "development PDF asset verification failed" asset bytes
   else boot_fail "no Asset ingest backend is available");;
  pdf ← run_port "development PDF inspection failed"
          (inspect persistent_asset_store limits (asset_asset_id asset));
  if negb (bool_decide (pdf_asset_id pdf = asset_asset_id asset))
  then boot_fail "development PDF metadata identity mismatch" else
  input ← boot_lift (ok_or (Bootstrap "development Document composition input is invalid")
                       (DocumentComposeInput_new session_id Pdf asset (pdf_title pdf) (pdf_pages pdf)));
  boot_lift (ok_or (Bootstrap "development Document composition failed") (in_compose inputs input)).

(** ** The parts of [initialize_with] *)

(** The configured development Canvas *)
Definition configured_descriptor (c : ServerConfig) : boot CanvasDescriptor :=
  let d := development_canvas c in
  boot_lift (ok_or (Bootstrap "development Canvas configuration is invalid")
    (development_canvas_descriptor (dc_session_id d) (dc_canvas_id d) (dc_layer_id d) (dc_width d)
       (dc_height d) (in_session inputs) (in_canvas inputs) (in_layer inputs))).

(** The [let descriptor = ...] of the development mode *)
Definition development_descriptor (c : ServerConfig) (persistent_catalog : bool) : boot CanvasDescriptor :=
  if persistent_catalog then
    let key := BOOTSTRAP_DEFAULT_CANVAS in
    binding ← on_catalog "Development bootstrap binding lookup failed" (cs_get_binding key);
    match binding with
    | Some binding =>
        found ← on_catalog "Development Canvas lookup failed" (cs_get_canvas (binding_canvas_id binding));
        descriptor ← boot_lift (ok_or
          (Bootstrap "Development bootstrap binding references a missing Canvas") found);
        if negb (bool_decide (canvas_session_id descriptor = binding_session_id binding))
        then boot_fail "Development bootstrap Session mismatch" else mret descriptor
    | None =>
        descriptor ← configured_descriptor c;
        outcome ← on_catalog "Development Canvas publication failed"
          (cs_publish_with_binding key descriptor
             (mkBinding (canvas_session_id descriptor) (canvas_canvas_id descriptor)));
        match outcome with
        | Catalog.Inserted | Catalog.Existing => mret descriptor
        | OutcomeConflict => boot_fail "Development Canvas identity conflict"
        end
    end
  else configured_descriptor c.

(** The [if !catalog_has_documents ...] of the development mode: the Canvases
    to add to the development catalog *)
Definition development_document (c : ServerConfig) (persistent_assets persistent_catalog : bool)
    (session : SessionId) : boot (list CanvasDescriptor) :=
  has_documents ← (if persistent_catalog
     then docs ← on_catalog "Development Document catalog lookup failed" cs_list_all;
          mret (negb (bool_decide (length docs = 0%nat)))
     else docs ← boot_get (λ w, memory_documents_list session (w_documents w));
          summaries ← boot_lift (map_err (λ _, Bootstrap "Development Document catalog lookup failed") docs);
          mret (negb (bool_decide (length summaries = 0%nat))));
  match development_pdf_path c with
  | Some path =>
      if has_documents : bool then mret [] else
      composition ← bootstrap_development_pdf path session (development_pdf_inspection_limits c) true
                      persistent_assets;
      if persistent_catalog then
        outcome ← on_catalog "Development Document publication failed" (cs_publish_document composition);
        match outcome with
        | Catalog.Inserted | Catalog.Existing => mret []
        | OutcomeConflict => boot_fail "development Document identity conflict"
        end
      else λ w,
        match memory_documents_insert (composition_document composition) (w_documents w) with
        | (DocumentInserted, docs) => (Ok (page_canvases composition), set_documents docs w)
        | (_, docs) => (Err (Bootstrap "development Document identity collision"), set_documents docs w)
        end
  | None => mret []
  end.

(** The [if development_mode] block: the development Canvas, all Canvas
    descriptors, and the handler registry *)
Definition development_setup (c : ServerConfig) (persistent_assets persistent_catalog : bool)
    : boot (option CanvasDescriptor * list CanvasDescriptor * HandlerRegistry) :=
  if development_mode c then
    handlers ← boot_lift (ok_or (Bootstrap "development handler registration failed")
                            (handler_register "dev.echo" handlers_new));
    descriptor ← development_descriptor c persistent_catalog;
    canvases ← development_document c persistent_assets persistent_catalog (canvas_session_id descriptor);
    mret (Some descriptor, descriptor :: canvases, handlers)
  else mret (None, [], handlers_new).

(** The loops that validate the published Documents *)
Fixpoint validate_documents (c : ServerConfig) (persistent_assets : bool) (canvases : CanvasPort)
    (documents : list DocumentDescriptor) : boot () :=
  match documents with
  | [] => mret ()
  | document :: rest =>
      found ← asset_get persistent_assets "Document source Asset lookup failed" (source_asset_id document);
      boot_lift (ok_or (Bootstrap "Document references a missing published Asset") found);;
      run_port "Document read model is inconsistent"
        (get_document_view canvases c (document_document_id document));;
      validate_documents c persistent_assets canvases rest
  end.
Fixpoint validate_summaries (c : ServerConfig) (canvases : CanvasPort) (summaries : list DocumentSummary)
    : boot () :=
  match summaries with
  | [] => mret ()
  | summary :: rest =>
      run_port "Document read model is inconsistent"
        (get_document_view canvases c (summary_document_id summary));;
      validate_summaries c canvases rest
  end.
Definition validate_catalog (c : ServerConfig) (persistent_assets persistent_catalog : bool)
    (canvases : CanvasPort) (development : option CanvasDescriptor) : boot () :=
  if persistent_catalog then
    documents ← on_catalog "Document catalog validation failed" cs_list_all;
    validate_documents c persistent_assets canvases documents
  else
    match development with
    | Some descriptor =>
        docs ← boot_get (λ w, memory_documents_list (canvas_session_id descriptor) (w_documents w));
        summaries ← boot_lift (map_err (λ _, Bootstrap "Document catalog validation failed") docs);
        validate_summaries c canvases summaries
    | None => mret ()
    end.

(** [register_canvas_history_query_handler] *)
Definition register_canvas_history_query_handler (queries : QueryRegistry)
    (catalog : CanvasId → result CanvasCatalogError (option CanvasDescriptor))
    (authorizer : ActorId → SessionId → string → result CanvasHistory.AuthorizationError ())
    (store_scan_limit max_bytes : Z) : option (Handler * QueryRegistry) :=
  match handler_new catalog authorizer store_scan_limit max_bytes with
  | Ok handler =>
      queries' ← query_register CANVAS_HISTORY_PAGE_QUERY_TYPE queries; Some (handler, queries')
  | Err _ => None
  end.
(** [register_asset_access_query_handler]; [AssetAccessQueryHandler::new] only
    builds its static Query type. *)
Definition register_asset_access_query_handler (queries : QueryRegistry) : option QueryRegistry :=
  query_register ASSET_ACCESS_RESOLVE_QUERY_TYPE queries.

(** [ServerContext], as it is composed *)
Record ServerContext := mkContext {
  ctx_node_id : NodeId;
  ctx_node_state : NodeState;
  ctx_lifecycle : ServerLifecycle;
  ctx_handlers : HandlerRegistry;
  ctx_canvases : CanvasPort;
  ctx_read_authorizer : ActorId → SessionId → string → result DocumentAuthorizationError ();
  ctx_history : Handler (Actor := ActorId);
  ctx_queries : QueryRegistry;
  ctx_development_canvas : option CanvasDescriptor;
  ctx_asset_delivery : option AssetDeliveryService;
  ctx_asset_store : bool;
  ctx_catalog_store : bool
}.

(** *** The steps of the [async] block of [initialize_with] *)

(** The selection of the Asset ports: whether they are persistent *)
Definition open_asset_ports (c : ServerConfig) : boot bool :=
  match asset_store_root c with
  | Some root =>
      call w_assets set_local "persistent Asset store initialization failed"
        (ap_open root (sqlite_command_queue_capacity c));;
      mret true
  | None => mret false
  end.
(** The selection of the Catalog ports *)
Definition open_catalog_ports (c : ServerConfig) : boot bool :=
  match catalog_store_path c with
  | Some path =>
      on_catalog "persistent Catalog initialization failed"
        (cs_open path (sqlite_command_queue_capacity c));;
      mret true
  | None => mret false
  end.
(** The second [let canvas_catalog_port = ...] *)
Definition compose_canvases (persistent_catalog : bool) (descriptors : list CanvasDescriptor) : boot CanvasPort :=
  if persistent_catalog then mret PersistentCanvases
  else boot_lift (map_err (λ _, Bootstrap "duplicate Canvas identity")
                    (MemoryCanvases <$> from_descriptors descriptors)).
(** The Canvas handlers of the development mode *)
Definition compose_handlers (c : ServerConfig) (handlers : HandlerRegistry) : boot HandlerRegistry :=
  if development_mode c
  then boot_lift (ok_or (Bootstrap "Canvas handler registration failed") (register_canvas_handlers handlers))
  else mret handlers.
(** [let read_authorizer = ...] and [let canvas_history_authorizer = ...]: the
    development Canvas is there exactly in the development mode. *)
Definition compose_read_authorizer (development : option CanvasDescriptor)
    : ActorId → SessionId → string → result DocumentAuthorizationError () :=
  match development with
  | Some d => development_document_read (canvas_session_id d)
  | None => reject_all_document_read
  end.
Definition compose_history_authorizer (development : option CanvasDescriptor)
    : ActorId → SessionId → string → result CanvasHistory.AuthorizationError () :=
  match development with
  | Some d => development_authorizer (canvas_session_id d)
  | None => reject_all_authorizer
  end.
(** [let asset_delivery = ...] *)
Definition compose_delivery (c : ServerConfig) : boot (option AssetDeliveryService) :=
  if enabled (asset_delivery c)
  then service ← boot_lift (service_new (asset_delivery c)); mret (Some service)
  else mret None.
(** The Query registry, with the history handler *)
Definition compose_queries (c : ServerConfig) (canvases : CanvasPort) (development : option CanvasDescriptor)
    (delivery : option AssetDeliveryService) : boot (Handler (Actor := ActorId) * QueryRegistry) :=
  queries ← boot_lift (ok_or (Bootstrap "Document Query handler registration failed")
                         (register_document_query_handlers queries_new));
  let lookup := match canvases with
                | PersistentCanvases => persistent_canvas
                | MemoryCanvases m => λ id, get_canvas id m
                end in
  '(history, queries) ← boot_lift (ok_or (Bootstrap "Canvas history Query registration failed")
     (register_canvas_history_query_handler queries lookup (compose_history_authorizer development)
        (history_store_scan_limit c) (max_message_bytes (websocket_adapter c))));
  queries ← match delivery with
            | Some _ => boot_lift (ok_or (Bootstrap "Asset access Query handler registration failed")
                                     (register_asset_access_query_handler queries))
            | None => mret queries
            end;
  mret (history, queries).

(** The [async] block of [initialize_with] *)
Definition compose_services (c : ServerConfig) (node : NodeId) (lifecycle : ServerLifecycle)
    : boot ServerContext :=
  (λ w, (Ok (), set_documents memory_documents_new (set_memory memory_new w)));;
  persistent_assets ← open_asset_ports c;
  persistent_catalog ← open_catalog_ports c;
  '(development, descriptors, handlers) ← development_setup c persistent_assets persistent_catalog;
  canvases ← compose_canvases persistent_catalog descriptors;
  handlers ← compose_handlers c handlers;
  delivery ← compose_delivery c;
  '(history, queries) ← compose_queries c canvases development delivery;
  validate_catalog c persistent_assets persistent_catalog canvases development;;
  mret (mkContext node NodeStarting lifecycle handlers canvases (compose_read_authorizer development) history queries
          development delivery persistent_assets persistent_catalog).

(** [register_state_with] *)
Definition register_state_with (s : NodeState) : boot () := λ w,
  match reg_register s (w_registry w) with
  | (Ok _, r) => (Ok (), set_registry r w)
  | (Err _, r) => (Err (NodeLifecycle "node state registration failed"), set_registry r w)
  end.
(** The clean-up after a failed composition: both answers are ignored. *)
Definition withdraw_node (w : World) : World :=
  let r := (reg_register NodeOffline (w_registry w)).2 in set_registry (reg_unregister r).2 w.

Definition or_withdraw {A} (m : boot A) : boot A := λ w,
  match m w with
  | (Ok a, w') => (Ok a, w')
  | (Err e, w') => (Err e, withdraw_node w')
  end.

(** [initialize_with] *)
Definition initialize_with (c : ServerConfig) : boot ServerContext :=
  boot_lift (validate c);;
  let node := default (in_node inputs) (node_id c) in
  let '(started, lifecycle) := lifecycle_start lifecycle_new in
  boot_lift (map_err Lifecycle started);;
  register_state_with NodeStarting;;
  or_withdraw (compose_services c node lifecycle).

(** [Bootstrap::initialize], with a new registry *)
Definition initialize (c : ServerConfig) (registry_new : Reg) : boot ServerContext :=
  boot_lift (validate c);;
  match event_store_path c with
  | Some path => call w_events set_events "SQLite EventStore initialization failed"
                   (open_events path (sqlite_command_queue_capacity c))
  | None => mret ()
  end;;
  (if event_bus_accepts (subscription_queue_capacity c) then mret ()
   else boot_fail "event bus initialization failed");;
  (λ w, (Ok (), set_registry registry_new w));;
  initialize_with c.

(** ** The node registry during the composition *)

(** The services that only read *)
Hypothesis inspect_registry : ∀ b l id w, w_registry (inspect b l id w).2 = w_registry w.
Hypothesis view_registry : ∀ p c id w, w_registry (get_document_view p c id w).2 = w_registry w.

Definition keeps_registry {A} (m : boot A) : Prop := ∀ w, w_registry (m w).2 = w_registry w.

Lemma registry_ret {A} (a : A) : keeps_registry (mret a).
Proof. done. Qed.
Lemma registry_lift {A} (r : result ServerError A) : keeps_registry (boot_lift r).
Proof. done. Qed.
Lemma registry_fail {A} message : keeps_registry (boot_fail (A := A) message).
Proof. done. Qed.
Lemma registry_get {A} (f : World → A) : keeps_registry (boot_get f).
Proof. done. Qed.
Lemma registry_bind {A B} (m : boot A) (k : A → boot B) :
  keeps_registry m → (∀ a, keeps_registry (k a)) → keeps_registry (m ≫= k).
Proof.
  intros Hm Hk w. unfold mbind, boot_mbind. specialize (Hm w).
  destruct (m w) as [[a|e] w']; cbn in *; [|done]. by rewrite Hk.
Qed.
Lemma registry_call {A X} (get : World → X) set message (f : X → result () A * X) :
  (∀ x w, w_registry (set x w) = w_registry w) → keeps_registry (call get set message f).
Proof. intros Hs w. unfold call. destruct (f (get w)). apply Hs. Qed.
Lemma registry_catalog {A} message (f : Store → result () A * Store) :
  keeps_registry (on_catalog message f).
Proof. by apply registry_call. Qed.
Lemma registry_asset_insert b message d bytes : keeps_registry (asset_insert b message d bytes).
Proof. destruct b; by apply registry_call. Qed.
Lemma registry_asset_get b message id : keeps_registry (asset_get b message id).
Proof. destruct b; by apply registry_call. Qed.
Lemma registry_inspect message b l id : keeps_registry (run_port message (inspect b l id)).
Proof. intros w. unfold run_port. specialize (inspect_registry b l id w). by destruct (inspect b l id w). Qed.
Lemma registry_view message p c id : keeps_registry (run_port message (get_document_view p c id)).
Proof. intros w. unfold run_port. specialize (view_registry p c id w). by destruct (get_document_view p c id w). Qed.

(** Splits a composition into its steps. *)
Ltac solve_registry :=
  repeat first
    [ apply registry_ret | apply registry_lift | apply registry_fail | apply registry_get
    | apply registry_catalog | apply registry_asset_insert | apply registry_asset_get
    | apply registry_inspect | apply registry_view | (apply registry_call; done)
    | (apply registry_bind; [|intros ?])
    | match goal with |- keeps_registry (match ?x with _ => _ end) => destruct x end ].

Lemma pdf_registry path session limits memory persistent :
  keeps_registry (bootstrap_development_pdf path session limits memory persistent).
Proof. unfold bootstrap_development_pdf. solve_registry. Qed.

Lemma descriptor_registry c persistent : keeps_registry (development_descriptor c persistent).
Proof. unfold development_descriptor, configured_descriptor. solve_registry. Qed.

Lemma document_registry c pa pc session : keeps_registry (development_document c pa pc session).
Proof.
  unfold development_document. apply registry_bind; [solve_registry|]. intros has.
  destruct (development_pdf_path c) as [path|]; [|solve_registry]. destruct has; [solve_registry|].
  apply registry_bind; [apply pdf_registry|]. intros composition. destruct pc; [solve_registry|].
  intros w. by destruct (memory_documents_insert _ _) as [[] docs].
Qed.

Lemma validate_registry c pa canvases docs : keeps_registry (validate_documents c pa canvases docs).
Proof. induction docs as [|d docs IH]; cbn [validate_documents]; solve_registry. apply IH. Qed.
Lemma summaries_registry c canvases docs : keeps_registry (validate_summaries c canvases docs).
Proof. induction docs as [|d docs IH]; cbn [validate_summaries]; solve_registry. apply IH. Qed.

Lemma validate_catalog_registry c pa pc canvases development :
  keeps_registry (validate_catalog c pa pc canvases development).
Proof. unfold validate_catalog. solve_registry; [apply validate_registry|apply summaries_registry]. Qed.

Lemma compose_registry c node lifecycle : keeps_registry (compose_services c node lifecycle).
Proof.
  unfold compose_services, open_asset_ports, open_catalog_ports, compose_canvases, compose_handlers,
    compose_delivery, compose_queries. apply registry_bind; [done|intros _].
  apply registry_bind; [solve_registry|intros pa]. apply registry_bind; [solve_registry|intros pc].
  apply registry_bind.
  { unfold development_setup. destruct (development_mode c); [|apply registry_ret].
    apply registry_bind; [apply registry_lift|intros ?]. apply registry_bind; [apply descriptor_registry|intros ?].
    apply registry_bind; [apply document_registry|intros ?]. apply registry_ret. }
  intros [[development descriptors] handlers]. solve_registry. apply validate_catalog_registry.
Qed.

(** Inversion of a sequence that answered *)
Lemma boot_bind_Ok {A B} (m : boot A) (k : A → boot B) w b w' :
  (m ≫= k) w = (Ok b, w') → ∃ a w1, m w = (Ok a, w1) ∧ k a w1 = (Ok b, w').
Proof. unfold mbind, boot_mbind. destruct (m w) as [[a|e] w1] eqn:Hm; [|done]. eauto. Qed.

(** The node is registered with state [s], which is the last thing that the
    registry accepted before [w']. *)
Lemma register_state_inv `{!NodeRegistryLaws Reg} s w r w' :
  register_state_with s w = (r, w') →
  match r with
  | Ok _ => reg_state (w_registry w') = Some s
  | Err e => e = NodeLifecycle "node state registration failed" ∧
             reg_state (w_registry w') = reg_state (w_registry w)
  end ∧ ∃ r', reg_register s (w_registry w) = (r', w_registry w') ∧ is_ok r' = is_ok r.
Proof.
  unfold register_state_with. destruct (reg_register s (w_registry w)) as [[[]|[]] reg] eqn:Hr; intros [= <- <-].
  - split; [by eapply register_ok|by eexists].
  - split; [split; [done|]; by eapply register_err|by eexists].
Qed.

(** The registry of this run refuses to unregister the node: it has accepted the
    node as starting, was told that the node is offline ([told] is its answer),
    and then refused; the node is left in the last state that was accepted. *)
Definition unregister_refused (before after : Reg) : Prop :=
  ∃ r1 told r2, reg_register NodeStarting before = (Ok (), r1) ∧ reg_register NodeOffline r1 = (told, r2) ∧
    reg_unregister r2 = (Err (), after) ∧
    reg_state after = Some (if is_ok told then NodeOffline else NodeStarting).

Lemma withdraw_node_state `{!NodeRegistryLaws Reg} before w :
  reg_register NodeStarting before = (Ok (), w_registry w) →
  reg_state (w_registry (withdraw_node w)) = None ∨
  unregister_refused before (w_registry (withdraw_node w)).
Proof.
  intros Hb. unfold withdraw_node. cbn. destruct (reg_register NodeOffline (w_registry w)) as [o r] eqn:Hr. cbn.
  destruct (reg_unregister r) as [[[]|[]] r'] eqn:Hu; cbn; [left; by eapply unregister_ok|].
  right. exists (w_registry w), o, r. split_and!; [done..|]. rewrite (unregister_err _ _ Hu).
  destruct o as [[]|[]]; cbn; [by eapply register_ok|].
  rewrite (register_err _ _ _ Hr). by eapply register_ok.
Qed.

(** What [initialize_with] leaves in the registry: the node is starting; or it
    was never registered; or it was registered and withdrawn again. *)
Definition node_after (c : ServerConfig) (w w' : World) (r : result ServerError ServerContext) : Prop :=
  match r with
  | Ok context => reg_state (w_registry w') = Some NodeStarting ∧
                  ctx_lifecycle context = from_state Starting ∧ ctx_node_state context = NodeStarting
  | Err _ =>
      ((is_ok (validate c) = false ∨ ∃ reg, reg_register NodeStarting (w_registry w) = (Err (), reg)) ∧
       reg_state (w_registry w') = reg_state (w_registry w)) ∨
      ((∃ reg, reg_register NodeStarting (w_registry w) = (Ok (), reg)) ∧
       (reg_state (w_registry w') = None ∨ unregister_refused (w_registry w) (w_registry w')))
  end.

(** What the composition puts into the context. *)
Record assembled (c : ServerConfig) (node : NodeId) (lifecycle : ServerLifecycle) (context : ServerContext)
    : Prop := {
  assembled_node : ctx_node_id context = node;
  assembled_lifecycle : ctx_lifecycle context = lifecycle;
  assembled_state : ctx_node_state context = NodeStarting;
  assembled_assets : ctx_asset_store context = bool_decide (is_Some (asset_store_root c));
  assembled_catalog : ctx_catalog_store context = bool_decide (is_Some (catalog_store_path c));
  assembled_delivery : match ctx_asset_delivery context with
                       | Some service => enabled (asset_delivery c) = true ∧ service_new (asset_delivery c) = Ok service
                       | None => enabled (asset_delivery c) = false
                       end;
  assembled_reads : ctx_read_authorizer context = compose_read_authorizer (ctx_development_canvas context);
  assembled_history : h_authorizer (ctx_history context) =
                      compose_history_authorizer (ctx_development_canvas context);
  assembled_mode : is_Some (ctx_development_canvas context) → development_mode c = true
}.

Lemma setup_development c pa pc w development descriptors handlers w' :
  development_setup c pa pc w = (Ok (development, descriptors, handlers), w') →
  is_Some development → development_mode c = true.
Proof. unfold development_setup. destruct (development_mode c); [done|]. intros [= <- _ _ _] [? ?]. done. Qed.

Lemma register_history_authorizer queries catalog authorizer limit bytes history queries' :
  register_canvas_history_query_handler queries catalog authorizer limit bytes = Some (history, queries') →
  h_authorizer history = authorizer.
Proof.
  unfold register_canvas_history_query_handler, handler_new. destruct (_ || _ || _); [done|]. cbn.
  intros (? & _ & [= <- _])%bind_Some. done.
Qed.

Lemma compose_queries_Ok c canvases development delivery w history queries w' :
  compose_queries c canvases development delivery w = (Ok (history, queries), w') →
  h_authorizer history = compose_history_authorizer development.
Proof.
  unfold compose_queries. intros Hc. apply boot_bind_Ok in Hc as (? & ? & _ & Hc).
  apply boot_bind_Ok in Hc as ([history' queries'] & ? & Hh & Hc). apply boot_bind_Ok in Hc as (? & ? & _ & Hc).
  injection Hc as <- _ _. by injection Hh as Hh%ok_or_Ok_inv%register_history_authorizer _.
Qed.

Lemma compose_delivery_Ok c w delivery w' :
  compose_delivery c w = (Ok delivery, w') →
  match delivery with
  | Some service => enabled (asset_delivery c) = true ∧ service_new (asset_delivery c) = Ok service
  | None => enabled (asset_delivery c) = false
  end.
Proof.
  unfold compose_delivery. destruct (enabled (asset_delivery c)); [|by intros [= <- _]].
  intros (service & ? & Hs & [= <- _])%boot_bind_Ok. by injection Hs as Hs _.
Qed.

Lemma open_ports_Ok (m : boot ()) w b w' : (m;; mret true) w = (Ok b, w') → b = true.
Proof. by intros (? & ? & _ & [= <- _])%boot_bind_Ok. Qed.

Lemma compose_context c node lifecycle w context w' :
  compose_services c node lifecycle w = (Ok context, w') → assembled c node lifecycle context.
Proof.
  unfold compose_services. intros Hc. apply boot_bind_Ok in Hc as (_ & w1 & _ & Hc).
  apply boot_bind_Ok in Hc as (pa & w2 & Hpa & Hc). apply boot_bind_Ok in Hc as (pc & w3 & Hpc & Hc).
  apply boot_bind_Ok in Hc as ([[development descriptors] handlers] & w4 & Hsetup & Hc).
  do 2 apply boot_bind_Ok in Hc as (? & ? & _ & Hc). apply boot_bind_Ok in Hc as (delivery & w5 & Hd & Hc).
  apply boot_bind_Ok in Hc as ([history queries] & ? & Hq & Hc). apply boot_bind_Ok in Hc as (? & ? & _ & Hc).
  injection Hc as <- _. split; cbn; try done.
  - unfold open_asset_ports in Hpa. destruct (asset_store_root c); [by apply open_ports_Ok in Hpa as ->|].
    by injection Hpa as <- _.
  - unfold open_catalog_ports in Hpc. destruct (catalog_store_path c); [by apply open_ports_Ok in Hpc as ->|].
    by injection Hpc as <- _.
  - by eapply compose_delivery_Ok.
  - by eapply compose_queries_Ok.
  - by eapply setup_development.
Qed.

Lemma assembled_enabled c node lifecycle context :
  assembled c node lifecycle context →
  bool_decide (is_Some (ctx_asset_delivery context)) = enabled (asset_delivery c).
Proof. intros Ha. pose proof (assembled_delivery _ _ _ _ Ha) as Hd. by destruct (ctx_asset_delivery context) as [s|]; [destruct Hd as [-> _]|rewrite Hd]. Qed.

Lemma initialize_with_node `{!NodeRegistryLaws Reg} c w :
  let '(r, w') := initialize_with c w in node_after c w w' r.
Proof.
  unfold initialize_with. destruct (lifecycle_start lifecycle_new) as [started lifecycle] eqn:Hl.
  injection Hl as <- <-. unfold mbind, boot_mbind, boot_lift.
  destruct (validate c) as [[]|e] eqn:Hv; [|by left; rewrite Hv; auto].
  cbn [map_err]. pose proof (register_state_inv NodeStarting w) as Hr.
  destruct (register_state_with NodeStarting w) as [r w1]. specialize (Hr r w1 eq_refl).
  destruct Hr as (Hr & r' & Hreg & Hok).
  destruct r as [[]|e], r' as [[]|[]]; try done; [|left; split; [right; by eexists|by apply Hr]].
  unfold or_withdraw. pose proof (compose_registry c (default (in_node inputs) (node_id c)) (from_state Starting) w1) as Hk.
  destruct (compose_services _ _ _ w1) as [[context|e] w2] eqn:Hc; cbn in Hk.
  - apply compose_context in Hc as [_ Hcl Hcs]. cbn. by rewrite Hk.
  - cbn. right. split; [by eexists|]. apply withdraw_node_state. by rewrite Hk.
Qed.

(** C34. The composition is published or withdrawn.  When the bootstrap succeeds,
    its node is registered as starting and the process is starting.  When it
    fails before the node was registered, because the configuration is invalid
    or the registry refuses the node, the registration is as it was before.
    When it fails at any later step, the node is not registered any more, unless
    the registry of this run, which had accepted the node, refuses to unregister
    it; then the node is left as offline, or as starting when the registry had
    refused that too. *)
Theorem bootstrap_withdraws_node `{!NodeRegistryLaws Reg} c w :
  let '(r, w') := initialize_with c w in node_after c w w' r.
Proof. apply initialize_with_node. Qed.

(** ** Who may read *)

(** The Document and history reads that a context authorizes *)
Definition reads_confined (c : ServerConfig) (context : ServerContext) : Prop :=
  ∀ actor session query_type,
    ctx_read_authorizer context actor session query_type = Ok () ∨
    h_authorizer (ctx_history context) actor session query_type = Ok () →
    development_mode c = true ∧
    ∃ canvas, ctx_development_canvas context = Some canvas ∧ session = canvas_session_id canvas.

Lemma compose_confined c node lifecycle w context w' :
  compose_services c node lifecycle w = (Ok context, w') → reads_confined c context.
Proof.
  intros Hc%compose_context actor session query_type Hok.
  rewrite (assembled_reads _ _ _ _ Hc), (assembled_history _ _ _ _ Hc) in Hok.
  pose proof (assembled_mode _ _ _ _ Hc) as Hmode.
  destruct (ctx_development_canvas context) as [canvas|]; [|by destruct Hok].
  split; [by apply Hmode|]. exists canvas. split; [done|].
  cbn in Hok. unfold development_document_read, development_authorizer in Hok.
  case_bool_decide; [done|by destruct Hok].
Qed.

(** Reads are confined to the development Session: the composed authorizers
    of Document reads and of the history Query accept an actor only in
    development mode, and only for the Session of the development Canvas; a
    production process answers no read. *)
Theorem reads_are_confined c w context w' :
  initialize_with c w = (Ok context, w') → reads_confined c context.
Proof.
  unfold initialize_with. destruct (lifecycle_start lifecycle_new) as [started lifecycle].
  intros Hi. do 3 apply boot_bind_Ok in Hi as ([] & ? & _ & Hi).
  unfold or_withdraw in Hi. destruct (compose_services _ _ _ _) as [[ctx|] w1] eqn:Hc; [|done].
  injection Hi as <- _. by eapply compose_confined.
Qed.

(** ** From the bootstrap to the start *)

(** The server that [ServerApplication] starts *)
Definition context_server (context : ServerContext) (w : World) : ServerWorld :=
  mkServer (ctx_lifecycle context) (ctx_node_state context) (w_registry w) false false false false false false.
Definition context_composition (c : ServerConfig) (context : ServerContext) : Composition :=
  mkComposition (validate c)
    (λ bound addressed, listener_bind (websocket_listener c) (websocket_adapter c) bound addressed;; Ok ())
    (enabled (asset_delivery c))
    ((λ service bound addressed,
        http_bind (asset_delivery c) service bound
          (if addressed : bool then Some (listen_addr (asset_delivery c)) else None);; Ok ())
     <$> ctx_asset_delivery context)
    (ctx_asset_store context) (ctx_catalog_store context).

Lemma initialize_with_Ok c w context w' :
  initialize_with c w = (Ok context, w') →
  validate c = Ok () ∧
  ∃ w1, register_state_with NodeStarting w = (Ok (), w1) ∧
        compose_services c (default (in_node inputs) (node_id c)) (from_state Starting) w1 = (Ok context, w').
Proof.
  unfold initialize_with. destruct (lifecycle_start lifecycle_new) as [started lifecycle] eqn:Hl.
  injection Hl as <- <-. intros Hi. apply boot_bind_Ok in Hi as ([] & w1 & Hv & Hi).
  injection Hv as Hv <-. split; [done|]. apply boot_bind_Ok in Hi as ([] & w2 & Hs & Hi).
  injection Hs as <-. apply boot_bind_Ok in Hi as ([] & w3 & Hr & Hi). exists w3. split; [done|].
  unfold or_withdraw in Hi. by destruct (compose_services _ _ _ w3) as [[]].
Qed.

(** A configured limit of connections or downloads is above the maximum of a
    [Semaphore]. *)
Definition limits_too_large (c : ServerConfig) : Prop :=
  MAX_PERMITS < ws_max_connections (websocket_listener c) ∨
  (enabled (asset_delivery c) = true ∧
   (MAX_PERMITS < max_connections (asset_delivery c) ∨ MAX_PERMITS < max_active_downloads (asset_delivery c))).

Lemma validate_parts c : validate c = Ok () →
  validate_listener (websocket_listener c) = Ok () ∧ adapter_validate (websocket_adapter c) = true ∧
  validate_delivery (asset_delivery c) = Ok ().
Proof.
  unfold validate. destruct (_ =? _); [done|]. destruct (_ || _); [done|].
  intros ([] & Hl & Hv)%bind_Ok_inv. apply bind_Ok_inv in Hv as ([] & Ha & Hv).
  apply bind_Ok_inv in Hv as ([] & _ & Hv). apply bind_Ok_inv in Hv as ([] & Hd & _).
  by destruct (adapter_validate _).
Qed.

(** The binds of a composed process: with a valid configuration they fail only
    with the operating system and panic only on a limit. *)
Lemma composed_start c context w p :
  validate c = Ok () →
  (start_excuse (context_composition c context) w p →
   faulty p ∨ (enabled (asset_delivery c) = true ∧ ctx_asset_delivery context = None) ∨
   ∃ reg, reg_register NodeReady (registry w) = (Err (), reg)) ∧
  (start_panics (context_composition c context) → limits_too_large c).
Proof.
  intros Hv. pose proof (validate_parts c Hv) as (Hvl & Hva & Hvd).
  pose proof (λ b a, listener_bind_valid (websocket_listener c) (websocket_adapter c) b a Hvl Hva) as Hws.
  pose proof (λ s b a, http_bind_valid (asset_delivery c) s b a Hvd) as Hhttp.
  unfold start_excuse, start_panics, limits_too_large. cbn. rewrite Hv. split.
  - intros [Hf|[Hx|[[e He]|[[He Hx]|[(He & bind & e & Hb & Hx)|Hx]]]]]; [by left|done| | | |by right; right].
    + exfalso. specialize (Hws true true). destruct (listener_bind _ _ _ _) as [|[]]; done.
    + right; left. by destruct (ctx_asset_delivery context).
    + exfalso. destruct (ctx_asset_delivery context) as [service|]; [|done]. injection Hb as <-.
      specialize (Hhttp service true (Some (listen_addr (asset_delivery c)))).
      destruct (http_bind _ _ _ _) as [|[]]; [done| |done]. by destruct Hhttp.
  - intros [(b & a & Hx)|(He & bind & b & a & Hb & Hx)].
    + left. specialize (Hws b a). destruct (listener_bind _ _ _ _) as [|[]]; done.
    + right. split; [done|]. destruct (ctx_asset_delivery context) as [service|]; [|done]. injection Hb as <-.
      specialize (Hhttp service b (if a then Some (listen_addr (asset_delivery c)) else None)).
      destruct (http_bind _ _ _ _) as [|[]]; done.
Qed.

(** C28. A composed process starts: after a successful bootstrap, [start] makes
    the process ready, registers its node as ready and binds the configured
    listeners.  It answers an error only when a socket or store call fails or
    the registry refuses the node, and then no listener is left and the process
    is not ready; it panics only when a configured limit is above the maximum of
    a [Semaphore].  With limits below it, and without a failing call or a
    refusal, it is ready. *)
Theorem composed_server_starts `{!NodeRegistryLaws Reg} c w context w' p :
  initialize_with c w = (Ok context, w') →
  let '(r, conn) := app_start (context_composition c context) (mkConn (context_server context w') None p) in
  let s := committed conn in
  match r with
  | Ok _ => lifecycle s = from_state Ready ∧ reg_state (registry s) = Some NodeReady ∧
            listener s = true ∧ asset_listener s = enabled (asset_delivery c)
  | Err (FailedWith _) =>
      (faulty p ∨ ∃ reg, reg_register NodeReady (w_registry w') = (Err (), reg)) ∧
      is_ready (lifecycle s) = false ∧ listener s = false ∧ asset_listener s = false
  | Err Panicked => limits_too_large c ∧ is_ready (lifecycle s) = false
  end.
Proof.
  intros (Hv & w1 & _ & Hc)%initialize_with_Ok. apply compose_context in Hc as Ha.
  pose proof (assembled_lifecycle _ _ _ _ Ha) as Hl. apply assembled_enabled in Ha as Hd.
  pose proof (composed_start c context (context_server context w') p Hv) as [Hexcuse Hpanic].
  pose proof (app_start_wp (context_composition c context) (context_server context w') p) as Hw.
  unfold sql_wp in Hw. destruct (app_start _ _) as [r conn]. cbn in Hw. destruct (Hw Hl eq_refl eq_refl) as [_ Hst].
  clear Hw. rename Hst into Hw. unfold started in Hw. destruct r as [[]|[e|]]; cbn in Hw |- *; [done| |].
  - destruct Hw as (Hx & Hlis & Has & Hst). split_and!; [|by destruct Hst as [-> | [-> _]]|done|done].
    destruct (Hexcuse Hx) as [Hf|[[He Hn]|Hr]]; [by left| |by right]. rewrite Hn, He in Hd. by cbn in Hd.
  - destruct Hw as [Hx ->]. split; [by apply Hpanic|done].
Qed.

(** ** The stores during the composition *)

Context (holds : Store → Catalog → Prop) (local_ok : Assets → Prop) (local_has : Assets → AssetId → Prop)
        (memory_ok : Memory → Prop) (memory_has : Memory → AssetId → Prop).
Context `{!CatalogStoreLaws Store holds} `{!AssetPortLaws Assets local_ok local_has}
        `{!AssetOpeningLaws Assets local_ok local_has} `{!AssetPortLaws Memory memory_ok memory_has}.

(** The Catalog [cat] is stored and the Asset stores are well-formed. *)
Record stored (cat : Catalog) (w : World) : Prop := {
  stored_catalog : holds (w_catalog w) cat;
  stored_local : local_ok (w_assets w);
  stored_memory : memory_ok (w_memory w)
}.
(** Asset [id] is published in the selected store. *)
Definition has_asset (persistent : bool) (w : World) (id : AssetId) : Prop :=
  if persistent then local_has (w_assets w) id else memory_has (w_memory w) id.
(** Nothing that was stored is lost. *)
Record later (cat : Catalog) (w : World) (cat' : Catalog) (w' : World) : Prop := {
  later_stored : stored cat' w';
  later_catalog : extends cat cat';
  later_assets : ∀ b id, has_asset b w id → has_asset b w' id
}.

Lemma later_refl cat w : stored cat w → later cat w cat w.
Proof. by split. Qed.
Lemma later_trans cat1 w1 cat2 w2 cat3 w3 :
  later cat1 w1 cat2 w2 → later cat2 w2 cat3 w3 → later cat1 w1 cat3 w3.
Proof. intros [_ He Ha] [Hs He' Ha']. split; [done|by etrans|auto]. Qed.

(** When [m] answers, nothing stored is lost and the answer satisfies [Q]. *)
Definition runs {A} (m : boot A) (Q : A → Catalog → World → Prop) (cat : Catalog) (w : World) : Prop :=
  ∀ a w', m w = (Ok a, w') → ∃ cat', later cat w cat' w' ∧ Q a cat' w'.

Lemma runs_ret {A} (a : A) (Q : A → Catalog → World → Prop) cat w :
  stored cat w → Q a cat w → runs (mret a) Q cat w.
Proof. intros Hs Hq a' w' [= <- <-]. exists cat. split; [by apply later_refl|done]. Qed.
Lemma runs_lift {A} (r : result ServerError A) (Q : A → Catalog → World → Prop) cat w :
  stored cat w → (∀ a, r = Ok a → Q a cat w) → runs (boot_lift r) Q cat w.
Proof. intros Hs Hq a w' [= -> <-]. exists cat. split; [by apply later_refl|auto]. Qed.
Lemma runs_fail {A} message (Q : A → Catalog → World → Prop) cat w : runs (boot_fail message) Q cat w.
Proof. done. Qed.
Lemma runs_get {A} (f : World → A) (Q : A → Catalog → World → Prop) cat w :
  stored cat w → Q (f w) cat w → runs (boot_get f) Q cat w.
Proof. intros Hs Hq a w' [= <- <-]. exists cat. split; [by apply later_refl|done]. Qed.
Lemma runs_bind {A B} (m : boot A) (k : A → boot B) R (Q : B → Catalog → World → Prop) cat w :
  runs m R cat w → (∀ a cat' w', later cat w cat' w' → R a cat' w' → runs (k a) Q cat' w') →
  runs (m ≫= k) Q cat w.
Proof.
  intros Hm Hk b w2 Hb. apply boot_bind_Ok in Hb as (a & w1 & Ha & Hb).
  destruct (Hm _ _ Ha) as (cat1 & Hl & Hr). destruct (Hk _ _ _ Hl Hr _ _ Hb) as (cat2 & Hl2 & Hq).
  exists cat2. split; [by eapply later_trans|done].
Qed.
Lemma runs_mono {A} (m : boot A) (R Q : A → Catalog → World → Prop) cat w :
  runs m R cat w → (∀ a cat' w', R a cat' w' → Q a cat' w') → runs m Q cat w.
Proof. intros Hm Hq a w' Ha. destruct (Hm _ _ Ha) as (cat' & ? & ?). eauto. Qed.

(** The services of the kernel only read. *)
Hypothesis inspect_reads : ∀ b l id cat w, stored cat w → later cat w cat (inspect b l id w).2.
Hypothesis view_reads : ∀ p c id cat w, stored cat w → later cat w cat (get_document_view p c id w).2.

Lemma runs_port {A} message (f : World → result () A * World) cat w :
  later cat w cat (f w).2 → runs (run_port message f) (λ _ cat' _, cat' = cat) cat w.
Proof.
  intros Hf a w'. unfold run_port. destruct (f w) as [[x|] w1]; intros [= <- <-]. by exists cat.
Qed.

(** Reads of the Catalog *)
Lemma runs_catalog_read {A} message (f : Store → result () A * Store) (a : A) cat w :
  stored cat w → answers holds cat a (f (w_catalog w)) →
  runs (on_catalog message f) (λ a' cat' _, a' = a ∧ cat' = cat) cat w.
Proof.
  intros [Hc Hl Hm] [Hh Ha] x w'. unfold on_catalog, call. destruct (f (w_catalog w)) as [[y|] s]; cbn in *;
    intros [= <- <-]. exists cat. split; [|done]. split; [by split|done|by intros []].
Qed.
(** Publications *)
Lemma runs_publish message (f : Store → result () CatalogPublishOutcome * Store) spec cat w :
  stored cat w → extends cat spec.2 → publishes holds cat spec (f (w_catalog w)) →
  runs (on_catalog message f) (λ o cat' _, spec = (Ok o, cat')) cat w.
Proof.
  intros [Hc Hl Hm] He Hp o w'. unfold on_catalog, call. unfold publishes in Hp.
  destruct (f (w_catalog w)) as [[y|] s]; cbn in *; intros [= <- <-]. destruct Hp as [Hs Hh].
  exists spec.2. split; [split; [by split|done|by intros []]|]. rewrite <- Hs. by destruct spec.
Qed.

(** The Asset stores *)
Lemma runs_asset_insert b message d bytes cat w :
  stored cat w → runs (asset_insert b message d bytes) (λ _ cat' _, cat' = cat) cat w.
Proof.
  intros [Hc Hl Hm] a w'. unfold asset_insert, call. destruct b.
  - pose proof (ap_insert_law d bytes _ Hl) as [Hok Hhas]. destruct (ap_insert d bytes (w_assets w)) as [[x|] s]; cbn in *;
      intros [= <- <-]. exists cat. split; [|done]. split; [by split|done|]. intros []; cbn; auto.
  - pose proof (ap_insert_law d bytes _ Hm) as [Hok Hhas]. destruct (ap_insert d bytes (w_memory w)) as [[x|] s]; cbn in *;
      intros [= <- <-]. exists cat. split; [|done]. split; [by split|done|]. intros []; cbn; auto.
Qed.
Lemma runs_asset_get b message id cat w :
  stored cat w →
  runs (asset_get b message id) (λ o cat' w', cat' = cat ∧ (is_Some o → has_asset b w' id)) cat w.
Proof.
  intros [Hc Hl Hm] a w'. unfold asset_get, call. destruct b.
  - pose proof (ap_get_law id _ Hl) as [[Hok Hhas] Hg]. destruct (ap_get id (w_assets w)) as [[x|] s]; cbn in *;
      intros [= <- <-]. exists cat. split; [|split; [done|intros [d ->]; done]].
    split; [by split|done|]. intros []; cbn; auto.
  - pose proof (ap_get_law id _ Hm) as [[Hok Hhas] Hg]. destruct (ap_get id (w_memory w)) as [[x|] s]; cbn in *;
      intros [= <- <-]. exists cat. split; [|split; [done|intros [d ->]; done]].
    split; [by split|done|]. intros []; cbn; auto.
Qed.

(** *** The development PDF *)

Lemma runs_pdf path session limits memory persistent cat w :
  stored cat w →
  runs (bootstrap_development_pdf path session limits memory persistent) (λ _ cat' _, cat' = cat) cat w.
Proof.
  intros Hs. unfold bootstrap_development_pdf.
  eapply runs_bind; [by apply (runs_lift _ (λ _ cat' w', cat' = cat ∧ w' = w))|].
  intros [length contents] ? ? _ [-> ->]. destruct (max_asset_bytes limits <? length); [apply runs_fail|].
  eapply runs_bind; [by apply (runs_lift _ (λ _ cat' w', cat' = cat ∧ w' = w))|].
  intros bytes ? ? _ [-> ->].
  eapply runs_bind; [by apply (runs_lift _ (λ _ cat' w', cat' = cat ∧ w' = w))|].
  intros asset ? ? _ [-> ->].
  eapply (runs_bind _ _ (λ _ cat' _, cat' = cat)).
  { destruct persistent; [by apply runs_asset_insert|]. destruct memory; [by apply runs_asset_insert|apply runs_fail]. }
  intros _ ? w1 Hl1 ->. eapply runs_bind; [apply runs_port, inspect_reads, Hl1|].
  intros pdf ? w2 Hl2 ->. destruct (negb _); [apply runs_fail|].
  eapply runs_bind; [apply (runs_lift _ (λ _ cat' w', cat' = cat)); [apply Hl2|done]|].
  intros input ? w3 Hl3 ->. by apply runs_lift; [apply Hl3|].
Qed.

(** *** The development Canvas *)

(** [d] is the Canvas of the stored bootstrap binding. *)
Definition bound_to (cat : Catalog) (d : CanvasDescriptor) : Prop :=
  ∃ b, find_binding BOOTSTRAP_DEFAULT_CANVAS cat = Some b ∧
       find_canvas (binding_canvas_id b) cat = Some d ∧ canvas_session_id d = binding_session_id b.

Lemma bound_to_extends cat cat' d : extends cat cat' → bound_to cat d → bound_to cat' d.
Proof.
  intros He (b & Hb & Hc & Hs). exists b. split_and!; [by eapply find_binding_extends|by eapply find_canvas_extends|done].
Qed.
Lemma bound_to_unique cat d d' : bound_to cat d → bound_to cat d' → d = d'.
Proof. intros (b & Hb & Hc & _) (b' & Hb' & Hc' & _). congruence. Qed.

Lemma published_bound d cat o cat' :
  spec_publish_with_binding BOOTSTRAP_DEFAULT_CANVAS d (mkBinding (canvas_session_id d) (canvas_canvas_id d)) cat
    = (Ok o, cat') → bound_to cat' d.
Proof.
  unfold spec_publish_with_binding. set (b := mkBinding _ _). cbn [binding_canvas_id binding_session_id].
  rewrite decide_True by done. intros Hp. exists b. cbn.
  destruct (find_binding _ cat) as [b'|] eqn:Hb.
  - case_decide as Hd; [|done]. destruct Hd as [-> Hd]. injection Hp as _ <-. done.
  - destruct (find_canvas _ cat) as [existing|] eqn:Hc; (case_decide as Hd; [|done]); injection Hp as _ <-.
    + subst existing. split_and!; [by apply find_binding_add|done|done].
    + split_and!; [by apply find_binding_add| |done].
      by apply (find_canvas_add (add_binding BOOTSTRAP_DEFAULT_CANVAS b cat)).
Qed.

Lemma runs_configured c cat w : stored cat w → runs (configured_descriptor c) (λ _ cat' _, cat' = cat) cat w.
Proof. intros Hs. by apply runs_lift. Qed.

Lemma runs_descriptor c cat w :
  stored cat w → runs (development_descriptor c true) (λ d cat' _, bound_to cat' d) cat w.
Proof.
  intros Hs. unfold development_descriptor.
  eapply runs_bind; [eapply runs_catalog_read; [done|apply cs_get_binding_law, Hs]|].
  intros binding ? w1 Hl1 [-> ->]. destruct (find_binding _ cat) as [b|] eqn:Hb.
  - eapply runs_bind; [eapply runs_catalog_read; [apply Hl1|apply cs_get_canvas_law, Hl1]|].
    intros found ? w2 Hl2 [-> ->]. eapply runs_bind.
    { apply (runs_lift _ (λ d cat' _, find_canvas (binding_canvas_id b) cat' = Some d ∧ cat' = cat)); [apply Hl2|].
      intros d Hd%ok_or_Ok_inv. done. }
    intros d ? w3 Hl3 [Hd ->]. case_bool_decide as Hsess; [|apply runs_fail].
    apply runs_ret; [apply Hl3|]. by exists b.
  - eapply runs_bind; [apply runs_configured, Hl1|]. intros d ? w2 Hl2 ->.
    eapply runs_bind; [eapply runs_publish;
      [apply Hl2|apply spec_publish_with_binding_extends|apply cs_publish_with_binding_law, Hl2]|].
    intros o cat3 w3 Hl3 Ho%published_bound. destruct o; try apply runs_fail; apply runs_ret; (apply Hl3 || done).
Qed.

(** *** The development Document *)

Lemma runs_document c pa session cat w :
  stored cat w → runs (development_document c pa true session) (λ _ _ _, True) cat w.
Proof.
  intros Hs. unfold development_document. eapply runs_bind.
  { eapply (runs_bind _ _ _ (λ _ _ _, True)); [eapply runs_catalog_read; [done|apply cs_list_all_law, Hs]|].
    intros docs ? w1 Hl1 _. apply runs_ret; [apply Hl1|done]. }
  intros has cat1 w1 Hl1 _. destruct (development_pdf_path c) as [path|]; [|by apply runs_ret; [apply Hl1|]].
  destruct has; [by apply runs_ret; [apply Hl1|]|].
  eapply runs_bind; [apply runs_pdf, Hl1|]. intros composition ? w2 Hl2 ->.
  eapply runs_bind; [eapply runs_publish;
    [apply Hl2|apply spec_publish_document_extends|apply cs_publish_document_law, Hl2]|].
  intros o cat3 w3 Hl3 _. destruct o; try apply runs_fail; (apply runs_ret; [apply Hl3|done]).
Qed.

Lemma runs_setup c pa cat w :
  stored cat w →
  runs (development_setup c pa true)
    (λ x cat' _, match x.1.1 with Some d => bound_to cat' d | None => development_mode c = false end) cat w.
Proof.
  intros Hs. unfold development_setup. destruct (development_mode c); [|by apply runs_ret].
  eapply runs_bind; [by apply (runs_lift _ (λ _ cat' w', cat' = cat))|]. intros handlers ? w1 Hl1 ->.
  eapply runs_bind; [apply runs_descriptor, Hl1|]. intros d cat2 w2 Hl2 Hd.
  eapply runs_bind; [apply runs_document, Hl2|]. intros canvases cat3 w3 Hl3 _.
  apply runs_ret; [apply Hl3|]. cbn. eapply bound_to_extends; [apply Hl3|done].
Qed.

(** *** The validation of the Documents *)

Lemma runs_validate c pa canvases cat docs : ∀ w, stored cat w →
  runs (validate_documents c pa canvases docs)
    (λ _ cat' w', cat' = cat ∧ ∀ d, d ∈ docs → has_asset pa w' (source_asset_id d)) cat w.
Proof.
  induction docs as [|d docs IH]; intros w Hs; cbn [validate_documents].
  - apply runs_ret; [done|]. split; [done|]. by intros d Hd%elem_of_nil.
  - eapply runs_bind; [by apply runs_asset_get|]. intros found ? w1 Hl1 [-> Hfound].
    eapply runs_bind.
    { apply (runs_lift _ (λ _ cat' w', cat' = cat ∧ has_asset pa w' (source_asset_id d))); [apply Hl1|].
      intros x Hx%ok_or_Ok_inv. split; [done|]. apply Hfound. by exists x. }
    intros _ ? w2 Hl2 [-> Hhas]. eapply runs_bind; [apply runs_port, view_reads, Hl2|].
    intros _ ? w3 Hl3 ->. intros [] w4 Hw4. destruct (IH w3 (later_stored _ _ _ _ Hl3) _ _ Hw4) as (cat4 & Hl4 & -> & Hall).
    exists cat. split; [done|]. split; [done|]. intros x [->|Hx]%elem_of_cons; [|by apply Hall].
    by apply (later_assets _ _ _ _ Hl4), (later_assets _ _ _ _ Hl3).
Qed.

(** *** The whole composition *)

Hypothesis memory_new_ok : memory_ok memory_new.

Lemma runs_open path capacity message cat w :
  stored cat w → runs (on_catalog message (cs_open path capacity)) (λ _ cat' _, cat' = cat) cat w.
Proof.
  intros [Hc Hl Hm] a w'. unfold on_catalog, call. pose proof (cs_open_law path capacity _ cat Hc) as Ho.
  destruct (cs_open path capacity (w_catalog w)) as [[x|] s]; intros [= <- <-].
  exists cat. split; [|done]. split; [by split|done|by intros []].
Qed.
Lemma runs_asset_open path capacity message cat w :
  stored cat w →
  runs (call w_assets set_local message (ap_open path capacity)) (λ _ cat' _, cat' = cat) cat w.
Proof.
  intros [Hc Hl Hm] a w'. unfold call. pose proof (ap_open_law path capacity _ Hl) as [Hok Hhas].
  destruct (ap_open path capacity (w_assets w)) as [[x|] s]; cbn in *; intros [= <- <-].
  exists cat. split; [|done]. split; [by split|done|]. intros []; cbn; auto.
Qed.

(** What a composed context promises about a persistent Catalog *)
Definition composed (c : ServerConfig) (context : ServerContext) (cat : Catalog) (w : World) : Prop :=
  (∀ d, d ∈ c_documents cat → has_asset (ctx_asset_store context) w (source_asset_id d)) ∧
  match ctx_development_canvas context with
  | Some d => bound_to cat d
  | None => development_mode c = false
  end.

(** A step of the composition that does not touch the stores *)
Lemma runs_pure {A B} (m : boot A) (k : A → boot B) (Q : B → Catalog → World → Prop) cat w :
  (∀ a w', m w = (Ok a, w') → w' = w) → (∀ a, runs (k a) Q cat w) → runs (m ≫= k) Q cat w.
Proof.
  intros Hm Hk b w' Hb. apply boot_bind_Ok in Hb as (a & w1 & Ha & Hb). apply Hm in Ha as ->. by eapply Hk.
Qed.

(** Closes the side condition of [runs_pure]: the steps that were taken are
    values. *)
Ltac solve_pure :=
  let a := fresh "a" in let w' := fresh "w'" in let Hm := fresh "Hm" in
  intros a w' Hm;
  unfold compose_canvases, compose_handlers, compose_delivery, compose_queries in Hm;
  repeat match type of Hm with
  | (match ?x with _ => _ end) _ = _ => destruct x
  | (_ ≫= _) _ = _ => apply boot_bind_Ok in Hm as (? & ? & [= ? <-] & Hm)
  end; injection Hm; congruence.

Lemma compose_queries_pure c canvases development delivery w x w' :
  compose_queries c canvases development delivery w = (Ok x, w') → w' = w.
Proof.
  unfold compose_queries. intros Hm. apply boot_bind_Ok in Hm as (? & ? & [= ? <-] & Hm).
  apply boot_bind_Ok in Hm as ([history queries] & ? & [= ? <-] & Hm).
  apply boot_bind_Ok in Hm as (? & ? & Hq & [= _ <-]). destruct delivery; by injection Hq.
Qed.

Lemma runs_compose c node l path cat w context w' :
  holds (w_catalog w) cat → local_ok (w_assets w) → catalog_store_path c = Some path →
  compose_services c node l w = (Ok context, w') →
  ∃ cat', stored cat' w' ∧ extends cat cat' ∧ composed c context cat' w'.
Proof.
  intros Hc Hl Hpath Hw. unfold compose_services in Hw. apply boot_bind_Ok in Hw as ([] & w0 & [= <-] & Hw).
  match type of Hw with ?m ?w1 = _ => assert (stored cat w1) as Hs by (by split);
    assert (runs m (composed c) cat w1) as Hr; [|destruct (Hr _ _ Hw) as (cat' & [? ? _] & ?); eauto] end.
  clear Hw Hl. set (w1 := set_documents _ _) in *. clearbody w1.
  eapply (runs_bind _ _ (λ pa cat' w', cat' = cat)).
  { unfold open_asset_ports. destruct (asset_store_root c); [|by apply runs_ret].
    eapply runs_bind; [by apply runs_asset_open|]. intros _ ? w2 Hl2 ->. apply runs_ret; [apply Hl2|done]. }
  intros pa ? w2 Hl2 ->. eapply (runs_bind _ _ (λ pc cat' w', cat' = cat ∧ pc = true)).
  { unfold open_catalog_ports. rewrite Hpath. eapply runs_bind; [apply runs_open, Hl2|].
    intros _ ? w3 Hl3 ->. apply runs_ret; [apply Hl3|done]. }
  intros pc ? w3 Hl3 [-> ->]. eapply runs_bind; [apply runs_setup, Hl3|].
  intros [[development descriptors] handlers] cat4 w4 Hl4 Hdev. cbn in Hdev.
  do 3 (apply runs_pure; [solve_pure|intros ?]).
  apply runs_pure; [intros ? ?; apply compose_queries_pure|intros [history queries]].
  eapply runs_bind.
  { unfold validate_catalog. eapply runs_bind; [eapply runs_catalog_read; [apply Hl4|apply cs_list_all_law, Hl4]|].
    intros docs ? w5 Hl5 [-> ->]. apply runs_validate, Hl5. }
  intros _ ? w6 Hl6 [-> Hall]. by apply runs_ret; [apply Hl6|split].
Qed.

Lemma initialize_composes c path cat w context w' :
  holds (w_catalog w) cat → local_ok (w_assets w) → catalog_store_path c = Some path →
  initialize_with c w = (Ok context, w') →
  ∃ cat', stored cat' w' ∧ extends cat cat' ∧ composed c context cat' w' ∧
          ctx_asset_store context = bool_decide (is_Some (asset_store_root c)).
Proof.
  intros Hc Hl Hp (_ & w1 & Hr & Hi)%initialize_with_Ok.
  assert (w_catalog w1 = w_catalog w ∧ w_assets w1 = w_assets w) as [Hc1 Hl1].
  { unfold register_state_with in Hr. destruct (reg_register _ _) as [[] ?]; injection Hr; by intros <-. }
  rewrite <- Hc1 in Hc. rewrite <- Hl1 in Hl.
  destruct (runs_compose _ _ _ _ _ _ _ _ Hc Hl Hp Hi) as (cat' & Hs & He & Hcomp).
  apply compose_context in Hi as [_ _ _ Ha]. eauto 10.
Qed.

(** C16. A process is only composed over complete stores: when the bootstrap
    succeeds with a persistent Catalog, everything that was published in the
    Catalog before is still there, and the source Asset of every Document of
    it is published in the Asset store of the process. *)
Theorem bootstrapped_catalog_is_complete c path cat w context w' :
  holds (w_catalog w) cat → local_ok (w_assets w) → catalog_store_path c = Some path →
  initialize_with c w = (Ok context, w') →
  ∃ cat', holds (w_catalog w') cat' ∧ extends cat cat' ∧
    ∀ d, d ∈ c_documents cat' →
      has_asset (bool_decide (is_Some (asset_store_root c))) w' (source_asset_id d).
Proof.
  intros Hc Hl Hp Hi. destruct (initialize_composes _ _ _ _ _ _ Hc Hl Hp Hi) as (cat' & [Hh _ _] & He & [Ha _] & <-).
  eauto.
Qed.

End bootstrap.

(** ** Restarts *)

Section restart.
Context `{BootstrapKernel}.
Context {Events Store Assets Memory Reg : Type} `{!CatalogStore Store} `{!AssetPort Assets}
        `{!AssetOpening Assets} `{!AssetPort Memory} `{!NodeRegistry Reg}.
Abbreviation W := (World (Events := Events) (Store := Store) (Assets := Assets) (Memory := Memory) (Reg := Reg)).
Context (memory_new : Memory)
        (inspect : bool → PdfInspectionLimits → AssetId → W → result () PdfDocument * W)
        (get_document_view : CanvasPort → ServerConfig → DocumentId → W → result () () * W)
        (persistent_canvas : CanvasId → result CanvasCatalogError (option CanvasDescriptor)).
Context (holds : Store → Catalog → Prop) (local_ok : Assets → Prop) (local_has : Assets → AssetId → Prop)
        (memory_ok : Memory → Prop) (memory_has : Memory → AssetId → Prop).
Context `{!CatalogStoreLaws Store holds} `{!AssetPortLaws Assets local_ok local_has}
        `{!AssetOpeningLaws Assets local_ok local_has} `{!AssetPortLaws Memory memory_ok memory_has}.
Abbreviation reads_only f :=
  (∀ cat w, stored holds local_ok memory_ok cat w →
            later holds local_ok local_has memory_ok memory_has cat w cat (f w).2).
Hypothesis inspect_reads : ∀ b l id, reads_only (inspect b l id).
Hypothesis view_reads : ∀ p c id, reads_only (get_document_view p c id).
Hypothesis memory_new_ok : memory_ok memory_new.

Abbreviation run inputs := (initialize_with memory_new inputs inspect get_document_view persistent_canvas).

(** C17. The development Canvas survives restarts: when a process in development
    mode is composed over a persistent Catalog, and later another one over the
    Catalog that the first left behind, both have the same development Canvas,
    whatever identifiers the second was configured with or generated, and
    whatever else changed in between. *)
Theorem development_canvas_survives_restart c1 c2 in1 in2 path1 path2 cat w1 w2 ctx1 ctx2 w1' w2' :
  holds (w_catalog w1) cat → local_ok (w_assets w1) → local_ok (w_assets w2) →
  catalog_store_path c1 = Some path1 → catalog_store_path c2 = Some path2 →
  development_mode c1 = true → development_mode c2 = true →
  run in1 c1 w1 = (Ok ctx1, w1') → w_catalog w2 = w_catalog w1' → run in2 c2 w2 = (Ok ctx2, w2') →
  ∃ canvas, ctx_development_canvas ctx1 = Some canvas ∧ ctx_development_canvas ctx2 = Some canvas.
Proof.
  intros Hc Hl1 Hl2 Hp1 Hp2 Hd1 Hd2 Hr1 Hw Hr2.
  eapply initialize_composes in Hr1 as (cat1 & [Hh1 _ _] & _ & [_ Hb1] & _); try done.
  rewrite <- Hw in Hh1. eapply initialize_composes in Hr2 as (cat2 & _ & He2 & [_ Hb2] & _); try done.
  destruct (ctx_development_canvas ctx1) as [d1|]; [|congruence].
  destruct (ctx_development_canvas ctx2) as [d2|]; [|congruence]. exists d1. split; [done|]. f_equal.
  eapply bound_to_unique; [done|]. by eapply bound_to_extends.
Qed.
End restart.
