(* ===== verification/Main.v ===== *)
(** * The process entry point

    Models [orbitrelay-server/src/main.rs]: the configuration is loaded, the
    server is composed and started, its addresses are reported, and it runs
    until it is asked to stop.  This is where the environment, the bootstrap
    and the lifecycle meet. *)

From S2P Require Import Prelude Float Net Kernel Sql Http Lifecycle Canvas CatalogKernel Catalog.
From S2P Require Import CatalogSpec CatalogRefine CatalogWorker CanvasHistory DeliveryConfig Delivery.
From S2P Require Import Config Dependencies Ports Bootstrap.

(** The answers of the operating system while the addresses are reported: the
    two [local_addr] calls and the flush of the standard output.  A [println!]
    that cannot be written panics and is left out. *)
Record Reporting := mkReporting { local_addr_ok : bool; asset_local_addr_ok : bool; flush_ok : bool }.

Section main.
Context `{BootstrapKernel}.
Context {Events Store Assets Memory Reg : Type} `{!CatalogStore Store} `{!AssetPort Assets}
        `{!AssetOpening Assets} `{!AssetPort Memory} `{!NodeRegistry Reg}.
Abbreviation W := (World (Events := Events) (Store := Store) (Assets := Assets) (Memory := Memory) (Reg := Reg)).
Context (open_events : string → Z → Events → result () () * Events) (memory_new : Memory) (inputs : Inputs)
        (inspect : bool → PdfInspectionLimits → AssetId → W → result () PdfDocument * W)
        (get_document_view : CanvasPort → ServerConfig → DocumentId → W → result () () * W)
        (persistent_canvas : CanvasId → result CanvasCatalogError (option CanvasDescriptor)).

Abbreviation C := (conn (ServerWorld (Reg := Reg)) ServerError).
Abbreviation M := (sql (ServerWorld (Reg := Reg)) ServerError failure).
Abbreviation fail e := (sql_fail (FailedWith e)).

(** [ServerApplication::local_addr] and [asset_local_addr] *)
Definition app_local_addr (ok : bool) : M () :=
  bound ← get listener;
  if negb (bound : bool) then fail (Listener "listener is not started") else
  if ok then mret () else fail (Listener "listener address unavailable").
Definition app_asset_local_addr (ok : bool) : M () :=
  bound ← get asset_listener;
  if negb (bound : bool) then fail (Listener "Asset HTTP listener is not started") else
  if ok then mret () else fail (Listener "Asset HTTP listener address unavailable").

(** The report of the bound addresses *)
Definition report (asset_delivery_enabled : bool) (r : Reporting) : M () :=
  app_local_addr (local_addr_ok r);;
  (if asset_delivery_enabled then app_asset_local_addr (asset_local_addr_ok r) else mret ());;
  if flush_ok r then mret () else fail (Bootstrap "failed to report listener address").

(** [main] from the composed context on; the [start] inside [run] finds the
    listener bound. *)
Definition serve_process (env : gmap string string) (c : ServerConfig) (app : Composition) (r : Reporting)
    (woken : wake) : M () :=
  app_start app;;
  report (enabled (asset_delivery c)) r;;
  match env !! "ORBITRELAY_TEST_SHUTDOWN_STDIN" with
  | Some _ => app_run_with_stdin app woken
  | None => app_run app woken
  end.

(** [main]: its answer, or its panic, the stores it leaves, and the server when one was
    composed.  [p] are the faults of the calls of the running server. *)
Definition server_main (env : gmap string string) (registry_new : Reg) (r : Reporting) (woken : wake)
    (p : list (option ServerError)) (w : W) : result failure () * W * option (Composition * C) :=
  match load env with
  | Err e => (Err (FailedWith e), w, None)
  | Ok c =>
      match initialize open_events memory_new inputs inspect get_document_view persistent_canvas c registry_new w with
      | (Err e, w') => (Err (FailedWith e), w', None)
      | (Ok context, w') =>
          let app := context_composition c context in
          let '(answer, conn) := serve_process env c app r woken (mkConn (context_server context w') None p) in
          (answer, w', Some (app, conn))
      end
  end.

(** ** Properties *)

Context `{!NodeRegistryLaws Reg}.

(** How a process ends that has answered [r]: shut down after a success, and
    after an error not ready, unless there is an excuse. *)
Definition ended (app : Composition) (excuse : Prop) (r : result failure ()) (c : C) : Prop :=
  match r with
  | Ok _ => shut_down app (committed c)
  | Err _ => is_ready (lifecycle (committed c)) = false ∨ excuse
  end.

(** A server that runs. *)
Definition serving (app : Composition) (w : ServerWorld (Reg := Reg)) : Prop :=
  lifecycle w = from_state Ready ∧ listener w = true ∧ asset_listener w = delivery_enabled app.

Lemma restart_wp app w p (Q : result failure () → C → Prop) :
  listener w = true → Q (Ok ()) (mkConn w None p) → sql_wp (app_start app) Q (mkConn w None p).
Proof. intros Hl HQ. unfold app_start. sql_step. apply get_wp. by rewrite Hl; sql_step. Qed.

(** The shutdown of a server that runs, after an answer that is kept when it
    is an error. *)
Lemma final_shutdown app w p (served : result failure ()) excuse :
  serving app w →
  let '(shut, c) := app_shutdown app (mkConn w None p) in
  ended app excuse (match served with Err e => Err e | Ok _ => shut end) c.
Proof.
  intros (Hl & _).
  enough (sql_wp (app_shutdown app) (λ shut c,
    ended app excuse (match served with Err e => Err e | Ok _ => shut end) c) (mkConn w None p)) as Hw
    by (unfold sql_wp in Hw; by destruct (app_shutdown _ _)).
  apply app_shutdown_wp; [by rewrite Hl|by rewrite Hl| |].
  - intros e w' p' Hd. destruct served; left; cbn; by rewrite Hd.
  - intros w' p' Hs. destruct served; cbn; [done|left]. by rewrite (finished_lifecycle _ _ (shut_finished _ _ Hs)).
Qed.

Lemma serve_bound outcome w p : listener w = true →
  serve_after_start outcome (mkConn w None p) = (map_err FailedWith outcome, mkConn w None p).
Proof. intros Hl. unfold serve_after_start, mbind, sql_mbind, get. cbn. by rewrite Hl. Qed.

Lemma run_wp app woken w p : serving app w →
  sql_wp (app_run app woken) (ended app (woken = SignalFailed)) (mkConn w None p).
Proof.
  intros Hs. pose proof Hs as (_ & Hb & _). unfold app_run. sql_step. apply restart_wp; [done|].
  unfold sql_wp, wait_then_shutdown. destruct woken as [outcome| |]; [| |by right].
  - rewrite serve_bound by done. pose proof (final_shutdown app w p (map_err FailedWith outcome) (Served outcome = SignalFailed) Hs) as Hf.
    by destruct (app_shutdown _ _).
  - pose proof (final_shutdown app w p (Ok ()) (Signal = SignalFailed) Hs) as Hf. by destruct (app_shutdown _ _).
Qed.
Lemma run_with_stdin_wp app woken w p : serving app w →
  sql_wp (app_run_with_stdin app woken) (ended app False) (mkConn w None p).
Proof.
  intros Hs. pose proof Hs as (_ & Hb & _). unfold app_run_with_stdin. sql_step. apply restart_wp; [done|].
  unfold sql_wp, input_then_shutdown. destruct woken as [outcome| |]; [rewrite serve_bound by done|..].
  - pose proof (final_shutdown app w p (map_err FailedWith outcome) False Hs) as Hf. by destruct (app_shutdown _ _).
  - pose proof (final_shutdown app w p (Ok ()) False Hs) as Hf. by destruct (app_shutdown _ _).
  - pose proof (final_shutdown app w p (Err (FailedWith (Shutdown "failed to wait for process shutdown input"))) False Hs) as Hf.
    by destruct (app_shutdown _ _).
Qed.

(** Why a process can end while its server is ready: an address or the report
    of it failed, or the signal could not be awaited. *)
Definition exit_excuse (env : gmap string string) (r : Reporting) (woken : wake) : Prop :=
  local_addr_ok r = false ∨ asset_local_addr_ok r = false ∨ flush_ok r = false ∨
  (woken = SignalFailed ∧ env !! "ORBITRELAY_TEST_SHUTDOWN_STDIN" = None).

Lemma report_wp app r w p (Q : result failure () → C → Prop) :
  serving app w →
  (∀ e, local_addr_ok r = false ∨ asset_local_addr_ok r = false ∨ flush_ok r = false →
     Q (Err e) (mkConn w None p)) →
  Q (Ok ()) (mkConn w None p) → sql_wp (report (delivery_enabled app) r) Q (mkConn w None p).
Proof.
  intros (_ & Hl & Ha) He Hk. unfold report, app_local_addr, app_asset_local_addr.
  sql_step. sql_step. apply get_wp. rewrite Hl. cbn [negb].
  destruct (local_addr_ok r); sql_step; [|apply He; auto]. sql_step.
  assert (sql_wp (if flush_ok r then mret () else fail (Bootstrap "failed to report listener address")) Q
            (mkConn w None p)) as Hflush.
  { destruct (flush_ok r); sql_step; [done|apply He; auto]. }
  destruct (delivery_enabled app); [|by sql_step].
  sql_step. apply get_wp. rewrite Ha. cbn [negb].
  destruct (asset_local_addr_ok r); sql_step; [done|apply He; auto].
Qed.

Lemma serve_process_wp env c app r woken w p :
  lifecycle w = from_state Starting → listener w = false → asset_listener w = false →
  delivery_enabled app = enabled (asset_delivery c) →
  sql_wp (serve_process env c app r woken) (ended app (exit_excuse env r woken)) (mkConn w None p).
Proof.
  intros Hl Hb Ha Hd. unfold serve_process. sql_step.
  eapply sql_wp_mono; [by apply app_start_wp|]. intros [[]|e] [w1 wk p1] [Hwk Hs]; cbn in Hwk, Hs; subst wk.
  - destruct Hs as (Hr & _ & Hl1 & Ha1). assert (serving app w1) as Hserve by done.
    sql_step. rewrite <- Hd. eapply report_wp; [done|intros e He; right; unfold exit_excuse; tauto|].
    unfold exit_excuse. destruct (env !! _) as [line|] eqn:He.
    + eapply sql_wp_mono; [by apply run_with_stdin_wp|]. intros [[]|e] c1; cbn; [done|]. by intros [|[]]; left.
    + eapply sql_wp_mono; [by apply run_wp|]. intros [[]|e] c1; cbn; [done|]. intros [Hx|Hx]; [by left|right].
      by do 3 right.
  - left. cbn. destruct e as [e|]; [destruct Hs as (_ & _ & _ & [-> | [-> _]])|destruct Hs as [_ ->]]; done.
Qed.
(** The external services do not touch the node registry. *)
Hypothesis inspect_registry : ∀ b l id w, w_registry (inspect b l id w).2 = w_registry w.
Hypothesis view_registry : ∀ p c id w, w_registry (get_document_view p c id w).2 = w_registry w.

Abbreviation compose := (initialize_with memory_new inputs inspect get_document_view persistent_canvas).
Abbreviation build := (initialize open_events memory_new inputs inspect get_document_view persistent_canvas).

(** A bootstrap that fails before the composition leaves the registry as it
    was; a later one runs [initialize_with] on the new registry. *)
Lemma initialize_cases c registry_new w :
  (∃ e w', build c registry_new w = (Err e, w') ∧ w_registry w' = w_registry w) ∨
  ∃ w1, w_registry w1 = registry_new ∧ build c registry_new w = compose c w1.
Proof.
  unfold initialize. unfold mbind at 1, boot_mbind at 1, boot_lift. destruct (validate c) as [[]|e]; [|by left; eauto].
  set (k := λ _ : (), _).
  assert (∀ w0, w_registry w0 = w_registry w →
    (∃ e w', k () w0 = (Err e, w') ∧ w_registry w' = w_registry w) ∨
    ∃ w1, w_registry w1 = registry_new ∧ k () w0 = compose c w1) as Hk.
  { intros w0 Hw. unfold k, mbind, boot_mbind. destruct (event_bus_accepts _); [|left; by eauto].
    right. by exists (set_registry registry_new w0). }
  unfold mbind, boot_mbind. destruct (event_store_path c) as [path|]; [|by apply Hk].
  unfold call. destruct (open_events _ _ _) as [[[]|[]] x]; cbn [map_err]; [by apply Hk|left; by eauto].
Qed.

(** C27. The whole process: from a fresh node registry, and whatever fails,
    [main] answers success only after a complete shutdown: the lifecycle has
    stopped, the node is unregistered, every store is closed, both listeners
    are gone and the sessions are cancelled.  When it answers an error before
    a server was composed, the node is not registered, unless the registry of
    this run refuses to unregister it; when it answers an error later, or panics
    in [start], the server is not ready, unless an address could not be reported or the signal could
    not be awaited. *)
Theorem main_ends_shut_down env registry_new r woken p w :
  reg_state registry_new = None →
  let '(answer, w', served) := server_main env registry_new r woken p w in
  match served with
  | Some (app, conn) => ended app (exit_excuse env r woken) answer conn
  | None => is_ok answer = false ∧
      (w_registry w' = w_registry w ∨ reg_state (w_registry w') = None ∨
       unregister_refused registry_new (w_registry w'))
  end.
Proof.
  intros Hnew. unfold server_main. destruct (load env) as [c|e]; [|by split; [|left]].
  destruct (initialize_cases c registry_new w) as [(e & w' & -> & Hw)|(w1 & Hr1 & ->)]; [by split; [|left]|].
  pose proof (initialize_with_node memory_new inputs inspect get_document_view persistent_canvas
                inspect_registry view_registry c w1) as Hn.
  destruct (compose c w1) as [[context|e] w'] eqn:Hc; cbn in Hn.
  - destruct Hn as (_ & Hl & _).
    pose proof (serve_process_wp env c (context_composition c context) r woken (context_server context w') p
                  Hl eq_refl eq_refl eq_refl) as Hs.
    unfold sql_wp in Hs. by destruct (serve_process _ _ _ _ _ _).
  - split; [done|right]. rewrite Hr1, Hnew in Hn. tauto.
Qed.
End main.
