(* ===== verification/BootstrapDemo.v ===== *)
(** * A concrete composition

    The bootstrap over the SQLite Catalog and the local Asset store of this
    development, with small in-memory parts for the rest of the kernel: a first
    start publishes the development Canvas and a PDF, and a restart finds
    them. *)

From S2P Require Import Prelude Float Net Kernel Sql Http Lifecycle Canvas CatalogKernel Catalog.
From S2P Require Import CatalogSpec CatalogRefine CatalogOpen CatalogWorker CanvasHistory DeliveryConfig.
From S2P Require Import Delivery Config Dependencies Ports AssetStore AssetSafety LocalAssets Bootstrap.
From S2P Require Import Main.

Module BootstrapDemo.
#[local] Existing Instances Demo.demo_kernel Demo.demo_laws Demo.demo_assets Demo.demo_asset_laws
  CatalogDemo.catalog_canvas CatalogDemo.catalog_documents CatalogDemo.catalog_kernel CatalogDemo.catalog_laws
  ConfigDemo.config_kernel Demo.text_identifier.

(** A registry that accepts everything *)
#[export] Instance demo_registry : NodeRegistry (option LifecycleState) := {|
  NodeState := LifecycleState;
  NodeStarting := Starting; NodeReady := Ready; NodeDraining := Draining; NodeOffline := Stopped;
  reg_register := λ s _, (Ok (), Some s);
  reg_unregister := λ _, (Ok (), None);
  reg_state := Datatypes.id
|}.
#[export] Instance demo_registry_laws : NodeRegistryLaws (option LifecycleState).
Proof. split; cbn; try done; intros; simplify_eq; done. Qed.

#[export] Instance demo_bootstrap : BootstrapKernel := {|
  PdfDocument := string; pdf_asset_id p := p : AssetId; pdf_title _ := None; pdf_pages _ := [];
  DocumentComposeInput := ();
  DocumentComposeInput_new _ _ _ _ _ := Some ();
  MemoryDocumentCatalog := list DocumentDescriptor;
  memory_documents_new := [];
  memory_documents_insert d l := (DocumentInserted, d :: l);
  memory_documents_list _ _ := Ok [];
  HandlerRegistry := list string; handlers_new := []; handler_register t l := Some (t :: l);
  register_canvas_handlers l := Some ("strokes"%string :: l);
  QueryRegistry := list string; queries_new := [];
  register_document_query_handlers l := Some ("documents"%string :: l);
  query_register t l := Some (t :: l);
  event_bus_accepts n := 0 <? n
|}.

(** The memory Asset store: the descriptors that were inserted *)
Abbreviation Memory := (list SourceAssetDescriptor).
#[export] Instance memory_port : AssetPort Memory := {|
  ap_insert d _ m := (Ok (), d :: m);
  ap_get id m := (Ok (List.find (λ d, bool_decide (asset_asset_id d = id)) m), m)
|}.
Definition memory_ok (m : Memory) : Prop := True.
Definition memory_has (m : Memory) (id : AssetId) : Prop := ∃ d, d ∈ m ∧ asset_asset_id d = id.
#[export] Instance memory_laws : AssetPortLaws Memory memory_ok memory_has.
Proof.
  split.
  - intros d bytes m _. split; [done|]. intros id (x & Hx & Hid). exists x. split; [by right|done].
  - intros id m _. split; [done|]. cbn. case_match eqn:Hf; [|done].
    apply find_key_Some in Hf as [Hd Hid]. by eexists.
Qed.

Abbreviation Store := (conn CatalogDb SqliteError).
Abbreviation Assets := (conn AssetWorld afault).
#[export] Instance store : CatalogStore Store := sqlite_catalog_store (λ _, true) "ok" "catalog-id".
#[export] Instance assets_port : AssetPort Assets := local_asset_port (λ _, "part"%string) (λ _, "q"%string).
#[export] Instance assets_opening : AssetOpening Assets :=
  local_asset_opening (λ _ _, "orphan"%string) "ok" "asset-id".

Abbreviation W := (World (Events := ()) (Store := Store) (Assets := Assets) (Memory := Memory)
                     (Reg := option LifecycleState)).
Definition inspect (b : bool) (l : PdfInspectionLimits) (id : AssetId) (w : W)
    : result () PdfDocument * W := (Ok (id : PdfDocument), w).
Definition view (p : CanvasPort) (c : ServerConfig) (id : DocumentId) (w : W) : result () () * W := (Ok (), w).
Definition canvas_lookup (id : CanvasId) : result CanvasCatalogError (option CanvasDescriptor) := Ok None.

(** The inputs: the sample composition is what the composer answers. *)
Definition inputs (session canvas layer : string) : Inputs :=
  mkInputs (H := Demo.demo_kernel) session canvas layer "asset" "node"
    (λ _, Some (2, Some [104; 105])) (λ _, Some CatalogSample.sample_composition).
Definition configuration : ServerConfig :=
  with_development_mode true (with_development_pdf_path "lesson.pdf"
    (with_catalog_store_path "catalog" (with_asset_store_root "assets" server_default))).
Abbreviation run i c := (initialize_with [] i inspect view canvas_lookup c).

(** Empty stores *)
Definition empty_assets : AssetWorld := AssetStore.mkWorld ∅ ∅ ∅ ∅ ∅.
Definition first_world : W :=
  mkWorld () None (mkConn (tables ∅ empty_catalog) None []) (mkConn empty_assets None []) [] [].
Definition first := run (inputs "s1" "c1" "a1") configuration first_world.
(** The restart sees the stores that the first process left. *)
Definition second_world : W :=
  mkWorld () None (w_catalog first.2) (w_assets first.2) [] [].
Definition second := run (inputs "s2" "c2" "a2") configuration second_world.

Example first_and_second :
  (is_ok first.1, is_ok second.1,
   match first.1, second.1 with
   | Ok a, Ok b => bool_decide (ctx_development_canvas a = ctx_development_canvas b)
   | _, _ => false
   end) = (true, true, true).
Proof. vm_compute. reflexivity. Qed.

Lemma first_answers : ∃ ctx w, first = (Ok ctx, w).
Proof.
  assert (is_ok first.1 = true) as Hok by (vm_compute; reflexivity).
  destruct first as [[ctx|e] w]; [by exists ctx, w|done].
Qed.
Lemma second_answers : ∃ ctx w, second = (Ok ctx, w).
Proof.
  assert (is_ok second.1 = true) as Hok by (vm_compute; reflexivity).
  destruct second as [[ctx|e] w]; [by exists ctx, w|done].
Qed.
Lemma empty_stores : sqlite_holds (w_catalog first_world) empty_catalog ∧ local_ok (w_assets first_world).
Proof.
  split.
  - split; [apply empty_catalog_ok|]. by exists ∅.
  - split; [done|]. by intros key row Hr.
Qed.

(** The demonstration services change nothing. *)
Abbreviation unchanged f :=
  (∀ cat w, stored sqlite_holds local_ok memory_ok cat w →
            later sqlite_holds local_ok local_has memory_ok memory_has cat w cat (f w).2).
Lemma inspect_unchanged b l id : unchanged (inspect b l id).
Proof. intros cat w Hs. by apply later_refl. Qed.
Lemma view_unchanged p c id : unchanged (view p c id).
Proof. intros cat w Hs. by apply later_refl. Qed.

(** Witness of C34. *)
Lemma bootstrap_withdraws_node_witness : let '(r, w') := first in node_after configuration first_world w' r.
Proof.
  pose proof (bootstrap_withdraws_node [] (inputs "s1" "c1" "a1") inspect view canvas_lookup
    (λ _ _ _ _, eq_refl) (λ _ _ _ _, eq_refl) configuration first_world) as Hn.
  unfold first. exact Hn.
Defined.

(** An instance. *)
Lemma reads_are_confined_witness : ∃ ctx, first.1 = Ok ctx ∧ reads_confined configuration ctx.
Proof.
  destruct first_answers as (ctx & w & Hf). exists ctx. split; [by rewrite Hf|].
  exact (reads_are_confined [] (inputs "s1" "c1" "a1") inspect view canvas_lookup configuration first_world ctx w Hf).
Defined.

(** Witness of C28: nothing fails, and the limits are those of the configuration. *)
Lemma composed_server_starts_witness : ∃ ctx w, first = (Ok ctx, w) ∧
  let '(r, conn) := app_start (context_composition configuration ctx) (mkConn (context_server ctx w) None []) in
  r = Ok () ∧ lifecycle (committed conn) = from_state Ready ∧ listener (committed conn) = true ∧
  asset_listener (committed conn) = enabled (asset_delivery configuration).
Proof.
  destruct first_answers as (ctx & w & Hf). exists ctx, w. split; [done|].
  pose proof (composed_server_starts [] (inputs "s1" "c1" "a1") inspect view canvas_lookup configuration
                first_world ctx w [] Hf) as Hs.
  destruct (app_start _ _) as [[[]|[e|]] conn]; cbn zeta in Hs.
  - destruct Hs as (Hl & _ & Hlis & Has). exact (conj eq_refl (conj Hl (conj Hlis Has))).
  - exfalso. destruct Hs as [[?%not_faulty_nil|[reg Hr]] _]; [done|]. by cbn in Hr.
  - exfalso. destruct Hs as [[Hx|[_ [Hx|Hx]]] _]; vm_compute in Hx; done.
Defined.

(** Witness of C16. *)
Lemma bootstrapped_catalog_is_complete_witness : ∃ w cat, first.2 = w ∧
  sqlite_holds (w_catalog w) cat ∧
  ∀ d, d ∈ c_documents cat → has_asset local_has memory_has true w (source_asset_id d).
Proof.
  destruct first_answers as (ctx & w & Hf). destruct empty_stores as [Hc Hl].
  destruct (bootstrapped_catalog_is_complete [] (inputs "s1" "c1" "a1") inspect view canvas_lookup
    sqlite_holds local_ok local_has memory_ok memory_has inspect_unchanged view_unchanged I
    configuration "catalog" empty_catalog first_world ctx w Hc Hl eq_refl Hf) as (cat & Hh & _ & Ha).
  exists w, cat. split; [by rewrite Hf|]. split; [exact Hh|exact Ha].
Defined.

(** Witness of C17. *)
Lemma development_canvas_survives_restart_witness : ∃ ctx1 ctx2 canvas,
  first.1 = Ok ctx1 ∧ second.1 = Ok ctx2 ∧
  ctx_development_canvas ctx1 = Some canvas ∧ ctx_development_canvas ctx2 = Some canvas.
Proof.
  destruct first_answers as (ctx1 & w1 & Hf), second_answers as (ctx2 & w2 & Hs).
  destruct empty_stores as [Hc Hl].
  assert (local_ok (w_assets second_world)) as Hl2.
  { destruct (initialize_composes [] (inputs "s1" "c1" "a1") inspect view canvas_lookup
      sqlite_holds local_ok local_has memory_ok memory_has inspect_unchanged view_unchanged I
      configuration "catalog" empty_catalog first_world ctx1 w1 Hc Hl eq_refl Hf) as (cat & [_ Hlw _] & _).
    unfold second_world. rewrite Hf. exact Hlw. }
  assert (w_catalog second_world = w_catalog w1) as Hw by (unfold second_world; by rewrite Hf).
  destruct (development_canvas_survives_restart [] inspect view canvas_lookup
    sqlite_holds local_ok local_has memory_ok memory_has inspect_unchanged view_unchanged I
    configuration configuration (inputs "s1" "c1" "a1") (inputs "s2" "c2" "a2") "catalog" "catalog"
    empty_catalog first_world second_world ctx1 ctx2 w1 w2 Hc Hl Hl2 eq_refl eq_refl eq_refl eq_refl
    Hf Hw Hs) as (canvas & H1 & H2).
  exists ctx1, ctx2, canvas.
  exact (conj (f_equal fst Hf) (conj (f_equal fst Hs) (conj H1 H2))).
Defined.

(** ** The whole process *)

(** Development mode with persistent stores and a PDF, stopped by a signal *)
Definition process_environment : gmap string string := list_to_map
  [("ORBITRELAY_DEVELOPMENT_MODE", "1"); ("ORBITRELAY_DEVELOPMENT_PDF_PATH", "lesson.pdf");
   ("ORBITRELAY_CATALOG_STORE_PATH", "catalog"); ("ORBITRELAY_ASSET_STORE_DIR", "assets");
   ("ORBITRELAY_ASSET_DELIVERY_ENABLED", "true")]%string.
Definition process :=
  server_main (λ _ _ e, (Ok (), e)) [] (inputs "s1" "c1" "a1") inspect view canvas_lookup
    process_environment None (mkReporting true true true) Signal [] first_world.

Example process_succeeds : is_ok process.1.1 = true.
Proof. vm_compute. reflexivity. Qed.

(** Witness of C27. *)
Lemma main_ends_shut_down_witness : ∃ app conn,
  process.2 = Some (app, conn) ∧ shut_down app (committed conn).
Proof.
  pose proof (main_ends_shut_down (λ _ _ e, (Ok (), e)) [] (inputs "s1" "c1" "a1") inspect view canvas_lookup
    (λ _ _ _ _, eq_refl) (λ _ _ _ _, eq_refl)
    process_environment None (mkReporting true true true) Signal [] first_world eq_refl) as Hm.
  pose proof process_succeeds as Hok. unfold process in *.
  destruct (server_main _ _ _ _ _ _ _ _ _ _ _ _) as [[[[]|e] w'] [[app conn]|]]; cbn in Hok; try discriminate Hok.
  - exists app, conn. exact (conj eq_refl Hm).
  - destruct Hm as [Hm _]. discriminate Hm.
Defined.
End BootstrapDemo.
