(* ===== verification/EndToEnd.v ===== *)
(** * From the bootstrap to a download

    The parts of the process together: the Catalog and the Asset store that the
    bootstrap composed, the [asset.access.resolve] Query over them, the Grant
    registry, and one HTTP connection that streams the Asset from its store.
    Every Document of the development Session of a composed process can be
    downloaded. *)

From S2P Require Import Prelude Float Net Kernel Sql Base64 Grant Http Lifecycle Canvas CatalogKernel Catalog.
From S2P Require Import CatalogSpec CatalogRefine CatalogOpen CatalogWorker CanvasHistory DeliveryConfig.
From S2P Require Import Delivery Config Dependencies Ports AssetStore AssetSafety AssetRecovery Serving.
From S2P Require Import LocalAssets HttpRequest Bootstrap BootstrapDemo.

(** ** Writing the response *)

Lemma single_line_true s : single_line s = true ↔ str_contains CR s = false ∧ str_contains LF s = false.
Proof. unfold single_line. by rewrite negb_true_iff, orb_false_iff. Qed.

Lemma single_line_app a b : single_line a = true → single_line b = true → single_line (a +:+ b) = true.
Proof.
  rewrite !single_line_true. intros [Ha Ha'] [Hb Hb']. by rewrite !str_contains_app, Ha, Ha', Hb, Hb'.
Qed.
Lemma single_line_u64 n : 0 ≤ n → single_line (show_u64 n) = true.
Proof.
  intros Hn. apply single_line_true. pose proof (show_u64_digits n Hn) as Hd.
  split; by apply (str_forall_contains is_digit).
Qed.

Lemma push_headers_Ok headers : ∀ response,
  Forall (λ h, single_line h.2 = true) headers → ∃ out, push_headers headers response = Ok out.
Proof.
  induction headers as [|[name value] headers IH]; intros response Hh; [by eexists|].
  apply Forall_cons in Hh as [Hv Hh]. apply single_line_true in Hv as [Hc Hl]. cbn [snd] in Hc, Hl. cbn [push_headers].
  rewrite Hc, Hl. by apply IH.
Qed.

Lemma base_headers_Ok media len hash :
  single_line media = true → single_line hash = true → 0 ≤ len →
  ∃ head, response_head 200 (base_headers media len hash) = Ok head.
Proof.
  intros Hm Hh Hl. unfold response_head.
  edestruct push_headers_Ok as [out ->]; [|by eexists].
  unfold base_headers. repeat constructor; cbn [snd]; [done|by apply single_line_u64| ].
  change (String quote_char ("sha256-" +:+ hash +:+ String quote_char EmptyString))
    with ((String quote_char "sha256-") +:+ (hash +:+ String quote_char EmptyString)).
  by repeat apply single_line_app.
Qed.

Section handler.
Context `{Kernel, !KernelLaws} {AK : AssetKernel} {AL : AssetKernelLaws}.

(** A connection that answers with a whole stream. *)
Lemma handle_connection_streams env reads request chunk_size read_asset cancelled write_ok headers id len content head :
  read_request reads = Ok request → (respond env request).1 = Stream 200 headers id 0 len →
  response_head 200 headers = Ok head → (∀ n, write_ok n = true) →
  stream_asset (read_asset id) cancelled (λ n, write_ok (S n)) 0 len chunk_size = (Ok (), content) →
  handle_connection env reads chunk_size read_asset cancelled write_ok =
  (Ok (), bytes_of head ++ content, (respond env request).2).
Proof.
  intros Hr Hs Hh Hw Hc. unfold handle_connection. rewrite Hr.
  destruct (respond env request) as [response st]. cbn in Hs |- *. subst response.
  unfold write_response. rewrite Hh, Hw. cbn [negb]. by rewrite Hc.
Qed.

(** The lookup of a published Asset, when no call fails *)
Lemma get_asset_published w d content p :
  asset_inv w → published w d content → ¬ faulty p →
  (AssetStore.get_asset (asset_asset_id d) (mkConn w None p)).1 = Ok (Some d).
Proof.
  intros Hinv (row & record & Hrow & Hd & Hst & <- & Hb) Hp.
  pose proof (lookup_record_wp (faulty p) (asset_asset_id (descriptor record)) w p
    (λ r _, r = Ok (Some record))) as Hw. unfold sql_wp in Hw. unfold AssetStore.get_asset.
  destruct (lookup_record _ _) as [r c]. cbn in Hw. rewrite Hw; [by rewrite Hst|done|done|..].
  - done.
  - congruence.
  - intros p' row' record' _ Hrow' Hd'. congruence.
Qed.
End handler.

(** ** The composed process *)

Section end_to_end.
Context `{BK : BootstrapKernel} {KL : KernelLaws} {CL : CatalogKernelLaws} {AL : AssetKernelLaws}.
Context {Events Memory Reg : Type} `{!AssetPort Memory} `{!NodeRegistry Reg}.

(** The environment of the SQLite Catalog and of the local Asset store *)
Context (has_parent : string → bool) (catalog_check : string) (catalog_id : EntityId).
Context (staging_name : SourceAssetDescriptor → string) (names : nat → string)
        (orphan_names : string → nat → string) (asset_check : string) (asset_store_id : EntityId).
Abbreviation Store := (conn CatalogDb SqliteError).
Abbreviation Assets := (conn AssetWorld afault).
#[local] Instance e2e_store : CatalogStore Store := sqlite_catalog_store has_parent catalog_check catalog_id.
#[local] Instance e2e_assets : AssetPort Assets := local_asset_port staging_name names.
#[local] Instance e2e_opening : AssetOpening Assets := local_asset_opening orphan_names asset_check asset_store_id.
Abbreviation W := (World (Events := Events) (Store := Store) (Assets := Assets) (Memory := Memory) (Reg := Reg)).
Context (memory_new : Memory) (inputs : Inputs)
        (inspect : bool → PdfInspectionLimits → AssetId → W → result () PdfDocument * W)
        (get_document_view : CanvasPort → ServerConfig → DocumentId → W → result () () * W)
        (persistent_canvas : CanvasId → result CanvasCatalogError (option CanvasDescriptor)).

(** The handler that [register_asset_access_query_handler] is given by the
    bootstrap: Documents from the Catalog, the read authorizer of the context,
    and Assets from the store.  [pd] and [pa] are the plans of failing calls.  The
    Query is registered only when the context has a delivery service. *)
Definition access_handler (context : ServerContext) (w : W) (pd : list (option SqliteError))
    (pa : list (option afault)) : AccessHandler (Actor := ActorId) :=
  mkAccessHandler
    (λ id, (forget (load_document id (mkConn (committed (w_catalog w)) None pd))).1)
    (ctx_read_authorizer context)
    (λ id, (forget (AssetStore.get_asset id (mkConn (committed (w_assets w)) None pa))).1).
Definition context_access (context : ServerContext) (w : W) (pd : list (option SqliteError))
    (pa : list (option afault)) : option AccessHandler :=
  match ctx_asset_delivery context with
  | Some _ => Some (access_handler context w pd pa)
  | None => None
  end.

Context (memory_ok : Memory → Prop) (memory_has : Memory → AssetId → Prop)
        `{!AssetPortLaws Memory memory_ok memory_has}.
Abbreviation reads_only f :=
  (∀ cat w, stored sqlite_holds local_ok memory_ok cat w →
            later sqlite_holds local_ok local_has memory_ok memory_has cat w cat (f w).2).
Hypothesis inspect_reads : ∀ b l id, reads_only (inspect b l id).
Hypothesis view_reads : ∀ p c id, reads_only (get_document_view p c id).
Hypothesis memory_new_ok : memory_ok memory_new.
Abbreviation run := (initialize_with memory_new inputs inspect get_document_view persistent_canvas).

(** A delivery service that can issue a Grant: its address is known, the expiry
    is a valid time and there is room in the registry. *)
Record accepting (t : Timestamp) (s : AssetDeliveryService) : Prop := {
  accepting_url : is_Some (public_base_url s);
  accepting_clock : is_Some (from_unix_timestamp (i64_saturating_add (unix_timestamp t) (ttl_seconds (grants s))));
  accepting_room : Z.of_nat (size (retain_live t (entries (grants s)))) < max_grants (grants s)
}.

(** An Asset that HTTP can transport: its identity is a path segment, its
    headers are single lines, and it is not empty. *)
Record transportable (asset : SourceAssetDescriptor) : Prop := {
  transport_id : is_segment (to_text (asset_asset_id asset));
  transport_visible : is_word (to_text (asset_asset_id asset));
  transport_media : single_line (media_type asset) = true;
  transport_hash : single_line (to_text (content_hash asset)) = true;
  transport_length : 0 < byte_length asset
}.

(** The request for a resolved Asset, as a client writes it *)
Definition download_text (d : AssetAccessDescriptor) : string :=
  let 'Bearer token := authorization d in
  request_text "GET" ("/assets/" +:+ to_text (access_asset_id d)) [("Authorization", "Bearer " +:+ token)].

Lemma download_text_parses d raw fragments :
  is_secret raw → authorization d = Bearer (base64url raw) → is_word (to_text (access_asset_id d)) →
  Z.of_nat (str_len (download_text d)) ≤ MAX_HEADER_BYTES → fragments_of (download_text d) fragments →
  read_request (ReadBytes <$> fragments) = Ok (download_request d).
Proof.
  intros Hs Ha [Hne Hw] Hmax Hf. unfold download_text, download_request in *. rewrite Ha in *.
  refine (fragmented_request "GET" ("/assets/" +:+ to_text (access_asset_id d))
    [("Authorization", "Bearer " +:+ base64url raw)] _ _ _ fragments _ Hmax Hf).
  - done.
  - split; [done|]. by rewrite str_forall_app, Hw.
  - constructor; [|done]. by apply bearer_header, base64url_word.
  - by intros v.
Qed.

(** A connection that asks for the Asset that was resolved with the secret [raw],
    over the stores [w], and is not disturbed: it comes before the expiry, after
    any other traffic of that time, no read fails, a download permit is free,
    and the request has at most [MAX_HEADER_BYTES], in any fragments. *)
Record undisturbed (w : W) (raw : list Z) (access : AssetAccessDescriptor) (s : AssetDeliveryService) (env : surroundings)
    (reads : list read_result) (pa : list (option afault)) (faults : nat → list (option afault)) : Prop := {
  undisturbed_issuer : ∃ events : list (traffic (Actor := ActorId)),
    Forall (quiet (unix_timestamp (expires_at access)) (digest sha256 raw)) events ∧
    issuer env = grants (serve_all Datatypes.id events s);
  undisturbed_time : unix_timestamp (now env) < unix_timestamp (expires_at access);
  undisturbed_lookup : ∀ id, Http.get_asset env id =
    (forget (AssetStore.get_asset id (mkConn (committed (w_assets w)) None pa))).1;
  undisturbed_permit : download_permit env = true;
  undisturbed_request : ∃ fragments, reads = ReadBytes <$> fragments ∧ fragments_of (download_text access) fragments;
  undisturbed_size : Z.of_nat (str_len (download_text access)) ≤ MAX_HEADER_BYTES;
  undisturbed_calm : ¬ faulty pa ∧ ∀ n, ¬ faulty (faults n)
}.

(** The service of a fresh context accepts requests once its port is bound. *)
Lemma bound_service_accepting c service port t :
  service_new (asset_delivery c) = Ok service → is_u64 (cfg_max_grants (asset_delivery c)) →
  is_Some (from_unix_timestamp (i64_saturating_add (unix_timestamp t) (cfg_grant_ttl_seconds (asset_delivery c)))) →
  accepting t (set_bound_public_base_url port service).
Proof.
  unfold service_new. intros ([] & Hv%validate_delivery_iff & [= <-])%bind_Ok_inv Hu Hc.
  pose proof (valid_max_grants _ Hv) as Hm. unfold is_u64 in Hu.
  split; unfold set_bound_public_base_url; cbn; destruct (cfg_public_base_url (asset_delivery c)); cbn; try done.
  all: unfold retain_live; rewrite map_filter_empty, map_size_empty; lia.
Qed.

(** What the Query sees of the stored Documents and Assets. *)
Lemma access_document context w pd pa cat d :
  sqlite_holds (w_catalog w) cat → ¬ faulty pd → d ∈ c_documents cat →
  a_get_document (access_handler context w pd pa) (document_document_id d) = Ok (Some d).
Proof.
  intros [Hok [meta [Hc Hw]]] Hp Hd. cbn. rewrite Hc, <- (find_document_in cat d Hok Hd).
  pose proof (load_document_reads meta cat (document_document_id d) Hok
    (λ r _, r = Ok (find_document (document_document_id d) cat)) (tables meta cat) None pd eq_refl) as Hr.
  unfold sql_wp in Hr. rewrite Hr; done.
Qed.

Lemma load_document_answers cat (id : DocumentId) (st : Store) :
  sqlite_holds st cat → (load_document id (mkConn (committed st) None [])).1 = Ok (find_document id cat).
Proof.
  intros [Hok [meta [Hc _]]]. rewrite Hc.
  pose proof (load_document_reads meta cat id Hok (λ r _, r = Ok (find_document id cat)) (tables meta cat) None []
                eq_refl) as Hr. unfold sql_wp in Hr. apply Hr; [|done]. by intros ? ? ?%not_faulty_nil.
Qed.

(** One download of a resolved Asset, byte by byte. *)
Lemma resolved_download context w pd pa actor d t raw s access s' asset content env reads chunk_size faults :
  asset_inv (committed (w_assets w)) → published (committed (w_assets w)) asset content →
  asset_asset_id asset = source_asset_id d → transportable asset → is_secret raw →
  resolve_access id (access_handler context w pd pa) actor (document_document_id d) t (Some raw) s = (Ok access, s') →
  access_asset_id access = source_asset_id d → 0 < chunk_size →
  undisturbed w raw access s' env reads pa faults →
  ∃ head, response_head 200 (base_headers (media_type asset) (byte_length asset) (to_text (content_hash asset))) = Ok head ∧
    (handle_connection env reads chunk_size (store_reader (committed (w_assets w)) faults) (λ _, false) (λ _, true)).1 =
    (Ok (), bytes_of head ++ content).
Proof.
  intros Hinv Hpub Hid [Hseg Hword Hmedia Hhash Hlen] Hsec Hres Hacc Hcs
    [(events & Hq & Hi) Ht Hl Hp (fragments & -> & Hf) Hmax [Hpa Hcalm]].
  assert (authorization access = Bearer (base64url raw)) as Hauth.
  { pose proof (resolve_access_spec id (access_handler context w pd pa) actor (document_document_id d) t (Some raw) s)
      as Hspec. rewrite Hres in Hspec.
    by destruct Hspec as [(? & ? & ? & ? & ? & _ & _ & _ & _ & [= <-] & _ & [= ->] & _)|[? _]]. }
  rewrite Hid in Hseg, Hword. rewrite <- Hacc in Hword.
  pose proof (download_text_parses _ _ _ Hsec Hauth Hword Hmax Hf) as Hr. pose proof (published_length _ _ _ Hinv Hpub) as Hlength.
  pose proof (byte_length_u64 asset) as Hu. unfold is_u64 in Hu.
  destruct (base_headers_Ok _ (byte_length asset) _ Hmedia Hhash) as [head Hhead]; [lia|].
  exists head. split; [done|].
  assert (Http.get_asset env (access_asset_id access) = Ok (Some asset)) as Hasset.
  { rewrite Hl, Hacc, <- Hid. unfold forget. cbn [fst]. by rewrite (get_asset_published _ _ content). }
  destruct (resolve_access_opens id _ _ _ _ _ _ _ _ events env asset Hsec Hres Hq Hi Ht) as [_ Hstream];
    [by rewrite Hacc|done|done|done|done|].
  erewrite handle_connection_streams; [done|done|done|done|done|].
  rewrite Hacc, <- Hid. unfold stream_asset.
  erewrite stream_loop_exact; [|by apply store_reader_content|done|done|lia|done|lia|lia|lia|lia].
  cbn [Z.to_nat]. rewrite drop_0, take_ge; [done|lia].
Qed.

(** C8. Every Document of a composed process can be downloaded.  After a bootstrap
    in development mode, with Asset delivery enabled, over a persistent Catalog
    and Asset store, the Query is registered, the delivery service accepts
    requests once its listener is bound, and every Document of the development
    Session has its published source Asset.  While no store call fails and the
    service is [accepting] (it knows its address, its clock gives a valid expiry,
    and the registry has room), any actor can resolve the Document; and an
    [undisturbed] request for a [transportable] Asset before the expiry, whatever
    else was resolved and downloaded in between, is answered over HTTP with
    exactly the published bytes. *)
Theorem documents_are_downloadable c path root cat w context w' :
  sqlite_holds (w_catalog w) cat → local_ok (w_assets w) →
  catalog_store_path c = Some path → asset_store_root c = Some root → development_mode c = true →
  enabled (asset_delivery c) = true → is_u64 (cfg_max_grants (asset_delivery c)) →
  run c w = (Ok context, w') →
  ∃ cat' canvas service, sqlite_holds (w_catalog w') cat' ∧ extends cat cat' ∧ local_ok (w_assets w') ∧
    ctx_development_canvas context = Some canvas ∧ ctx_asset_delivery context = Some service ∧
    (∀ port t,
       is_Some (from_unix_timestamp (i64_saturating_add (unix_timestamp t) (cfg_grant_ttl_seconds (asset_delivery c)))) →
       accepting t (set_bound_public_base_url port service)) ∧
    ∀ d, d ∈ c_documents cat' → document_session_id d = canvas_session_id canvas →
    ∃ asset content, published (committed (w_assets w')) asset content ∧ asset_asset_id asset = source_asset_id d ∧
      ∀ pd pa, ¬ faulty pd → ¬ faulty pa →
      ∃ handler, context_access context w' pd pa = Some handler ∧
      ∀ actor t raw s, accepting t s → is_secret raw →
      ∃ access s',
        resolve_access id handler actor (document_document_id d) t (Some raw) s = (Ok access, s') ∧
        ∀ env reads chunk_size faults,
          transportable asset → 0 < chunk_size → undisturbed w' raw access s' env reads pa faults →
          ∃ head,
            response_head 200 (base_headers (media_type asset) (byte_length asset) (to_text (content_hash asset))) = Ok head ∧
            (handle_connection env reads chunk_size (store_reader (committed (w_assets w')) faults)
               (λ _, false) (λ _, true)).1 = (Ok (), bytes_of head ++ content).
Proof.
  intros Hc Hl Hpath Hroot Hdev Hen Hmax Hrun.
  pose proof Hrun as (_ & w1 & _ & Hctx%compose_context)%initialize_with_Ok.
  destruct (initialize_composes memory_new inputs inspect get_document_view persistent_canvas sqlite_holds local_ok
    local_has memory_ok memory_has inspect_reads view_reads memory_new_ok c path cat w context w' Hc Hl Hpath Hrun)
    as (cat' & [Hh Hlocal _] & He & [Hassets Hb] & Hstore). pose proof Hlocal as [_ Hinv].
  destruct (ctx_development_canvas context) as [canvas|] eqn:Hcanvas; [|congruence].
  pose proof (assembled_delivery _ _ _ _ Hctx) as Hdelivery.
  destruct (ctx_asset_delivery context) as [service|] eqn:Hs; [|congruence]. destruct Hdelivery as [_ Hnew].
  exists cat', canvas, service. split_and!; [done..|intros port t Ht; by eapply bound_service_accepting|].
  intros d Hd Hsession.
  specialize (Hassets d Hd). rewrite Hstore, Hroot in Hassets. cbn in Hassets.
  destruct Hassets as (asset & content & Hpub & Hid). exists asset, content. split_and!; [done..|].
  intros pd pa Hpd Hpa. exists (access_handler context w' pd pa). split; [unfold context_access; by rewrite Hs|].
  intros actor t raw s [[base Hbase] Hclock Hroom] Hsec.
  destruct (resolve_access_answers id (access_handler context w' pd pa) actor (document_document_id d) t raw s
              d asset base) as (access & s' & Hres & Hacc); try done.
  - by eapply access_document.
  - cbn. rewrite (assembled_reads _ _ _ _ Hctx), Hcanvas. cbn. unfold development_document_read.
    by rewrite bool_decide_eq_true_2.
  - cbn. rewrite <- Hid. by rewrite (get_asset_published _ _ content).
  - exists access, s'. split; [done|]. intros env reads chunk_size faults Ht Hcs Hund.
    by eapply (resolved_download context w' pd pa actor d).
Qed.
End end_to_end.

(** ** A concrete process *)

Section demo.
#[local] Existing Instances Demo.demo_kernel Demo.demo_laws Demo.demo_assets Demo.demo_asset_laws
  CatalogDemo.catalog_canvas CatalogDemo.catalog_documents CatalogDemo.catalog_kernel CatalogDemo.catalog_laws
  ConfigDemo.config_kernel BootstrapDemo.demo_bootstrap BootstrapDemo.demo_registry.
Import BootstrapDemo.

(** The development Session is the Session of the sample Document, and Assets
    are delivered. *)
Definition lesson_configuration : ServerConfig :=
  with_asset_delivery (with_enabled true (asset_delivery configuration)) configuration.
Definition lesson := run (inputs "session" "c1" "a1") lesson_configuration first_world.
Definition lesson_service (ctx : ServerContext) : AssetDeliveryService :=
  set_bound_public_base_url 8081 (default (mkService (issuer_new 0 0) None) (ctx_asset_delivery ctx)).
Definition lesson_access (ctx : ServerContext) (w : W) :=
  resolve_access id (access_handler ctx w [] []) ("actor" : ActorId) ("document" : DocumentId)
    ("1000" : Timestamp) (Some demo_secret) (lesson_service ctx).
Definition lesson_env (s : AssetDeliveryService) (w : W) : surroundings :=
  mkSurroundings [] (grants s) ("1599" : Timestamp)
    (λ id, (forget (AssetStore.get_asset id (mkConn (committed (w_assets w)) None []))).1) true.
Definition lesson_download (s : AssetDeliveryService) (w : W) (request : string) :=
  (handle_connection (lesson_env s w)
     [ReadBytes request] 1 (store_reader (committed (w_assets w)) (λ _, [])) (λ _, false) (λ _, true)).1.

(** The two bytes of the PDF arrive in two chunks, after the head. *)
Example lesson_is_downloaded :
  match lesson with
  | (Ok ctx, w) =>
      match lesson_access ctx w with
      | (Ok access, s) => let '(r, out) := lesson_download s w (download_text access) in
                          is_ok r && bool_decide (drop (length out - 2) out = [104; 105])
      | _ => false
      end
  | _ => false
  end = true.
Proof. vm_compute. reflexivity. Qed.

(** What is used of this run: the Document and its Asset are there, and the
    resolution is in time. *)
Definition lesson_check : bool :=
  match lesson with
  | (Ok ctx, w) =>
      match (load_document ("document" : DocumentId) (mkConn (committed (w_catalog w)) None [])).1,
            ctx_development_canvas ctx,
            (AssetStore.get_asset ("asset" : AssetId) (mkConn (committed (w_assets w)) None [])).1,
            lesson_access ctx w with
      | Ok (Some d), Some canvas, Ok (Some asset), (Ok access, _) =>
          bool_decide (document_document_id d = "document"%string) &&
          bool_decide (document_session_id d = canvas_session_id canvas) &&
          bool_decide (source_asset_id d = "asset"%string) &&
          single_line (media_type asset) && single_line (to_text (content_hash asset)) && (0 <? byte_length asset) &&
          (1599 <? unix_timestamp (expires_at access)) &&
          (Z.of_nat (str_len (download_text access)) <=? MAX_HEADER_BYTES)
      | _, _, _, _ => false
      end
  | _ => false
  end.
Lemma lesson_checked : lesson_check = true.
Proof. vm_compute. reflexivity. Qed.

(** Witness of C8: the lesson is resolved and downloaded. *)
Lemma documents_are_downloadable_witness : ∃ ctx w' d asset content access s' head,
  lesson = (Ok ctx, w') ∧ document_document_id d = "document"%string ∧
  published (committed (w_assets w')) asset content ∧ asset_asset_id asset = source_asset_id d ∧
  lesson_access ctx w' = (Ok access, s') ∧
  lesson_download s' w' (download_text access) = (Ok (), bytes_of head ++ content).
Proof.
  pose proof lesson_checked as Hcheck. unfold lesson_check in Hcheck.
  destruct lesson as [[ctx|] w'] eqn:Hrun; [|discriminate]. destruct empty_stores as [Hc Hl].
  pose proof (documents_are_downloadable (H := Demo.demo_kernel) (AK := Demo.demo_assets) (λ _, true) "ok"
    "catalog-id" (λ _, "part"%string) (λ _, "q"%string) (λ _ _, "orphan"%string) "ok" "asset-id" []
    (inputs "session" "c1" "a1") inspect view canvas_lookup memory_ok memory_has inspect_unchanged view_unchanged I
    lesson_configuration "catalog" "assets" empty_catalog first_world ctx w' Hc Hl eq_refl eq_refl eq_refl eq_refl
    ltac:(unfold is_u64, u64_max; cbn; lia)) as Hall.
  pose proof Hrun as Hrun'. unfold e2e_store, e2e_assets, e2e_opening in Hall.
  unfold lesson, store, assets_port, assets_opening in Hrun'.
  destruct (Hall Hrun') as (cat' & canvas & service & Hcat & _ & [_ Hinv] & Hcanvas & Hservice & Hready & Hdocs).
  clear Hall Hrun'.
  pose proof (load_document_answers cat' ("document" : DocumentId) (w_catalog w') Hcat) as Hload.
  rewrite Hload, Hcanvas in Hcheck. clear Hload.
  destruct (find_document _ cat') as [d|] eqn:Hfind; [|discriminate Hcheck].
  apply find_document_Some in Hfind as [Hin Hd].
  destruct (AssetStore.get_asset _ _).1 as [[found|]|] eqn:Hget; [|discriminate Hcheck|discriminate Hcheck].
  destruct (lesson_access ctx w') as [[access|] s'] eqn:Haccess; [|discriminate Hcheck].
  rewrite !andb_true_iff, !bool_decide_eq_true in Hcheck.
  destruct Hcheck as (((((((_ & Hsession) & Hsource) & Hmedia) & Hhash) & Hlen) & Htime) & Hsize).
  destruct (Hdocs d Hin Hsession) as (asset & content & Hpub & Hid & Hresolve). clear Hdocs.
  destruct (Hresolve [] [] not_faulty_nil not_faulty_nil) as (handler & Hh & Hact). clear Hresolve.
  assert (handler = access_handler ctx w' [] []) as ->.
  { unfold context_access in Hh. rewrite Hservice in Hh. by injection Hh as <-. }
  assert (lesson_service ctx = set_bound_public_base_url 8081 service) as Hs
    by (unfold lesson_service; by rewrite Hservice).
  destruct (Hact "actor" "1000" demo_secret (lesson_service ctx)) as (access' & s'' & Hres & Hdown).
  { rewrite Hs. apply Hready. eexists. reflexivity. }
  { exact demo_secret_ok. }
  rewrite Hd in Hres. unfold lesson_access in Haccess. rewrite Haccess in Hres. injection Hres as <- <-.
  assert (found = asset) as ->.
  { pose proof (get_asset_published _ _ _ [] Hinv Hpub not_faulty_nil) as Hasset.
    rewrite Hid, Hsource, Hget in Hasset. by injection Hasset as <-. }
  destruct (Hdown (lesson_env s' w') [ReadBytes (download_text access)] 1 (λ _, [])) as (head & _ & Hout).
  { split; [..|exact Hmedia|exact Hhash|by apply Z.ltb_lt]; rewrite Hid, Hsource.
    - split; [reflexivity|]. split; [reflexivity|]. split; reflexivity.
    - split; reflexivity. }
  { done. }
  { split; [exists []; split; [constructor|reflexivity]|by apply Z.ltb_lt|reflexivity|reflexivity| |by apply Z.leb_le|].
    - exists [download_text access]. split; [reflexivity|]. split; [apply str_app_nil_r|].
      constructor; [|constructor]. unfold download_text. by destruct (authorization access).
    - split; [apply not_faulty_nil|]. intros n. apply not_faulty_nil. }
  exists ctx, w', d, asset, content, access, s', head. split_and!; [reflexivity|exact Hd|exact Hpub|exact Hid| |exact Hout].
  exact Haccess.
Defined.
End demo.
