(* ===== verification/Wire.v ===== *)
(** * The JSON shapes of the Query messages

    [canvas_history.rs] and [asset_delivery/access.rs] read requests and write
    answers through [serde_json::Value], with derived implementations that the
    attributes of the types select ([deny_unknown_fields], [untagged], [tag]).
    The derivations are translated here over a type of JSON values; identifiers,
    timestamps, Payloads and storage tokens bring their own, which are
    parameters with their round trip.  The theorems show that an answer can be
    read back, which requests are accepted, and that a client which continues a
    history from the fields of an answer, without looking into its tokens,
    follows the replay of [CanvasHistory]. *)

From stdpp Require Import countable.
From Stdlib Require Import SpecFloat.
From S2P Require Import Prelude Float Kernel Sql EventStore EventLog EventReplay Canvas CanvasHistory.
From S2P Require Import Grant Http Delivery.

(** ** Values *)

(** [serde_json::Number] and [serde_json::Value]; the keys of an object are
    distinct and their order carries no meaning. *)
Inductive Number := PosInt (n : Z) | NegInt (n : Z) | FloatNum (x : F64).
Unset Elimination Schemes.
Inductive Value :=
| Null
| Bool (b : bool)
| Num (n : Number)
| Str (s : string)
| Arr (l : list Value)
| Obj (m : gmap string Value).
Set Elimination Schemes.

(** [Serialize] and [Deserialize] through a value *)
Class Serde (T : Type) := { to_value : T → option Value; of_value : Value → option T }.
(** What was written is read back, and is not [null] *)
Class SerdeLaws (T : Type) `{Serde T} : Prop := {
  of_to_value : ∀ (x : T) v, to_value x = Some v → of_value v = Some x;
  to_value_not_null : ∀ x : T, to_value x ≠ Some Null
}.

#[global] Instance string_serde : Serde string :=
  {| to_value s := Some (Str s); of_value v := match v with Str s => Some s | _ => None end |}.
#[global] Instance bool_serde : Serde bool :=
  {| to_value b := Some (Bool b); of_value v := match v with Bool b => Some b | _ => None end |}.
(** [Option<T>]: [None] is [null] *)
Definition option_to_value {T} `{Serde T} (o : option T) : option Value :=
  match o with Some x => to_value x | None => Some Null end.
(** A missing field of an object is [None] *)
Definition option_of_value {T} `{Serde T} (o : option Value) : option (option T) :=
  match o with
  | None | Some Null => Some None
  | Some v => Some <$> of_value v
  end.
(** [Vec<T>] *)
Definition vec_to_value {T} (f : T → option Value) (l : list T) : option Value := Arr <$> mapM f l.
Definition vec_of_value {T} (f : Value → option T) (v : Value) : option (list T) :=
  match v with Arr l => mapM f l | _ => None end.

(** A derived [Serialize] of a struct *)
Definition struct_to_value (fields : list (string * option Value)) : option Value :=
  l ← mapM (λ '(k, o), v ← o; Some (k : string, v : Value)) fields;
  Some (Obj (list_to_map l)).
(** A derived [Deserialize] of a struct with [deny_unknown_fields]: an object
    without other keys, or an array of all fields in their order *)
Definition struct_fields (names : list string) (v : Value) : option (gmap string Value) :=
  match v with
  | Obj m => if forallb (λ kv, bool_decide (kv.1 ∈ names)) (map_to_list m) then Some m else None
  | Arr l => if (length l =? length names)%nat then Some (list_to_map (zip names l)) else None
  | _ => None
  end.
Definition field {T} `{Serde T} (key : string) (fields : gmap string Value) : option T :=
  fields !! key ≫= of_value.

(** The leaves: the [serde] implementations of the kernel.  A [Payload] is an
    object over the values that [payload_member] describes. *)
Class WireKernel `{Kernel} := {
  EventId_serde :: Serde EventId;
  SessionId_serde :: Serde SessionId;
  ActorId_serde :: Serde ActorId;
  ActionId_serde :: Serde ActionId;
  EventType_serde :: Serde EventType;
  Timestamp_serde :: Serde Timestamp;
  Metadata_serde :: Serde Metadata;
  Payload_serde :: Serde Payload;
  EventCursor_serde :: Serde EventCursor;
  EventStoreCheckpoint_serde :: Serde EventStoreCheckpoint;
  CanvasId_serde :: Serde CanvasId;
  AssetId_serde :: Serde AssetId;
  DocumentId_serde :: Serde DocumentId;
  payload_member : Value → Prop
}.
Class WireKernelLaws `{WireKernel} : Prop := {
  EventId_laws :: SerdeLaws EventId;
  SessionId_laws :: SerdeLaws SessionId;
  ActorId_laws :: SerdeLaws ActorId;
  ActionId_laws :: SerdeLaws ActionId;
  EventType_laws :: SerdeLaws EventType;
  Timestamp_laws :: SerdeLaws Timestamp;
  Metadata_laws :: SerdeLaws Metadata;
  Payload_laws :: SerdeLaws Payload;
  EventCursor_laws :: SerdeLaws EventCursor;
  EventStoreCheckpoint_laws :: SerdeLaws EventStoreCheckpoint;
  CanvasId_laws :: SerdeLaws CanvasId;
  AssetId_laws :: SerdeLaws AssetId;
  DocumentId_laws :: SerdeLaws DocumentId;
  payload_keeps : ∀ v (p : Payload), of_value v = Some p →
    to_value p = Some v ∧ ∃ m, v = Obj m ∧ map_Forall (λ _ x, payload_member x) m;
  payload_accepts : ∀ m, map_Forall (λ _ x, payload_member x) m → ∃ p : Payload, of_value (Obj m) = Some p
}.

Section wire.
Context `{WireKernel}.

(** [decode_payload] and [encode_payload], the same in both files *)
Definition decode_payload {T} (from_value : Value → option T) (payload : Payload) : option T :=
  value ← to_value payload; from_value value.
Definition encode_payload {T} (to_value : T → option Value) (x : T) : option Payload :=
  value ← to_value x; of_value value.

(** ** [canvas_history.rs] *)

Definition event_fields : list string :=
  ["event_id"; "session_id"; "actor_id"; "action_id"; "event_type"; "occurred_at"; "payload"; "metadata"].
(** [HistoryEventDto] *)
Definition event_to_value (e : HistoryEventDto) : option Value :=
  struct_to_value
    [("event_id", to_value (dto_event_id e)); ("session_id", to_value (dto_session_id e));
     ("actor_id", to_value (dto_actor_id e)); ("action_id", to_value (dto_action_id e));
     ("event_type", to_value (dto_event_type e)); ("occurred_at", to_value (dto_occurred_at e));
     ("payload", to_value (dto_payload e)); ("metadata", to_value (dto_metadata e))]%string.
Definition event_of_value (v : Value) : option HistoryEventDto :=
  fields ← struct_fields event_fields v;
  event_id ← field "event_id" fields; session_id ← field "session_id" fields;
  actor_id ← field "actor_id" fields; action_id ← field "action_id" fields;
  event_type ← field "event_type" fields; occurred_at ← field "occurred_at" fields;
  payload ← field "payload" fields; metadata ← field "metadata" fields;
  Some (mkHistoryEventDto event_id session_id actor_id action_id event_type occurred_at payload metadata).

Definition page_fields : list string := ["canvas_id"; "checkpoint"; "events"; "next_cursor"; "complete"].
(** [CanvasHistoryPageDto] *)
Definition page_to_value (p : CanvasHistoryPageDto) : option Value :=
  struct_to_value
    [("canvas_id", to_value (page_canvas_id p)); ("checkpoint", to_value (page_checkpoint p));
     ("events", vec_to_value event_to_value (page_dto_events p));
     ("next_cursor", option_to_value (page_cursor p)); ("complete", to_value (page_complete p))]%string.
Definition page_of_value (v : Value) : option CanvasHistoryPageDto :=
  fields ← struct_fields page_fields v;
  canvas_id ← field "canvas_id" fields; checkpoint ← field "checkpoint" fields;
  events ← fields !! "events"%string ≫= vec_of_value event_of_value;
  next_cursor ← option_of_value (fields !! "next_cursor"%string);
  complete ← field "complete" fields;
  Some (mkPageDto canvas_id checkpoint events next_cursor complete).

(** [FirstHistoryRequest], [ContinueHistoryRequest], and the untagged
    [CanvasHistoryRequest]: the first variant that can be read *)
Definition first_of_value (v : Value) : option CanvasHistoryRequest :=
  fields ← struct_fields ["canvas_id"%string] v;
  canvas_id ← field "canvas_id" fields;
  Some (First canvas_id).
Definition continue_of_value (v : Value) : option CanvasHistoryRequest :=
  fields ← struct_fields ["canvas_id"; "checkpoint"; "cursor"]%string v;
  canvas_id ← field "canvas_id" fields; checkpoint ← field "checkpoint" fields; cursor ← field "cursor" fields;
  Some (Continue canvas_id checkpoint cursor).
Definition request_of_value (v : Value) : option CanvasHistoryRequest :=
  match first_of_value v with Some r => Some r | None => continue_of_value v end.

(** ** [asset_delivery/access.rs] *)

(** [AssetAccessAuthorization]: the tag [type] names the variant *)
Definition authorization_to_value (a : AssetAccessAuthorization) : option Value :=
  match a with
  | Bearer token => struct_to_value [("type", Some (Str "bearer")); ("token", to_value token)]%string
  end.
Definition tagged (v : Value) : option (Value * Value) :=
  match v with
  | Obj m => tag ← m !! "type"%string; Some (tag, Obj (delete "type"%string m))
  | Arr (tag :: rest) => Some (tag, Arr rest)
  | _ => None
  end.
Definition authorization_of_value (v : Value) : option AssetAccessAuthorization :=
  '(tag, content) ← tagged v;
  name ← of_value tag;
  if String.eqb name "bearer"
  then fields ← struct_fields ["token"%string] content; Bearer <$> field "token" fields
  else None.

Definition descriptor_fields : list string :=
  ["asset_id"; "delivery_kind"; "url"; "authorization"; "expires_at"; "supports_range"].
(** [AssetAccessDescriptor] *)
Definition descriptor_to_value (d : AssetAccessDescriptor) : option Value :=
  struct_to_value
    [("asset_id", to_value (access_asset_id d)); ("delivery_kind", to_value (delivery_kind d));
     ("url", to_value (url d)); ("authorization", authorization_to_value (authorization d));
     ("expires_at", to_value (expires_at d)); ("supports_range", to_value (supports_range d))]%string.
Definition descriptor_of_value (v : Value) : option AssetAccessDescriptor :=
  fields ← struct_fields descriptor_fields v;
  asset_id ← field "asset_id" fields; delivery_kind ← field "delivery_kind" fields; url ← field "url" fields;
  authorization ← fields !! "authorization"%string ≫= authorization_of_value;
  expires_at ← field "expires_at" fields; supports_range ← field "supports_range" fields;
  Some (mkAccess asset_id delivery_kind url authorization expires_at supports_range).

(** [ResolveAssetAccessPayload] *)
Definition resolve_of_value (v : Value) : option DocumentId :=
  fields ← struct_fields ["document_id"%string] v; field "document_id" fields.


(** ** Reading back what was written *)

Context {WL : WireKernelLaws}.

#[local] Instance string_laws : SerdeLaws string.
Proof. split; [by intros x v [= <-]|done]. Qed.
#[local] Instance bool_laws : SerdeLaws bool.
Proof. split; [by intros x v [= <-]|done]. Qed.

Lemma option_of_to_value {T} `{SerdeLaws T} (o : option T) v :
  option_to_value o = Some v → option_of_value (Some v) = Some o.
Proof.
  destruct o as [x|]; cbn; [|by intros [= <-]]. intros Hv. apply of_to_value in Hv as Ho.
  unfold option_of_value. destruct v; [by destruct (to_value_not_null x)|..]; by rewrite Ho.
Qed.
Lemma mapM_inverse {A B} (f : A → option B) (g : B → option A) l : ∀ l',
  (∀ x y, f x = Some y → g y = Some x) → mapM f l = Some l' → mapM g l' = Some l.
Proof.
  intros l' Hfg. rewrite !mapM_Some. intros Hf. apply Forall2_flip. eapply Forall2_impl; [exact Hf|]. apply Hfg.
Qed.
Lemma vec_of_to_value {T} (f : T → option Value) (g : Value → option T) l v :
  (∀ x y, f x = Some y → g y = Some x) → vec_to_value f l = Some v → vec_of_value g v = Some l.
Proof. intros Hfg (l' & Hl & ->)%fmap_Some. cbn. by eapply mapM_inverse. Qed.

(** A written struct is an object of exactly its fields. *)
Definition holds_fields (fields : list (string * option Value)) (m : gmap string Value) : Prop :=
  Forall (λ f, is_Some f.2 ∧ m !! f.1 = f.2) fields.
Lemma struct_written fields v :
  NoDup fields.*1 → struct_to_value fields = Some v →
  ∃ m, v = Obj m ∧ struct_fields fields.*1 v = Some m ∧ holds_fields fields m.
Proof.
  intros Hnd Hv. apply bind_Some in Hv as (l & Hl & [= <-]). rewrite mapM_Some in Hl.
  assert (l.*1 = fields.*1) as Hk.
  { clear Hnd. induction Hl as [|[k o] [k' w] fields l Hkw _ IH]; [done|].
    apply bind_Some in Hkw as (w' & _ & [= <- <-]). cbn. by rewrite IH. }
  exists (list_to_map l). split; [done|]. split.
  - unfold struct_fields. replace (forallb _ _) with true; [done|]. symmetry. apply forallb_forall.
    intros [k w] Hw%list_elem_of_In%elem_of_map_to_list. apply bool_decide_eq_true_2. rewrite <- Hk.
    apply elem_of_list_to_map_2 in Hw. apply list_elem_of_fmap. by exists (k, w).
  - apply Forall_forall. intros [k o] Hf. apply list_elem_of_lookup in Hf as [i Hi].
    destruct (Forall2_lookup_l _ _ _ _ _ Hl Hi) as ([k' w] & Hw & Hkw).
    apply bind_Some in Hkw as (w' & -> & [= <- <-]). split; [by eexists|]. cbn.
    apply elem_of_list_to_map_1; [by rewrite Hk|]. by apply list_elem_of_lookup_2 in Hw.
Qed.
Lemma field_written {T} `{SerdeLaws T} k m (x : T) :
  is_Some (to_value x) → m !! k = to_value x → field k m = Some x.
Proof. intros [w Hw] Hm. unfold field. rewrite Hm, Hw. by apply of_to_value. Qed.
Lemma optional_written {T} `{SerdeLaws T} k (m : gmap string Value) (o : option T) :
  is_Some (option_to_value o) → m !! k = option_to_value o → option_of_value (m !! k) = Some o.
Proof. intros [w Hw] Hm. rewrite Hm, Hw. by apply option_of_to_value. Qed.
Lemma value_written {A} k (m : gmap string Value) (f : A → option Value) (g : Value → option A) x :
  (∀ w, f x = Some w → g w = Some x) → is_Some (f x) → m !! k = f x → m !! k ≫= g = Some x.
Proof. intros Hfg [w Hw] Hm. rewrite Hm, Hw. by apply Hfg. Qed.

(** Takes the fields of a written struct apart and reads them in their order. *)
Ltac take_fields Hm :=
  unfold holds_fields in Hm; rewrite ?Forall_cons in Hm; cbn [fst snd] in Hm; destruct_and? Hm;
  cbn [mbind option_bind];
  repeat match goal with
  | Hs : is_Some (to_value ?x), Hk : ?m !! ?k = to_value ?x |- context [field ?k ?m] =>
      rewrite (field_written k m x Hs Hk); cbn [mbind option_bind]
  end.

Lemma event_of_to_value e v : event_to_value e = Some v → event_of_value v = Some e.
Proof.
  intros Hv. apply struct_written in Hv as (m & -> & Hf & Hm); [|by apply (bool_decide_unpack _)].
  unfold event_of_value. change (struct_fields event_fields (Obj m) = Some m) in Hf. rewrite Hf.
  take_fields Hm. by destruct e.
Qed.

(** A page of history that was written is read back as it was. *)
Lemma page_of_to_value p v : page_to_value p = Some v → page_of_value v = Some p.
Proof.
  intros Hv. apply struct_written in Hv as (m & -> & Hf & Hm); [|by apply (bool_decide_unpack _)].
  unfold page_of_value. change (struct_fields page_fields (Obj m) = Some m) in Hf. rewrite Hf.
  take_fields Hm.
  erewrite value_written by (eassumption || intros w; apply vec_of_to_value, event_of_to_value). cbn [mbind option_bind].
  erewrite optional_written by eassumption. by destruct p.
Qed.

Lemma authorization_of_to_value a v : authorization_to_value a = Some v → authorization_of_value v = Some a.
Proof. destruct a as [token]. intros [= <-]. reflexivity. Qed.

(** A descriptor of an access that was written is read back as it was. *)
Lemma descriptor_of_to_value d v : descriptor_to_value d = Some v → descriptor_of_value v = Some d.
Proof.
  intros Hv. apply struct_written in Hv as (m & -> & Hf & Hm); [|by apply (bool_decide_unpack _)].
  unfold descriptor_of_value. change (struct_fields descriptor_fields (Obj m) = Some m) in Hf. rewrite Hf.
  take_fields Hm.
  erewrite value_written by (eassumption || intros w; apply authorization_of_to_value). cbn [mbind option_bind].
  by destruct d.
Qed.

(** ** The requests that are accepted *)

Lemma struct_fields_Obj names m fields :
  struct_fields names (Obj m) = Some fields ↔ fields = m ∧ ∀ k, is_Some (m !! k) → k ∈ names.
Proof.
  cbn. destruct (forallb _ _) eqn:Hf.
  - rewrite forallb_forall in Hf. split; [|by intros [-> _]]. intros [= <-]. split; [done|]. intros k [v Hv].
    apply (bool_decide_eq_true_1 _), (Hf (k, v)). by apply list_elem_of_In, elem_of_map_to_list.
  - split; [done|]. intros [_ Hk]. exfalso. apply not_true_iff_false in Hf. apply Hf, forallb_forall.
    intros [k v] Hv%list_elem_of_In%elem_of_map_to_list. apply bool_decide_eq_true_2, Hk. by eexists.
Qed.
(** An object that has the keys of another and no other key is that object. *)
Lemma exact_fields (m : gmap string Value) l :
  NoDup l.*1 → (∀ k, is_Some (m !! k) → k ∈ l.*1) → (∀ k v, (k, v) ∈ l → m !! k = Some v) → m = list_to_map l.
Proof.
  intros Hnd Hk Hl. apply map_eq. intros k. destruct (decide (k ∈ l.*1)) as [[[k' v] [-> Hv]]%list_elem_of_fmap|Hn].
  - cbn. rewrite (Hl _ _ Hv). symmetry. by apply elem_of_list_to_map_1.
  - rewrite (not_elem_of_list_to_map_1 _ _ Hn). apply eq_None_not_Some. intros Hs. by apply Hn, Hk.
Qed.
Lemma field_Some {T} `{Serde T} k (m : gmap string Value) (x : T) :
  field k m = Some x ↔ ∃ v, m !! k = Some v ∧ of_value v = Some x.
Proof. apply bind_Some. Qed.

Lemma payload_is_object (p : Payload) v : to_value p = Some v → ∃ m, v = Obj m.
Proof. intros Hv%of_to_value. destruct (payload_keeps _ _ Hv) as (_ & m & -> & _). by eexists. Qed.

(** A struct with one field *)
Lemma single_field_Obj {T} `{Serde T} k m (x : T) :
  struct_fields [k] (Obj m) ≫= field k = Some x ↔ ∃ v, m = {[ k := v ]} ∧ of_value v = Some x.
Proof.
  split.
  - intros (f & [-> Hk]%struct_fields_Obj & (v & Hm & Hx)%field_Some)%bind_Some.
    exists v. split; [|done]. apply (exact_fields m [(k, v)]); [by apply NoDup_singleton|done|].
    intros k' v' [= -> ->]%list_elem_of_singleton. done.
  - intros (v & -> & Hx). rewrite (proj2 (struct_fields_Obj _ _ {[ k := v ]})).
    + cbn. unfold field. rewrite lookup_singleton_eq. cbn. by rewrite Hx.
    + split; [done|]. intros k' [v' [<- _]%lookup_singleton_Some]. by left.
Qed.
Lemma first_of_value_Obj m c :
  first_of_value (Obj m) = Some (First c) ↔ ∃ cv, m = {[ "canvas_id" := cv ]} ∧ of_value cv = Some c.
Proof.
  rewrite <- (single_field_Obj (T := CanvasId)). unfold first_of_value.
  destruct (struct_fields _ _) as [f|]; [|done]. cbn. destruct (field _ f) as [c'|]; [|done]. cbn. naive_solver.
Qed.
(** The object of a continuation *)
Definition continuation (canvas checkpoint cursor : Value) : gmap string Value :=
  list_to_map [("canvas_id", canvas); ("checkpoint", checkpoint); ("cursor", cursor)]%string.
Lemma continue_of_value_Obj m c checkpoint cursor :
  continue_of_value (Obj m) = Some (Continue c checkpoint cursor) ↔
  ∃ cv pv uv, m = continuation cv pv uv ∧
    of_value cv = Some c ∧ of_value pv = Some checkpoint ∧ of_value uv = Some cursor.
Proof.
  unfold continue_of_value. split.
  - intros (f & [-> Hk]%struct_fields_Obj & (c' & (cv & Hm & Hc)%field_Some &
      (p' & (pv & Hp & Hpv)%field_Some & (u' & (uv & Hu & Huv)%field_Some & [= -> -> ->])%bind_Some)%bind_Some)%bind_Some)%bind_Some.
    exists cv, pv, uv. split_and!; [|done..].
    apply (exact_fields m [("canvas_id", cv); ("checkpoint", pv); ("cursor", uv)]%string);
      [by apply (bool_decide_unpack _)|done|].
    intros k v Hv. rewrite !elem_of_cons in Hv. by destruct Hv as [[= -> ->]|[[= -> ->]|[[= -> ->]|[]%elem_of_nil]]].
  - intros (cv & pv & uv & -> & Hc & Hp & Hu).
    rewrite (proj2 (struct_fields_Obj _ _ (continuation cv pv uv))).
    + cbn. unfold field. repeat (rewrite ?lookup_insert_eq, ?lookup_insert_ne by done; cbn).
      rewrite Hc. cbn. rewrite Hp. cbn. by rewrite Hu.
    + split; [done|]. intros k [v Hv%elem_of_list_to_map_2%list_elem_of_In]. apply list_elem_of_In.
      by destruct Hv as [[= <- _]|[[= <- _]|[[= <- _]|[]]]]; cbn; auto.
Qed.

(** The objects that are a request for history *)
Definition request_shape (p : Payload) (request : CanvasHistoryRequest) : Prop :=
  match request with
  | First c => ∃ cv, to_value p = Some (Obj {[ "canvas_id" := cv ]}) ∧ of_value cv = Some c
  | Continue c checkpoint cursor =>
      ∃ cv pv uv, to_value p = Some (Obj (continuation cv pv uv)) ∧
        of_value cv = Some c ∧ of_value pv = Some checkpoint ∧ of_value uv = Some cursor
  end.
Lemma request_decodes (p : Payload) request :
  decode_payload request_of_value p = Some request ↔ request_shape p request.
Proof.
  unfold decode_payload. split.
  - intros (v & Hv & Hr)%bind_Some. destruct (payload_is_object p v Hv) as [m ->].
    unfold request_of_value in Hr. destruct (first_of_value (Obj m)) as [r|] eqn:Hf.
    + injection Hr as ->. apply bind_Some in Hf as Hs. destruct Hs as (f & _ & (c & _ & [= <-])%bind_Some).
      apply first_of_value_Obj in Hf as (cv & -> & Hc). by exists cv.
    + apply bind_Some in Hr as Hs.
      destruct Hs as (f & _ & (c & _ & (cp & _ & (cu & _ & [= <-])%bind_Some)%bind_Some)%bind_Some).
      apply continue_of_value_Obj in Hr as (cv & pv & uv & -> & Hx). exists cv, pv, uv. exact (conj Hv Hx).
  - destruct request as [c|c checkpoint cursor].
    + intros (cv & -> & Hc). cbn. unfold request_of_value.
      by rewrite (proj2 (first_of_value_Obj _ c)) by eauto.
    + intros (cv & pv & uv & -> & Hc & Hp & Hu). cbn. unfold request_of_value.
      destruct (first_of_value _) eqn:Hf.
      * apply bind_Some in Hf as (f & [-> Hk]%struct_fields_Obj & _).
        assert ("cursor"%string ∈ ["canvas_id"%string]) as Hx%list_elem_of_singleton; [|discriminate Hx].
        apply Hk. exists uv. reflexivity.
      * apply continue_of_value_Obj. exists cv, pv, uv. exact (conj eq_refl (conj Hc (conj Hp Hu))).
Qed.

(** ** A client over the wire *)

Section client.
Context `{!KernelLaws, !CanvasKernel} {Actor MessageId : Type}.
Context (encoded_size : MessageId → string → Payload → option Z).
Context (STROKE_BEGAN STROKE_POINTS_APPENDED STROKE_COMPLETED STROKE_CANCELLED STROKE_REMOVED : string).
Context {St : Type} `{!EventStorePort St} (others : nat → St → St) (request_id : nat → MessageId).
Context (h : Handler (Actor := Actor)) (actor : Actor).

(** [CanvasHistoryQueryHandler::execute] with the derived implementations *)
Definition execute : MessageId → string → Payload → St → result QueryHandlerError Payload * St :=
  CanvasHistory.execute encoded_size (decode_payload request_of_value) (encode_payload page_to_value)
    STROKE_BEGAN STROKE_POINTS_APPENDED STROKE_COMPLETED STROKE_CANCELLED STROKE_REMOVED h actor.

(** The next request, made of the fields of a response *)
Definition follow_up (response : Payload) : option Payload :=
  v ← to_value response;
  match v with
  | Obj m =>
      canvas ← m !! "canvas_id"%string; checkpoint ← m !! "checkpoint"%string; cursor ← m !! "next_cursor"%string;
      of_value (Obj (continuation canvas checkpoint cursor))
  | _ => None
  end.

(** A client that asks until an answer is complete; [None] when it has run out
    of [fuel], or cannot read an answer or write the next request. *)
Fixpoint wire_replay (fuel n : nat) (request : Payload) (st : St)
    : option (result QueryHandlerError (list HistoryEventDto)) * St :=
  match fuel with
  | O => (None, st)
  | S fuel' =>
      match execute (request_id n) CANVAS_HISTORY_PAGE_QUERY_TYPE request (others n st) with
      | (Err e, st') => (Some (Err e), st')
      | (Ok response, st') =>
          match decode_payload page_of_value response with
          | None => (None, st')
          | Some page =>
              if page_complete page then (Some (Ok (page_dto_events page)), st') else
              match follow_up response with
              | None => (None, st')
              | Some next =>
                  let '(r, st'') := wire_replay fuel' (S n) next st' in
                  (r' ← r; Some (l ← r'; Ok (page_dto_events page ++ l)), st'')
              end
          end
      end
  end.

Lemma response_is_read page response :
  encode_payload page_to_value page = Some response → decode_payload page_of_value response = Some page.
Proof.
  intros (v & Hv & Hr)%bind_Some. destruct (payload_keeps _ _ Hr) as [Hk _].
  unfold decode_payload. rewrite Hk. cbn. by apply page_of_to_value.
Qed.

Lemma follow_up_continues page response cursor :
  encode_payload page_to_value page = Some response → page_cursor page = Some cursor →
  ∃ next, follow_up response = Some next ∧
    decode_payload request_of_value next = Some (Continue (page_canvas_id page) (page_checkpoint page) cursor).
Proof.
  intros (v & Hv & Hr)%bind_Some Hc. destruct (payload_keeps _ _ Hr) as (Hk & m' & Hm' & Hmem).
  apply struct_written in Hv as (m & -> & _ & Hm); [|by apply (bool_decide_unpack _)]. injection Hm' as <-.
  unfold holds_fields in Hm. rewrite !Forall_cons in Hm. cbn [fst snd] in Hm. rewrite Hc in Hm. cbn in Hm.
  destruct Hm as ([[cv Hcv] Hm1] & [[pv Hpv] Hm2] & _ & [[uv Huv] Hm3] & _).
  rewrite Hcv in Hm1. rewrite Hpv in Hm2. rewrite Huv in Hm3.
  destruct (payload_accepts (continuation cv pv uv)) as [next Hn].
  { intros k w [[= <- <-]|[[= <- <-]|[[= <- <-]|[]]]]%elem_of_list_to_map_2%list_elem_of_In;
      by eapply (map_Forall_lookup_1 _ _ _ _ Hmem). }
  exists next. split.
  - unfold follow_up. rewrite Hk. cbn. rewrite Hm1. cbn. rewrite Hm2. cbn. rewrite Hm3. exact Hn.
  - apply request_decodes. exists cv, pv, uv. destruct (payload_keeps _ _ Hn) as [Hnk _].
    split; [exact Hnk|]. by split_and!; apply of_to_value.
Qed.

(** The client on the wire is the client of [CanvasHistory]. *)
Abbreviation replay := (CanvasHistory.replay encoded_size (decode_payload request_of_value) (encode_payload page_to_value)
  STROKE_BEGAN STROKE_POINTS_APPENDED STROKE_COMPLETED STROKE_CANCELLED STROKE_REMOVED
  others request_id (decode_payload page_of_value) follow_up).
Lemma wire_replay_is_replay fuel : ∀ n p st, wire_replay fuel n p st = replay fuel n h actor p st.
Proof.
  induction fuel as [|fuel IH]; intros n p st; [done|]. cbn [wire_replay CanvasHistory.replay]. unfold execute.
  destruct (CanvasHistory.execute _ _ _ _ _ _ _ _ h actor _ _ p _) as [[response|] st']; [|done].
  destruct (decode_payload page_of_value response) as [page|]; [|done].
  destruct (page_complete page); [done|]. destruct (follow_up response); [|done]. by rewrite IH.
Qed.

(** Reading a history over the wire is complete: the hypotheses are those of
    the replay on the values of the handler. *)
Context (store_id epoch : EntityId) (holds : St → list Event → Prop) (calm : St → Prop).
Context `{!EventStorePortLaws St store_id epoch holds calm}.
Hypothesis others_append : ∀ n st log, holds st log → calm st →
  Z.of_nat (length log) ≤ i64_max →
  ∃ more, holds (others n st) (log ++ more) ∧ calm (others n st) ∧
          Z.of_nat (length (log ++ more)) ≤ i64_max.
Context (canvas : CanvasId) (descriptor : CanvasDescriptor).
Hypothesis resolved : h_catalog h canvas = Ok (Some descriptor).
Hypothesis authorized :
  h_authorizer h actor (canvas_session_id descriptor) CANVAS_HISTORY_PAGE_QUERY_TYPE = Ok ().
Hypothesis limit_usize : 0 ≤ h_store_scan_limit h.
Hypothesis query_valid : ∀ checkpoint,
  query_validate (history_query STROKE_BEGAN STROKE_POINTS_APPENDED STROKE_COMPLETED STROKE_CANCELLED
                    STROKE_REMOVED h descriptor checkpoint) = Ok ().

End client.

(** C36. A page of history, and the descriptor of an access, are read back from what
    was written exactly as they were; and a Payload is a request for history
    exactly in the two shapes of [request_shape]: with the Canvas alone, or with
    the Canvas, the checkpoint and the cursor, and with no other field. *)
Theorem messages_round_trip :
  (∀ (page : CanvasHistoryPageDto) response,
     encode_payload page_to_value page = Some response → decode_payload page_of_value response = Some page) ∧
  (∀ (d : AssetAccessDescriptor) response,
     encode_payload descriptor_to_value d = Some response → decode_payload descriptor_of_value response = Some d) ∧
  (∀ p request, decode_payload request_of_value p = Some request ↔ request_shape p request) ∧
  (∀ p id, decode_payload resolve_of_value p = Some id ↔
           ∃ v, to_value p = Some (Obj {[ "document_id" := v ]}) ∧ of_value v = Some id).
Proof.
  split_and!.
  - apply response_is_read.
  - intros d response (v & Hv & Hr)%bind_Some. destruct (payload_keeps _ _ Hr) as [Hk _].
    unfold decode_payload. rewrite Hk. cbn. by apply descriptor_of_to_value.
  - apply request_decodes.
  - intros p id. unfold decode_payload. split.
    + intros (v & Hv & Hr)%bind_Some. destruct (payload_is_object p v Hv) as [m ->].
      apply single_field_Obj in Hr as (w & -> & Hw). by exists w.
    + intros (w & -> & Hw). apply single_field_Obj. by exists w.
Qed.
End wire.

(** ** A concrete wire

    Values are countable, so an object can be written as a text: the digits of
    its number. *)

Module WireDemo.

Fixpoint value_size (v : Value) : nat :=
  match v with
  | Arr l => S (sum_list (value_size <$> l))
  | Obj m => S (map_fold (λ _ v n, value_size v + n)%nat 0%nat m)
  | _ => 1
  end.

Lemma obj_member_size k v m : m !! k = Some v → (value_size v < value_size (Obj m))%nat.
Proof.
  cbn. revert k v. apply (map_fold_weak_ind (λ n m, ∀ k v, m !! k = Some v → (value_size v < S n)%nat)); [done|].
  intros k' v' m' n _ IH k v [[-> ->]|[_ Hv]]%lookup_insert_Some; [lia|]. specialize (IH _ _ Hv). lia.
Qed.
Lemma arr_member_size v l : v ∈ l → (value_size v < value_size (Arr l))%nat.
Proof. cbn. induction 1; cbn in *; lia. Qed.

Lemma value_induction (P : Value → Prop) :
  P Null → (∀ b, P (Bool b)) → (∀ n, P (Num n)) → (∀ s, P (Str s)) →
  (∀ l, Forall P l → P (Arr l)) → (∀ m, map_Forall (λ _, P) m → P (Obj m)) → ∀ v, P v.
Proof.
  intros Hn Hb Hm Hs Ha Ho v.
  induction v as [v IH] using (well_founded_induction (well_founded_ltof Value value_size)).
  unfold ltof in IH. destruct v as [| | | |l|m]; auto.
  - apply Ha, Forall_forall. intros v Hv. by apply IH, arr_member_size.
  - apply Ho. intros k v Hv. by eapply IH, obj_member_size.
Qed.

(** Leaves: booleans, numbers and texts *)
Definition number_sum (n : Number) : Z + Z + F64 :=
  match n with PosInt n => inl (inl n) | NegInt n => inl (inr n) | FloatNum x => inr x end.
Definition sum_number (s : Z + Z + F64) : Number :=
  match s with inl (inl n) => PosInt n | inl (inr n) => NegInt n | inr x => FloatNum x end.
Definition float_sum (x : spec_float) : bool + bool + () + bool * positive * Z :=
  match x with
  | S754_zero s => inl (inl (inl s))
  | S754_infinity s => inl (inl (inr s))
  | S754_nan => inl (inr ())
  | S754_finite s m e => inr (s, m, e)
  end.
Definition sum_float (s : bool + bool + () + bool * positive * Z) : spec_float :=
  match s with
  | inl (inl (inl s)) => S754_zero s
  | inl (inl (inr s)) => S754_infinity s
  | inl (inr ()) => S754_nan
  | inr (s, m, e) => S754_finite s m e
  end.
#[local] Instance float_countable : Countable spec_float.
Proof. apply (inj_countable' float_sum sum_float). by intros []. Defined.
#[local] Instance number_eq_dec : EqDecision Number.
Proof. solve_decision. Defined.
#[local] Instance number_countable : Countable Number.
Proof. apply (inj_countable' number_sum sum_number). by intros []. Defined.

(** The tree of a value and back *)
Abbreviation leaf := (bool + Number + string)%type.
Fixpoint value_tree (v : Value) : gen_tree leaf :=
  match v with
  | Null => GenNode 0 []
  | Bool b => GenLeaf (inl (inl b))
  | Num n => GenLeaf (inl (inr n))
  | Str s => GenLeaf (inr s)
  | Arr l => GenNode 1 (value_tree <$> l)
  | Obj m => GenNode 2 (map_fold (λ k v ts, GenLeaf (inr k) :: value_tree v :: ts) [] m)
  end.
Definition tree_members (go : gen_tree leaf → Value) : list (gen_tree leaf) → gmap string Value :=
  fix members ts :=
    match ts with
    | GenLeaf (inr k) :: t :: ts => <[k := go t]> (members ts)
    | _ => ∅
    end.
Fixpoint tree_value (t : gen_tree leaf) : Value :=
  match t with
  | GenLeaf (inl (inl b)) => Bool b
  | GenLeaf (inl (inr n)) => Num n
  | GenLeaf (inr s) => Str s
  | GenNode 1 ts => Arr (tree_value <$> ts)
  | GenNode 2 ts => Obj (tree_members tree_value ts)
  | GenNode _ _ => Null
  end.
Lemma tree_value_tree v : tree_value (value_tree v) = v.
Proof.
  induction v as [|b|n|s|l IH|m IH] using value_induction; try done; cbn; f_equal.
  - induction IH as [|v l Hv _ IHl]; [done|]. cbn in *. by rewrite Hv, IHl.
  - revert m IH. apply (map_fold_weak_ind (λ ts m, map_Forall (λ _ v, tree_value (value_tree v) = v) m →
                                           tree_members tree_value ts = m)); [done|].
    intros k v m ts Hk IH Hm. apply map_Forall_insert in Hm as [Hv Hm]; [|done].
    cbn. by rewrite Hv, IH.
Qed.

(** Digits *)
Fixpoint digits (p : positive) : string :=
  match p with xH => EmptyString | xO p => String "0" (digits p) | xI p => String "1" (digits p) end.
Fixpoint of_digits (s : string) : positive :=
  match s with
  | EmptyString => xH
  | String c s => if Ascii.eqb c "0" then xO (of_digits s) else xI (of_digits s)
  end.
Lemma of_digits_digits p : of_digits (digits p) = p.
Proof. induction p as [p IH|p IH|]; cbn; by rewrite ?IH. Qed.

Definition object_text (m : gmap string Value) : string := digits (encode (value_tree (Obj m))).
(** [serde_json::to_value] of a Payload: [None] is not the text of an object. *)
Definition text_value (s : string) : option Value :=
  t ← decode (of_digits s);
  match tree_value t with
  | Obj m => if decide (object_text m = s) then Some (Obj m) else None
  | _ => None
  end.
Lemma text_value_object m : text_value (object_text m) = Some (Obj m).
Proof.
  pose proof (of_digits_digits (encode (value_tree (Obj m)))) as Hd. fold (object_text m) in Hd.
  unfold text_value. rewrite Hd, decode_encode. cbn [mbind option_bind].
  rewrite tree_value_tree. by rewrite decide_True.
Qed.

#[local] Existing Instances Demo.demo_kernel Demo.demo_laws.
(** Identifiers and times are texts, a storage token is an object. *)
Definition position_serde : Serde Demo.position := {|
  to_value p := Some (Arr [Str p.1.1; Str p.1.2; Num (PosInt p.2)]);
  of_value v := match v with Arr [Str s; Str e; Num (PosInt z)] => Some (s, e, z) | _ => None end
|}.
Definition payload_serde : Serde string := {|
  to_value := text_value;
  of_value v := match v with Obj m => Some (object_text m) | _ => None end
|}.
#[export] Instance wire_kernel : WireKernel (H := Demo.demo_kernel) := {|
  EventId_serde := string_serde; SessionId_serde := string_serde; ActorId_serde := string_serde;
  ActionId_serde := string_serde; EventType_serde := string_serde; Timestamp_serde := string_serde;
  Metadata_serde := string_serde; Payload_serde := payload_serde; EventCursor_serde := position_serde;
  EventStoreCheckpoint_serde := position_serde; CanvasId_serde := string_serde; AssetId_serde := string_serde;
  DocumentId_serde := string_serde; payload_member := λ _, True
|}.
Lemma text_laws : SerdeLaws string (H := string_serde).
Proof. split; [by intros x v [= <-]|done]. Qed.
Lemma position_laws : SerdeLaws Demo.position (H := position_serde).
Proof. split; [by intros [[s e] z] v [= <-]|done]. Qed.
Lemma text_value_Some s v : text_value s = Some v → ∃ m, v = Obj m ∧ object_text m = s.
Proof.
  intros (t & _ & Ht)%bind_Some. destruct (tree_value t) as [| | | | |m]; try done.
  case_decide; [|done]. injection Ht as <-. by exists m.
Qed.
Lemma payload_laws : SerdeLaws string (H := payload_serde).
Proof.
  split; cbn.
  - intros s v (m & -> & <-)%text_value_Some. done.
  - by intros s (m & ? & _)%text_value_Some.
Qed.
#[export] Instance wire_laws : WireKernelLaws (H0 := wire_kernel).
Proof.
  split; try exact text_laws; try exact position_laws; try exact payload_laws; cbn.
  - intros [| | | | |m] p; try done. intros [= <-]. split; [apply text_value_object|]. by exists m.
  - intros m _. by exists (object_text m).
Qed.

(** Canvas events whose Payload names the Canvas and the Stroke *)
Definition stroke_payload (canvas stroke : string) : string :=
  object_text (list_to_map [("canvas_id", Str canvas); ("stroke_id", Str stroke)]%string).
#[export] Instance wire_canvas : CanvasKernel (H := Demo.demo_kernel) := {|
  LayerId := string; StrokeId := string;
  CanvasId_countable := _;
  StrokePayload := string * string; payload_canvas_id := fst; payload_stroke_id := snd;
  CanvasEventKind_from_event_type t := bool_decide (t = "stroke");
  CanvasEventData_try_from e :=
    v ← text_value (Demo.ev_payload e); fields ← struct_fields ["canvas_id"; "stroke_id"]%string v;
    canvas ← field "canvas_id" fields; stroke ← field "stroke_id" fields; Some (StrokeBegan (canvas, stroke));
  StrokeProjection := list string;
  StrokeProjector_apply p e := Some (default [] p ++ [Demo.ev_payload e]);
  CanvasSpace := F64 * F64;
  CanvasSpace_new w h := if positive_f64 w && positive_f64 h then Some (w, h) else None;
  CanvasDescriptor := string * string * (F64 * F64);
  CanvasDescriptor_new c s sp _ _ := Some (c, s, sp);
  canvas_canvas_id d := d.1.1; canvas_session_id d := d.1.2
|}.
#[local] Instance port : EventStorePort (conn EventDb SqliteError) := sqlite_port "store" "epoch".

(** Pages of one event, without a limit on the size of a message *)
Definition handler : Handler (Actor := ()) :=
  mkHandler (λ id, Ok (Some (id, "session", (f64_of_Z 1, f64_of_Z 1)))) (development_authorizer ("session" : SessionId))
    1 (2 ^ 30).
Definition size (request_id query_type payload : string) : option Z := Some (Z.of_nat (str_len payload)).
Definition first_request : string := object_text {[ "canvas_id" := Str "canvas" ]}.
Abbreviation read := (wire_replay (H := Demo.demo_kernel) size "stroke" "p" "c" "x" "r" (λ _ st, st) (λ n, show_u64 (Z.of_nat n)) handler ()).

(** Three events, one of another Canvas: three requests read two events. *)
Definition stroke_event (id canvas : string) : Demo.event :=
  Demo.mkEvent id "session" "actor" "action" "stroke" "1700000000" (stroke_payload canvas "stroke") "{}".
Definition three_events : conn EventDb SqliteError :=
  fold_left (λ st e, (port_append e st).2)
    [stroke_event "e1" "canvas"; stroke_event "e2" "other"; stroke_event "e3" "canvas"]
    (mkConn (mkEventDb demo_metadata []) None []).
Definition three_log : list Demo.event :=
  [stroke_event "e1" "canvas"; stroke_event "e2" "other"; stroke_event "e3" "canvas"].
Definition three_descriptor : string * string * (F64 * F64) := ("canvas", "session", (f64_of_Z 1, f64_of_Z 1)).
Lemma three_events_hold : sqlite_holds (H := Demo.demo_kernel) three_events three_log.
Proof.
  split; [vm_compute; reflexivity|]. split.
  - repeat constructor.
  - apply (bool_decide_unpack _). vm_compute. reflexivity.
  - unfold i64_max. cbn. lia.
Qed.

(** Witness of C36: the first request is accepted, and so it has one
    of the two shapes. *)
Lemma messages_round_trip_witness :
  decode_payload (H := Demo.demo_kernel) request_of_value first_request = Some (First (H := Demo.demo_kernel) "canvas") ∧
  request_shape (H := Demo.demo_kernel) first_request (First (H := Demo.demo_kernel) "canvas").
Proof.
  assert (decode_payload (H := Demo.demo_kernel) request_of_value first_request =
          Some (First (H := Demo.demo_kernel) "canvas")) as Hd by reflexivity.
  split; [exact Hd|].
  destruct (messages_round_trip (H := Demo.demo_kernel) (WL := wire_laws)) as (_ & _ & Hshape & _).
  exact (proj1 (Hshape _ _) Hd).
Defined.



Definition read_texts (r : option (result QueryHandlerError (list (HistoryEventDto (H := Demo.demo_kernel)))))
    : list (string * string) :=
  match r with
  | Some (Ok l) => (λ e, (dto_event_id (H := Demo.demo_kernel) e, dto_payload (H := Demo.demo_kernel) e)) <$> l
  | _ => []
  end.
Example three_requests :
  read_texts (read 3 0%nat first_request three_events).1 =
  [("e1"%string, stroke_payload "canvas" "stroke"); ("e3"%string, stroke_payload "canvas" "stroke")].
Proof. vm_compute. reflexivity. Qed.
(** A request with a field too many *)
Example strict_request :
  match (read 3 0%nat (object_text (list_to_map [("canvas_id", Str "canvas"); ("page_size", Str "100")]%string))
           three_events).1 with
  | Some (Err HandlerInvalidQuery) => true
  | _ => false
  end = true.
Proof. vm_compute. reflexivity. Qed.
End WireDemo.
