(* ===== verification/Restart.v ===== *)
(** * Canvas history over a restart

    A process ends and another one opens the same database: the EventStore
    keeps its identity and its log, the continuation epoch is a new one.  What
    a client of the history Query then sees: its old cursors are refused, never
    misread, and a replay from the start brings everything it had before. *)

From S2P Require Import Prelude Float Kernel Sql EventStore EventLog EventReplay Canvas CanvasHistory Wire.

Section restart.
Context `{Kernel, !KernelLaws, !CanvasKernel} {Actor MessageId : Type}.
Context (encoded_size : MessageId → string → Payload → option Z).
Context (decode_payload : Payload → option CanvasHistoryRequest) (encode_payload : CanvasHistoryPageDto → option Payload).
Context (STROKE_BEGAN STROKE_POINTS_APPENDED STROKE_COMPLETED STROKE_CANCELLED STROKE_REMOVED : string).
Abbreviation C := (conn EventDb SqliteError).

(** ** Opening without failing calls leaves none to fail *)

Lemma verify_rows_consumes rows : ∀ n, consumes (verify_rows n rows).
Proof. induction rows as [|row rows IH]; intros n; cbn [verify_rows]; solve_consumes. Qed.
#[local] Hint Resolve verify_rows_consumes : consumes.

Lemma initialize_connection_consumes has_parent quick_check fresh :
  consumes (initialize_connection has_parent quick_check fresh).
Proof.
  unfold initialize_connection, check_schema_version, load_physical_store_id, verify_all_events, metadata_value.
  solve_consumes.
Qed.

(** The connection of a store that was opened again *)
Lemma reopened has_parent fresh c log id p :
  sqlite_holds c log → Z.of_nat (length log) ≤ i64_max → identity_stored id (committed c) → ¬ faulty p →
  let '(r, c') := initialize_connection has_parent "ok" fresh (mkConn (committed c) None p) in
  r = Ok id ∧ sqlite_holds c' log ∧ sqlite_calm c'.
Proof.
  intros [_ Hrep] Hlen Hid Hp.
  pose proof (reopen_keeps_store has_parent fresh (committed c) log id p Hrep Hlen Hid Hp) as Hk.
  pose proof (initialize_connection_wp has_parent "ok" fresh (committed c) p) as [Hw _].
  pose proof (initialize_connection_consumes has_parent "ok" fresh (mkConn (committed c) None p)) as Hs.
  destruct (initialize_connection _ _ _ _) as [r c']. cbn in *. destruct Hk as [-> Hrep'].
  split_and!; [done|by split|]. intros Hf. by eapply Hp, faulty_suffix.
Qed.

(** ** The history does not depend on the epoch *)

Context (h : Handler (Actor := Actor)) (actor : Actor) (canvas : CanvasId) (descriptor : CanvasDescriptor).
Hypothesis resolved : h_catalog h canvas = Ok (Some descriptor).
Hypothesis authorized :
  h_authorizer h actor (canvas_session_id descriptor) CANVAS_HISTORY_PAGE_QUERY_TYPE = Ok ().
Hypothesis limit_usize : 0 ≤ h_store_scan_limit h.
Abbreviation history_query := (history_query STROKE_BEGAN STROKE_POINTS_APPENDED STROKE_COMPLETED
                                 STROKE_CANCELLED STROKE_REMOVED h descriptor).
Hypothesis query_valid : ∀ checkpoint, query_validate (history_query checkpoint) = Ok ().
Abbreviation history id epoch := (history_between STROKE_BEGAN STROKE_POINTS_APPENDED STROKE_COMPLETED
                                    STROKE_CANCELLED STROKE_REMOVED id epoch h canvas descriptor).

Lemma wanted_checkpoint c c' e : wanted (history_query c) e = wanted (history_query c') e.
Proof.
  unfold CanvasHistory.history_query, canvas_event_query. generalize (canvas_session_id descriptor). intros session.
  match goal with |- context [query_before c ?q] => generalize q end. intros q.
  pose proof (fields_with_limit (h_store_scan_limit h) (query_before c q) limit_usize) as Hl.
  pose proof (fields_with_limit (h_store_scan_limit h) (query_before c' q) limit_usize) as Hl'.
  pose proof (fields_before c q) as Hb. pose proof (fields_before c' q) as Hb'.
  unfold query_fields in *. injection Hl as Hs Ha Ht _ _ _. injection Hl' as Hs' Ha' Ht' _ _ _.
  injection Hb as Hbs Hba Hbt _ _ _. injection Hb' as Hbs' Hba' Hbt' _ _ _.
  unfold wanted. rewrite !matches_with_limit, !matches_before.
  by rewrite Hs, Ha, Ht, Hs', Ha', Ht', Hbs, Hba, Hbt, Hbs', Hba', Hbt'.
Qed.

Lemma history_events_epoch id epoch epoch' l :
  history_events canvas (stored_at id epoch <$> l) = history_events canvas (stored_at id epoch' <$> l).
Proof.
  induction l as [|[i e] l IH]; [done|]. rewrite !fmap_cons. cbn [history_events].
  assert (∀ ep, stored_event_of (stored_at id ep (i, e)) = e) as Hev by (intros ep; apply stored_event_of_new).
  rewrite !Hev. destruct (CanvasEventData_try_from e) as [data|]; [|done]. cbn.
  destruct (canvas_id_for data) as [x|]; [|done]. cbn. by rewrite IH.
Qed.

Lemma selected_checkpoint c c' start u log :
  selected (history_query c) start u log = selected (history_query c') start u log.
Proof. apply List_filter_ext. intros [i e] _. cbn. by rewrite (wanted_checkpoint c c'). Qed.

Lemma history_epoch id epoch epoch' u start log : history id epoch u start log = history id epoch' u start log.
Proof.
  unfold history_between. rewrite (history_events_epoch id epoch epoch'). do 2 f_equal. apply selected_checkpoint.
Qed.

(** The history of a longer log is what was read up to [length log], followed
    by what was appended since. *)
Lemma history_grows id epoch log more before since :
  history id epoch (Z.of_nat (length log)) 0 log = Ok before →
  history id epoch (Z.of_nat (length (log ++ more))) (Z.of_nat (length log)) (log ++ more) = Ok since →
  history id epoch (Z.of_nat (length (log ++ more))) 0 (log ++ more) = Ok (before ++ since).
Proof.
  unfold history_between. intros Hb Hs.
  set (c := EventStoreCheckpoint_for_storage id epoch (Z.of_nat (length (log ++ more)))) in *.
  rewrite (selected_split _ 0 (Z.of_nat (length log))), fmap_app, history_events_app by (rewrite length_app; lia).
  rewrite (selected_stable _ 0 (Z.of_nat (length log)) log more) by lia.
  rewrite (selected_checkpoint c (EventStoreCheckpoint_for_storage id epoch (Z.of_nat (length log))) 0 _ log), Hb.
  cbn. by rewrite Hs.
Qed.

(** ** The first request after a restart *)

Context (id epoch epoch' : EntityId).
#[local] Instance port : EventStorePort C := sqlite_port id epoch'.
Abbreviation page := (history_page STROKE_BEGAN STROKE_POINTS_APPENDED STROKE_COMPLETED STROKE_CANCELLED
                        STROKE_REMOVED h actor).

(** A continuation that another process has issued is refused. *)
Lemma continuation_refused c log u cursor :
  epoch ≠ epoch' → sqlite_holds c log → sqlite_calm c → Z.of_nat (length log) ≤ i64_max →
  ∃ c', page (Continue canvas (EventStoreCheckpoint_for_storage id epoch u) cursor) c = (Err HandlerInvalidQuery, c') ∧
        sqlite_holds c' log ∧ sqlite_calm c'.
Proof.
  intros Hne Hh Hcalm Hlen. unfold history_page. rewrite resolved, authorized.
  fold (history_query (EventStoreCheckpoint_for_storage id epoch u)).
  set (q := query_after cursor _).
  assert (spec_query id epoch' q log =
    Err (InvalidCheckpoint "checkpoint does not belong to this SQLite store epoch")) as Hspec.
  { unfold spec_query, q. rewrite validate_after, query_valid. cbn.
    unfold spec_upper. pose proof (fields_after cursor (history_query (EventStoreCheckpoint_for_storage id epoch u))) as Hf.
    unfold query_fields in Hf. injection Hf as _ _ _ Hu _ _. rewrite Hu.
    destruct (history_query_fields STROKE_BEGAN STROKE_POINTS_APPENDED STROKE_COMPLETED STROKE_CANCELLED
      STROKE_REMOVED h descriptor limit_usize (EventStoreCheckpoint_for_storage id epoch u)) as [-> _].
    rewrite checkpoint_position, decide_False; [done|]. by intros [_ ?]. }
  destruct (law_query (EventStorePortLaws := sqlite_port_laws id epoch') c log q Hh) as [Hc [(_ & _ & Hfull)|[Hr Hl]]].
  - specialize (Hfull Hcalm). unfold log_full in Hfull. lia.
  - cbn in Hr, Hl. rewrite Hspec in Hr. cbn in Hr. exists (port_query q c).2.
    split; [|by split; [|apply Hc]]. cbn in *. destruct (query_events id q epoch' c) as [r c']. cbn in *. by subst r.
Qed.

(** So is its request. *)
Abbreviation execute := (CanvasHistory.execute encoded_size decode_payload encode_payload STROKE_BEGAN
                           STROKE_POINTS_APPENDED STROKE_COMPLETED STROKE_CANCELLED STROKE_REMOVED h actor).
Lemma continuation_request_refused message query_type request c log u cursor :
  decode_payload request = Some (Continue canvas (EventStoreCheckpoint_for_storage id epoch u) cursor) →
  epoch ≠ epoch' → sqlite_holds c log → sqlite_calm c → Z.of_nat (length log) ≤ i64_max →
  ∃ c', execute message query_type request c = (Err HandlerInvalidQuery, c') ∧ sqlite_holds c' log.
Proof.
  intros Hd Hne Hh Hcalm Hlen. destruct (continuation_refused c log u cursor) as (c' & Hc & Hh' & _); [done..|].
  exists c'. split; [|done]. unfold CanvasHistory.execute. by rewrite Hd, Hc.
Qed.

(** The client in the new process, and the other tasks, which only append *)
Context (others : nat → C → C) (request_id : nat → MessageId).
Context (read_page : Payload → option CanvasHistoryPageDto) (next_request : Payload → option Payload).
Hypothesis client_reads : ∀ page response, encode_payload page = Some response → read_page response = Some page.
Hypothesis client_continues : ∀ page response cursor,
  encode_payload page = Some response → page_cursor page = Some cursor →
  ∃ next, next_request response = Some next ∧
    decode_payload next = Some (Continue (page_canvas_id page) (page_checkpoint page) cursor).
Hypothesis others_append : ∀ n c log, sqlite_holds c log → sqlite_calm c →
  Z.of_nat (length log) ≤ i64_max →
  ∃ more, sqlite_holds (others n c) (log ++ more) ∧ sqlite_calm (others n c) ∧
          Z.of_nat (length (log ++ more)) ≤ i64_max.
Abbreviation replay := (CanvasHistory.replay encoded_size decode_payload encode_payload STROKE_BEGAN
  STROKE_POINTS_APPENDED STROKE_COMPLETED STROKE_CANCELLED STROKE_REMOVED others request_id read_page next_request).

(** C18. Canvas history over a restart: a database with a log is opened again, by a
    process with another continuation epoch, and no call of the database fails.
    The store keeps its identity.  Every request that continues a history of the
    old process is refused as an invalid query and changes nothing.  A client
    that starts over, while other tasks append, is done after at most one
    request per stored entry; when the events of the old process could be read
    ([before]) and those appended since can be read ([since]), it receives
    exactly [before] followed by [since], unless a page of that history does not
    fit the message limit of the handler. *)
Theorem history_over_restart c log has_parent fresh p :
  epoch ≠ epoch' → sqlite_holds c log → Z.of_nat (length log) ≤ i64_max →
  identity_stored id (committed c) → ¬ faulty p →
  let '(r, c1) := initialize_connection has_parent "ok" fresh (mkConn (committed c) None p) in
  r = Ok id ∧
  (∀ message query_type request u cursor,
     decode_payload request = Some (Continue canvas (EventStoreCheckpoint_for_storage id epoch u) cursor) →
     ∃ c2, execute message query_type request c1 = (Err HandlerInvalidQuery, c2) ∧ sqlite_holds c2 log) ∧
  ∀ request, decode_payload request = Some (First canvas) →
  ∃ more, sqlite_holds (others 0 c1) (log ++ more) ∧
    let u := Z.of_nat (length (log ++ more)) in
    ∀ fuel before since, (length (log ++ more) < fuel)%nat →
      history id epoch (Z.of_nat (length log)) 0 log = Ok before →
      history id epoch' u (Z.of_nat (length log)) (log ++ more) = Ok since →
      (replay fuel 0 h actor request c1).1 = Some (Ok (before ++ since)) ∨
      ((replay fuel 0 h actor request c1).1 = Some (Err HandlerInternal) ∧
       oversized encoded_size encode_payload STROKE_BEGAN STROKE_POINTS_APPENDED STROKE_COMPLETED STROKE_CANCELLED
         STROKE_REMOVED request_id id epoch' h canvas descriptor u (log ++ more)).
Proof.
  intros Hne Hh Hlen Hid Hp. pose proof (reopened has_parent fresh c log id p Hh Hlen Hid Hp) as Hr.
  destruct (initialize_connection _ _ _ _) as [r c1]. destruct Hr as (-> & Hh1 & Hcalm1). split_and!; [done| |].
  - intros message query_type request u cursor Hd. by eapply continuation_request_refused.
  - intros request Hd.
    destruct (replay_complete encoded_size decode_payload encode_payload
      STROKE_BEGAN STROKE_POINTS_APPENDED STROKE_COMPLETED STROKE_CANCELLED STROKE_REMOVED
      others request_id read_page next_request client_reads client_continues id epoch' sqlite_holds sqlite_calm
      (EventStorePortLaws0 := sqlite_port_laws id epoch') others_append
      h actor canvas descriptor resolved authorized limit_usize query_valid c1 log request Hh1 Hcalm1 Hlen Hd)
      as (more & Hmore & Hreplay).
    exists more. split; [done|]. intros u fuel before since Hfuel Hb Hs.
    rewrite (history_epoch id epoch epoch') in Hb.
    destruct (Hreplay fuel Hfuel) as [Hc|Hc]; [left|by right].
    etransitivity; [exact Hc|]. f_equal. by apply history_grows.
Qed.
End restart.

(** ** A concrete restart *)

Module RestartDemo.
Import WireDemo.
#[local] Existing Instances Demo.demo_kernel Demo.demo_laws.
#[local] Instance later_port : EventStorePort (conn EventDb SqliteError) := sqlite_port "store" "later".
Abbreviation replay := (CanvasHistory.replay (H := Demo.demo_kernel) size (decode_payload request_of_value)
  (encode_payload page_to_value) "stroke" "p" "c" "x" "r" (λ _ st, st) (λ n, show_u64 (Z.of_nat n))
  (decode_payload page_of_value) follow_up).

(** Witness of C18: the process of epoch "later" opens the store of the three events,
    and nobody else appends. *)
Lemma history_over_restart_witness :
  let '(r, c1) := initialize_connection true "ok" ("new" : EntityId) (mkConn (committed three_events) None []) in
  r = Ok ("store" : EntityId) ∧
  ∃ more, sqlite_holds c1 (three_log ++ more) ∧
    ∀ fuel before since, (length (three_log ++ more) < fuel)%nat →
      history_between "stroke" "p" "c" "x" "r" "store" "epoch" handler "canvas" three_descriptor 3 0 three_log = Ok before →
      history_between "stroke" "p" "c" "x" "r" "store" "later" handler "canvas" three_descriptor
        (Z.of_nat (length (three_log ++ more))) 3 (three_log ++ more) = Ok since →
      (replay fuel 0%nat handler () first_request c1).1 = Some (Ok (before ++ since)) ∨
      ((replay fuel 0%nat handler () first_request c1).1 = Some (Err HandlerInternal) ∧
       oversized size (encode_payload page_to_value) "stroke" "p" "c" "x" "r" (λ n, show_u64 (Z.of_nat n))
         "store" "later" handler "canvas" three_descriptor (Z.of_nat (length (three_log ++ more))) (three_log ++ more)).
Proof.
  pose proof (history_over_restart (H := Demo.demo_kernel) size (decode_payload request_of_value)
    (encode_payload page_to_value) "stroke" "p" "c" "x" "r" handler () "canvas"
    three_descriptor eq_refl eq_refl ltac:(cbn; lia) (λ _, eq_refl)
    "store" "epoch" "later" (λ _ st, st) (λ n, show_u64 (Z.of_nat n)) (decode_payload page_of_value) follow_up
    (response_is_read (WL := wire_laws)) (follow_up_continues (WL := wire_laws))) as Hr.
  specialize (Hr ltac:(intros n st log Hst Hc Hl; exists []; by rewrite app_nil_r)
                three_events three_log true "new" []).
  specialize (Hr ltac:(discriminate) three_events_hold ltac:(unfold i64_max; cbn; lia)).
  specialize (Hr ltac:(split; eexists; split; reflexivity) ltac:(apply not_faulty_nil)).
  destruct (initialize_connection _ _ _ _) as [r c1]. destruct Hr as (Hr & _ & Hm).
  split; [exact Hr|]. apply Hm. reflexivity.
Defined.
End RestartDemo.
