(* ===== verification/Durability.v ===== *)
(** * What was acknowledged survives the process

    A process may stop at any point of any interleaving: what is left of a
    store is the committed database.  A later process opens it, with calls that
    may fail again.  Everything that a client had been told is stored is then
    found: an appended event at its position, a published graph whole. *)

From S2P Require Import Prelude Float Kernel Sql EventStore EventLog EventReplay Worker WorkerApi EventWorker.
From S2P Require Import Restart StoreCalls.

(** ** The EventStore *)

Section events.
Context `{Kernel, !KernelLaws} (store_id epoch epoch' : EntityId).
Abbreviation C := (conn EventDb SqliteError).
Abbreviation exec := (EventWorker.exec_command store_id epoch).
#[local] Instance api : StoreApi EventCommand EventReply C (StorageError EventId) := event_api store_id epoch.
#[local] Instance api_laws : StoreApiLaws EventCommand EventReply C (StorageError EventId) exec :=
  event_api_laws store_id epoch.

(** No command touches the metadata. *)
Lemma follows_metadata {A} db spec reason (r : result (StorageError EventId) A) c :
  follows db spec reason r c → storage_metadata (committed c) = storage_metadata db.
Proof. by intros (_ & [(_ & -> & _)|(_ & _ & ->)]). Qed.

Lemma exec_metadata cmd c log :
  sqlite_holds c log → storage_metadata (committed (exec cmd c).2) = storage_metadata (committed c).
Proof.
  destruct c as [db w p]. intros [Hw Hrep]. cbn in Hw, Hrep. subst w.
  destruct cmd as [|e|id|q]; cbn [EventWorker.exec_command].
  - pose proof (capture_checkpoint_wp store_id epoch db log p Hrep) as Hf. unfold sql_wp in Hf.
    destruct (capture_checkpoint _ _ _). by eapply follows_metadata.
  - pose proof (append_event_wp store_id epoch e db log p Hrep) as Hf. unfold sql_wp in Hf.
    destruct (append_event _ _ _ _). by eapply follows_metadata.
  - pose proof (get_event_wp store_id epoch id db log p Hrep) as Hf. unfold sql_wp in Hf.
    destruct (get_event _ _ _ _). by eapply follows_metadata.
  - pose proof (query_events_wp store_id epoch q db log p Hrep) as Hf. unfold sql_wp in Hf.
    destruct (query_events _ _ _ _). by eapply follows_metadata.
Qed.
Lemma run_all_metadata cmds : ∀ c log,
  sqlite_holds c log → storage_metadata (committed (run_all exec cmds c)) = storage_metadata (committed c).
Proof.
  induction cmds as [|[t cmd] cmds IH]; intros c log Hc; cbn; [done|].
  rewrite <- (exec_metadata cmd c log Hc).
  destruct (exec_command_log store_id epoch cmd c log Hc) as [Hh|Hh]; by eapply IH.
Qed.

(** C11. An acknowledged append is durable: when [append] has returned a
    [StoredEvent] and the process stops later, at any point of any
    interleaving and after any failing calls, the next process opens the
    database with the identity it had, and [get] finds the event there at the
    same position, under the epoch of the new process. *)
Theorem appended_event_survives capacity db p log ls1 w1 ls2 w2 a e stored has_parent fresh p' :
  represents db log → identity_stored store_id db →
  wsteps exec capacity ls1 (start (mkConn db None p)) = Some w1 →
  returned w1 a (event_append e) (Ok stored) → wsteps exec capacity ls2 w1 = Some w2 →
  Z.of_nat (length (events (committed (store w2)))) ≤ i64_max → ¬ faulty p' →
  let '(r, c) := initialize_connection has_parent "ok" fresh (mkConn (committed (store w2)) None p') in
  r = Ok store_id ∧
  ∃ position,
    stored = StoredEvent_new (EventCursor_for_storage store_id epoch position) e ∧
    (get_event store_id (event_id e) epoch' c).1 =
      Ok (Some (StoredEvent_new (EventCursor_for_storage store_id epoch' position) e)).
Proof.
  intros Hrep Hid Hs1 Ha Hs2 Hlen Hp'.
  destruct (returned_store exec capacity _ _ _ _ _ _ _ _ Hs1 Ha Hs2) as (pre & post & Hx & Hst).
  cbn [method_run api event_api event_run] in Hx, Hst.
  assert (sqlite_holds (mkConn db None p) log) as Hh0 by done.
  destruct (run_all_log store_id epoch pre _ _ Hh0) as (log1 & Hh1 & _).
  destruct (append_answers _ _ _ _ _ _ Hh1 Hx) as (log2 & [i e'] & Hh2 & Hf & He & ->). cbn in He. subst e'.
  destruct (run_all_log store_id epoch post _ _ Hh2) as (log3 & Hh3 & Hpre). rewrite <- Hst in Hh3.
  assert (storage_metadata (committed (store w2)) = storage_metadata db) as Hmeta.
  { rewrite Hst, (run_all_metadata _ _ _ Hh2). pose proof (exec_metadata (Append e) _ _ Hh1) as Hm. cbn in Hm.
    destruct (append_event _ _ _ _). cbn in *. rewrite Hm. exact (run_all_metadata pre _ _ Hh0). }
  pose proof (Forall2_length _ _ _ (rep_rows _ _ (proj2 Hh3))) as Hl. rewrite length_indexed in Hl.
  pose proof (reopened has_parent fresh (store w2) log3 store_id p' Hh3 ltac:(lia)) as Hr.
  destruct (initialize_connection _ _ _ _) as [r c]. destruct Hr as (-> & Hc & Hcalm); [|done|].
  { unfold identity_stored. by rewrite Hmeta. }
  split; [done|]. exists (i + 1). split; [done|].
  pose proof (sqlite_port_laws store_id epoch') as Hlaws.
  destruct (law_get (EventStorePortLaws := Hlaws) c log3 (event_id e) Hc) as [_ [(_ & _ & Hn)|(Hg & _)]];
    [by destruct (Hn Hcalm)|]. cbn in Hg. rewrite Hg. unfold spec_get.
  by rewrite (log_find_prefix _ _ _ _ Hpre Hf).
Qed.
End events.

(** ** The Catalog *)

From S2P Require Import Canvas CatalogKernel Catalog CatalogSpec CatalogRefine CatalogOpen CatalogWorker.

Section catalog.
Context `{CatalogKernelLaws} {KL : KernelLaws}.
Abbreviation exec := CatalogWorker.exec_command.
#[local] Existing Instances catalog_api catalog_api_laws.

(** A read of an opened catalog *)
Lemma holds_answers {A} (m : sql CatalogDb SqliteError CatalogStoreError A) meta c cat v :
  holds meta c cat → reads m (tables meta cat) (Ok v) → answer_on m (committed c) = Ok v.
Proof. intros [-> _]. apply reads_answer. Qed.

(** C12. An acknowledged publication is durable: when [publish_document] has
    returned success and the process stops later, at any point of any
    interleaving and after any failing calls, the next opening keeps every row,
    succeeds unless a call fails or a binding disagrees with its Canvas, and
    the Document, its Canvases and its place in the listing are read from it. *)
Theorem published_document_survives capacity meta cat p ls1 w1 ls2 w2 a c o has_parent fresh id p' :
  catalog_ok cat → metadata_ok id meta →
  wsteps exec capacity ls1 (start (mkConn (tables meta cat) None p)) = Some w1 →
  returned w1 a (catalog_publish_document c) (Ok o) → wsteps exec capacity ls2 w1 = Some w2 →
  let '(r, conn) := initialize_storage has_parent "ok" fresh (mkConn (committed (store w2)) None p') in
  let db := committed conn in
  ∃ cat', extends cat cat' ∧
    (faulty p' ∨ r = if decide (bindings_coherent cat') then Ok id
                     else Err (Corruption "bootstrap binding Session mismatch")) ∧
    answer_on list_all_documents db = Ok (c_documents cat') ∧ composition_document c ∈ c_documents cat' ∧
    answer_on (load_document (document_document_id (composition_document c))) db = Ok (Some (composition_document c)) ∧
    (∀ d, d ∈ page_canvases c → answer_on (load_canvas (canvas_canvas_id d)) db = Ok (Some d)).
Proof.
  intros Hok Hm Hs1 Ha Hs2.
  destruct (returned_store exec capacity _ _ _ _ _ _ _ _ Hs1 Ha Hs2) as (pre & post & Hx & Hst).
  cbn [method_run catalog_api catalog_run] in Hx, Hst.
  destruct (run_all_grows meta pre cat (mkConn (tables meta cat) None p)) as (cat1 & Hh1 & Hok1 & He1); [done|done|].
  destruct (publish_answers _ _ _ _ _ Hh1 Hok1 Hx) as (cat2 & Hh2 & Hok2 & He2 & Hg).
  destruct (run_all_grows meta post _ _ Hh2 Hok2) as (cat3 & [Hd3 _] & Hok3 & He3). rewrite <- Hst in Hd3. rewrite Hd3.
  destruct (stores_graph_extends _ _ _ He3 Hg) as [Hdoc Hcan].
  pose proof (open_catalog_wp has_parent fresh id meta cat3 p' Hok3 (metadata_ok_usable _ _ _ Hm)) as Hw.
  unfold sql_wp in Hw. destruct (initialize_storage _ _ _ _) as [r conn]. cbn in Hw |- *.
  destruct Hw as [(meta' & Hh & _) Hr]. exists cat3. split_and!.
  - etrans; [exact He1|]. by etrans.
  - destruct Hr as [?| ->]; [by left|right]. unfold bindings_verdict, bindings_coherent. repeat case_decide; done.
  - by eapply holds_answers, list_all_documents_reads.
  - by apply find_document_Some in Hdoc as [Hin _].
  - rewrite <- Hdoc. by eapply holds_answers, load_document_reads.
  - intros d Hd. rewrite <- (stored_canvases_find _ _ _ Hcan eq_refl d Hd). by eapply holds_answers, load_canvas_reads.
Qed.
End catalog.

(** ** Concrete runs *)

Section demo.
#[local] Existing Instances Demo.demo_kernel Demo.demo_laws.
Import EventCalls.

(** Witness of C11: the process stops right after the answer. *)
Lemma appended_event_survives_witness :
  let '(r, c) := initialize_connection (H := Demo.demo_kernel) true "ok" "new"
                   (mkConn (committed (store after_append)) None []) in
  r = Ok ("store" : EntityId) ∧
  ∃ position,
    e1_stored = StoredEvent_new (Kernel := Demo.demo_kernel) (EventCursor_for_storage "store" "epoch" position) e1 ∧
    (get_event (H := Demo.demo_kernel) "store" (event_id e1) "later" c).1 =
      Ok (Some (StoredEvent_new (EventCursor_for_storage "store" "later" position) e1)).
Proof.
  apply (appended_event_survives (H := Demo.demo_kernel) "store" "epoch" "later" 3 demo_db [] demo_log
           (one_call 0 (Append e1)) after_append [] after_append 0 e1 e1_stored true "new" []).
  - exact demo_represents.
  - exact demo_identity.
  - reflexivity.
  - split; [intros c Hc|]. { apply list_elem_of_singleton in Hc. by injection Hc. }
    eexists. split; reflexivity.
  - reflexivity.
  - by vm_compute.
  - apply not_faulty_nil.
Defined.
End demo.

Module DurableCatalog.
Import CatalogDemo CatalogSample OpenSample.
Abbreviation DStart := (start (R := CatalogReply) (mkConn (tables sample_meta empty_catalog) None [])).
Definition published_worker : worker :=
  default DStart (wsteps CatalogWorker.exec_command 3 (one_call 0 (PublishDocument sample_composition)) DStart).

(** Witness of C12: the process stops right after the answer. *)
Lemma published_document_survives_witness :
  let '(r, conn) := initialize_storage true "ok" "fresh" (mkConn (committed (store published_worker)) None []) in
  ∃ cat', r = (if decide (bindings_coherent cat') then Ok "store"
               else Err (Corruption "bootstrap binding Session mismatch")) ∧
    answer_on (load_document (document_document_id (composition_document sample_composition))) (committed conn) =
      Ok (Some (composition_document sample_composition)).
Proof.
  pose proof (published_document_survives (H := Demo.demo_kernel) 3 sample_meta empty_catalog []
    (one_call 0 (PublishDocument sample_composition)) published_worker [] published_worker 0 sample_composition Inserted
    true "fresh" "store" []) as Hd.
  specialize (Hd empty_catalog_ok ltac:(split; eexists; split; reflexivity) eq_refl).
  specialize (Hd ltac:(split; [intros c Hc; apply list_elem_of_singleton in Hc; by injection Hc|eexists; split; reflexivity]) eq_refl).
  destruct (initialize_storage _ _ _ _) as [r conn]. destruct Hd as (cat' & _ & [[]%not_faulty_nil|Hr] & _ & _ & Hl & _).
  exists cat'. split; [exact Hr|exact Hl].
Defined.
End DurableCatalog.
