(* ===== verification/TestKit.v ===== *)
(** * Running the unit tests of the sources on the model

    The crates under [src/] carry unit tests.  The files [*Tests.v] translate
    them statement by statement, as computations over the modelled stores and
    services, and evaluate them: a test passes on the model exactly when every
    [expect] and every assertion of it holds.  Identifiers that a test draws
    with [X::new()] are distinct literals here, and files on a temporary
    directory are the database and directories of the model. *)

From S2P Require Import Prelude Worker WorkerApi.

(** A test body over a state: [None] when an assertion fails. *)
Definition script (S A : Type) : Type := S → option (A * S).
#[global] Instance script_mret {S} : MRet (script S) := λ A a s, Some (a, s).
#[global] Instance script_mbind {S} : MBind (script S) := λ A B k m s,
  match m s with Some (a, s') => k a s' | None => None end.

(** [assert!], [assert_eq!] and [assert_ne!] *)
Definition assert {S} (b : bool) : script S () := λ s, if b then Some ((), s) else None.
Definition assert_eq {S A} `{EqDecision A} (x y : A) : script S () := assert (bool_decide (x = y)).
Definition assert_ne {S A} `{EqDecision A} (x y : A) : script S () := assert (bool_decide (x ≠ y)).
(** [Result::expect], [Result::expect_err] and [Option::expect] *)
Definition expect {S E A} (r : result E A) : script S A := λ s,
  match r with Ok a => Some (a, s) | Err _ => None end.
Definition expect_err {S E A} (r : result E A) : script S E := λ s,
  match r with Err e => Some (e, s) | Ok _ => None end.
Definition expect_some {S A} (o : option A) : script S A := λ s,
  match o with Some a => Some (a, s) | None => None end.
(** A call that changes the state *)
Definition act {S A} (f : S → A * S) : script S A := λ s, let '(a, s') := f s in Some (a, s').
Definition get {S A} (f : S → A) : script S A := λ s, Some (f s, s).
Definition put {S} (f : S → S) : script S () := λ s, Some ((), f s).

Definition passes {S A} (test : script S A) (s : S) : bool := match test s with Some _ => true | None => false end.

(** ** Calls over a worker *)

Section calls.
Context {Cmd R S E : Type} `{!StoreApi Cmd R S E} (exec : Cmd → S → R * S) (capacity : nat).
Abbreviation worker := (worker (Cmd := Cmd) (R := R) (S := S)).

(** The steps that are possible, in order. *)
Definition play (ls : list label) (w : worker) : worker :=
  fold_left (λ w l, default w (wstep exec capacity l w)) ls w.

(** A call that is answered before the next one begins; the client is new. *)
Definition next_client (w : worker) : nat := length (map_to_list (clients w)).
Definition ask {A} (m : Method A) (w : worker) : option (result E A) * worker :=
  let t := next_client w in
  let w' := play [CheckClosed t; CloneSender t; TrySend t (method_command m); Worker.Worker] w in
  (match clients w' !! t with Some (CDone r) => dispatch m r | _ => None end, w').

(** [close]: the drain of everything queued, then [Shutdown]. *)
Definition shut (w : worker) : worker :=
  let w' := play [SwapClosed; TakeSender; SendShutdown] w in
  play (replicate (length (queue w')) Worker.Worker) w'.
End calls.
