(* ===== verification/EventStoreTests.v ===== *)
(** * The unit tests of [orbitrelay-storage-sqlite]

    [mod tests] of [orbitrelay-storage-sqlite/src/lib.rs], on the model: every
    call goes through the command queue of an opened store. *)

From S2P Require Import Prelude Kernel Sql EventStore EventLog EventReplay Worker WorkerApi EventWorker.
From S2P Require Import StoreCalls TestKit.

Section tests.
#[local] Existing Instances Demo.demo_kernel Demo.demo_laws Demo.event_eq_dec.
Abbreviation C := (conn EventDb SqliteError).
Abbreviation Error := (StorageError EventId).
Abbreviation worker := (worker (Cmd := EventCommand) (R := EventReply) (S := C)).

(** An opened [SQLiteEventStore]. *)
Record Handle := mkHandle { physical_store_id : EntityId; continuation_epoch : EntityId; live : worker }.
Abbreviation test := (script Handle).
#[local] Existing Instance event_api.
Abbreviation api h := (event_api (physical_store_id h) (continuation_epoch h)).
Abbreviation exec h := (EventWorker.exec_command (physical_store_id h) (continuation_epoch h)).

(** [SQLiteEventStore::open] on a file; [id] and [epoch] are the two
    [EntityId::new()]. *)
Definition open_file (id epoch : EntityId) (db : EventDb) : result Error Handle :=
  let '(r, _) := EventWorker.open_with_queue_capacity 256 true "ok" id epoch (mkConn db None []) in
  '(id, epoch, w) ← r; Ok (mkHandle id epoch w).
Definition empty_file : EventDb := mkEventDb ∅ [].
Definition file (h : Handle) : EventDb := committed (store (live h)).

Definition call {A} (m : EventMethod A) : test (result Error A) := λ h,
  match ask (StoreApi0 := api h) (exec h) 256 m (live h) with
  | (Some r, w) => Some (r, mkHandle (physical_store_id h) (continuation_epoch h) w)
  | (None, _) => None
  end.
Definition close : test () := put (λ h,
  mkHandle (physical_store_id h) (continuation_epoch h) (shut (exec h) 256 (live h))).
(** [SQLiteEventStore::open(&path)] on the same file *)
Definition reopen (id epoch : EntityId) : test (result Error ()) := λ h,
  match open_file id epoch (file h) with
  | Ok h' => Some (Ok (), h')
  | Err e => Some (Err e, h)
  end.
(** A statement on a raw connection *)
Definition raw (f : EventDb → EventDb) : test () := put (λ h,
  let w := live h in let c := store w in
  mkHandle (physical_store_id h) (continuation_epoch h)
    (mkWorker (closed w) (has_sender w) (queue w) (running w) (mkConn (f (committed c)) (working c) (plan c))
       (clients w) (closing w) (accepted w) (executed w))).
Definition opened (id epoch : EntityId) (body : test ()) : bool :=
  match open_file id epoch empty_file with Ok h => passes body h | Err _ => false end.

(** [fn event] *)
Definition event (id session : string) (occurred_at : Z) (kind : string) : Event :=
  Event_new (Kernel := Demo.demo_kernel) id session "actor" "action" kind (show_u64 occurred_at) "{}" "{}".
Abbreviation append e := (call (event_append e)).
Abbreviation query q := (call (event_query q)).
Abbreviation all := Demo.query_all.

Definition persists_events_and_order_across_reopen : bool :=
  let first := event "e1" "s" 200 "second" in
  let second := event "e2" "s" 100 "first" in
  opened "store" "epoch" (
    _ ← append first ≫= expect; _ ← append second ≫= expect;
    id ← get physical_store_id;
    close;;
    _ ← reopen "other" "later" ≫= expect;
    id' ← get physical_store_id; assert_eq (id' : string) id;;
    page ← query all ≫= expect;
    match page_events page with
    | a :: b :: _ =>
        assert_eq (stored_event_of a) first;; assert_eq (stored_event_of b) second;;
        assert_ne (stored_cursor a : Demo.position) (stored_cursor b)
    | _ => assert false
    end;;
    close).
Example persists_events_and_order_across_reopen_passes : persists_events_and_order_across_reopen = true.
Proof. vm_compute. reflexivity. Qed.

Definition idempotency_and_conflict_match_memory_semantics : bool :=
  let original := event "e1" "s1" 1 "fact" in
  opened "store" "epoch" (
    first ← append original ≫= expect;
    duplicate ← append original ≫= expect;
    assert_eq (first : Demo.position * Demo.event) duplicate;;
    conflict ← append (event "e1" "s2" 2 "other") ≫= expect_err;
    match conflict with EventConflict id => assert_eq (id : string) "e1" | _ => assert false end;;
    close).
Example idempotency_and_conflict_match_memory_semantics_passes : idempotency_and_conflict_match_memory_semantics = true.
Proof. vm_compute. reflexivity. Qed.

Definition checkpoint_excludes_later_events_and_old_tokens_invalidate : bool :=
  opened "store" "epoch" (
    _ ← append (event "e1" "s" 1 "one") ≫= expect;
    _ ← append (event "e2" "s" 2 "two") ≫= expect;
    checkpoint ← call event_capture_checkpoint ≫= expect;
    page ← query (query_with_limit 1 all) ≫= expect;
    let cursor := page_next_cursor page in
    _ ← append (event "e3" "s" 3 "three") ≫= expect;
    bounded ← query (query_before checkpoint all) ≫= expect;
    assert_eq (length (page_events bounded)) 2%nat;;
    close;;
    _ ← reopen "other" "later" ≫= expect;
    r ← query (query_before checkpoint all); assert (negb (is_ok r));;
    match cursor with
    | Some cursor => r ← query (query_after cursor all); assert (negb (is_ok r))
    | None => mret ()
    end;;
    close).
Example checkpoint_excludes_later_events_and_old_tokens_invalidate_passes :
  checkpoint_excludes_later_events_and_old_tokens_invalidate = true.
Proof. vm_compute. reflexivity. Qed.

(** The 32 tasks: all get past the check and hold a sender, then all send, and
    only then the worker runs. *)
Definition concurrent_events : list Event :=
  (λ i, event (show_u64 (Z.of_nat i)) "s" (Z.of_nat i) "concurrent") <$> seq 0 32.
Definition spawn_all : test () := put (λ h,
  mkHandle (physical_store_id h) (continuation_epoch h)
    (play (exec h) 256
       ((CheckClosed <$> seq 0 32) ++ (CloneSender <$> seq 0 32) ++
        imap (λ i e, TrySend i (Append e)) (rev concurrent_events) ++ replicate 32 Worker.Worker) (live h))).
Definition appended (t : nat) (h : Handle) : bool :=
  match clients (live h) !! t with Some (CDone (Answer (AppendReply r))) => is_ok r | _ => false end.
Definition concurrent_appends_have_unique_stable_order : bool :=
  opened "store" "epoch" (
    spawn_all;;
    joined ← get (λ h, forallb (λ t, appended t h) (seq 0 32)); assert joined;;
    page ← query (query_with_limit 100 all) ≫= expect;
    assert_eq (length (page_events page)) 32%nat;;
    let cursors := (λ stored, (stored_cursor stored : Demo.position).2) <$> page_events page in
    assert_eq (length (List.filter (λ p, p.1 <? p.2) (zip cursors (tail cursors)))) 31%nat;;
    close).
Example concurrent_appends_have_unique_stable_order_passes : concurrent_appends_have_unique_stable_order = true.
Proof. vm_compute. reflexivity. Qed.

Definition is_backend_failure (r : result Error ()) : bool :=
  match r with Err (BackendFailure _) => true | _ => false end.
Definition rejects_schema_that_is_newer_than_supported : bool :=
  opened "store" "epoch" (
    close;;
    raw (λ db, mkEventDb (<["schema_version" := "999"]> (storage_metadata db)) (events db));;
    r ← reopen "other" "later"; assert (is_backend_failure r)).
Example rejects_schema_that_is_newer_than_supported_passes : rejects_schema_that_is_newer_than_supported = true.
Proof. vm_compute. reflexivity. Qed.

Definition malformed_event_row_fails_integrity_gate : bool :=
  opened "store" "epoch" (
    close;;
    raw (λ db, mkEventDb (storage_metadata db) (events db ++
      [mkStoredRow 0 "not-an-id" "not-an-id" "not-an-id" "not-an-id" "null" "event" "{}" "{}"]));;
    r ← reopen "other" "later"; assert (is_backend_failure r)).
Example malformed_event_row_fails_integrity_gate_passes : malformed_event_row_fails_integrity_gate = true.
Proof. vm_compute. reflexivity. Qed.

Definition close_stops_accepting_commands : bool :=
  opened "store" "epoch" (
    close;;
    error ← query all ≫= expect_err;
    match error with BackendUnavailable _ => mret () | _ => assert false end).
Example close_stops_accepting_commands_passes : close_stops_accepting_commands = true.
Proof. vm_compute. reflexivity. Qed.

Definition supports_filters_and_cursor_pagination : bool :=
  opened "store" "epoch" (
    _ ← append (event "e1" "s" 100 "selected") ≫= expect;
    _ ← append (event "e2" "s" 200 "selected") ≫= expect;
    _ ← append (event "e3" "s" 300 "other") ≫= expect;
    page ← query (query_with_limit 1 (Demo.with_time_range 50 250
             (query_with_event_type "selected" (query_for_session "s")))) ≫= expect;
    assert_eq (length (page_events page)) 1%nat;;
    cursor ← expect_some (page_next_cursor page);
    second ← query (query_after cursor (query_with_limit 1 (query_with_event_type "selected" all))) ≫= expect;
    assert_eq (length (page_events second)) 1%nat;;
    close).
Example supports_filters_and_cursor_pagination_passes : supports_filters_and_cursor_pagination = true.
Proof. vm_compute. reflexivity. Qed.

(** The second store has its own handle. *)
Definition rejects_tokens_from_another_database : bool :=
  match open_file "second" "epoch2" empty_file with
  | Err _ => false
  | Ok second =>
      opened "first" "epoch1" (
        checkpoint ← call event_capture_checkpoint ≫= expect;
        put (λ _, second);;
        error ← query (query_before checkpoint all) ≫= expect_err;
        match error with InvalidCheckpoint _ => mret () | _ => assert false end;;
        close)
  end.
Example rejects_tokens_from_another_database_passes : rejects_tokens_from_another_database = true.
Proof. vm_compute. reflexivity. Qed.
End tests.
