(* ===== verification/AssetStoreTests.v ===== *)
(** * The unit tests of [orbitrelay-asset-local-store]

    [mod tests] of [orbitrelay-asset-local-store/src/lib.rs], on the model: the
    temporary root is the [AssetWorld] of a connection without failing calls. *)

From S2P Require Import Prelude Kernel Sql Http AssetStore LocalAssets TestKit.

Section tests.
#[local] Existing Instances Demo.demo_kernel Demo.demo_laws Demo.demo_assets Demo.demo_asset_laws Demo.asset_eq_dec.
Abbreviation C := (conn AssetWorld afault).
Abbreviation test := (script C).

(** [tempfile::tempdir] *)
Definition root : C := mkConn (AssetStore.mkWorld ∅ ∅ ∅ ∅ ∅) None [].

(** [fn descriptor] *)
Definition descriptor (asset_id : string) (bytes : list Z) : option SourceAssetDescriptor :=
  SourceAssetDescriptor_new (AssetKernel := Demo.demo_assets) asset_id "application/octet-stream"
    (Z.of_nat (length bytes)) (ContentHash_from_bytes (sha256 bytes)) (Some "payload.bin"%string).

(** The methods of the store; [fresh] ids of files are told apart by their
    entry. *)
Definition open : test (result stop EntityId) :=
  act (AssetStore.open_with_queue_capacity 256 "ok" ("root-id" : EntityId)
         (λ entry n, entry +:+ "-" +:+ show_u64 (Z.of_nat n))).
Definition insert (d : SourceAssetDescriptor) (bytes : list Z) : test (result stop AssetInsertOutcome) :=
  act (insert_verified (λ _, "part"%string) (λ n, show_u64 (Z.of_nat n)) d bytes).
Definition get_asset (id : string) : test (result (option AssetCatalogError) (option SourceAssetDescriptor)) :=
  act (AssetStore.get_asset (id : AssetId)).
Definition read_range (id : string) (offset length : Z) : test (result read_stop AssetByteChunk) :=
  range ← expect_some (AssetByteRange_new offset length);
  act (AssetStore.read_range (id : AssetId) range).
(** Writes and removals of a test on the files under the root *)
Definition raw (f : AssetWorld → AssetWorld) : test () := put (λ c, mkConn (f (committed c)) (working c) (plan c)).
Definition on_blobs (f : gmap string file → gmap string file) (w : AssetWorld) : AssetWorld :=
  AssetStore.mkWorld (asset_metadata w) (assets w) (f (blobs w)) (staging w) (quarantine w).

Definition is_inserted (o : AssetInsertOutcome) : bool := match o with Inserted => true | Existing => false end.
(** [AssetByteChunk::is_eof], for the total length [total] *)
Definition is_eof (total : Z) (c : AssetByteChunk) : bool :=
  chunk_offset c + Z.of_nat (length (chunk_bytes c)) =? total.
Definition is_corruption {A} (r : result stop A) : bool :=
  match r with Err (Failed (Corruption _)) => true | _ => false end.

Definition publishes_and_reopens_metadata_bytes_and_ranges : bool := passes (
  let bytes := bytes_of "0123456789" in
  descriptor ← expect_some (descriptor "id" bytes);
  _ ← open ≫= expect;
  inserted ← insert descriptor bytes ≫= expect; assert (is_inserted inserted);;
  found ← get_asset "id" ≫= expect; assert_eq (found : option Demo.asset) (Some descriptor);;
  first ← read_range "id" 2 4 ≫= expect; assert_eq (chunk_bytes first) (bytes_of "2345");;
  _ ← open ≫= expect;
  found ← get_asset "id" ≫= expect; assert_eq (found : option Demo.asset) (Some descriptor);;
  final ← read_range "id" 8 8 ≫= expect;
  assert_eq (chunk_bytes final) (bytes_of "89");; assert (is_eof 10 final)) root.
Example publishes_and_reopens_metadata_bytes_and_ranges_passes : publishes_and_reopens_metadata_bytes_and_ranges = true.
Proof. vm_compute. reflexivity. Qed.

Definition distinguishes_zero_byte_and_missing_assets : bool := passes (
  _ ← open ≫= expect;
  descriptor ← expect_some (descriptor "id" []);
  _ ← insert descriptor [] ≫= expect;
  eof ← read_range "id" 0 1 ≫= expect;
  assert (bool_decide (chunk_bytes eof = []));; assert (is_eof 0 eof);;
  missing ← read_range "other" 0 1;
  assert (match missing with Err (ReadFailed (ReadNotFound _)) => true | _ => false end)) root.
Example distinguishes_zero_byte_and_missing_assets_passes : distinguishes_zero_byte_and_missing_assets = true.
Proof. vm_compute. reflexivity. Qed.

Definition validates_length_hash_and_immutable_conflicts : bool := passes (
  _ ← open ≫= expect;
  let bytes := bytes_of "valid" in
  valid ← expect_some (descriptor "id" bytes);
  wrong_length ← expect_some (SourceAssetDescriptor_new (AssetKernel := Demo.demo_assets) "id"
                   "application/octet-stream" 99 (content_hash valid) (Some "payload.bin"%string));
  r ← insert wrong_length bytes;
  assert (match r with Err (Failed (LengthMismatch _ _ _)) => true | _ => false end);;
  wrong_hash ← expect_some (SourceAssetDescriptor_new (AssetKernel := Demo.demo_assets) "id"
                 "application/octet-stream" (Z.of_nat (length bytes)) (ContentHash_from_bytes (replicate 32 0))
                 (Some "payload.bin"%string));
  r ← insert wrong_hash bytes;
  assert (match r with Err (Failed (HashMismatch _ _ _)) => true | _ => false end);;
  first ← insert valid bytes ≫= expect; assert (is_inserted first);;
  second ← insert valid bytes ≫= expect; assert (negb (is_inserted second));;
  conflict ← expect_some (descriptor "id" (bytes_of "other"));
  r ← insert conflict (bytes_of "other");
  assert (match r with Err (Failed (AssetConflict _)) => true | _ => false end)) root.
Example validates_length_hash_and_immutable_conflicts_passes : validates_length_hash_and_immutable_conflicts = true.
Proof. vm_compute. reflexivity. Qed.

(** The three modes: the blob is removed, truncated, modified. *)
Definition corruptions : list (gmap string file → gmap string file) :=
  [delete "id.blob"%string; <["id.blob"%string := Regular (bytes_of "short")]>;
   <["id.blob"%string := Regular (bytes_of "corruptioN")]>].
Definition published_blob_corruption_fails_reopen : bool :=
  forallb (λ corrupt, passes (
    let bytes := bytes_of "corruption" in
    _ ← open ≫= expect;
    descriptor ← expect_some (descriptor "id" bytes);
    _ ← insert descriptor bytes ≫= expect;
    raw (on_blobs corrupt);;
    r ← open; assert (is_corruption r)) root) corruptions.
Example published_blob_corruption_fails_reopen_passes : published_blob_corruption_fails_reopen = true.
Proof. vm_compute. reflexivity. Qed.

Definition staged_and_orphan_files_are_not_published_on_reopen : bool := passes (
  _ ← open ≫= expect;
  raw (set_staging <["stale.part"%string := Regular (bytes_of "stale")]>);;
  raw (on_blobs <["orphan.blob"%string := Regular (bytes_of "orphan")]>);;
  _ ← open ≫= expect;
  w ← get committed;
  assert (bool_decide (map_to_list (staging w) = []));;
  assert (bool_decide (map_to_list (blobs w) = []));;
  assert (negb (bool_decide (map_to_list (quarantine w) = [])))) root.
Example staged_and_orphan_files_are_not_published_on_reopen_passes :
  staged_and_orphan_files_are_not_published_on_reopen = true.
Proof. vm_compute. reflexivity. Qed.

Definition schema_and_metadata_corruption_fail_safely : bool :=
  passes (
    _ ← open ≫= expect;
    raw (λ w, AssetStore.mkWorld (<["schema_version"%string := "999"%string]> (asset_metadata w)) (assets w) (blobs w)
                (staging w) (quarantine w));;
    r ← open; assert (is_corruption r)) root &&
  passes (
    _ ← open ≫= expect;
    raw (set_assets <["not-an-id"%string :=
           mkRawRow "application/octet-stream" (-1) "not-a-hash" None "../escape" "published"]>);;
    r ← open; assert (is_corruption r)) root.
Example schema_and_metadata_corruption_fail_safely_passes : schema_and_metadata_corruption_fail_safely = true.
Proof. vm_compute. reflexivity. Qed.

(** The adapter lock serializes the two tasks. *)
Definition concurrent_identical_and_conflicting_ingests_are_linearized : bool := passes (
  _ ← open ≫= expect;
  let bytes := bytes_of "same" in
  descriptor ← expect_some (descriptor "id" bytes);
  a ← insert descriptor bytes ≫= expect; b ← insert descriptor bytes ≫= expect;
  assert (existsb is_inserted [a; b]);; assert (existsb (λ o, negb (is_inserted o)) [a; b])) root.
Example concurrent_identical_and_conflicting_ingests_are_linearized_passes :
  concurrent_identical_and_conflicting_ingests_are_linearized = true.
Proof. vm_compute. reflexivity. Qed.

(** Reads do not change the store: the two tasks in either order. *)
Definition concurrent_reads_are_stable : bool := passes (
  _ ← open ≫= expect;
  let bytes := bytes_of "0123456789" in
  descriptor ← expect_some (descriptor "id" bytes);
  _ ← insert descriptor bytes ≫= expect;
  first ← read_range "id" 0 5 ≫= expect; second ← read_range "id" 5 5 ≫= expect;
  assert_eq (chunk_bytes first) (bytes_of "01234");; assert_eq (chunk_bytes second) (bytes_of "56789");;
  second ← read_range "id" 5 5 ≫= expect; first ← read_range "id" 0 5 ≫= expect;
  assert_eq (chunk_bytes first) (bytes_of "01234");; assert_eq (chunk_bytes second) (bytes_of "56789")) root.
Example concurrent_reads_are_stable_passes : concurrent_reads_are_stable = true.
Proof. vm_compute. reflexivity. Qed.

Definition queue_capacity_zero_is_rejected : bool := passes (
  r ← act (AssetStore.open_with_queue_capacity 0 "ok" ("root-id" : EntityId) (λ entry _, entry));
  assert (match r with Err (Failed InvalidQueueCapacity) => true | _ => false end)) root.
Example queue_capacity_zero_is_rejected_passes : queue_capacity_zero_is_rejected = true.
Proof. vm_compute. reflexivity. Qed.

Definition publication_marker_constant_is_stable : bool := bool_decide (PUBLISHED = "published"%string).
Example publication_marker_constant_is_stable_passes : publication_marker_constant_is_stable = true.
Proof. vm_compute. reflexivity. Qed.
End tests.
