(* ===== verification/CatalogTests.v ===== *)
(** * The unit tests of [orbitrelay-catalog-sqlite]

    [mod tests] of [orbitrelay-catalog-sqlite/src/lib.rs], on the model: every
    call goes through the command queue of an opened catalog.  [DocumentComposer]
    is not part of the repository; a composed graph is given by its value, a
    Document and one Canvas per page. *)

From S2P Require Import Prelude Float Kernel Sql Canvas CatalogKernel Catalog Worker WorkerApi CatalogWorker.
From S2P Require Import StoreCalls TestKit.

Section tests.
#[local] Existing Instances Demo.demo_kernel Demo.demo_laws Demo.text_identifier.
Import CatalogDemo.
#[local] Existing Instances checked_eq_dec raw_canvas_eq_dec raw_document_eq_dec catalog_api.
Abbreviation C := (conn CatalogDb SqliteError).
Abbreviation Error := CatalogStoreError.
Abbreviation worker := (worker (Cmd := CatalogCommand) (R := CatalogReply) (S := C)).

#[local] Instance outcome_eq_dec : EqDecision CatalogPublishOutcome.
Proof. solve_decision. Defined.
#[local] Instance binding_eq_dec : EqDecision BootstrapBinding.
Proof. solve_decision. Defined.

(** An opened [SQLiteCatalogStore]. *)
Record Handle := mkHandle { physical_store_id : string; live : worker }.
Abbreviation test := (script Handle).

(** [SQLiteCatalogStore::open] on a file; [id] is the [EntityId::new()]. *)
Definition open_file (id : string) (db : CatalogDb) : result Error Handle :=
  let '(r, _) := open_with_queue_capacity 256 true "ok" (id : EntityId) (mkConn db None []) in
  '(id, w) ← r; Ok (mkHandle id w).
Definition file (h : Handle) : CatalogDb := committed (store (live h)).

Definition call {A} (m : CatalogMethod A) : test (result Error A) := λ h,
  match ask exec_command 256 m (live h) with
  | (Some r, w) => Some (r, mkHandle (physical_store_id h) w)
  | (None, _) => None
  end.
Definition close : test () := put (λ h, mkHandle (physical_store_id h) (shut exec_command 256 (live h))).
(** [SQLiteCatalogStore::open(&path)] on the same file *)
Definition reopen (id : string) : test (result Error ()) := λ h,
  match open_file id (file h) with
  | Ok h' => Some (Ok (), h')
  | Err e => Some (Err e, h)
  end.
(** A statement on a raw connection *)
Definition raw_sql (f : CatalogDb → CatalogDb) : test () := put (λ h,
  let w := live h in let c := store w in
  mkHandle (physical_store_id h)
    (mkWorker (closed w) (has_sender w) (queue w) (running w) (mkConn (f (committed c)) (working c) (plan c))
       (clients w) (closing w) (accepted w) (executed w))).
Definition opened (id : string) (body : test ()) : bool :=
  match open_file id empty_catalog_db with Ok h => passes body h | Err _ => false end.

(** What [CanvasDescriptor::new] and [CanvasSpace::new] give *)
Definition canvas (id session : string) (width height : Z) (layers : list string) (default_layer : string)
    : option CanvasDescriptor :=
  space ← CanvasSpace_new (f64_of_Z width) (f64_of_Z height);
  CanvasDescriptor_new (id : CanvasId) session space layers default_layer.
Definition source_page (id : string) (index width height : Z) (r : rotation) (overlay : string)
    : option DocumentPageDescriptor :=
  geometry ← PageDisplayGeometry_new (f64_of_Z width) (f64_of_Z height) (r : PageRotation);
  Some (DocumentPageDescriptor_new (id : PageId) index geometry (overlay : CanvasId)).
(** [DocumentComposition::new] *)
Definition DocumentComposition_new (d : DocumentDescriptor) (cs : list CanvasDescriptor) : option DocumentComposition :=
  check composition_ok (d, cs).
(** [fn composition]: one page of 10 by 20, turned by 90 degrees *)
Definition composition (session : string) : option DocumentComposition :=
  page ← source_page "page" 0 10 20 Deg90 "canvas";
  c ← canvas "canvas" session 10 20 ["layer"] "layer";
  d ← DocumentDescriptor_new ("document" : DocumentId) session Pdf ("asset" : AssetId) "Test" [page];
  DocumentComposition_new d [c].

Abbreviation publish_document c := (call (catalog_publish_document c)).
Abbreviation publish_standalone_canvas c := (call (catalog_publish_standalone_canvas c)).
Abbreviation get_document i := (call (catalog_get_document i)).
Abbreviation get_canvas i := (call (catalog_get_canvas i)).

Definition publishes_reopens_and_preserves_identity : bool :=
  opened "store" (
    composition ← expect_some (composition "session");
    let document := composition_document composition in
    canvas ← expect_some (head (page_canvases composition));
    physical_store_id_before ← get physical_store_id;
    first ← publish_document composition ≫= expect; assert_eq first Inserted;;
    second ← publish_document composition ≫= expect; assert_eq second Existing;;
    close;;
    _ ← reopen "other" ≫= expect;
    physical_store_id_after ← get physical_store_id;
    assert_eq physical_store_id_after physical_store_id_before;;
    loaded ← (get_document (document_document_id document) ≫= expect) ≫= expect_some;
    assert_eq (loaded : checked document_ok) document;;
    loaded ← (get_canvas (canvas_canvas_id canvas) ≫= expect) ≫= expect_some;
    assert_eq (loaded : checked canvas_ok) canvas;;
    close).
Example publishes_reopens_and_preserves_identity_passes : publishes_reopens_and_preserves_identity = true.
Proof. vm_compute. reflexivity. Qed.

Definition standalone_publish_is_idempotent_and_binding_is_stable : bool :=
  opened "store" (
    canvas ← expect_some (canvas "canvas" "session" 100 50 ["layer"] "layer");
    first ← publish_standalone_canvas canvas ≫= expect; assert_eq first Inserted;;
    second ← publish_standalone_canvas canvas ≫= expect; assert_eq second Existing;;
    let binding := mkBinding ("session" : SessionId) (canvas_canvas_id canvas) in
    _ ← call (catalog_put_bootstrap_binding "test" binding) ≫= expect;
    found ← call (catalog_get_bootstrap_binding "test") ≫= expect;
    assert_eq found (Some binding);;
    close).
Example standalone_publish_is_idempotent_and_binding_is_stable_passes :
  standalone_publish_is_idempotent_and_binding_is_stable = true.
Proof. vm_compute. reflexivity. Qed.

Definition standalone_canvas_and_binding_can_commit_atomically : bool :=
  opened "store" (
    assert (bool_decide (canvas "canvas" "session" 4 5 ["layer"] "another" = None));;
    canvas ← expect_some (canvas "canvas" "session" 4 5 ["layer"] "layer");
    let binding := mkBinding ("session" : SessionId) (canvas_canvas_id canvas) in
    outcome ← call (catalog_publish_standalone_canvas_with_binding "atomic" canvas binding) ≫= expect;
    assert_eq outcome Inserted;;
    found ← call (catalog_get_bootstrap_binding "atomic") ≫= expect; assert_eq found (Some binding);;
    loaded ← (get_canvas (canvas_canvas_id canvas) ≫= expect) ≫= expect_some;
    assert_eq (loaded : checked canvas_ok) canvas;;
    close).
Example standalone_canvas_and_binding_can_commit_atomically_passes :
  standalone_canvas_and_binding_can_commit_atomically = true.
Proof. vm_compute. reflexivity. Qed.

(** A change of a file between two runs of the store *)
Definition reopened_after (f : CatalogDb → CatalogDb) : test (result Error ()) := close;; raw_sql f;; reopen "other".
Definition is_corruption (r : result Error ()) : bool := match r with Err (Corruption _) => true | _ => false end.

Definition schema_too_new_is_rejected : bool :=
  opened "store" (
    r ← reopened_after (λ db, set_metadata (<["schema_version"%string := "99"%string]> (storage_metadata db)) db);
    assert (match r with Err (Schema _) => true | _ => false end)).
Example schema_too_new_is_rejected_passes : schema_too_new_is_rejected = true.
Proof. vm_compute. reflexivity. Qed.

(** [DELETE FROM document_pages WHERE page_index = 1] *)
Definition delete_second_page (db : CatalogDb) : CatalogDb :=
  mkCatalogDb (storage_metadata db) (documents db) (canvases db) (layers db)
    (List.filter (λ r, negb (pg_page_index r =? 1)) (document_pages_table db)) (bootstrap_bindings db).
Definition missing_trailing_page_is_rejected_on_reopen : bool :=
  opened "store" (
    first ← expect_some (source_page "page-0" 0 10 20 Deg0 "canvas-0");
    second ← expect_some (source_page "page-1" 1 30 40 Deg90 "canvas-1");
    canvas_0 ← expect_some (canvas "canvas-0" "session" 10 20 ["layer-0"] "layer-0");
    canvas_1 ← expect_some (canvas "canvas-1" "session" 30 40 ["layer-1"] "layer-1");
    document ← expect_some (DocumentDescriptor_new ("document" : DocumentId) ("session" : SessionId) Pdf
                              ("asset" : AssetId) "two pages" [first; second]);
    composition ← expect_some (DocumentComposition_new document [canvas_0; canvas_1]);
    _ ← publish_document composition ≫= expect;
    r ← reopened_after delete_second_page; assert (is_corruption r)).
Example missing_trailing_page_is_rejected_on_reopen_passes : missing_trailing_page_is_rejected_on_reopen = true.
Proof. vm_compute. reflexivity. Qed.

(** [DELETE FROM layers WHERE layer_id = ?1] *)
Definition delete_layer (layer_id : string) (db : CatalogDb) : CatalogDb :=
  mkCatalogDb (storage_metadata db) (documents db) (canvases db)
    (List.filter (λ r, negb (String.eqb (ly_layer_id r) layer_id)) (layers db))
    (document_pages_table db) (bootstrap_bindings db).
Definition missing_non_default_layer_is_rejected_on_reopen : bool :=
  opened "store" (
    descriptor ← expect_some (canvas "canvas" "session" 100 100 ["default"; "extra"] "default");
    _ ← publish_standalone_canvas descriptor ≫= expect;
    r ← reopened_after (delete_layer "extra"); assert (is_corruption r)).
Example missing_non_default_layer_is_rejected_on_reopen_passes :
  missing_non_default_layer_is_rejected_on_reopen = true.
Proof. vm_compute. reflexivity. Qed.

Definition immutable_document_conflict_does_not_overwrite_existing_graph : bool :=
  opened "store" (
    original ← expect_some (composition "session");
    let document := composition_document original in
    conflicting_document ← expect_some (DocumentDescriptor_new (document_document_id document)
      (document_session_id document) (document_type document) (source_asset_id document) "different title"
      (document_pages document));
    conflicting ← expect_some (DocumentComposition_new conflicting_document (page_canvases original));
    outcome ← publish_document original ≫= expect; assert_eq outcome Inserted;;
    outcome ← publish_document conflicting ≫= expect_err;
    assert (match outcome with Conflict => true | _ => false end);;
    loaded ← (get_document (document_document_id document) ≫= expect) ≫= expect_some;
    assert_eq (loaded : checked document_ok) document;;
    close).
Example immutable_document_conflict_does_not_overwrite_existing_graph_passes :
  immutable_document_conflict_does_not_overwrite_existing_graph = true.
Proof. vm_compute. reflexivity. Qed.
End tests.
