(* ===== verification/ServerTests.v ===== *)
(** * The unit tests of [orbitrelay-server]: values and small state machines

    The tests of [asset_delivery/range.rs], [asset_delivery/grant.rs],
    [asset_delivery/access.rs], [asset_delivery/config.rs], [lifecycle.rs],
    [error.rs], [config.rs] and [pipeline.rs], a Module per file.
    [MemoryEventStore] and [MemoryEventBus] are not part of the repository: a
    test that uses them runs over the SQLite store, behind the same port, and
    over a bus that keeps what it publishes. *)

From Stdlib Require Import SpecFloat.
From S2P Require Import Prelude Float Net Kernel Sql Http Range Grant DeliveryConfig Lifecycle.
From S2P Require Import EventStore EventReplay.
From S2P Require Import Pipeline CanvasHistory CatalogKernel Config Delivery Wire TestKit.

(** [str::contains] *)
Definition contains (text part : string) : bool := match split_once_str part text with Some _ => true | None => false end.

Module RangeTests.
#[local] Instance range_error_eq_dec : EqDecision RangeParseError.
Proof. solve_decision. Defined.

(** [parse_range(value, 10).unwrap().unwrap()] *)
Definition parsed (value : string) : script () ResolvedRange := expect (parse_range value 10) ≫= expect_some.
Definition parses_prefix_open_and_suffix_ranges : bool := passes (
  r ← parsed "bytes=0-3"; assert_eq (range_length r) 4;;
  r ← parsed "bytes=4-"; assert_eq (range_start r) 4;;
  r ← parsed "bytes=-4"; assert_eq (range_start r) 6;;
  r ← parsed "bytes=-99"; assert_eq (range_start r) 0) ().
Example parses_prefix_open_and_suffix_ranges_passes : parses_prefix_open_and_suffix_ranges = true.
Proof. vm_compute. reflexivity. Qed.

Definition distinguishes_malformed_unsatisfiable_and_multiple : bool := passes (
  e ← expect_err (parse_range "bytes=a-b" 10); assert_eq e Malformed;;
  e ← expect_err (parse_range "bytes=10-" 10); assert_eq e Unsatisfiable;;
  e ← expect_err (parse_range "bytes=0-1,2-3" 10); assert_eq e Multiple) ().
Example distinguishes_malformed_unsatisfiable_and_multiple_passes :
  distinguishes_malformed_unsatisfiable_and_multiple = true.
Proof. vm_compute. reflexivity. Qed.
End RangeTests.

Module GrantTests.
#[local] Existing Instance Demo.demo_kernel.

(** The issuer and the [TestClock] it was given *)
Record Fixture := mkFixture { issuer_of : AssetAccessGrantIssuer; clock : Z }.
Abbreviation test := (script Fixture).
Definition now (f : Fixture) : string := show_u64 (clock f).
Definition issuer (clock max_grants : Z) : Fixture := mkFixture (issuer_new 600 max_grants) clock.
(** [secret] is what [getrandom] gives; the digest is the identity. *)
Definition issue (secret : list Z) (asset : string) : test (result GrantError (string * AssetAccessGrant)) :=
  act (λ f, let '(r, i) := Grant.issue id (issuer_of f) (now f : Timestamp) (Some secret) (asset : AssetId)
                             ("actor" : ActorId) ("session" : SessionId) ("document" : DocumentId) in
            (r, mkFixture i (clock f))).
Definition validate (token asset : string) : test (result GrantError AssetAccessGrant) :=
  act (λ f, let '(r, i) := Grant.validate id (issuer_of f) (now f : Timestamp) token (asset : AssetId) in
            (r, mkFixture i (clock f))).
Definition set_clock (value : Z) : test () := put (λ f, mkFixture (issuer_of f) value).

Definition tokens_are_opaque_reusable_and_asset_bound : bool := passes (
  '(token, grant) ← issue demo_secret "asset-id" ≫= expect;
  assert_eq (str_len token) 43%nat;;
  assert (negb (contains token "asset-id"));;
  valid ← validate token "asset-id" ≫= expect; assert_eq (grant_asset_id valid : string) "asset-id";;
  r ← validate token "another" ≫= expect_err;
  assert (match r with GrantUnauthorized => true | _ => false end);;
  assert_eq (unix_timestamp (grant_expires_at grant)) 1700000600;;
  len ← get (λ f, issuer_len (issuer_of f)); assert_eq len 1) (issuer 1700000000 4).
Example tokens_are_opaque_reusable_and_asset_bound_passes : tokens_are_opaque_reusable_and_asset_bound = true.
Proof. vm_compute. reflexivity. Qed.

Definition expiry_and_capacity_are_bounded_without_full_scan_on_validation : bool := passes (
  _ ← issue demo_secret "a" ≫= expect;
  r ← issue (replicate 32 1) "b" ≫= expect_err;
  assert (match r with GrantUnavailable => true | _ => false end);;
  set_clock 1700000601;;
  issue (replicate 32 2) "c" ≫= expect) (issuer 1700000000 1).
Example expiry_and_capacity_are_bounded_without_full_scan_on_validation_passes :
  expiry_and_capacity_are_bounded_without_full_scan_on_validation = true.
Proof. vm_compute. reflexivity. Qed.
End GrantTests.

Module AccessTests.
#[local] Existing Instances Demo.demo_kernel WireDemo.wire_kernel.

(** [value[key]] *)
Definition index (key : string) (v : Value) : Value :=
  match v with Obj m => default Null (m !! key) | _ => Null end.
Definition as_str (v : Value) : option string := match v with Str s => Some s | _ => None end.

Definition descriptor_has_explicit_bearer_wire_shape : bool := passes (
  expires_at ← expect_some (from_unix_timestamp 1700000000);
  let descriptor := http_bearer (H := Demo.demo_kernel) "asset" "http://127.0.0.1:8081/assets/a" "token" expires_at in
  value ← expect_some (descriptor_to_value (H := Demo.demo_kernel) descriptor);
  assert_eq (as_str (index "delivery_kind" value)) (Some "http"%string);;
  assert_eq (as_str (index "type" (index "authorization" value))) (Some "bearer"%string);;
  assert (match authorization descriptor with Bearer _ => true end);;
  url ← expect_some (as_str (index "url" value));
  assert (negb (contains url "?token="))) ().
Example descriptor_has_explicit_bearer_wire_shape_passes : descriptor_has_explicit_bearer_wire_shape = true.
Proof. vm_compute. reflexivity. Qed.
End AccessTests.

Module DeliveryConfigTests.
(** [AssetDeliveryConfig::default().with_enabled(true).with_listen_addr(addr.parse())] *)
Definition listening (addr : string) : script () AssetDeliveryConfig :=
  addr ← expect_some (parse_socket_addr addr);
  mret (with_listen_addr addr (with_enabled true delivery_default)).

Definition loopback_port_zero_can_derive_public_url_after_bind : bool := passes (
  config ← listening "127.0.0.1:0";
  assert (is_ok (validate_delivery config));;
  assert_eq (cfg_public_base_url config) None) ().
Example loopback_port_zero_can_derive_public_url_after_bind_passes :
  loopback_port_zero_can_derive_public_url_after_bind = true.
Proof. vm_compute. reflexivity. Qed.

Definition non_loopback_bind_requires_explicit_non_unspecified_public_host : bool := passes (
  config ← listening "0.0.0.0:8081";
  assert (negb (is_ok (validate_delivery config)));;
  assert (is_ok (validate_delivery (with_public_base_url "http://192.168.1.10:8081" config)));;
  assert (negb (is_ok (validate_delivery
    (with_public_base_url "http://0.0.0.0:8081" (with_enabled true delivery_default)))));;
  assert (negb (is_ok (validate_delivery (with_public_base_url "http://localhost:not-a-port" delivery_default))));;
  assert (negb (is_ok (validate_delivery (with_public_base_url "http://localhost/prefix" delivery_default))))) ().
Example non_loopback_bind_requires_explicit_non_unspecified_public_host_passes :
  non_loopback_bind_requires_explicit_non_unspecified_public_host = true.
Proof. vm_compute. reflexivity. Qed.
End DeliveryConfigTests.

Module LifecycleTests.
Abbreviation test := (script ServerLifecycle).
Definition state_is (s : LifecycleState) : test () := l ← get lc_state; assert_eq l s.
Definition health_is (h : HealthState) : test () := l ← get lc_health; assert_eq l h.

Definition follows_the_complete_lifecycle : bool := passes (
  state_is Stopped;;
  _ ← act lifecycle_start ≫= expect; state_is Starting;;
  _ ← act lifecycle_ready ≫= expect; state_is Ready;;
  _ ← act lifecycle_begin_shutdown ≫= expect; state_is Draining;;
  _ ← act lifecycle_stop ≫= expect; state_is Stopped) lifecycle_new.
Example follows_the_complete_lifecycle_passes : follows_the_complete_lifecycle = true.
Proof. vm_compute. reflexivity. Qed.

Definition rejects_invalid_state_transitions : bool := passes (
  error ← act lifecycle_ready ≫= expect_err;
  assert_eq (from error) Stopped;; assert_eq (to error) Ready;; state_is Stopped) lifecycle_new.
Example rejects_invalid_state_transitions_passes : rejects_invalid_state_transitions = true.
Proof. vm_compute. reflexivity. Qed.

Definition exposes_health_for_each_lifecycle_state : bool := passes (
  health_is HealthStopped;;
  _ ← act lifecycle_start ≫= expect; health_is HealthStarting;;
  _ ← act lifecycle_ready ≫= expect; ready ← get is_ready; assert ready;;
  _ ← act lifecycle_begin_shutdown ≫= expect; health_is HealthStopping;;
  _ ← act lifecycle_stop ≫= expect; health_is HealthStopped;;
  h ← get lc_health; assert_ne h HealthDegraded) lifecycle_new.
Example exposes_health_for_each_lifecycle_state_passes : exposes_health_for_each_lifecycle_state = true.
Proof. vm_compute. reflexivity. Qed.

(** The test of [error.rs] *)
Definition formats_without_exposing_backend_details : bool := passes (
  assert_eq (server_error_to_string (Bootstrap "dependency initialization failed"))
    "server bootstrap failed: dependency initialization failed"%string) ().
Example formats_without_exposing_backend_details_passes : formats_without_exposing_backend_details = true.
Proof. vm_compute. reflexivity. Qed.
End LifecycleTests.

Module ConfigTests.
#[local] Existing Instances Demo.demo_kernel CatalogDemo.catalog_canvas CatalogDemo.catalog_documents
  CatalogDemo.catalog_kernel Demo.text_identifier ConfigDemo.config_kernel.
Abbreviation is_some o := (bool_decide (is_Some o)).
Abbreviation rejected c := (negb (is_ok (validate c))).

Definition default_configuration_is_valid : bool := passes (
  let config := server_default in
  _ ← expect (validate config);
  assert (negb (is_some (node_id config)));;
  assert (negb (development_mode config));;
  assert_eq (subscription_queue_capacity config) 64;;
  assert_eq (sqlite_command_queue_capacity config) DEFAULT_COMMAND_QUEUE_CAPACITY;;
  assert (negb (is_some (event_store_path config)));;
  assert_eq (history_store_scan_limit config) DEFAULT_HISTORY_STORE_SCAN_LIMIT) ().
Example default_configuration_is_valid_passes : default_configuration_is_valid = true.
Proof. vm_compute. reflexivity. Qed.

Definition rejects_zero_queue_capacity : bool := passes (
  error ← expect_err (validate (with_subscription_queue_capacity 0 server_default));
  assert (match error with Config _ => true | _ => false end);;
  assert (rejected (with_sqlite_command_queue_capacity 0 server_default))) ().
Example rejects_zero_queue_capacity_passes : rejects_zero_queue_capacity = true.
Proof. vm_compute. reflexivity. Qed.

Definition history_store_scan_limit_is_bounded : bool := passes (
  assert (rejected (with_history_store_scan_limit 0 server_default));;
  assert (rejected (with_history_store_scan_limit (MAX_HISTORY_STORE_SCAN_LIMIT + 1) server_default));;
  assert (is_ok (validate (with_history_store_scan_limit MAX_HISTORY_STORE_SCAN_LIMIT server_default)))) ().
Example history_store_scan_limit_is_bounded_passes : history_store_scan_limit_is_bounded = true.
Proof. vm_compute. reflexivity. Qed.

Definition validates_development_canvas_dimensions : bool := passes (
  assert (is_ok (validate_canvas (with_size (f64_of_Z 1920) (f64_of_Z 1080) canvas_default)));;
  assert (forallb (λ '(width, height), negb (is_ok (validate_canvas (with_size width height canvas_default))))
    [(f64_of_Z 0, f64_of_Z 100); (f64_of_Z 100, f64_of_Z (-1)); (S754_nan, f64_of_Z 100);
     (f64_of_Z 100, S754_infinity false)])) ().
Example validates_development_canvas_dimensions_passes : validates_development_canvas_dimensions = true.
Proof. vm_compute. reflexivity. Qed.

Definition development_pdf_path_is_optional_and_server_local : bool := passes (
  let config := with_development_pdf_path "fixtures/lesson.pdf" (with_development_mode true server_default) in
  assert_eq (development_pdf_path config) (Some "fixtures/lesson.pdf"%string);;
  assert_eq (development_pdf_path server_default) None) ().
Example development_pdf_path_is_optional_and_server_local_passes :
  development_pdf_path_is_optional_and_server_local = true.
Proof. vm_compute. reflexivity. Qed.

Definition persistent_store_paths_are_independent_optional_settings : bool := passes (
  let config := with_catalog_store_path "catalog.sqlite"
                  (with_asset_store_root "assets" (with_event_store_path "events.sqlite" server_default)) in
  assert_eq (event_store_path config) (Some "events.sqlite"%string);;
  assert_eq (asset_store_root config) (Some "assets"%string);;
  assert_eq (catalog_store_path config) (Some "catalog.sqlite"%string);;
  assert (is_ok (validate (without_catalog_store_path (without_asset_store_root
                             (without_event_store_path server_default)))))) ().
Example persistent_store_paths_are_independent_optional_settings_passes :
  persistent_store_paths_are_independent_optional_settings = true.
Proof. vm_compute. reflexivity. Qed.
End ConfigTests.

Module PipelineTests.
#[local] Existing Instances Demo.demo_kernel Demo.demo_laws Demo.event_eq_dec.
Abbreviation C := (conn EventDb SqliteError).
Definition new_store : C :=
  mkConn (mkEventDb (<["physical_store_id" := "store"]> (<["schema_version" := "1"]> ∅)) []) None [].

(** [fn event] *)
Definition event (id : string) : Event :=
  Event_new (Kernel := Demo.demo_kernel) id "session" "actor" "action" "test.completed" "1700000000" "{}" "{}".

Section stores_before_publishing.
#[local] Instance store_port : EventStorePort C := sqlite_port "store" "epoch".
(** The bus and the queue of its only subscription *)
#[local] Instance queue_bus : EventBus (list Event) := {| BusError := (); bus_publish e b := (Ok (), b ++ [e]) |}.

Definition stores_before_publishing : bool := passes (
  let event := event "e" in
  _ ← act (λ '(st, b), dispatch [event] st b) ≫= expect;
  stored ← (act (λ '(st, b), let '(r, st') := port_get (event_id event) st in (r, (st', b))) ≫= expect)
             ≫= expect_some;
  assert_eq (stored_event_of stored : Demo.event) event;;
  next ← get (λ s, head s.2); assert_eq (next : option Demo.event) (Some event)) (new_store, []).
Example stores_before_publishing_passes : stores_before_publishing = true.
Proof. vm_compute. reflexivity. Qed.
End stores_before_publishing.

Section storage_failure.
Abbreviation sqlite := (sqlite_port "store" "epoch").

(** [FailingStore]: the second append fails, the rest is that of the store inside. *)
Record FailingStore := mkFailing { inner : C; appends : nat }.
Definition on_inner {A} (f : C → A * C) (st : FailingStore) : A * FailingStore :=
  let '(a, c) := f (inner st) in (a, mkFailing c (appends st)).
Definition failing_append (e : Event) (st : FailingStore) : result (StorageError EventId) StoredEvent * FailingStore :=
  let st' := mkFailing (inner st) (S (appends st)) in
  if (appends st =? 1)%nat then (Err (BackendFailure "test-only storage detail"), st')
  else on_inner (port_append (EventStorePort := sqlite) e) st'.
#[local] Instance failing_port : EventStorePort FailingStore := {|
  port_append := failing_append;
  port_get id := on_inner (port_get (EventStorePort := sqlite) id);
  port_query q := on_inner (port_query (EventStorePort := sqlite) q);
  port_capture_checkpoint := on_inner (port_capture_checkpoint (EventStorePort := sqlite))
|}.
(** [CountingBus] *)
Definition counting_publish (e : Event) (publishes : nat) : result () () * nat := (Ok (), S publishes).
#[local] Instance counting_bus : EventBus nat := {| BusError := (); bus_publish := counting_publish |}.

Definition storage_failure_does_not_publish_or_leak_backend_error : bool := passes (
  let events := [event "e0"; event "e1"] in
  error ← act (λ '(st, b), dispatch events st b) ≫= expect_err;
  assert (starts_with "event persistence failed for" (pipeline_detail error));;
  assert (negb (contains (pipeline_detail error) "test-only storage detail"));;
  publishes ← get snd; assert_eq publishes 0%nat) (mkFailing new_store 0, 0%nat).
Example storage_failure_does_not_publish_or_leak_backend_error_passes :
  storage_failure_does_not_publish_or_leak_backend_error = true.
Proof. vm_compute. reflexivity. Qed.
End storage_failure.
End PipelineTests.
