(* ===== verification/CanvasTests.v ===== *)
(** * The unit tests of [orbitrelay-server]: Canvas coordination, replay and history

    The tests of [canvas.rs] and [canvas_history.rs], a Module per component.
    They run over the SQLite store, behind the port of the [MemoryEventStore]
    that the tests use, and over the concrete kernel of [Wire], in which a Canvas
    event has type [stroke] and a Payload that names its Canvas and its Stroke.
    Requests and answers are JSON objects.  Two tests are about the JSON text of
    messages of the transport crate and have no counterpart here: the size of a
    largest page, and the fixtures of the protocol. *)

From S2P Require Import Prelude Float Kernel Sql EventStore EventReplay Coordinator Canvas CanvasHistory.
From S2P Require Import Wire TestKit.

Module CoordinatorTests.
Abbreviation State := (coordinator (Scope := string)).
Abbreviation test := (script State).

(** Steps that are all possible, and a step that is not *)
Definition steps (ls : list (label (Scope := string))) : test () := λ s,
  match csteps ls s with Some s' => Some ((), s') | None => None end.
Definition blocked (l : label (Scope := string)) : test () :=
  possible ← get (λ s, bool_decide (is_Some (next_entry <$> cstep l s))); assert (negb possible).

(** [coordinator.acquire(&scope(value)).await] of task [t], without contention *)
Definition acquire (t : nat) (scope : string) : test () := steps [Acquire t scope; Lock t].
(** [drop(lease)] of the entry [o]; the last owner drops the entry. *)
Definition release (t o : nat) : test () :=
  steps [DropGuard t; DropArc t];;
  last ← get (λ s, negb (alive o s));
  if last : bool then steps [DropEntry o] else mret ().

Definition same_scope_is_serial_and_different_scopes_are_parallel : bool := passes (
  acquire 0 "a";;
  steps [Acquire 1 "a"%string];; blocked (Lock 1);;
  release 0 0;;
  (* the spawned task goes on, and its lease is dropped with its result *)
  steps [Acquire 2 "a"%string; Lock 1];; release 1 0;;
  steps [Lock 2];; release 2 0;;
  acquire 3 "x";; acquire 4 "y") new.
Example same_scope_is_serial_and_different_scopes_are_parallel_passes :
  same_scope_is_serial_and_different_scopes_are_parallel = true.
Proof. vm_compute. reflexivity. Qed.

Definition acquire_and_drop (index : nat) : test () := acquire index (show_u64 (Z.of_nat index));; release index index.
Definition stale_keys_are_pruned_and_cancellation_does_not_block_future_acquire : bool := passes (
  foldr (λ index rest, acquire_and_drop index;; rest) (mret ()) (seq 0 500);;
  empty ← get (λ s, bool_decide (map_to_list (entries s) = [])); assert empty;;
  count ← get key_count; assert_eq count 0%nat;;
  acquire 500 "cancel";;
  steps [Acquire 501 "cancel"%string; Abandon 501];;
  release 500 500;;
  acquire 502 "cancel";; release 502 501;;
  count ← get key_count; assert_eq count 0%nat) new.
Example stale_keys_are_pruned_and_cancellation_does_not_block_future_acquire_passes :
  stale_keys_are_pruned_and_cancellation_does_not_block_future_acquire = true.
Proof. vm_compute. reflexivity. Qed.

(** Entry 0 is the old one; task 0 owns the replacement, entry 1. *)
Definition replaced : State := mkCoordinator {[ "replacement" := 1%nat ]}
  {[ 0%nat := "replacement"; 1%nat := "replacement" ]} {[ 0%nat := Waiting 1 ]} 2.
Definition old_lease_cleanup_cannot_remove_a_replacement_entry : bool := passes (
  steps [DropEntry 0];;
  current ← get (λ s, entries s !! "replacement"%string) ≫= expect_some;
  live ← get (alive current); assert live;;
  assert_eq current 1%nat) replaced.
Example old_lease_cleanup_cannot_remove_a_replacement_entry_passes :
  old_lease_cleanup_cannot_remove_a_replacement_entry = true.
Proof. vm_compute. reflexivity. Qed.
End CoordinatorTests.

#[local] Existing Instances Demo.demo_kernel Demo.demo_laws Demo.event_eq_dec WireDemo.wire_kernel WireDemo.wire_canvas.
Import WireDemo.
Abbreviation C := (conn EventDb SqliteError).

(** A new store, and [append] on it *)
Definition new_store : C :=
  mkConn (mkEventDb (<["physical_store_id" := "store"]> (<["schema_version" := "1"]> ∅)) []) None [].
#[local] Instance store_port : EventStorePort C := sqlite_port "store" "epoch".
Definition append (e : Event) : script C StoredEvent := act (port_append e) ≫= expect.
(** [fn event]: an event of the Session of a test *)
Definition event (id kind payload : string) : Event :=
  Event_new (Kernel := Demo.demo_kernel) id "session" "actor" "action" kind "1700000000" payload "{}".

Module StateReaderTests.
(** [reader.load_stroke(..).await], with the fuel of [pages] queries *)
Definition load (pages : nat) : script C (result read_failure (option (list string))) :=
  act (λ st, load_stroke (λ _ st, st) pages ("session" : SessionId) ("canvas" : CanvasId) ("stroke" : StrokeId) st)
  ≫= expect_some.

Definition state_reader_replays_across_pages_and_ignores_non_canvas_events : bool := passes (
  foldr (λ i rest, _ ← append (event (show_u64 (Z.of_nat i)) "dev.echoed" "{}"); rest) (mret ()) (seq 0 101);;
  _ ← append (event "begin" "stroke" (stroke_payload "canvas" "stroke"));
  projection ← (load 2 ≫= expect) ≫= expect_some;
  assert_eq projection [stroke_payload "canvas" "stroke"]) new_store.
Example state_reader_replays_across_pages_and_ignores_non_canvas_events_passes :
  state_reader_replays_across_pages_and_ignores_non_canvas_events = true.
Proof. vm_compute. reflexivity. Qed.

Definition state_reader_rejects_corrupted_recognized_canvas_payloads : bool := passes (
  _ ← append (event "begin" "stroke" "{}");
  failure ← load 1 ≫= expect_err;
  assert (match failure with ReadError ProjectionCorrupted => true | _ => false end)) new_store.
Example state_reader_rejects_corrupted_recognized_canvas_payloads_passes :
  state_reader_rejects_corrupted_recognized_canvas_payloads = true.
Proof. vm_compute. reflexivity. Qed.
End StateReaderTests.

Module HistoryTests.
Abbreviation Page := (CanvasHistoryPageDto (H := Demo.demo_kernel)).
Abbreviation Request := (CanvasHistoryRequest (H := Demo.demo_kernel)).
#[local] Instance query_error_eq_dec : EqDecision QueryHandlerError.
Proof. solve_decision. Defined.
#[local] Instance position_eq_dec : EqDecision Demo.position.
Proof. unfold Demo.position. apply _. Defined.

(** [json!({..})] as a Payload, and [token_value] *)
Definition json (fields : list (string * Value)) : string := object_text (list_to_map fields).
Definition token_value (p : Demo.position) : Value := default Null (to_value (Serde := position_serde) p).
Definition first_request (canvas : string) : string := json [("canvas_id"%string, Str canvas)].
Definition continue_request (canvas : string) (checkpoint cursor : Demo.position) : string :=
  json [("canvas_id", Str canvas); ("checkpoint", token_value checkpoint); ("cursor", token_value cursor)]%string.
Definition event_ids (page : Page) : list string := dto_event_id (H := Demo.demo_kernel) <$> page_dto_events page.
(** The size of an encoded message: the text of its Payload with what is around it *)
Definition encoded_size (request_id query_type payload : string) : option Z :=
  Some (Z.of_nat (str_len (request_id +:+ query_type +:+ payload))).

(** *** [Fixture] *)

Definition descriptor (canvas_id session_id layer_id : string) : option CanvasDescriptor :=
  space ← CanvasSpace_new (f64_of_Z 1920) (f64_of_Z 1080);
  CanvasDescriptor_new (canvas_id : CanvasId) session_id space [layer_id : LayerId] layer_id.
(** The catalog of [Fixture::new] *)
Definition catalog : option (CanvasId → result CanvasCatalogError (option CanvasDescriptor)) :=
  first ← descriptor "canvas" "session" "layer";
  second ← descriptor "other" "session" "layer";
  match from_descriptors [first; second] with Ok m => Some (λ id, get_canvas id m) | Err _ => None end.

Section over_a_store.
Context {St : Type} `{!EventStorePort St}.
Abbreviation test := (script St).
Abbreviation Handler := (Handler (H := Demo.demo_kernel) (Actor := string)).

(** [CanvasHistoryQueryHandler::new] with the catalog of the fixture *)
Definition handler_with (authorizer : string → SessionId → string → result AuthorizationError ())
    (scan_limit max_message_bytes : Z) : test Handler :=
  catalog ← expect_some catalog;
  expect (handler_new catalog authorizer scan_limit max_message_bytes).
(** [Fixture::handler] *)
Definition handler (scan_limit max_message_bytes : Z) : test Handler :=
  handler_with (development_authorizer ("session" : SessionId)) scan_limit max_message_bytes.
(** [handler.execute(..).await] with [Fixture::request] *)
Definition execute_raw (h : Handler) (value : string) : test (result QueryHandlerError string) :=
  act (Wire.execute (H := Demo.demo_kernel) encoded_size "stroke" "appended" "completed" "cancelled" "removed"
         h "actor"%string "request"%string CANVAS_HISTORY_PAGE_QUERY_TYPE value).
(** [Fixture::execute]: the page is read back from the Payload. *)
Definition execute (h : Handler) (value : string) : test (result QueryHandlerError Page) :=
  r ← execute_raw h value;
  match r with
  | Err e => mret (Err e)
  | Ok payload =>
      mret (ok_or HandlerInternal (decode_payload (H := Demo.demo_kernel) page_of_value payload))
  end.
Definition fails_with (h : Handler) (value : string) (error : QueryHandlerError) : test () :=
  e ← execute_raw h value ≫= expect_err; assert_eq e error.
End over_a_store.

Abbreviation LIMIT := DEFAULT_HISTORY_STORE_SCAN_LIMIT.
Abbreviation MAX := (1024 * 1024).

Definition empty_history_completes_and_request_shape_is_strict : bool := passes (
  handler ← handler LIMIT MAX;
  page ← execute handler (first_request "canvas") ≫= expect;
  assert (bool_decide (page_dto_events page = []));;
  assert (page_complete page);;
  assert_eq (page_cursor page : option Demo.position) None;;
  fails_with handler (json [("canvas_id", Str "canvas"); ("checkpoint", Str "x")]%string) HandlerInvalidQuery;;
  fails_with handler (json [("canvas_id", Str "canvas"); ("cursor", Str "x")]%string) HandlerInvalidQuery;;
  fails_with handler (json [("canvas_id", Str "canvas"); ("page_size", Num (PosInt 100))]%string) HandlerInvalidQuery) new_store.
Example empty_history_completes_and_request_shape_is_strict_passes :
  empty_history_completes_and_request_shape_is_strict = true.
Proof. vm_compute. reflexivity. Qed.

Definition other_canvas_is_filtered_while_store_cursor_advances : bool := passes (
  _ ← append (event "e0" "stroke" (stroke_payload "other" "stroke-0"));
  _ ← append (event "target" "stroke" (stroke_payload "canvas" "stroke-1"));
  handler ← handler 1 MAX;
  first ← execute handler (first_request "canvas") ≫= expect;
  assert (bool_decide (page_dto_events first = []));;
  assert (negb (page_complete first));;
  cursor ← expect_some (page_cursor first);
  second ← execute handler (continue_request "canvas" (page_checkpoint first) cursor)
             ≫= expect;
  assert (page_complete second);;
  assert_eq (length (page_dto_events second)) 1%nat;;
  assert_eq (head (event_ids second)) (Some "target"%string);;
  assert_eq (page_checkpoint second : Demo.position) (page_checkpoint first)) new_store.
Example other_canvas_is_filtered_while_store_cursor_advances_passes :
  other_canvas_is_filtered_while_store_cursor_advances = true.
Proof. vm_compute. reflexivity. Qed.

Definition known_canvas_event_with_corrupted_payload_fails : bool := passes (
  _ ← append (event "e0" "stroke" "{}");
  handler ← handler LIMIT MAX;
  fails_with handler (first_request "canvas") HandlerInternal) new_store.
Example known_canvas_event_with_corrupted_payload_fails_passes :
  known_canvas_event_with_corrupted_payload_fails = true.
Proof. vm_compute. reflexivity. Qed.

Section counting_store.
Abbreviation StoreError := (StorageError EventId).
(** [CountingStore]: the number of captures; an append, a [get] or a query is
    [unreachable!], here a failure of its own. *)
Definition unreachable {A} : result StoreError A := Err (BackendFailure "unreachable").
Definition counting_capture (captures : nat) : result StoreError EventStoreCheckpoint * nat :=
  (Err (BackendUnavailable "test"), S captures).
#[local] Instance counting_port : EventStorePort nat := {|
  port_append _ n := (unreachable, n);
  port_get _ n := (unreachable, n);
  port_query _ n := (unreachable, n);
  port_capture_checkpoint := counting_capture
|}.
Definition captures_are (n : nat) : script nat () := captures ← get id; assert_eq captures n.

Definition unauthorized_request_never_captures_a_checkpoint : bool := passes (
  handler ← handler_with (development_authorizer ("another session" : SessionId)) LIMIT MAX;
  fails_with handler (first_request "canvas") HandlerUnauthorized;;
  captures_are 0) 0%nat.
Example unauthorized_request_never_captures_a_checkpoint_passes :
  unauthorized_request_never_captures_a_checkpoint = true.
Proof. vm_compute. reflexivity. Qed.

Definition authorized_backend_unavailable_maps_to_unavailable : bool := passes (
  handler ← handler LIMIT MAX;
  fails_with handler (first_request "canvas") HandlerUnavailable;;
  captures_are 1) 0%nat.
Example authorized_backend_unavailable_maps_to_unavailable_passes :
  authorized_backend_unavailable_maps_to_unavailable = true.
Proof. vm_compute. reflexivity. Qed.
End counting_store.

Definition production_authorizer_fails_closed : bool := passes (
  handler ← handler_with reject_all_authorizer LIMIT MAX;
  fails_with handler (first_request "canvas") HandlerUnauthorized) new_store.
Example production_authorizer_fails_closed_passes : production_authorizer_fails_closed = true.
Proof. vm_compute. reflexivity. Qed.

Definition unknown_canvas_is_not_found : bool := passes (
  handler ← handler LIMIT MAX;
  fails_with handler (first_request "unknown") HandlerNotFound) new_store.
Example unknown_canvas_is_not_found_passes : unknown_canvas_is_not_found = true.
Proof. vm_compute. reflexivity. Qed.

(** What the other store answers *)
Definition foreign : option (StoredEvent * EventStoreCheckpoint) :=
  let port := sqlite_port "foreign" "another epoch" in
  match port_append (EventStorePort := port) (event "e0" "completed" (stroke_payload "canvas" "stroke")) new_store with
  | (Ok record, st) =>
      match port_capture_checkpoint (EventStorePort := port) st with
      | (Ok checkpoint, _) => Some (record, checkpoint)
      | (Err _, _) => None
      end
  | (Err _, _) => None
  end.
Definition wrong_store_continuation_is_invalid_query : bool := passes (
  '(foreign_record, foreign_checkpoint) ← expect_some foreign;
  handler ← handler LIMIT MAX;
  fails_with handler
    (continue_request "canvas" foreign_checkpoint (stored_cursor foreign_record))
    HandlerInvalidQuery) new_store.
Example wrong_store_continuation_is_invalid_query_passes : wrong_store_continuation_is_invalid_query = true.
Proof. vm_compute. reflexivity. Qed.

Definition response_size_failure_returns_no_cursor : bool := passes (
  _ ← append (event "e0" "stroke" (stroke_payload "canvas" "stroke"));
  handler ← handler 1 1;
  fails_with handler (first_request "canvas") HandlerInternal) new_store.
Example response_size_failure_returns_no_cursor_passes : response_size_failure_returns_no_cursor = true.
Proof. vm_compute. reflexivity. Qed.
End HistoryTests.
