(* ===== verification/BootstrapTests.v ===== *)
(** * The unit tests of [orbitrelay-server]: the bootstrap

    The tests of [bootstrap.rs], over the SQLite stores of this development and
    the small parts of [BootstrapDemo] for the rest of the kernel.  A test runs
    the bootstrap on the files that earlier processes left, and then the
    methods of the context it returns. *)

From S2P Require Import Prelude Float Kernel Sql EventStore EventReplay EventWorker Lifecycle Canvas.
From S2P Require Import CatalogKernel Catalog CatalogSpec CatalogRefine CatalogWorker Config Ports.
From S2P Require Import AssetStore LocalAssets Bootstrap BootstrapDemo TestKit.

Section tests.
#[local] Existing Instances Demo.demo_kernel Demo.demo_laws Demo.demo_assets Demo.event_eq_dec
  CatalogDemo.catalog_canvas CatalogDemo.catalog_documents CatalogDemo.catalog_kernel
  CatalogDemo.checked_eq_dec CatalogDemo.raw_canvas_eq_dec ConfigDemo.config_kernel Demo.text_identifier.
Import BootstrapDemo.
#[local] Existing Instances demo_bootstrap memory_port store assets_port assets_opening.

(** [RecordingRegistry]: the states it was told, and the node *)
Record RecordingRegistry := mkRecording { states : list LifecycleState; node : option LifecycleState }.
Definition recording_register (s : LifecycleState) (r : RecordingRegistry) : result () () * RecordingRegistry :=
  (Ok (), mkRecording (states r ++ [s]) (Some s)).
Definition recording_unregister (r : RecordingRegistry) : result () () * RecordingRegistry :=
  (Ok (), mkRecording (states r) None).
#[local] Instance recording_registry : NodeRegistry RecordingRegistry := {|
  NodeState := LifecycleState;
  NodeStarting := Starting; NodeReady := Ready; NodeDraining := Draining; NodeOffline := Stopped;
  reg_register := recording_register;
  reg_unregister := recording_unregister;
  reg_state := node
|}.
Definition no_node : RecordingRegistry := mkRecording [] None.

Abbreviation Events := (conn EventDb SqliteError).
Abbreviation W := (World (Events := Events) (Store := Store) (Assets := Assets) (Memory := Memory)
                     (Reg := RecordingRegistry)).
Abbreviation Context := (ServerContext (Reg := RecordingRegistry)).
Abbreviation test := (script W).
(** No file has been written. *)
Definition nothing : W :=
  mkWorld (mkConn (mkEventDb ∅ []) None []) no_node (mkConn empty_catalog_db None [])
    (mkConn (AssetStore.mkWorld ∅ ∅ ∅ ∅ ∅) None []) [] [].

(** [node_registry().list()] *)
Definition registered (w : W) : list LifecycleState := option_list (node (w_registry w)).

(** [SQLiteEventStore::open_with_queue_capacity] *)
Definition open_events (path : string) (capacity : Z) (c : Events) : result () () * Events :=
  let '(r, c') := EventWorker.open_with_queue_capacity capacity true "ok" "store" "epoch" c in
  (match r with Ok _ => Ok () | Err _ => Err () end, c').
(** [files] is the directory of the PDF; [round] tells the [new()] of two
    processes apart.  The inspector refuses every file, the composer is not
    reached. *)
Definition inspect (persistent : bool) (limits : PdfInspectionLimits) (id : AssetId) (w : W)
    : result () PdfDocument * W := (Err (), w).
Definition view (p : CanvasPort) (c : ServerConfig) (id : DocumentId) (w : W) : result () () * W := (Ok (), w).
Definition inputs (round : string) (files : string → option (Z * option (list Z))) : Inputs :=
  mkInputs (H := Demo.demo_kernel) ("session" +:+ round) ("canvas" +:+ round) ("layer" +:+ round)
    ("asset" +:+ round) ("node" +:+ round) files (λ _, None).
Definition no_file (path : string) : option (Z * option (list Z)) := None.

(** [Bootstrap::new(config, ..).build()] and [build_with] of the new registry *)
Definition build (round : string) (c : ServerConfig) : test (result ServerError Context) :=
  act (initialize open_events [] (inputs round no_file) inspect view canvas_lookup c no_node).
Definition build_with (files : string → option (Z * option (list Z))) (c : ServerConfig)
    : test (result ServerError Context) :=
  act (initialize_with [] (inputs "" files) inspect view canvas_lookup c).
(** The methods of the context: the registry is shared, the rest of its state
    is its own. *)
Abbreviation server := (conn (ServerWorld (Reg := RecordingRegistry)) ServerError).
Definition on_context {A} (context : Context) (body : script server A) : test A := λ w,
  match body (mkConn (context_server context w) None []) with
  | Some (a, s) => Some (a, set_registry (registry (committed s)) w)
  | None => None
  end.
Definition shutdown (c : ServerConfig) (context : Context) : script server () :=
  act (context_shutdown (context_composition c context)) ≫= expect.
(** [registry().contains(&ActionType::new(..))] *)
Definition contains (context : Context) (action : string) : bool :=
  bool_decide (action ∈ (ctx_handlers context : list string)).

Definition initializes_context_and_registers_starting_node : bool := passes (
  context ← build "" server_default ≫= expect;
  node ← get (λ w, node (w_registry w)) ≫= expect_some;
  assert_eq node Starting;;
  assert_eq (lc_state (ctx_lifecycle context)) Starting;;
  assert_eq (lc_health (ctx_lifecycle context)) HealthStarting;;
  assert (negb (is_ready (ctx_lifecycle context)));;
  listed ← get (λ w, registered w); assert_eq (length listed) 1%nat;;
  assert (negb (contains context "unregistered.action"));;
  assert (negb (contains context "dev.echo"))) nothing.
Example initializes_context_and_registers_starting_node_passes : initializes_context_and_registers_starting_node = true.
Proof. vm_compute. reflexivity. Qed.

Definition registers_echo_handler_only_in_development_mode : bool := passes (
  context ← build "" (with_development_mode true server_default) ≫= expect;
  assert (contains context "dev.echo")) nothing.
Example registers_echo_handler_only_in_development_mode_passes : registers_echo_handler_only_in_development_mode = true.
Proof. vm_compute. reflexivity. Qed.

Definition shuts_down_and_unregisters_node : bool := passes (
  let config := server_default in
  context ← build_with no_file config ≫= expect;
  on_context context (
    _ ← act mark_ready ≫= expect;
    shutdown config context;;
    l ← get (λ s, lifecycle (committed s));
    assert_eq (lc_state l) Stopped;; assert_eq (lc_health l) HealthStopped);;
  registry ← get w_registry;
  assert_eq (states registry) [Starting; Ready; Draining; Stopped];;
  assert_eq (node registry) None) nothing.
Example shuts_down_and_unregisters_node_passes : shuts_down_and_unregisters_node = true.
Proof. vm_compute. reflexivity. Qed.

(** The file cannot be read. *)
Definition production_ignores_development_pdf_path : bool := passes (
  build "" (with_development_pdf_path "orbitrelay-path-must-not-be-read.pdf" server_default) ≫= expect) nothing.
Example production_ignores_development_pdf_path_passes : production_ignores_development_pdf_path = true.
Proof. vm_compute. reflexivity. Qed.

(** [fs::write(&path, b"not a PDF")] *)
Definition not_a_pdf (path : string) : option (Z * option (list Z)) := Some (9, Some (Http.bytes_of "not a PDF")).
Definition invalid_development_pdf_unregisters_starting_node : bool := passes (
  result ← build_with not_a_pdf
             (with_development_pdf_path "invalid.pdf" (with_development_mode true server_default));
  assert (negb (is_ok result));;
  registry ← get w_registry;
  assert_eq (states registry) [Starting; Stopped];;
  assert_eq (node registry) None) nothing.
Example invalid_development_pdf_unregisters_starting_node_passes :
  invalid_development_pdf_unregisters_starting_node = true.
Proof. vm_compute. reflexivity. Qed.

(** Calls on the event store of the context and of a later process *)
Definition on_events {A} (f : Events → A * Events) : test A :=
  act (λ w, let '(a, c) := f (w_events w) in (a, set_events c w)).
Definition initializes_and_closes_sqlite_event_store_from_config : bool := passes (
  let config := with_event_store_path "events.db" server_default in
  let event := Event_new (Kernel := Demo.demo_kernel) "event" "session" "actor" "action" "bootstrap.sqlite"
                 "1700000000" "{}" "{}" in
  context ← build "" config ≫= expect;
  _ ← on_events (port_append (EventStorePort := sqlite_port "store" "epoch") event) ≫= expect;
  on_context context (
    shutdown config context;;
    closed ← get (λ s, event_store_closed (committed s)); assert closed);;
  _ ← on_events (open_events "events.db" 256) ≫= expect;
  stored ← (on_events (port_get (EventStorePort := sqlite_port "store" "later") (event_id event)) ≫= expect)
             ≫= expect_some;
  assert_eq (stored_event_of stored : Demo.event) event) nothing.
Example initializes_and_closes_sqlite_event_store_from_config_passes :
  initializes_and_closes_sqlite_event_store_from_config = true.
Proof. vm_compute. reflexivity. Qed.

Definition persistent_development_canvas_binding_survives_reopen : bool := passes (
  let config := with_catalog_store_path "catalog.sqlite" (with_development_mode true server_default) in
  first ← build "-1" config ≫= expect;
  first_canvas ← expect_some (ctx_development_canvas first);
  on_context first (shutdown config first);;
  second ← build "-2" config ≫= expect;
  second_canvas ← expect_some (ctx_development_canvas second);
  assert_eq (second_canvas : CatalogDemo.checked CatalogDemo.canvas_ok) first_canvas;;
  on_context second (shutdown config second)) nothing.
Example persistent_development_canvas_binding_survives_reopen_passes :
  persistent_development_canvas_binding_survives_reopen = true.
Proof. vm_compute. reflexivity. Qed.

(** [SQLiteCatalogStore::open(&path)] and the publication of a Document *)
Definition on_catalog_file {A} (f : Store → A * Store) : test A :=
  act (λ w, let '(a, c) := f (w_catalog w) in (a, set_catalog c w)).
Definition persistent_catalog_missing_source_asset_blocks_bootstrap : bool := passes (
  _ ← on_catalog_file (cs_open "catalog.sqlite" 256) ≫= expect;
  _ ← on_catalog_file (cs_publish_document CatalogSample.sample_composition) ≫= expect;
  error ← build "-1" (with_catalog_store_path "catalog.sqlite" (with_development_mode true server_default))
            ≫= expect_err;
  assert (match error with
          | Bootstrap message => String.eqb message "Document references a missing published Asset"
          | _ => false
          end)) nothing.
Example persistent_catalog_missing_source_asset_blocks_bootstrap_passes :
  persistent_catalog_missing_source_asset_blocks_bootstrap = true.
Proof. vm_compute. reflexivity. Qed.
End tests.
